(* ===== verification/_CoqProject ===== *)
-Q . S2P
Prelude.v
GoFloat.v
Stat.v
Vad.v
Rate.v
RtcMonitor.v
GoText.v
Random.v
RtcConfig.v
Utils.v
Dc.v
Pion.v
World.v
Call.v
Session.v
Simulcast.v
Registry.v
Server.v
Sfu.v
Base64.v
Store.v
Auth.v
HttpAuth.v
WsServer.v
WsClient.v
MultiConn.v
Service.v
ServiceRtc.v
ClientState.v
ClientApi.v
ClientRtc.v
ClientWs.v
ClientLife.v
RtcdClient.v
EndToEnd.v
Config.v
RtcdApi.v
Listen.v
Startup.v
Metrics.v
