(* ===== verification/Prelude.v ===== *)
(** * rtcd: a model of the Mattermost real-time communication daemon

    rtcd is the media server of Mattermost Calls: clients reach it through
    WebSocket connections, it terminates their WebRTC connections and forwards
    the audio and screen tracks of each session to the other sessions of its
    call (a selective forwarding unit).  This library models the Go code under
    src/service (the daemon) and src/client (a client of Calls), and states
    what makes it correct.

    ** The program and the files that model it

    - [Prelude]: errors and results, the state monad [go] in which a panic is
      [None], its weakest preconditions [wp], Go channels as bounded queues,
      machine integers, durations, lemmas on lists.  [GoFloat] and [GoText]
      hold what the code uses of the standard library: IEEE binary64 and
      binary32 arithmetic and [strconv], [strings].
    - [Stat], [Vad]: service/rtc/stat and service/rtc/vad, the voice activity
      monitor.  [Rate]: service/rtc/rate.go, the bit-rate monitor.
    - [Random]: service/random, identifiers and secrets.  [RtcConfig]:
      service/rtc/config.go and turn.go.  [Utils]: service/rtc/utils.go, the
      address selection of net.go, client/utils.go.  [Dc]: service/rtc/dc, the
      data channel messages.
    - [Pion]: the interface to the WebRTC library, as the class [Pion] of the
      operations the server calls on an abstract library state, with the class
      [PionLaws] of the documented behaviour the proofs rely on, and a concrete
      instance [Toy]; [Env] adds the other code outside src/ (JSON, the
      MessagePack and zlib codecs, addresses, the order of [range] on maps).
    - [World]: the structs of service/rtc on one heap, so that aliasing
      through Go pointers is kept; metrics are a trace of the calls made.
    - [Call] (call.go), [Session] (session.go), [Simulcast] (simulcast.go),
      [Registry] (group.go, Server.addSession, Server.CloseSession), [Server]
      (server.go), [Sfu] (sfu.go and Server.handleNegotiations): one
      definition per function, branch for branch.  A function that runs in a
      goroutine and loops is given by one iteration and a driver over a list
      of choices.
    - [MultiConn]: service/rtc/multi_conn.go, the connection that reads and
      writes through several sockets; its readers, the calls of [ReadFrom] and
      [Close] are threads, and its buffers live on a heap of their own.
    - [Store]: service/store, as the class [Store] of a store's operations
      with the laws [StoreLaws] its clients rely on, and the instance over the
      key-value database.  [Auth]: service/auth, against the class [Store].
      [Base64] is what credentials use of the standard library; [HttpAuth]:
      service/auth.go and audit.go, the handlers over [Auth].
    - [WsServer], [WsClient]: service/ws.  Each goroutine is a thread, a value
      that says where it stands, with a step function; a run is a list of
      events that names the thread to step and what the outside answers.
    - [Service]: service/service.go and client_msg.go.  The RTC server behind
      it is the class [RtcServer] with the laws [RtcServerLaws]; the WebSocket
      server is [WsServer].  A session whose connection fails is closed by a
      goroutine of its own, and its callback runs later, as another operation.
      [ServiceRtc] shows that the detailed server of [World] ... [Sfu] is an
      instance, and states the service's invariant of the composition.
    - [RtcMonitor]: client/rtc_monitor.go, in IEEE arithmetic.  [ClientState]:
      the struct of client/client.go in its parts (signaling, lifecycle,
      media), call.go, types.go and the sending half of websocket.go, with the
      library as the class [ClientLib] over [Pion].  [ClientApi]: api.go.
      [ClientRtc]: rtc.go.  [ClientWs]: the rest of websocket.go, [Connect],
      [Close] and [close], with the reader and each [Close] as threads.
      [ClientLife]: the reachable states of those threads and their invariant.
      The subscribers of events are an argument that may call the API, and
      so may the user at any point; [SendWS] marks its requests as the user's.
    - [RtcdClient]: service/client.go, the client of the service, as threads
      over the connections of [WsClient].  [EndToEnd]: one connection with a
      client at one end and the service at the other, both systems of threads
      and the two streams of frames between them.  [Config]: the configurations of the
      daemon, its logger and both clients (service/config.go,
      service/api/config.go, logger, client/config.go, cmd/rtcd/config.go).
      [RtcdApi]: the HTTP endpoints (version.go, system.go and, from
      [HttpAuth], those of authentication), the client's calls, and the two
      put together over a transport that may lose requests and answers.
    - [Listen]: the sockets of the RTC server (createUDPConnsForAddr, initUDP,
      initTCP) with their descriptors, and stun.go; [Server.Start] takes their
      outcome.  [Startup]: service/api/server.go and mux.go, and [New] of
      service/service.go, which makes every part from the configuration.
      [Metrics]: service/perf/metrics.go, the registry behind the traces of
      metrics of the other files.

    ** Concurrency

    A section of code under one lock is one atomic action.  Where a function
    blocks or releases a lock between two sections, what other goroutines do
    there is an argument [between] (an arbitrary action, restricted by
    hypotheses where a theorem needs it), and the outcome of a [select] with
    several ready cases is chosen by an argument.  [Registry] also has small
    step threads and schedules, used to exhibit races.

    ** What the theorems show

    - Registry: adding and closing sessions refines an abstract registry of
      (group, call, session) triples and keeps the heap well-formed; closing
      takes a session out everywhere, in order.  Call: one presenter at a time;
      after a session leaves, no other sender carries its tracks and the
      gauges go down by exactly what it received.  Session: the gauge of
      outgoing tracks follows [rxTracks]; glare is resolved by ignoring the
      offer.  Sfu: who is sent which track, by level and codec, when it is
      published and when somebody joins later; a voice is forwarded exactly
      while enabled; a negotiation that fails takes the session out, which
      waits for the goroutine that does it unless that has said it is done.  Server:
      messages reach the session they name and never crash the reader; [Stop]
      waits for the sessions.
    - Rate, Vad, Simulcast: the ring buffers compute a function of the last
      samples; level changes back off.
    - RtcConfig, Utils, Dc, Random: validity is a predicate stated
      independently, parsers invert printers, identifiers determine their
      bytes.
    - Store, Auth, HttpAuth: the store and the token cache refine maps; a
      token is accepted exactly from its login to its expiry, the next login
      or the unregistration; who may register and unregister.
    - WsServer, WsClient, MultiConn: no interleaving of the goroutines closes
      or uses a closed channel; each connection's messages are one open, data,
      one close; [Close] can always complete; reads return what arrived, or
      nothing once the connection is closed.
    - Service: sessions of the RTC server have a callback, and a route unless
      they joined while an older session of their name was being closed, a
      client's messages only change its own group, messages are routed to the
      session's connection, gauges follow the connections.
    - Client: a client joins once by itself and reconnects under its first
      identity, requests are numbered, candidates wait for the remote
      description, the events of a call are those of the client's call but for
      two kinds that are not compared, a [Close] that is let
      through returns, a lost server is given up after at most eight
      connections; the API keeps the protocol's state; the monitor's loss rate
      is the ratio of lost to received packets.
    - RtcdClient: no interleaving panics as long as the callers leave a client
      that reconnects alone, [Close] returns, the delay between attempts grows
      to its maximum and stays.  RtcdApi: a call that succeeds has registered
      exactly the client it names; a registered client is accepted when it
      connects; the load of the system is published while it is finite.
    - EndToEnd: what either side is handed unpacks to messages that the other
      side sent, unchanged, in order, each at most once; the client's messages
      are lost only with a write that fails; neither side panics as long as
      upgrades are not refused.
    - Config, Startup: the defaults are valid, and the parts accept what the
      configuration's check accepts (but for the session cache); TLS is kept.
      Listen: the muxes hold exactly the sockets that are open, and opening
      them is what [Server.Start] assumes.  Metrics: recording panics
      only on a label that is not valid UTF-8, and the registry shows the
      gauges the other theorems speak of.
    - Some theorems exhibit defects: a stale presenter, an orphaned session, a
      close of the server's channels that is too early, a gauge that leaks, a
      token that outlives its client, a flush that drops messages, a drain that
      leaves half of the candidates, a [Close] that panics when the call ends
      meanwhile or waits for ever after a failed [Connect], a message type that
      crashes the service, a session that loses its route, a system that
      cannot be observed when it is fully loaded, sockets and a store that are
      left open by a start that fails.

    ** Bounds

    Recursion is structural, or has a fuel that is a length of the data and is
    proved to suffice ([Random.groups], [Rate.rate_loop]).  Integers are [Z],
    wrapped to their width where the code computes with them.

    ** Not modelled

    Logging, socket options and buffer sizes (their failures are only logged),
    handleReceiverRTCP and the client's reader of the voice sender (read and
    discard), callbacks that only log, the dialer of WebSocket connections and
    the parameters of HTTP transports and servers (a library's), profiling, the command's signals and exit. *)

From Stdlib Require Export ZArith Lia.
From stdpp Require Export base tactics option strings numbers gmap fin_maps list.

(** Go strings are Rocq strings; the notation for the empty one avoids an
    empty literal. *)
Abbreviation str0 := EmptyString (only parsing).

Create HintDb rtcd.
Create Rewrite HintDb ok.

(** ** Errors and results

    [fmt.Errorf("text")] is [EText text]; [fmt.Errorf("text: %w", err)] is
    [EWrap text err], so that [errors.Is] can walk the chain. *)
Inductive error :=
  | EText (msg : string)
  | EWrap (msg : string) (err : error).

#[export] Instance error_eq_dec : EqDecision error.
Proof. solve_decision. Defined.

(** [errors.Is(err, target)]: some error of the chain is the target. *)
Fixpoint error_is (err target : error) : bool :=
  bool_decide (err = target) ||
  match err with
  | EText _ => false
  | EWrap _ e => error_is e target
  end.

Lemma error_is_wrap msg e text : error_is (EWrap msg e) (EText text) = error_is e (EText text).
Proof. cbn [error_is]. by rewrite bool_decide_false. Qed.

(** [err.Error()]. *)
Fixpoint error_text (e : error) : string :=
  match e with EText msg => msg | EWrap msg e => msg +:+ ": " +:+ error_text e end.

Inductive result (A : Type) :=
  | Ok (a : A)
  | Err (err : error).
Arguments Ok {A} a.
Arguments Err {A} err.

#[export] Instance result_eq_dec `{EqDecision A} : EqDecision (result A).
Proof. solve_decision. Defined.

Definition is_ok {A} (r : result A) : bool :=
  match r with Ok _ => true | Err _ => false end.

(** [if err != nil { return ..., fmt.Errorf("text: %w", err) }]. *)
Definition wrap_err {A} (msg : string) (r : result A) : result A :=
  match r with Ok a => Ok a | Err e => Err (EWrap msg e) end.

#[export] Instance result_ret : MRet result := λ A a, Ok a.
#[export] Instance result_bind : MBind result := λ A B f r,
  match r with Ok a => f a | Err e => Err e end.

(** A validation step: [if bad { return fmt.Errorf(msg) }]. *)
Definition guard_err (bad : bool) (msg : string) : result unit :=
  if bad then Err (EText msg) else Ok tt.

Lemma guard_err_ok b msg : guard_err b msg = Ok tt ↔ b = false.
Proof. unfold guard_err. by destruct b. Qed.

Lemma wrap_err_ok {A} msg (r : result A) a : wrap_err msg r = Ok a ↔ r = Ok a.
Proof. by destruct r. Qed.

Lemma bind_ok {A B} (r : result A) (f : A → result B) b :
  r ≫= f = Ok b ↔ ∃ a, r = Ok a ∧ f a = Ok b.
Proof. destruct r; cbn; naive_solver. Qed.

Lemma bind_unit_ok {B} (r : result unit) (k : result B) b :
  (r ;; k) = Ok b ↔ r = Ok tt ∧ k = Ok b.
Proof. rewrite bind_ok. split; [by intros [[] ?]|intros ?; by exists tt]. Qed.

#[export] Hint Rewrite @guard_err_ok @wrap_err_ok @bind_unit_ok : ok.

(** ** The effect monad

    A computation over a shared state [S] that may panic: [None] is a Go
    panic (a nil dereference, a send on or a close of a closed channel, an
    index out of range), which crashes the process. *)
Definition go (S A : Type) : Type := S → option (A * S).

#[export] Instance go_ret {S} : MRet (go S) := λ A a s, Some (a, s).
#[export] Instance go_bind {S} : MBind (go S) := λ A B f m s,
  match m s with Some (a, s') => f a s' | None => None end.

Definition panic {S A} : go S A := λ _, None.
Definition gets {S A} (f : S → A) : go S A := λ s, Some (f s, s).
Definition modify {S} (f : S → S) : go S unit := λ s, Some (tt, f s).
Definition when {S} (b : bool) (m : go S unit) : go S unit :=
  if b then m else mret tt.

(** [for _, x := range l { f(x) }]. *)
Fixpoint go_iter {S A} (f : A → go S unit) (l : list A) : go S unit :=
  match l with
  | [] => mret tt
  | x :: l => f x ;; go_iter f l
  end.

(** Total correctness: [m] does not panic from [s] and its result and final
    state satisfy [Q]. *)
Definition wp {S A} (m : go S A) (Q : A → S → Prop) (s : S) : Prop :=
  match m s with Some (a, s') => Q a s' | None => False end.

Lemma wp_ret {S A} (a : A) (Q : A → S → Prop) s : Q a s → wp (mret a) Q s.
Proof. done. Qed.

Lemma wp_bind {S A B} (m : go S A) (f : A → go S B) Q s :
  wp m (λ a, wp (f a) Q) s → wp (m ≫= f) Q s.
Proof. unfold wp, mbind, go_bind. by destruct (m s) as [[a s']|]. Qed.

Lemma wp_gets {S A} (f : S → A) Q s : Q (f s) s → wp (gets f) Q s.
Proof. done. Qed.

Lemma wp_modify {S} (f : S → S) Q s : Q tt (f s) → wp (modify f) Q s.
Proof. done. Qed.

Lemma wp_mono {S A} (m : go S A) (Q Q' : A → S → Prop) s :
  wp m Q s → (∀ a s', Q a s' → Q' a s') → wp m Q' s.
Proof. unfold wp. destruct (m s) as [[a s']|]; auto. Qed.

Lemma wp_inv {S A} (m : go S A) Q s :
  wp m Q s ↔ ∃ a s', m s = Some (a, s') ∧ Q a s'.
Proof.
  unfold wp. destruct (m s) as [[a s']|]; [naive_solver|]. split; [done|by intros (? & ? & ? & _)].
Qed.

(** The head conditional of a computation. *)
Ltac branch := match goal with |- wp (if ?b then _ else _) _ _ => destruct b end.

(** Partial correctness: nothing is said when [m] panics. *)
Definition wlp {S A} (m : go S A) (Q : A → S → Prop) (s : S) : Prop := ∀ a s', m s = Some (a, s') → Q a s'.

Lemma wp_wlp {S A} (m : go S A) (Q : A → S → Prop) s : wp m Q s → wlp m Q s.
Proof. unfold wp, wlp. by intros H a s' E; rewrite E in H. Qed.

Lemma wlp_ret {S A} (a : A) (Q : A → S → Prop) s : Q a s → wlp (mret a) Q s.
Proof. by intros H ? ? [= <- <-]. Qed.

Lemma wlp_bind {S A B} (m : go S A) (f : A → go S B) Q s :
  wlp m (λ a, wlp (f a) Q) s → wlp (m ≫= f) Q s.
Proof.
  unfold wlp, mbind, go_bind. intros H b s'. destruct (m s) as [[a s1]|] eqn:E; [|done]. by apply H.
Qed.

Lemma wlp_mono {S A} (m : go S A) (Q Q' : A → S → Prop) s :
  wlp m Q s → (∀ a s', Q a s' → Q' a s') → wlp m Q' s.
Proof. unfold wlp. auto. Qed.

Ltac wlp_branch := match goal with |- wlp (if ?b then _ else _) _ _ => destruct b end.

(** A loop, with an invariant on the elements already visited. *)
Lemma wp_go_iter {S A} (f : A → go S unit) (l : list A) (I : list A → S → Prop) s :
  I [] s →
  (∀ pre x post s, l = pre ++ x :: post → I pre s → wp (f x) (λ _, I (pre ++ [x])) s) →
  wp (go_iter f l) (λ _, I l) s.
Proof.
  intros HI Hstep.
  enough (∀ pre post s, l = pre ++ post → I pre s → wp (go_iter f post) (λ _, I l) s) as H
    by by apply (H [] l s).
  intros pre post. revert pre. induction post as [|x post IH]; intros pre s1 Hl HIs.
  - rewrite app_nil_r in Hl. by subst.
  - cbn [go_iter]. apply wp_bind. eapply wp_mono; [by eapply Hstep|]. intros u s2 Hs2.
    apply (IH (pre ++ [x])); [by rewrite <- app_assoc|done].
Qed.

(** Sequencing with Go's early return: [x ←? m; k] runs [k] on the value of
    [m] and returns at once when [m] returned an error. *)
Definition bind_res {S A B} (m : go S (result A)) (k : A → go S (result B)) :
    go S (result B) :=
  r ← m; match r with Ok a => k a | Err e => mret (Err e) end.

Declare Scope rtcd_scope.
Delimit Scope rtcd_scope with rtcd.
Notation "x ←? y ; z" := (bind_res y (λ x, z))
  (at level 20, y at level 100, z at level 200) : rtcd_scope.
#[global] Open Scope rtcd_scope.

(** ** Buffered channels

    [select { case ch <- v: ... default: ... }] never blocks: it enqueues,
    or takes the default branch when the buffer is full, or panics when the
    channel is closed. *)
Record chan (A : Type) := Chan {
  ch_cap : nat;
  ch_buf : list A;
  ch_closed : bool;
}.
Arguments Chan {A} _ _ _.
Arguments ch_cap {A} _.
Arguments ch_buf {A} _.
Arguments ch_closed {A} _.

Inductive sent (A : Type) :=
  | Sent (ch : chan A)
  | Full
  | SendPanic.
Arguments Sent {A} ch.
Arguments Full {A}.
Arguments SendPanic {A}.

Definition make_chan {A} (cap : nat) : chan A := Chan cap [] false.

Definition try_send {A} (v : A) (ch : chan A) : sent A :=
  if ch_closed ch then SendPanic
  else if bool_decide (length (ch_buf ch) < ch_cap ch)
  then Sent (Chan (ch_cap ch) (ch_buf ch ++ [v]) false)
  else Full.

(** [close(ch)]; closing twice panics. *)
Definition close_chan {A} (ch : chan A) : option (chan A) :=
  if ch_closed ch then None else Some (Chan (ch_cap ch) (ch_buf ch) true).

(** A receive: the head of the buffer, or [inr true] when the channel is
    closed and drained, or [inr false] when the receiver has to wait. *)
Definition recv {A} (ch : chan A) : (A * chan A) + bool :=
  match ch_buf ch with
  | v :: buf => inl (v, Chan (ch_cap ch) buf (ch_closed ch))
  | [] => inr (ch_closed ch)
  end.

Lemma recv_closed {A} (ch ch' : chan A) x : recv ch = inl (x, ch') → ch_closed ch' = ch_closed ch.
Proof. unfold recv. destruct (ch_buf ch); [done|]. by intros [= _ <-]. Qed.

Lemma try_send_closed {A} (ch ch' : chan A) x : try_send x ch = Sent ch' → ch_closed ch' = ch_closed ch.
Proof. unfold try_send. destruct (ch_closed ch); [done|]. case_bool_decide; [|done]. by intros [= <-]. Qed.

(** Taking from or adding to the queue. *)
Lemma try_send_open {A} (v : A) ch :
  ch_closed ch = false → length (ch_buf ch) < ch_cap ch →
  try_send v ch = Sent (Chan (ch_cap ch) (ch_buf ch ++ [v]) false).
Proof. intros H1 H2. unfold try_send. rewrite H1. by rewrite bool_decide_true. Qed.

Lemma try_send_full {A} (v : A) ch :
  ch_closed ch = false → ch_cap ch ≤ length (ch_buf ch) → try_send v ch = Full.
Proof. intros H1 H2. unfold try_send. rewrite H1. rewrite bool_decide_false; [done | lia]. Qed.

(** ** Machine integers and time

    [int] is 64 bits wide on every platform the service is built for; a
    [time.Duration] is an [int64] number of nanoseconds and a [time.Time] is
    its distance in nanoseconds from the Unix epoch. *)
Definition wrap_int (w z : Z) : Z := ((z + 2 ^ (w - 1)) `mod` 2 ^ w - 2 ^ (w - 1))%Z.
Definition wrap_uint (w z : Z) : Z := (z `mod` 2 ^ w)%Z.
Definition min_int64 : Z := (- 2 ^ 63)%Z.
Definition max_int64 : Z := (2 ^ 63 - 1)%Z.

Definition nanosecond : Z := 1%Z.
Definition millisecond : Z := 1000000%Z.
Definition second : Z := 1000000000%Z.
Definition minute : Z := (60 * second)%Z.

(** [time.Time{}] is the first instant of year 1. *)
Definition zero_time : Z := (-62135596800 * second)%Z.

(** [t.Sub(u)] saturates at the extremes of [time.Duration]. *)
Definition time_sub (t u : Z) : Z := Z.max min_int64 (Z.min max_int64 (t - u)%Z).

Lemma wrap_int_succ z : wrap_int 64 (wrap_int 64 z + 1) = wrap_int 64 (z + 1).
Proof.
  unfold wrap_int. f_equal.
  replace ((z + 2 ^ (64 - 1)) mod 2 ^ 64 - 2 ^ (64 - 1) + 1 + 2 ^ (64 - 1))%Z
    with ((z + 2 ^ (64 - 1)) mod 2 ^ 64 + 1)%Z by lia.
  rewrite Z.add_mod_idemp_l by lia. f_equal. lia.
Qed.

Lemma wrap_int_id z : (min_int64 ≤ z ≤ max_int64)%Z → wrap_int 64 z = z.
Proof.
  unfold wrap_int, min_int64, max_int64. intros H.
  rewrite Z.mod_small; [lia |]. simpl in *. lia.
Qed.

Lemma time_sub_exact t u :
  (min_int64 ≤ t - u ≤ max_int64)%Z → time_sub t u = (t - u)%Z.
Proof. unfold time_sub. lia. Qed.

(** ** Maps

    The order in which [range] visits a map is left open by the language: it
    is any function that visits every entry once. *)
Class MapOrder := {
  range_kv : ∀ A, gmap string A → list (string * A);
  range_kv_perm : ∀ A (m : gmap string A), range_kv A m ≡ₚ map_to_list m;
}.
Arguments range_kv {_ A} _.

Lemma elem_of_range_kv `{MapOrder} {A} (m : gmap string A) k a :
  (k, a) ∈ range_kv m ↔ m !! k = Some a.
Proof. by rewrite range_kv_perm, elem_of_map_to_list. Qed.

#[program] Definition sorted_order : MapOrder := {| range_kv := λ A m, map_to_list m |}.
Next Obligation. done. Defined.

(** ** Lists *)

(** The last [n] elements of a list. *)
Definition lastn {A} (n : nat) (l : list A) : list A := drop (length l - n) l.

Lemma lastn_all {A} n (l : list A) : (length l ≤ n) → lastn n l = l.
Proof. intros H. unfold lastn. replace (length l - n) with 0 by lia. done. Qed.

Lemma lastn_snoc {A} n (l : list A) x :
  (n ≤ length l) → (0 < n) → lastn n (l ++ [x]) = tail (lastn n l) ++ [x].
Proof.
  intros H Hn. unfold lastn. rewrite length_app. cbn.
  rewrite drop_app_le by lia. f_equal.
  replace (length l + 1 - n) with (S (length l - n)) by lia.
  destruct (lookup_lt_is_Some_2 l (length l - n)) as [y Hy]; [lia|].
  by rewrite (drop_S l y (length l - n)).
Qed.

Lemma length_lastn {A} n (l : list A) : length (lastn n l) = (n `min` length l).
Proof. unfold lastn. rewrite length_drop. lia. Qed.


(** [l[i]] for an [int] index: out of range is a panic. *)
Definition go_index {A} (l : list A) (i : Z) : option A :=
  if (i <? 0)%Z then None else l !! Z.to_nat i.

Lemma go_index_nat {A} (l : list A) i : go_index l (Z.of_nat i) = l !! i.
Proof.
  unfold go_index. destruct (Z.ltb_spec (Z.of_nat i) 0); [lia|]. by rewrite Nat2Z.id.
Qed.

(** Two indices less than [n] apart fall in distinct slots of a ring. *)
Lemma mod_slots_distinct i j n : i < j < i + n → i `mod` n ≠ j `mod` n.
Proof.
  intros Hij Hmod. pose proof (Nat.div_mod_eq i n) as E1. pose proof (Nat.div_mod_eq j n) as E2.
  rewrite Hmod in E1. set (a := i `div` n) in *. set (b := j `div` n) in *.
  assert (n * b - n * a = j - i) by lia. destruct (decide (b ≤ a)); [nia|].
  assert (n * (a + 1) ≤ n * b) by nia. nia.
Qed.
