(* ===== verification/GoFloat.v ===== *)
(** * GoFloat: the floating-point arithmetic the source computes with

    [float64] and [float32] are the IEEE formats binary64 and binary32, with
    the executable specification of the Standard Library ([SpecFloat]:
    round to nearest, ties to even).  The package functions [math.Round],
    [math.Sqrt], [math.Pow(x, 2)] and the conversions between integers and
    floats are written here; the lemmas say that sums of integers whose
    partial sums stay below 2^53 are exact. *)
From Stdlib Require Import Floats.SpecFloat.
From S2P Require Import Prelude.
Local Open Scope Z_scope.

(** ** Definitions *)
Abbreviation float := spec_float (only parsing).

Definition f64_of_Z (z : Z) : float := binary_normalize 53 1024 z 0 false.
Definition f64_add (x y : float) : float := SFadd 53 1024 x y.
Definition f64_sub (x y : float) : float := SFsub 53 1024 x y.
Definition f64_mul (x y : float) : float := SFmul 53 1024 x y.
Definition f64_div (x y : float) : float := SFdiv 53 1024 x y.
Definition f64_sqrt (x : float) : float := SFsqrt 53 1024 x.

Definition f32_of_Z (z : Z) : float := binary_normalize 24 128 z 0 false.
Definition f32_mul (x y : float) : float := SFmul 24 128 x y.

(** The integer a finite float truncates to; none for a NaN or an infinity. *)
Definition float_trunc (x : float) : option Z :=
  match x with
  | S754_zero _ => Some 0
  | S754_finite s m e =>
      Some (cond_Zopp s (if 0 <=? e then Z.pos m * 2 ^ e else Z.pos m / 2 ^ (- e)))
  | _ => None
  end.

(** [math.Round]: to the nearest integer, halves away from zero. *)
Definition f64_round (x : float) : float :=
  match x with
  | S754_finite s m e =>
      if 0 <=? e then x
      else
        let q := (Z.pos m + 2 ^ (- e - 1)) / 2 ^ (- e) in
        if q =? 0 then S754_zero s else f64_of_Z (cond_Zopp s q)
  | _ => x
  end.

(** [math.Pow(x, 2)]: one multiplication of the fraction with itself. *)
Definition f64_pow2 (x : float) : float := f64_mul x x.

(** [int(x)] and [uint8(x)] of a float: the truncation when it fits.  What
    Go yields otherwise is implementation-specific: the argument [arch]. *)
Definition float_to_int (arch : float → Z) (x : float) : Z :=
  match float_trunc x with
  | Some z => if (min_int64 <=? z) && (z <=? max_int64) then z else wrap_int 64 (arch x)
  | None => wrap_int 64 (arch x)
  end.

Definition float_to_uint8 (arch : float → Z) (x : float) : Z :=
  match float_trunc x with
  | Some z => if (0 <=? z) && (z <? 256) then z else wrap_uint 8 (arch x)
  | None => wrap_uint 8 (arch x)
  end.

(** ** Integers are represented exactly *)
Lemma digits2_pos_log2 p : Z.pos (digits2_pos p) = Z.log2 (Z.pos p) + 1.
Proof.
  induction p as [p IH|p IH|]; cbn [digits2_pos].
  - rewrite Pos2Z.inj_succ, IH. rewrite (Pos2Z.inj_xI p), Z.log2_succ_double; lia.
  - rewrite Pos2Z.inj_succ, IH. rewrite (Pos2Z.inj_xO p), Z.log2_double; lia.
  - done.
Qed.

Lemma iter_xO m d : Z.pos (Pos.iter xO m d) = Z.pos m * 2 ^ Z.pos d.
Proof.
  revert m. induction d as [|d IH] using Pos.peano_ind; intros m.
  - cbn. lia.
  - rewrite Pos.iter_succ, Pos2Z.inj_xO, IH, Pos2Z.inj_succ, Z.pow_succ_r by lia. lia.
Qed.

Lemma log2_mul_pow2 m k : 0 < m → 0 ≤ k → Z.log2 (m * 2 ^ k) = Z.log2 m + k.
Proof. intros ??. rewrite Z.log2_mul_pow2; lia. Qed.

(** The mantissa of the canonical form of [m * 2^e]. *)
Definition canon_m (m : Z) : Z := m * 2 ^ (52 - Z.log2 m).
Definition canon_e (m e : Z) : Z := e - (52 - Z.log2 m).

Lemma canon_log2 m : 0 < m → Z.log2 m ≤ 52 → Z.log2 (canon_m m) = 52.
Proof. intros ??. unfold canon_m. rewrite log2_mul_pow2; lia. Qed.

Lemma canon_pos m : 0 < m → Z.log2 m ≤ 52 → 0 < canon_m m.
Proof. intros ??. unfold canon_m. apply Z.mul_pos_pos; [lia|]. apply Z.pow_pos_nonneg; lia. Qed.

(** Scaling the mantissa and the exponent against each other changes nothing. *)
Lemma canon_scale m e k :
  0 < m → 0 ≤ k → Z.log2 m + k ≤ 52 →
  canon_m (m * 2 ^ k) = canon_m m ∧ canon_e (m * 2 ^ k) (e - k) = canon_e m e.
Proof.
  intros ???. unfold canon_m, canon_e. rewrite log2_mul_pow2 by lia. split; [|lia].
  rewrite <- Z.mul_assoc, <- Z.pow_add_r by lia. do 2 f_equal. lia.
Qed.

Lemma fexp_exact d e : -1021 ≤ d + e → fexp 53 1024 (d + e) = d + e - 53.
Proof. unfold fexp, emin. lia. Qed.

(** A canonical mantissa is not shifted by a rounding. *)
Lemma shr_fexp_canon m e :
  Z.log2 (Z.pos m) = 52 → -1074 ≤ e →
  shr_fexp 53 1024 (Z.pos m) e loc_Exact = (Build_shr_record (Z.pos m) false false, e).
Proof.
  intros Hm He. unfold shr_fexp.
  replace (Zdigits2 (Z.pos m)) with 53 by (cbn; rewrite digits2_pos_log2; lia).
  rewrite fexp_exact by lia. replace (53 + e - 53 - e) with 0 by lia. done.
Qed.

Lemma binary_round_canon s m e :
  Z.log2 (Z.pos m) ≤ 52 → -1074 ≤ canon_e (Z.pos m) e ≤ 971 →
  ∃ p, binary_round 53 1024 s m e = S754_finite s p (canon_e (Z.pos m) e) ∧
       Z.pos p = canon_m (Z.pos m).
Proof.
  intros Hm He. pose proof (Z.log2_nonneg (Z.pos m)) as Hl.
  unfold binary_round. rewrite digits2_pos_log2, fexp_exact by (unfold canon_e in He; lia).
  replace (Z.log2 (Z.pos m) + 1 + e - 53) with (canon_e (Z.pos m) e)
    by (unfold canon_e; lia).
  assert (∃ p, shl_align m e (canon_e (Z.pos m) e) = (p, canon_e (Z.pos m) e) ∧
               Z.pos p = canon_m (Z.pos m)) as (p & -> & Hp).
  { unfold shl_align. destruct (canon_e (Z.pos m) e - e) as [|d|d] eqn:Hd.
    - exists m. split; [f_equal; lia|]. unfold canon_m, canon_e in *.
      replace (52 - Z.log2 (Z.pos m)) with 0 by lia. lia.
    - unfold canon_e in Hd. lia.
    - exists (Pos.iter xO m d). split; [done|]. rewrite iter_xO. unfold canon_m, canon_e in *.
      do 2 f_equal. lia. }
  exists p. split; [|done]. unfold binary_round_aux.
  assert (Z.log2 (Z.pos p) = 52) as Hp2 by (rewrite Hp; apply canon_log2; lia).
  rewrite shr_fexp_canon by lia. cbn [shr_m loc_of_shr_record round_nearest_even].
  rewrite shr_fexp_canon by lia. cbn [shr_m].
  by rewrite (proj2 (Z.leb_le _ _)) by lia.
Qed.

(** Shifting out bits that are all zero loses nothing. *)
Lemma shr_1_double m :
  0 < m → shr_1 (Build_shr_record (2 * m) false false) = Build_shr_record m false false.
Proof. by destruct m. Qed.

Lemma iter_shr_exact n m :
  0 < m →
  SpecFloat.iter_pos shr_1 n (Build_shr_record (m * 2 ^ Z.pos n) false false) =
  Build_shr_record m false false.
Proof.
  assert (∀ A (f : A → A) n x, SpecFloat.iter_pos f n x = Pos.iter f x n) as Hiter.
  { intros A f n'. induction n' as [n' IH|n' IH|]; intros x; cbn; rewrite ?IH; try done.
    by rewrite !Pos.iter_swap. }
  rewrite Hiter. revert m. induction n as [|n IH] using Pos.peano_ind; intros m Hm.
  - rewrite Z.mul_comm. by apply shr_1_double.
  - rewrite Pos.iter_succ_r, Pos2Z.inj_succ, Z.pow_succ_r, Z.mul_comm, <- Z.mul_assoc by lia.
    rewrite shr_1_double by (apply Z.mul_pos_pos; [apply Z.pow_pos_nonneg|]; lia).
    rewrite Z.mul_comm. by apply IH.
Qed.

(** Rounding a mantissa too wide for the format whose surplus bits are zero. *)
Lemma binary_round_aux_wide s m e c k :
  Z.pos m = c * 2 ^ k → 0 < c → Z.log2 c ≤ 52 → 52 < Z.log2 c + k →
  -1074 ≤ canon_e c (e + k) ≤ 971 →
  ∃ p, binary_round_aux 53 1024 s (Z.pos m) e loc_Exact = S754_finite s p (canon_e c (e + k)) ∧
       Z.pos p = canon_m c.
Proof.
  intros Hm Hc Hl Hs He. pose proof (Z.log2_nonneg c).
  assert (Z.log2 (Z.pos m) = Z.log2 c + k) as Hlm by (rewrite Hm; apply log2_mul_pow2; lia).
  destruct (Z.log2 c + k - 52) as [|pn|pn] eqn:Hn; [lia| |lia].
  assert (Z.pos m = canon_m c * 2 ^ Z.pos pn) as Hmn.
  { rewrite Hm. unfold canon_m. rewrite <- Z.mul_assoc, <- Z.pow_add_r by lia.
    do 2 f_equal. lia. }
  pose proof (canon_pos c Hc Hl) as HC. pose proof (canon_log2 c Hc Hl) as HL.
  unfold binary_round_aux. unfold shr_fexp at 1.
  replace (Zdigits2 (Z.pos m)) with (Z.log2 c + k + 1) by (cbn; rewrite digits2_pos_log2; lia).
  rewrite fexp_exact by (unfold canon_e in He; lia).
  replace (Z.log2 c + k + 1 + e - 53 - e) with (Z.pos pn) by lia.
  unfold shr, shr_record_of_loc. rewrite Hmn, iter_shr_exact by done.
  cbn [shr_m loc_of_shr_record round_nearest_even].
  destruct (canon_m c) as [|p|p] eqn:Hp; [lia| |lia].
  unfold canon_e in *. rewrite shr_fexp_canon by lia. cbn [shr_m].
  rewrite (proj2 (Z.leb_le _ _)) by lia.
  exists p. split; [|done]. f_equal. lia.
Qed.

Lemma binary_round_exact s m e c k :
  Z.pos m = c * 2 ^ k → 0 < c → 0 ≤ k → Z.log2 c ≤ 52 →
  -1074 ≤ canon_e c (e + k) ≤ 971 →
  ∃ p, binary_round 53 1024 s m e = S754_finite s p (canon_e c (e + k)) ∧
       Z.pos p = canon_m c.
Proof.
  intros Hm Hc Hk Hl He. pose proof (Z.log2_nonneg c).
  assert (Z.log2 (Z.pos m) = Z.log2 c + k) as Hlm by (rewrite Hm; apply log2_mul_pow2; lia).
  destruct (decide (Z.log2 c + k ≤ 52)) as [Hs|Hs].
  { destruct (canon_scale c (e + k) k) as [HM HE]; [lia..|].
    rewrite <- Hm in HM, HE. replace (e + k - k) with e in HE by lia.
    destruct (binary_round_canon s m e) as (p & -> & Hp); [lia..|].
    exists p. by rewrite HE, Hp, HM. }
  unfold binary_round. rewrite digits2_pos_log2, Hlm, fexp_exact by (unfold canon_e in He; lia).
  unfold shl_align. destruct (_ - e) as [|d|d] eqn:Hd; [lia| |lia].
  apply binary_round_aux_wide; [done|lia..].
Qed.

(** The magnitude below which integers are exact. *)
Definition exact_int (z : Z) : Prop := Z.abs z < 2 ^ 53.

Lemma exact_int_log2 z : z ≠ 0 → exact_int z → 0 ≤ Z.log2 (Z.abs z) ≤ 52.
Proof.
  unfold exact_int. intros Hz H. split; [apply Z.log2_nonneg|].
  apply Z.log2_lt_pow2 in H; lia.
Qed.

(** [m * 2^(-e)] with exponent [e] is the float of the integer [m]. *)
Lemma binary_normalize_scaled z k :
  exact_int z → 0 ≤ k ≤ 900 →
  binary_normalize 53 1024 (z * 2 ^ k) (- k) false = f64_of_Z z.
Proof.
  intros Hz Hk. destruct (decide (z = 0)) as [->|Hnz]; [done|].
  pose proof (exact_int_log2 z Hnz Hz) as Hl.
  assert (∀ s c m1 m2, Z.pos m1 = c * 2 ^ k → Z.pos m2 = c → Z.log2 c ≤ 52 →
    binary_round 53 1024 s m1 (- k) = binary_round 53 1024 s m2 0) as Heq.
  { intros s c m1 m2 H1 H2 H3. pose proof (Z.log2_nonneg c).
    destruct (binary_round_exact s m1 (- k) c k) as (p1 & -> & P1);
      [done|lia|lia|lia|unfold canon_e; lia|].
    destruct (binary_round_exact s m2 0 c 0) as (p2 & -> & P2);
      [lia|lia|lia|lia|unfold canon_e; lia|].
    f_equal; [|unfold canon_e; lia]. rewrite <- P2 in P1. by injection P1. }
  pose proof (Z.pow_pos_nonneg 2 k ltac:(lia) ltac:(lia)) as Hp.
  unfold f64_of_Z, binary_normalize. destruct z as [|p|p]; [done| |].
  - destruct (Z.pos p * 2 ^ k) as [|q|q] eqn:Hq; [lia| |lia].
    apply (Heq false (Z.pos p)); [lia|done|by apply Hl].
  - destruct (Z.neg p * 2 ^ k) as [|q|q] eqn:Hq; [lia|lia|].
    apply (Heq true (Z.pos p)); [lia|done|by apply Hl].
Qed.

(** The shape of the float of a small non-zero integer. *)
Lemma f64_of_Z_finite z :
  z ≠ 0 → exact_int z →
  ∃ p e, f64_of_Z z = S754_finite (z <? 0) p e ∧ -52 ≤ e ≤ 0 ∧
         ∀ t, -52 ≤ t ≤ e → cond_Zopp (z <? 0) (Z.pos (fst (shl_align p e t))) = z * 2 ^ (- t).
Proof.
  intros Hnz Hz. pose proof (exact_int_log2 z Hnz Hz) as Hl.
  assert (∀ s c, Z.log2 (Z.pos c) ≤ 52 → ∃ p e, binary_round 53 1024 s c 0 = S754_finite s p e ∧
    -52 ≤ e ≤ 0 ∧ ∀ t, -52 ≤ t ≤ e → Z.pos (fst (shl_align p e t)) = Z.pos c * 2 ^ (- t)) as Hb.
  { intros s c Hc. pose proof (Z.log2_nonneg (Z.pos c)).
    destruct (binary_round_canon s c 0) as (p & -> & Hp); [lia|unfold canon_e; lia|].
    exists p, (canon_e (Z.pos c) 0). split_and!; [done|unfold canon_e; lia..|].
    intros t Ht. unfold shl_align. destruct (t - canon_e (Z.pos c) 0) as [|d|d] eqn:Hd.
    - cbn. rewrite Hp. unfold canon_m, canon_e in *. do 2 f_equal. lia.
    - lia.
    - cbn [fst]. rewrite iter_xO, Hp. unfold canon_m, canon_e in *.
      rewrite <- Z.mul_assoc, <- Z.pow_add_r by lia. do 2 f_equal. lia. }
  destruct z as [|p|p]; [done| |].
  - destruct (Hb false p) as (q & e & H1 & H2 & H3); [by apply Hl|].
    exists q, e. split_and!; [done|lia..|]. intros t Ht. cbn [Z.ltb Z.compare cond_Zopp]. by apply H3.
  - destruct (Hb true p) as (q & e & H1 & H2 & H3); [by apply Hl|].
    exists q, e. split_and!; [done|lia..|]. intros t Ht. cbn [Z.ltb Z.compare cond_Zopp].
    rewrite H3 by done. lia.
Qed.

Lemma f64_add_exact a b :
  exact_int a → exact_int b → exact_int (a + b) →
  f64_add (f64_of_Z a) (f64_of_Z b) = f64_of_Z (a + b).
Proof.
  intros Ha Hb Hab.
  destruct (decide (a = 0)) as [->|Hna].
  { rewrite Z.add_0_l. destruct (decide (b = 0)) as [->|Hnb]; [done|].
    destruct (f64_of_Z_finite b) as (p & e & -> & _); [done..|]. done. }
  destruct (f64_of_Z_finite a) as (pa & ea & Ea & Ra & Sa); [done..|].
  destruct (decide (b = 0)) as [->|Hnb].
  { rewrite Z.add_0_r, Ea. done. }
  destruct (f64_of_Z_finite b) as (pb & eb & Eb & Rb & Sb); [done..|].
  rewrite Ea, Eb. unfold f64_add, SFadd.
  rewrite Sa, Sb by lia. rewrite <- Z.mul_add_distr_r.
  pose proof (binary_normalize_scaled (a + b) (- Z.min ea eb) Hab ltac:(lia)) as Hn.
  by rewrite Z.opp_involutive in Hn.
Qed.

Lemma f64_of_Z_opp z :
  z ≠ 0 → exact_int z → f64_of_Z (- z) = SFopp (f64_of_Z z).
Proof.
  intros Hnz Hz. pose proof (exact_int_log2 z Hnz Hz) as Hl.
  assert (∀ p s, Z.log2 (Z.pos p) ≤ 52 →
    binary_round 53 1024 (negb s) p 0 = SFopp (binary_round 53 1024 s p 0)) as Hs.
  { intros p s Hp. pose proof (Z.log2_nonneg (Z.pos p)).
    destruct (binary_round_canon s p 0) as (q1 & -> & H1); [lia|unfold canon_e; lia|].
    destruct (binary_round_canon (negb s) p 0) as (q2 & -> & H2); [lia|unfold canon_e; lia|].
    cbn. f_equal. rewrite <- H1 in H2. by injection H2. }
  destruct z as [|p|p]; [done|apply (Hs p false), Hl|apply (Hs p true), Hl].
Qed.

Lemma f64_sub_exact a b :
  exact_int a → exact_int b → exact_int (a - b) →
  f64_sub (f64_of_Z a) (f64_of_Z b) = f64_of_Z (a - b).
Proof.
  intros Ha Hb Hab.
  destruct (decide (b = 0)) as [->|Hnb].
  { rewrite Z.sub_0_r. destruct (decide (a = 0)) as [->|Hna]; [done|].
    destruct (f64_of_Z_finite a) as (p & e & -> & _); [done..|]. done. }
  destruct (f64_of_Z_finite b) as (pb & eb & Eb & Rb & Sb); [done..|].
  destruct (decide (a = 0)) as [->|Hna].
  { rewrite Z.sub_0_l, f64_of_Z_opp, Eb by done. done. }
  destruct (f64_of_Z_finite a) as (pa & ea & Ea & Ra & Sa); [done..|].
  rewrite Ea, Eb. unfold f64_sub, SFsub.
  rewrite Sa, Sb by lia. rewrite <- Z.mul_sub_distr_r.
  pose proof (binary_normalize_scaled (a - b) (- Z.min ea eb) Hab ltac:(lia)) as Hn.
  by rewrite Z.opp_involutive in Hn.
Qed.

Lemma f64_mul_exact a b :
  exact_int a → exact_int b → exact_int (a * b) →
  a ≠ 0 → b ≠ 0 →
  f64_mul (f64_of_Z a) (f64_of_Z b) = f64_of_Z (a * b).
Proof.
  intros Ha Hb Hab Hna Hnb.
  assert (∀ z, z ≠ 0 → exact_int z → ∃ p, Z.pos p = canon_m (Z.abs z) ∧
    f64_of_Z z = S754_finite (z <? 0) p (canon_e (Z.abs z) 0)) as Hc.
  { intros z Hnz Hz. pose proof (exact_int_log2 z Hnz Hz) as Hl.
    destruct z as [|q|q]; [done| |].
    - destruct (binary_round_canon false q 0) as (p & ? & ?); [apply Hl| |by exists p].
      change (Z.abs (Z.pos q)) with (Z.pos q) in Hl. unfold canon_e; lia.
    - destruct (binary_round_canon true q 0) as (p & ? & ?); [apply Hl| |by exists p].
      change (Z.abs (Z.neg q)) with (Z.pos q) in Hl. unfold canon_e; lia. }
  destruct (Hc a) as (p & Hp & ->); [done..|]. destruct (Hc b) as (q & Hq & ->); [done..|].
  destruct (Hc (a * b)) as (r & Hr & ->); [lia|done|].
  pose proof (exact_int_log2 a Hna Ha). pose proof (exact_int_log2 b Hnb Hb).
  pose proof (exact_int_log2 (a * b) ltac:(lia) Hab).
  set (ka := 52 - Z.log2 (Z.abs a)) in *. set (kb := 52 - Z.log2 (Z.abs b)) in *.
  assert (Z.pos (p * q) = Z.abs (a * b) * 2 ^ (ka + kb)) as Hpq.
  { rewrite Pos2Z.inj_mul, Hp, Hq, Z.abs_mul. unfold canon_m. fold ka kb.
    rewrite Z.pow_add_r by lia. lia. }
  assert (Z.log2 (Z.abs (a * b)) + (ka + kb) = Z.log2 (Z.pos (p * q))) as Hlog.
  { rewrite Hpq. symmetry. apply log2_mul_pow2; lia. }
  assert (104 ≤ Z.log2 (Z.pos (p * q))) as Hwide.
  { pose proof (Z.log2_mul_below (Z.pos p) (Z.pos q) ltac:(lia) ltac:(lia)) as HH.
    change (Z.pos (p * q)) with (Z.pos p * Z.pos q).
    enough (Z.log2 (Z.pos p) = 52 ∧ Z.log2 (Z.pos q) = 52) by lia.
    rewrite Hp, Hq. split; apply canon_log2; lia. }
  unfold f64_mul, SFmul.
  destruct (binary_round_aux_wide (xorb (a <? 0) (b <? 0)) (p * q)
    (canon_e (Z.abs a) 0 + canon_e (Z.abs b) 0) (Z.abs (a * b)) (ka + kb)) as (t & -> & Ht);
    [done|lia|lia|lia|unfold canon_e, ka, kb; lia|].
  f_equal.
  - destruct (Z.ltb_spec a 0), (Z.ltb_spec b 0), (Z.ltb_spec (a * b) 0); cbn; try done; nia.
  - rewrite <- Hr in Ht. by injection Ht.
  - unfold canon_e, ka, kb. lia.
Qed.

Lemma f64_pow2_exact z :
  exact_int z → exact_int (z * z) → f64_pow2 (f64_of_Z z) = f64_of_Z (z * z).
Proof.
  intros Hz Hzz. destruct (decide (z = 0)) as [->|]; [done|].
  by apply f64_mul_exact.
Qed.

(** Rounding a mantissa of exactly 53 or 54 bits, the surplus one being zero. *)
Lemma binary_round_aux_exact s m e c k :
  Z.pos m = c * 2 ^ k → 0 < c → Z.log2 c ≤ 52 → 52 ≤ Z.log2 c + k →
  -1074 ≤ canon_e c (e + k) ≤ 971 →
  ∃ p, binary_round_aux 53 1024 s (Z.pos m) e loc_Exact = S754_finite s p (canon_e c (e + k)) ∧
       Z.pos p = canon_m c.
Proof.
  intros Hm Hc Hl Hs He. destruct (decide (52 < Z.log2 c + k)) as [?|Hn];
    [by apply binary_round_aux_wide|].
  assert (k = 52 - Z.log2 c) as -> by lia.
  assert (Z.log2 (Z.pos m) = 52) as Hlm by (rewrite Hm; by apply canon_log2).
  unfold canon_e in *. unfold binary_round_aux. rewrite shr_fexp_canon by lia.
  cbn [shr_m loc_of_shr_record round_nearest_even].
  rewrite shr_fexp_canon by lia. cbn [shr_m].
  rewrite (proj2 (Z.leb_le _ _)) by lia. exists m. split; [f_equal; lia|done].
Qed.

(** Dividing a multiple is exact. *)
Lemma f64_div_exact a b :
  0 < a → 0 < b → exact_int (a * b) →
  f64_div (f64_of_Z (a * b)) (f64_of_Z b) = f64_of_Z a.
Proof.
  intros Ha Hb Hab.
  assert (exact_int a ∧ exact_int b) as [Hea Heb] by (unfold exact_int in *; nia).
  assert (∀ z, 0 < z → exact_int z → ∃ p, Z.pos p = canon_m z ∧ 0 ≤ Z.log2 z ≤ 52 ∧
    f64_of_Z z = S754_finite false p (canon_e z 0)) as Hc.
  { intros z Hz Hez. pose proof (exact_int_log2 z ltac:(lia) Hez) as Hl.
    rewrite Z.abs_eq in Hl by lia. destruct z as [|q|q]; [done| |done].
    destruct (binary_round_canon false q 0) as (p & ? & ?); [lia|unfold canon_e; lia|].
    by exists p. }
  destruct (Hc (a * b)) as (p & Hp & Hlp & ->); [lia|done|].
  destruct (Hc b) as (q & Hq & Hlq & ->); [lia|done|].
  destruct (Hc a) as (r & Hr & Hlr & ->); [lia|done|].
  set (e1 := canon_e (a * b) 0). set (e2 := canon_e b 0).
  assert (-52 ≤ e1 ≤ 0 ∧ -52 ≤ e2 ≤ 0) as [He1 He2] by (unfold e1, e2, canon_e; lia).
  assert (Z.log2 (Z.pos p) = 52) as Hp2 by (rewrite Hp; apply canon_log2; lia).
  assert (Z.log2 (Z.pos q) = 52) as Hq2 by (rewrite Hq; apply canon_log2; lia).
  unfold f64_div, SFdiv, SFdiv_core_binary, Zdigits2.
  rewrite !digits2_pos_log2, Hp2, Hq2.
  replace (52 + 1 + e1 - (52 + 1 + e2)) with (53 + (e1 - e2 - 53)) by lia.
  rewrite fexp_exact by lia.
  replace (Z.min (53 + (e1 - e2 - 53) - 53) (e1 - e2)) with (e1 - e2 - 53) by lia.
  replace (e1 - e2 - (e1 - e2 - 53)) with 53 by lia.
  set (k := 53 - e1 + e2).
  assert (Z.shiftl (Z.pos p) 53 = (a * 2 ^ k) * Z.pos q) as Hdiv.
  { rewrite Z.shiftl_mul_pow2, Hp, Hq by lia. unfold canon_m.
    replace (52 - Z.log2 (a * b)) with (- e1) by (unfold e1, canon_e; lia).
    replace (52 - Z.log2 b) with (- e2) by (unfold e2, canon_e; lia).
    assert (2 ^ k * 2 ^ (- e2) = 2 ^ (- e1) * 2 ^ 53) as Hpow.
    { rewrite <- !Z.pow_add_r by (unfold k; lia). f_equal. unfold k. lia. }
    replace (a * 2 ^ k * (b * 2 ^ (- e2))) with (a * b * (2 ^ k * 2 ^ (- e2))) by ring.
    rewrite Hpow. ring. }
  rewrite Hdiv. pose proof (Z.pow_pos_nonneg 2 k ltac:(lia) ltac:(unfold k; lia)) as Hk.
  unfold Z.div_eucl at 1. fold (Z.div_eucl (a * 2 ^ k * Z.pos q) (Z.pos q)).
  pose proof (Z.div_mul (a * 2 ^ k) (Z.pos q) ltac:(lia)) as Hdm.
  pose proof (Z.mod_mul (a * 2 ^ k) (Z.pos q) ltac:(lia)) as Hmm.
  unfold Z.div in Hdm. unfold Z.modulo in Hmm.
  destruct (Z.div_eucl _ _) as [qq rr] eqn:Hqr. subst qq rr.
  replace (new_location (Z.pos q) 0) with loc_Exact
    by (unfold new_location, new_location_even, new_location_odd; by destruct (Z.even _)).
  destruct (a * 2 ^ k) as [|m|m] eqn:Hm; [lia| |lia].
  assert (Z.log2 (Z.pos p) + 53 ≤ Z.log2 a + k + Z.log2 (Z.pos q) + 1) as Hwide.
  { rewrite <- (log2_mul_pow2 a k), Hm, <- Z.log2_shiftl, Hdiv by (unfold k; lia).
    pose proof (Z.log2_mul_above (Z.pos m) (Z.pos q) ltac:(lia) ltac:(lia)). lia. }
  destruct (binary_round_aux_exact (xorb false false) m (e1 - e2 - 53) a k) as (t & -> & Ht);
    [done|lia|lia|lia|unfold canon_e, k; lia|].
  cbn [xorb]. f_equal; [|unfold canon_e, k; lia]. rewrite <- Hr in Ht. by injection Ht.
Qed.

(** Integers survive rounding and truncation. *)
Lemma f64_shape z :
  z ≠ 0 → exact_int z → ∃ p e, f64_of_Z z = S754_finite (z <? 0) p e ∧ -52 ≤ e ≤ 0 ∧
  Z.pos p = Z.abs z * 2 ^ (- e).
Proof.
  intros Hnz Hz. destruct (f64_of_Z_finite z Hnz Hz) as (p & e & -> & He & Hs).
  exists p, e. split_and!; [done|lia..|].
  specialize (Hs e ltac:(lia)). unfold shl_align in Hs. rewrite Z.sub_diag in Hs. cbn [fst] in Hs.
  pose proof (Z.pow_pos_nonneg 2 (- e) ltac:(lia) ltac:(lia)).
  destruct (Z.ltb_spec z 0); cbn in Hs; nia.
Qed.

Lemma float_trunc_of_Z z : exact_int z → float_trunc (f64_of_Z z) = Some z.
Proof.
  intros Hz. destruct (decide (z = 0)) as [->|Hnz]; [done|].
  destruct (f64_shape z Hnz Hz) as (p & e & -> & He & Hp). unfold float_trunc. f_equal.
  pose proof (Z.pow_pos_nonneg 2 (- e) ltac:(lia) ltac:(lia)).
  assert ((if 0 <=? e then Z.pos p * 2 ^ e else Z.pos p / 2 ^ (- e)) = Z.abs z) as ->.
  { destruct (Z.leb_spec 0 e).
    - replace e with 0 in * by lia. cbn in *. lia.
    - rewrite Hp, Z.div_mul; lia. }
  unfold cond_Zopp. destruct (Z.ltb_spec z 0); lia.
Qed.

Lemma f64_round_of_Z z : exact_int z → f64_round (f64_of_Z z) = f64_of_Z z.
Proof.
  intros Hz. destruct (decide (z = 0)) as [->|Hnz]; [done|].
  destruct (f64_shape z Hnz Hz) as (p & e & Hf & He & Hp). rewrite Hf.
  unfold f64_round. destruct (Z.leb_spec 0 e); [done|].
  pose proof (Z.pow_pos_nonneg 2 (- e - 1) ltac:(lia) ltac:(lia)) as Hpow.
  assert (2 ^ (- e) = 2 * 2 ^ (- e - 1)) as Hpe.
  { rewrite <- Z.pow_succ_r by lia. f_equal. lia. }
  assert ((Z.pos p + 2 ^ (- e - 1)) / 2 ^ (- e) = Z.abs z) as ->.
  { rewrite Hp, Z.add_comm, Z.div_add by lia. rewrite Z.div_small by lia. lia. }
  destruct (Z.eqb_spec (Z.abs z) 0); [lia|]. rewrite <- Hf. f_equal.
  unfold cond_Zopp. destruct (Z.ltb_spec z 0); lia.
Qed.
