(* ===== verification/Stat.v ===== *)
(** * Stat: sample statistics (service/rtc/stat/stat.go)

    [Sum], [Avg] and [StdDev] at the element type the service uses them with,
    [uint8] (the audio levels of the voice monitor).  Samples are integers in
    [0, 256); [arch] is the value Go's conversion to [uint8] gives for a float
    that does not fit, which the language leaves to the implementation. *)
From Stdlib Require Import Floats.SpecFloat.
From S2P Require Import Prelude GoFloat.
Local Open Scope Z_scope.

(** ** Definitions *)
Definition Sum (samples : list Z) : float :=
  foldl (λ total sample, f64_add total (f64_of_Z sample)) (S754_zero false) samples.

Definition Avg (arch : float → Z) (samples : list Z) : Z :=
  if bool_decide (length samples = 0%nat) then 0
  else float_to_uint8 arch
         (f64_round (f64_div (Sum samples) (f64_of_Z (Z.of_nat (length samples))))).

Definition StdDev (arch : float → Z) (samples : list Z) (avg : Z) : Z :=
  if bool_decide (length samples = 0%nat) then 0
  else
    let total :=
      foldl (λ total sample, f64_add total (f64_pow2 (f64_sub (f64_of_Z sample) (f64_of_Z avg))))
        (S754_zero false) samples in
    (* Applying Bessel's correction as we are dealing with just a subset of samples. *)
    float_to_uint8 arch
      (f64_round (f64_sqrt (f64_div total (f64_of_Z (Z.of_nat (length samples) - 1))))).

(** ** Specification *)
Definition uint8 (z : Z) : Prop := 0 ≤ z < 256.

Definition sumZ (l : list Z) : Z := foldr Z.add 0 l.

Definition sq_dev (avg : Z) (l : list Z) : Z := sumZ ((λ s, (s - avg) * (s - avg)) <$> l).

Lemma sumZ_app l k : sumZ (l ++ k) = sumZ l + sumZ k.
Proof. unfold sumZ. induction l as [|x l IH]; cbn in *; lia. Qed.

Lemma sumZ_Permutation l k : l ≡ₚ k → sumZ l = sumZ k.
Proof. unfold sumZ. induction 1; cbn; lia. Qed.

Lemma sumZ_bound b l : Forall (λ x, 0 ≤ x ≤ b) l → 0 ≤ sumZ l ≤ b * Z.of_nat (length l).
Proof.
  unfold sumZ. induction 1 as [|x l Hx Hl IH]; [cbn; lia|].
  rewrite length_cons, Nat2Z.inj_succ. cbn. nia.
Qed.

Lemma sumZ_nonneg l : Forall (λ x, 0 ≤ x) l → 0 ≤ sumZ l.
Proof. unfold sumZ. induction 1; cbn; lia. Qed.

(** Summing exact integers in floating point, from an exact accumulator. *)
Lemma foldl_add_exact {A} (f : A → float) (g : A → Z) l acc :
  (∀ x, x ∈ l → f x = f64_of_Z (g x) ∧ 0 ≤ g x) → 0 ≤ acc →
  acc + sumZ (g <$> l) < 2 ^ 53 →
  foldl (λ total x, f64_add total (f x)) (f64_of_Z acc) l = f64_of_Z (acc + sumZ (g <$> l)).
Proof.
  revert acc. induction l as [|x l IH]; intros acc Hf Hacc Hb;
    rewrite ?fmap_nil, ?fmap_cons in *; cbn [foldl sumZ foldr] in *.
  { by rewrite Z.add_0_r. }
  assert (0 ≤ sumZ (g <$> l)) as Hnn.
  { apply sumZ_nonneg, Forall_fmap, Forall_forall. intros y Hy.
    by apply Hf, list_elem_of_further. }
  destruct (Hf x) as [-> Hx]; [apply list_elem_of_here|]. fold (sumZ (g <$> l)) in *.
  rewrite f64_add_exact by (unfold exact_int; lia).
  rewrite IH; [f_equal; lia|intros y Hy; by apply Hf, list_elem_of_further|lia|lia].
Qed.

Lemma Sum_exact samples :
  Forall uint8 samples → Z.of_nat (length samples) ≤ 2 ^ 36 →
  Sum samples = f64_of_Z (sumZ samples).
Proof.
  intros Hs Hl. unfold Sum. change (S754_zero false) with (f64_of_Z 0).
  rewrite (foldl_add_exact f64_of_Z id), list_fmap_id; [done| |lia|].
  - intros x Hx. rewrite Forall_forall in Hs. specialize (Hs x Hx). unfold uint8 in Hs.
    split; [done|unfold id; lia].
  - rewrite list_fmap_id. enough (0 ≤ sumZ samples ≤ 255 * Z.of_nat (length samples)) by lia.
    apply sumZ_bound. eapply Forall_impl; [done|]. unfold uint8. cbn. lia.
Qed.

Lemma sq_total_exact samples avg :
  Forall uint8 samples → uint8 avg → Z.of_nat (length samples) ≤ 2 ^ 36 →
  foldl (λ total sample, f64_add total (f64_pow2 (f64_sub (f64_of_Z sample) (f64_of_Z avg))))
    (S754_zero false) samples = f64_of_Z (sq_dev avg samples).
Proof.
  intros Hs Ha Hl. change (S754_zero false) with (f64_of_Z 0). unfold sq_dev.
  rewrite Forall_forall in Hs. unfold uint8 in *.
  rewrite (foldl_add_exact _ (λ s, (s - avg) * (s - avg))); [done| |lia|].
  - intros x Hx. specialize (Hs x Hx). cbn beta. split; [|apply Z.square_nonneg].
    rewrite f64_sub_exact by (unfold exact_int; lia).
    by rewrite f64_pow2_exact by (unfold exact_int; nia).
  - enough (0 ≤ sumZ ((λ s, (s - avg) * (s - avg)) <$> samples)
      ≤ 255 * 255 * Z.of_nat (length ((λ s, (s - avg) * (s - avg)) <$> samples))) as Hb
      by (rewrite length_fmap in Hb; lia).
    apply sumZ_bound. rewrite Forall_fmap, Forall_forall. intros x Hx.
    specialize (Hs x Hx). cbn. split; [apply Z.square_nonneg|nia].
Qed.

(** The statistics of a window do not depend on the order of its samples. *)
Lemma Avg_Permutation arch l k :
  Forall uint8 l → Z.of_nat (length l) ≤ 2 ^ 36 → l ≡ₚ k → Avg arch l = Avg arch k.
Proof.
  intros Hl Hn Hp. unfold Avg. rewrite <- (Permutation_length Hp).
  rewrite !Sum_exact; [|by rewrite <- Hp|by rewrite <- (Permutation_length Hp)|done|done].
  by rewrite (sumZ_Permutation l k).
Qed.

Lemma StdDev_Permutation arch l k avg :
  Forall uint8 l → uint8 avg → Z.of_nat (length l) ≤ 2 ^ 36 → l ≡ₚ k →
  StdDev arch l avg = StdDev arch k avg.
Proof.
  intros Hl Ha Hn Hp. unfold StdDev. rewrite <- (Permutation_length Hp). cbn zeta.
  rewrite !sq_total_exact;
    [|by rewrite <- Hp|done|by rewrite <- (Permutation_length Hp)|done|done|done].
  unfold sq_dev. by rewrite (sumZ_Permutation (_ <$> l) (_ <$> k)) by (by rewrite Hp).
Qed.

Lemma float_to_uint8_of_Z arch z : uint8 z → float_to_uint8 arch (f64_of_Z z) = z.
Proof.
  unfold uint8. intros Hz. unfold float_to_uint8.
  rewrite float_trunc_of_Z by (unfold exact_int; lia).
  by rewrite (proj2 (Z.leb_le 0 z)), (proj2 (Z.ltb_lt z 256)) by lia.
Qed.

(** A steady signal has its own level as average and no deviation. *)
Lemma sumZ_replicate n v : sumZ (replicate n v) = v * Z.of_nat n.
Proof. unfold sumZ. induction n; cbn in *; lia. Qed.

Lemma Avg_replicate arch n v :
  uint8 v → (0 < n)%nat → Z.of_nat n ≤ 2 ^ 36 → Avg arch (replicate n v) = v.
Proof.
  intros Hv Hn Hb. unfold Avg. rewrite length_replicate, bool_decide_false by lia.
  unfold uint8 in Hv.
  rewrite Sum_exact, sumZ_replicate by (rewrite ?length_replicate; try apply Forall_replicate; done).
  destruct (decide (v = 0)) as [->|Hnz].
  { rewrite Z.mul_0_l. destruct (f64_of_Z_finite (Z.of_nat n)) as (p & e & -> & _);
      [lia|unfold exact_int; lia|done]. }
  rewrite f64_div_exact, f64_round_of_Z by (unfold exact_int; nia).
  by apply float_to_uint8_of_Z.
Qed.

Lemma StdDev_replicate arch n v :
  uint8 v → (1 < n)%nat → Z.of_nat n ≤ 2 ^ 36 → StdDev arch (replicate n v) v = 0.
Proof.
  intros Hv Hn Hb. unfold StdDev. rewrite length_replicate, bool_decide_false by lia.
  cbn zeta. rewrite sq_total_exact by (rewrite ?length_replicate; try apply Forall_replicate; done).
  unfold sq_dev. rewrite fmap_replicate, Z.sub_diag, sumZ_replicate.
  destruct (f64_of_Z_finite (Z.of_nat n - 1)) as (p & e & -> & _);
    [lia|unfold exact_int; lia|done].
Qed.

Lemma float_to_uint8_range arch x : uint8 (float_to_uint8 arch x).
Proof.
  unfold float_to_uint8, uint8, wrap_uint.
  pose proof (Z.mod_pos_bound (arch x) (2 ^ 8) ltac:(lia)).
  destruct (float_trunc x) as [z|]; [|lia].
  destruct ((0 <=? z) && (z <? 256)) eqn:Hz; [|lia]. lia.
Qed.

Lemma Avg_range arch l : uint8 (Avg arch l).
Proof. unfold Avg. case_bool_decide; [unfold uint8; lia|apply float_to_uint8_range]. Qed.
