(* ===== verification/Vad.v ===== *)
(** * Vad: voice activity detection (service/rtc/vad/vad.go)

    A [Monitor] keeps a ring buffer of the last audio levels of a session and
    switches between silence and voice with hysteresis on their standard
    deviation.  A call of the callback [cb] is the second component of the
    step's result; time is the argument [now] ([time.Now()] in the source).
    A step yields [None] where the source would panic. *)
From Stdlib Require Import Floats.SpecFloat.
From S2P Require Import Prelude GoFloat Stat.
Local Open Scope Z_scope.

(** ** Definitions *)
Definition defaultVoiceLevelsSampleSize : Z := 50.
Definition defaultVoiceActivationThreshold : Z := 10.
Definition defaultVoiceDeactivationThreshold : Z := 4.
Definition defaultActivationDuration : Z := 2 * second.

Record MonitorConfig := {
  VoiceLevelsSampleSize : Z;
  ActivationDuration : Z;
  VoiceActivationThreshold : Z;
  VoiceDeactivationThreshold : Z;
}.

Record Monitor := {
  cfg : MonitorConfig;
  voiceLevelsSample : list Z;
  voiceLevelsSamplePtr : nat;
  lastActivationTime : Z;
  voiceState : bool;
}.

Definition default_to (v d : Z) : Z := if v =? 0 then d else v.

Definition SetDefaults (c : MonitorConfig) : MonitorConfig := {|
  VoiceLevelsSampleSize := default_to (VoiceLevelsSampleSize c) defaultVoiceLevelsSampleSize;
  ActivationDuration := default_to (ActivationDuration c) defaultActivationDuration;
  VoiceActivationThreshold :=
    default_to (VoiceActivationThreshold c) defaultVoiceActivationThreshold;
  VoiceDeactivationThreshold :=
    default_to (VoiceDeactivationThreshold c) defaultVoiceDeactivationThreshold;
|}.

Definition MonitorConfig_IsValid (c : MonitorConfig) : result unit :=
  _ ← guard_err (VoiceLevelsSampleSize c <=? 0) "VoiceLevelsSampleSize should be > 0";
  _ ← guard_err (ActivationDuration c <=? 0) "ActivationDuration should be > 0";
  _ ← guard_err (VoiceActivationThreshold c <=? 0) "VoiceActivationThreshold should be > 0";
  guard_err (VoiceDeactivationThreshold c <=? 0) "VoiceDeactivationThreshold should be > 0".

(** [has_cb] is [cb != nil]. *)
Definition NewMonitor (c : MonitorConfig) (has_cb : bool) : result Monitor :=
  _ ← wrap_err "invalid config" (MonitorConfig_IsValid c);
  _ ← guard_err (negb has_cb) "voice event callback is required";
  Ok {| cfg := c; voiceLevelsSample := []; voiceLevelsSamplePtr := 0%nat;
        lastActivationTime := zero_time; voiceState := false |}.

(** The change of state a deviation [dev] asks for, if any. *)
Definition voice_decision (m : Monitor) (dev now : Z) : Monitor * option bool :=
  if negb (voiceState m) && (VoiceActivationThreshold (cfg m) <? dev) then
    ({| cfg := cfg m; voiceLevelsSample := voiceLevelsSample m;
        voiceLevelsSamplePtr := voiceLevelsSamplePtr m;
        lastActivationTime := now; voiceState := true |}, Some true)
  else if voiceState m && (dev <? VoiceDeactivationThreshold (cfg m)) then
    if time_sub now (lastActivationTime m) <? ActivationDuration (cfg m) then (m, None)
    else
      ({| cfg := cfg m; voiceLevelsSample := voiceLevelsSample m;
          voiceLevelsSamplePtr := voiceLevelsSamplePtr m;
          lastActivationTime := lastActivationTime m; voiceState := false |}, Some false)
  else (m, None).

Definition PushAudioLevel (arch : float → Z) (level now : Z) (m : Monitor) :
    option (Monitor * option bool) :=
  if Z.of_nat (length (voiceLevelsSample m)) <? VoiceLevelsSampleSize (cfg m) then
    Some ({| cfg := cfg m; voiceLevelsSample := voiceLevelsSample m ++ [level];
             voiceLevelsSamplePtr := voiceLevelsSamplePtr m;
             lastActivationTime := lastActivationTime m; voiceState := voiceState m |}, None)
  else if bool_decide (voiceLevelsSamplePtr m < length (voiceLevelsSample m))%nat then
    let samples := <[voiceLevelsSamplePtr m := level]> (voiceLevelsSample m) in
    let ptr := if Z.of_nat (voiceLevelsSamplePtr m) =? VoiceLevelsSampleSize (cfg m) - 1
               then 0%nat else S (voiceLevelsSamplePtr m) in
    let m' := {| cfg := cfg m; voiceLevelsSample := samples; voiceLevelsSamplePtr := ptr;
                 lastActivationTime := lastActivationTime m; voiceState := voiceState m |} in
    Some (voice_decision m' (StdDev arch samples (Avg arch samples)) now)
  else None.

Definition Reset (m : Monitor) : Monitor * option bool :=
  ({| cfg := cfg m; voiceLevelsSample := []; voiceLevelsSamplePtr := 0%nat;
      lastActivationTime := zero_time; voiceState := false |}, Some false).

(** A history of calls, and the callbacks it makes with their times. *)
Inductive vad_op :=
  | OpPush (level now : Z)
  | OpReset (now : Z).

Definition vad_step (arch : float → Z) (op : vad_op) (m : Monitor) :
    option (Monitor * option bool) :=
  match op with
  | OpPush level now => PushAudioLevel arch level now m
  | OpReset _ => Some (Reset m)
  end.

Definition op_time (op : vad_op) : Z :=
  match op with OpPush _ now => now | OpReset now => now end.

Record vad_event := { ev_voice : bool; ev_reset : bool; ev_time : Z }.

Definition is_reset (op : vad_op) : bool :=
  match op with OpPush _ _ => false | OpReset _ => true end.

Fixpoint vad_run (arch : float → Z) (ops : list vad_op) (m : Monitor) :
    option (Monitor * list vad_event) :=
  match ops with
  | [] => Some (m, [])
  | op :: ops =>
      '(m', ev) ← vad_step arch op m;
      '(m'', evs) ← vad_run arch ops m';
      Some (m'', match ev with
                 | Some b => Build_vad_event b (is_reset op) (op_time op) :: evs
                 | None => evs
                 end)
  end.

(** ** Invariant *)
Record vad_wf (m : Monitor) : Prop := {
  wf_cfg : MonitorConfig_IsValid (cfg m) = Ok tt;
  wf_len : Z.of_nat (length (voiceLevelsSample m)) ≤ VoiceLevelsSampleSize (cfg m);
  wf_ptr : Z.of_nat (voiceLevelsSamplePtr m) < VoiceLevelsSampleSize (cfg m);
  wf_filling : Z.of_nat (length (voiceLevelsSample m)) < VoiceLevelsSampleSize (cfg m) →
               voiceLevelsSamplePtr m = 0%nat;
}.

Lemma MonitorConfig_IsValid_iff c :
  MonitorConfig_IsValid c = Ok tt ↔
  0 < VoiceLevelsSampleSize c ∧ 0 < ActivationDuration c ∧
  0 < VoiceActivationThreshold c ∧ 0 < VoiceDeactivationThreshold c.
Proof.
  unfold MonitorConfig_IsValid, guard_err, mbind, result_bind.
  destruct (Z.leb_spec (VoiceLevelsSampleSize c) 0); [split; [done|lia]|].
  destruct (Z.leb_spec (ActivationDuration c) 0); [split; [done|lia]|].
  destruct (Z.leb_spec (VoiceActivationThreshold c) 0); [split; [done|lia]|].
  destruct (Z.leb_spec (VoiceDeactivationThreshold c) 0); [split; [done|lia]|].
  split; [lia|done].
Qed.

Lemma NewMonitor_inv c b m :
  NewMonitor c b = Ok m →
  b = true ∧ MonitorConfig_IsValid c = Ok tt ∧
  m = {| cfg := c; voiceLevelsSample := []; voiceLevelsSamplePtr := 0%nat;
         lastActivationTime := zero_time; voiceState := false |}.
Proof.
  unfold NewMonitor, wrap_err, guard_err, mbind, result_bind.
  destruct (MonitorConfig_IsValid c) as [[]|] eqn:Hc; [|done].
  destruct b; [|done]. cbn. intros [= <-]. done.
Qed.

Lemma NewMonitor_wf c b m : NewMonitor c b = Ok m → vad_wf m.
Proof.
  intros (_ & Hc & ->)%NewMonitor_inv. pose proof (proj1 (MonitorConfig_IsValid_iff c) Hc).
  split; cbn; [done|lia..].
Qed.

Lemma Reset_wf m : vad_wf m → vad_wf (fst (Reset m)).
Proof.
  intros [Hc _ _ _]. pose proof (proj1 (MonitorConfig_IsValid_iff _) Hc).
  split; cbn; [done|lia..].
Qed.

(** What a decision changes: the state and the activation time, together. *)
Lemma voice_decision_spec m dev now m' ev :
  voice_decision m dev now = (m', ev) →
  cfg m' = cfg m ∧ voiceLevelsSample m' = voiceLevelsSample m ∧
  voiceLevelsSamplePtr m' = voiceLevelsSamplePtr m ∧
  match ev with
  | Some true => voiceState m = false ∧ voiceState m' = true ∧ lastActivationTime m' = now ∧
                 VoiceActivationThreshold (cfg m) < dev
  | Some false => voiceState m = true ∧ voiceState m' = false ∧
                  lastActivationTime m' = lastActivationTime m ∧
                  dev < VoiceDeactivationThreshold (cfg m) ∧
                  ActivationDuration (cfg m) ≤ time_sub now (lastActivationTime m)
  | None => m' = m
  end.
Proof.
  unfold voice_decision. destruct (voiceState m) eqn:Hv; cbn.
  - destruct (Z.ltb_spec dev (VoiceDeactivationThreshold (cfg m))); [|by intros [= <- <-]].
    destruct (Z.ltb_spec (time_sub now (lastActivationTime m)) (ActivationDuration (cfg m)));
      intros [= <- <-]; [done|]. done.
  - destruct (Z.ltb_spec (VoiceActivationThreshold (cfg m)) dev); by intros [= <- <-].
Qed.

(** From a well-formed monitor a push never panics; the two cases are filling
    the buffer, and replacing its oldest sample. *)
Lemma PushAudioLevel_cases arch level now m :
  vad_wf m →
  (Z.of_nat (length (voiceLevelsSample m)) < VoiceLevelsSampleSize (cfg m) ∧
   PushAudioLevel arch level now m =
     Some ({| cfg := cfg m; voiceLevelsSample := voiceLevelsSample m ++ [level];
              voiceLevelsSamplePtr := 0%nat;
              lastActivationTime := lastActivationTime m; voiceState := voiceState m |}, None)) ∨
  (∃ ptr samples,
    Z.of_nat (length (voiceLevelsSample m)) = VoiceLevelsSampleSize (cfg m) ∧
    samples = <[voiceLevelsSamplePtr m := level]> (voiceLevelsSample m) ∧
    (Z.of_nat ptr < VoiceLevelsSampleSize (cfg m)) ∧
    (ptr = S (voiceLevelsSamplePtr m) ∨
     ptr = 0%nat ∧ length (voiceLevelsSample m) = S (voiceLevelsSamplePtr m)) ∧
    PushAudioLevel arch level now m =
      Some (voice_decision {| cfg := cfg m; voiceLevelsSample := samples;
              voiceLevelsSamplePtr := ptr; lastActivationTime := lastActivationTime m;
              voiceState := voiceState m |} (StdDev arch samples (Avg arch samples)) now)).
Proof.
  intros [_ Hlen Hptr Hfill]. unfold PushAudioLevel.
  destruct (Z.ltb_spec (Z.of_nat (length (voiceLevelsSample m))) (VoiceLevelsSampleSize (cfg m)))
    as [Hlt|Hge].
  { left. split; [done|]. by rewrite Hfill. }
  right. rewrite bool_decide_true by lia. eexists _, _.
  split_and!; [lia|reflexivity| | |reflexivity];
    destruct (Z.eqb_spec (Z.of_nat (voiceLevelsSamplePtr m)) (VoiceLevelsSampleSize (cfg m) - 1)).
  all: lia.
Qed.

Lemma PushAudioLevel_wf arch level now m :
  vad_wf m → ∃ m' ev, PushAudioLevel arch level now m = Some (m', ev) ∧ vad_wf m' ∧ cfg m' = cfg m.
Proof.
  intros Hm. pose proof Hm as [Hc Hlen Hptr Hfill].
  destruct (PushAudioLevel_cases arch level now m Hm) as
    [(Hlt & ->)|(ptr & samples & Hfull & -> & Hp & Hn & ->)].
  - eexists _, _. split_and!; [done| |done]. split; cbn; [done| |lia|done].
    rewrite length_app; cbn; lia.
  - destruct (voice_decision _ _ _) as [m' ev] eqn:Hd.
    apply voice_decision_spec in Hd as (E1 & E2 & E3 & _). cbn in *.
    eexists _, _. split_and!; [done| |done].
    split; rewrite ?E1, ?E2, ?E3, ?length_insert; [done|lia..].
Qed.

Lemma vad_step_wf arch op m :
  vad_wf m → ∃ m' ev, vad_step arch op m = Some (m', ev) ∧ vad_wf m' ∧ cfg m' = cfg m.
Proof.
  intros Hm. destruct op; cbn; [by apply PushAudioLevel_wf|].
  eexists _, _. split_and!; [done|by apply (Reset_wf m)|done].
Qed.

#[export] Hint Resolve NewMonitor_wf Reset_wf : rtcd.

(** ** The events of a history *)

(** What a client sees: [st] is the time of the activation in force, if any.
    An activation comes only from silence; a deactivation that is not a reset
    ends an activation in force, at least [dur] after it began. *)
Fixpoint vad_trace_ok (dur : Z) (st : option Z) (evs : list vad_event) : Prop :=
  match evs with
  | [] => True
  | e :: evs =>
      if ev_voice e then
        ev_reset e = false ∧ st = None ∧ vad_trace_ok dur (Some (ev_time e)) evs
      else
        (ev_reset e = true ∨ ∃ t, st = Some t ∧ dur ≤ time_sub (ev_time e) t) ∧
        vad_trace_ok dur None evs
  end.

Definition in_force (m : Monitor) : option Z :=
  if voiceState m then Some (lastActivationTime m) else None.

Lemma vad_step_trace arch op m m' ev evs :
  vad_step arch op m = Some (m', ev) → cfg m' = cfg m →
  vad_trace_ok (ActivationDuration (cfg m)) (in_force m') evs →
  vad_trace_ok (ActivationDuration (cfg m)) (in_force m)
    match ev with
    | Some b => Build_vad_event b (is_reset op) (op_time op) :: evs
    | None => evs
    end.
Proof.
  unfold in_force. destruct op as [level now|now]; cbn.
  - unfold PushAudioLevel. case_match; [by intros [= <- <-]|].
    case_bool_decide; [|done]. intros [= Hd] _.
    apply voice_decision_spec in Hd as (_ & _ & _ & Hev).
    destruct ev as [[]|]; cbn in *.
    + destruct Hev as (-> & -> & -> & _). done.
    + destruct Hev as (-> & -> & _ & _ & Hdur). intros Htr. split; [|done]. right. eauto.
    + subst m'. done.
  - intros [= <- <-] _. cbn. auto.
Qed.

Lemma vad_run_trace arch ops m :
  vad_wf m → ∃ m' evs, vad_run arch ops m = Some (m', evs) ∧ vad_wf m' ∧
    vad_trace_ok (ActivationDuration (cfg m)) (in_force m) evs.
Proof.
  revert m. induction ops as [|op ops IH]; intros m Hm; [by eexists _, _|].
  destruct (vad_step_wf arch op m Hm) as (m1 & ev & Hs & Hm1 & Hc).
  destruct (IH m1 Hm1) as (m' & evs & Hr & Hm' & Htr).
  cbn. rewrite Hs. cbn. rewrite Hr. cbn. eexists _, _. split_and!; [done|done|].
  rewrite Hc in Htr. by eapply vad_step_trace.
Qed.

(** ** The sliding window *)
Definition window (m : Monitor) : list Z :=
  drop (voiceLevelsSamplePtr m) (voiceLevelsSample m) ++
  take (voiceLevelsSamplePtr m) (voiceLevelsSample m).

(** Overwriting the oldest slot and advancing the pointer drops the oldest
    element of the window and appends the new one. *)
Lemma ring_overwrite (s : list Z) p p' x :
  (p < length s)%nat → (p' = S p ∨ p' = 0%nat ∧ length s = S p) →
  drop p' (<[p:=x]> s) ++ take p' (<[p:=x]> s) = tail (drop p s ++ take p s) ++ [x].
Proof.
  intros Hp Hp'. destruct (lookup_lt_is_Some_2 s p Hp) as [y Hy].
  rewrite (drop_S s y p) by done. rewrite insert_take_drop by done. cbn [app tail].
  assert (length (take p s) = p) as Hlt by (rewrite length_take; lia).
  destruct Hp' as [->|[-> Hlen]].
  - rewrite drop_app_ge, take_app_ge by lia. rewrite Hlt.
    replace (S p - p)%nat with 1%nat by lia. cbn. by rewrite take_0, app_assoc.
  - by rewrite (drop_ge s), drop_0, take_0, app_nil_r by lia.
Qed.

Lemma window_push arch level now m m' ev :
  vad_wf m → PushAudioLevel arch level now m = Some (m', ev) →
  window m' = if Z.of_nat (length (voiceLevelsSample m)) <? VoiceLevelsSampleSize (cfg m)
              then window m ++ [level] else tail (window m) ++ [level].
Proof.
  intros Hm Hpush. pose proof Hm as [_ Hlen Hptr Hfill].
  destruct (PushAudioLevel_cases arch level now m Hm) as
    [(Hlt & Heq)|(ptr & samples & Hfull & -> & Hp & Hn & Heq)];
    rewrite Heq in Hpush; simplify_eq.
  - rewrite (proj2 (Z.ltb_lt _ _)) by done. unfold window. cbn.
    by rewrite (Hfill Hlt), !drop_0, !take_0, !app_nil_r.
  - rewrite (proj2 (Z.ltb_ge _ _)) by lia.
    apply voice_decision_spec in Hpush as (_ & Hs & Hpt & _). cbn in *.
    unfold window. rewrite Hs, Hpt. apply ring_overwrite; [lia|done].
Qed.

Lemma window_length m : length (window m) = length (voiceLevelsSample m).
Proof. unfold window. rewrite length_app, length_drop, length_take. lia. Qed.

Lemma window_Permutation m : voiceLevelsSample m ≡ₚ window m.
Proof.
  unfold window.
  by rewrite (Permutation_app_comm (drop _ _)), take_drop.
Qed.

Definition pushes (levels : list (Z * Z)) : list vad_op :=
  (λ p, OpPush (fst p) (snd p)) <$> levels.

Lemma vad_run_window arch levels m m' evs past :
  vad_wf m → window m = lastn (Z.to_nat (VoiceLevelsSampleSize (cfg m))) past →
  vad_run arch (pushes levels) m = Some (m', evs) →
  vad_wf m' ∧ cfg m' = cfg m ∧
  window m' = lastn (Z.to_nat (VoiceLevelsSampleSize (cfg m))) (past ++ (fst <$> levels)).
Proof.
  revert m evs past. induction levels as [|[level now] levels IH]; intros m evs past Hm Hw Hr.
  { cbn in Hr. simplify_eq. by rewrite app_nil_r. }
  change (pushes ((level, now) :: levels)) with (OpPush level now :: pushes levels) in Hr.
  apply bind_Some in Hr as ([m1 ev] & Hp & Hr).
  apply bind_Some in Hr as ([m2 evs2] & Hr2 & Hr). simplify_eq.
  change (PushAudioLevel arch level now m = Some (m1, ev)) in Hp.
  destruct (PushAudioLevel_wf arch level now m Hm) as (m1' & ev' & Hp' & Hm1 & Hc).
  rewrite Hp in Hp'. simplify_eq.
  pose proof (proj1 (MonitorConfig_IsValid_iff _) (wf_cfg m Hm)) as [HN _].
  apply (f_equal length) in Hw as Hwl. rewrite window_length, length_lastn in Hwl.
  destruct (IH m1' evs2 (past ++ [level])) as (H1 & H2 & H3); [done| |done|].
  - rewrite (window_push _ _ _ _ _ _ Hm Hp), Hc, Hw.
    destruct (Z.ltb_spec (Z.of_nat (length (voiceLevelsSample m))) (VoiceLevelsSampleSize (cfg m))).
    + rewrite !lastn_all; [done| |]; rewrite ?length_app; cbn; lia.
    + rewrite lastn_snoc; [done|lia|lia].
  - split_and!; [done|congruence|]. rewrite H3, Hc, <- app_assoc. done.
Qed.

(** The audio levels of a history. *)
Definition op_levels (ops : list vad_op) : list Z :=
  omap (λ op, match op with OpPush level _ => Some level | OpReset _ => None end) ops.

(** With every level equal the deviation is zero, so silence stays. *)
Lemma PushAudioLevel_steady arch v now m :
  vad_wf m → uint8 v → 1 < VoiceLevelsSampleSize (cfg m) ≤ 2 ^ 36 →
  Forall (eq v) (voiceLevelsSample m) → voiceState m = false →
  ∃ m', PushAudioLevel arch v now m = Some (m', None) ∧
    Forall (eq v) (voiceLevelsSample m') ∧ voiceState m' = false.
Proof.
  intros Hm Hv HN Hall Hst. pose proof (proj1 (MonitorConfig_IsValid_iff _) (wf_cfg m Hm)).
  destruct (PushAudioLevel_cases arch v now m Hm) as
    [(Hlt & ->)|(ptr & samples & Hfull & Hs & Hp & Hn & ->)].
  { eexists. split_and!; [done| |done]. cbn. apply Forall_app. auto. }
  assert (samples = replicate (length samples) v) as Hrep.
  { symmetry. apply replicate_as_Forall_2; [done|]. rewrite Hs. by apply Forall_insert. }
  assert (length samples = length (voiceLevelsSample m)) as Hl by (rewrite Hs; apply length_insert).
  assert (StdDev arch samples (Avg arch samples) = 0) as Hdev.
  { rewrite Hrep, Avg_replicate, StdDev_replicate by (done || lia). done. }
  rewrite Hdev. unfold voice_decision. cbn. rewrite Hst. cbn.
  rewrite (proj2 (Z.ltb_ge _ _)) by lia. eexists. split_and!; [done| |done].
  cbn. rewrite Hs. by apply Forall_insert.
Qed.

(** ** Properties *)

(** Every history of audio levels and resets of a valid monitor runs
    without a panic, keeps the ring-buffer invariant, and the callbacks it
    makes are well bracketed: voice is announced only from silence, and it is
    withdrawn only by a reset or at least [ActivationDuration] after the
    activation in force. *)
Theorem vad_history_ok arch c m ops :
  NewMonitor c true = Ok m →
  ∃ m' evs, vad_run arch ops m = Some (m', evs) ∧ vad_wf m' ∧
    vad_trace_ok (ActivationDuration c) None evs.
Proof.
  intros Hnew. pose proof (NewMonitor_wf _ _ _ Hnew) as Hm.
  apply NewMonitor_inv in Hnew as (_ & _ & ->).
  by apply (vad_run_trace arch ops) in Hm.
Qed.

Definition test_cfg : MonitorConfig := {|
  VoiceLevelsSampleSize := 3; ActivationDuration := 100;
  VoiceActivationThreshold := 10; VoiceDeactivationThreshold := 4 |}.

Definition test_monitor : Monitor := {|
  cfg := test_cfg; voiceLevelsSample := []; voiceLevelsSamplePtr := 0%nat;
  lastActivationTime := zero_time; voiceState := false |}.

(** The history the witnesses run: a burst, silence, then a reset. *)
Definition test_ops : list vad_op :=
  [OpPush 0 1; OpPush 0 2; OpPush 0 3; OpPush 90 4; OpPush 0 5; OpPush 0 6; OpPush 0 7;
   OpPush 0 120; OpReset 130].

Lemma vad_history_ok_witness :
  (∃ m' evs, vad_run (λ _, 0) test_ops test_monitor = Some (m', evs) ∧ vad_wf m' ∧
    vad_trace_ok 100 None evs) ∧
  snd <$> vad_run (λ _, 0) test_ops test_monitor =
    Some [Build_vad_event true false 4; Build_vad_event false false 120;
          Build_vad_event false true 130].
Proof.
  split; [exact (vad_history_ok (λ _, 0) test_cfg test_monitor test_ops eq_refl)|].
  vm_compute. reflexivity.
Defined.

(** C22: the ring buffer is a sliding window. Once a monitor has seen as many
    levels as its sample size, the decision of a push is taken on the
    deviation of exactly the last [VoiceLevelsSampleSize] levels, whatever the
    position of the write pointer. *)
Theorem vad_decides_on_last_levels arch c m levels m1 evs level now :
  NewMonitor c true = Ok m → VoiceLevelsSampleSize c ≤ 2 ^ 36 →
  Forall uint8 ((fst <$> levels) ++ [level]) →
  VoiceLevelsSampleSize c ≤ Z.of_nat (length levels) →
  vad_run arch (pushes levels) m = Some (m1, evs) →
  let w := lastn (Z.to_nat (VoiceLevelsSampleSize c)) ((fst <$> levels) ++ [level]) in
  ∃ m2, PushAudioLevel arch level now m1 = Some (voice_decision m2 (StdDev arch w (Avg arch w)) now) ∧
    cfg m2 = c ∧ voiceState m2 = voiceState m1 ∧ lastActivationTime m2 = lastActivationTime m1 ∧
    window m2 = w.
Proof.
  intros Hnew HN Hu8 Hlen Hrun w. pose proof (NewMonitor_wf _ _ _ Hnew) as Hm.
  apply NewMonitor_inv in Hnew as (_ & Hc & ->).
  pose proof (proj1 (MonitorConfig_IsValid_iff _) Hc) as [HN0 _].
  apply (vad_run_window _ _ _ _ _ []) in Hrun as (Hm1 & Hc1 & Hw1); [|done|done].
  cbn [app cfg] in *.
  apply (f_equal length) in Hw1 as Hwl. rewrite window_length, length_lastn, length_fmap in Hwl.
  destruct (PushAudioLevel_cases arch level now m1 Hm1) as
    [(Hlt & _)|(ptr & samples & Hfull & Hs & Hp & Hn & Heq)]; [rewrite Hc1 in Hlt; lia|].
  set (m2 := Build_Monitor _ samples ptr _ _) in Heq.
  assert (window m2 = w) as Hw2.
  { unfold w. rewrite lastn_snoc by (rewrite ?length_fmap; lia). rewrite <- Hw1.
    unfold m2, window. cbn. subst samples. apply ring_overwrite; [|done].
    pose proof (wf_ptr m1 Hm1). lia. }
  assert (samples ≡ₚ w) as Hperm by (rewrite <- Hw2; apply (window_Permutation m2)).
  assert (Forall uint8 w) as Hu by (apply Forall_drop, Hu8).
  assert (Z.of_nat (length w) ≤ 2 ^ 36) as Hwle
    by (unfold w; rewrite length_lastn; lia).
  exists m2. split_and!; [|by cbn|done|done|done].
  rewrite Heq, <- (Avg_Permutation arch w samples) by done.
  by rewrite (StdDev_Permutation arch w samples) by (try apply Avg_range; done).
Qed.

Lemma vad_decides_on_last_levels_witness :
  ∃ m1 evs, vad_run (λ _, 0) (pushes [(0, 1); (7, 2); (0, 3); (90, 4)]) test_monitor
              = Some (m1, evs) ∧
  let w := lastn 3 [0; 7; 0; 90; 12] in
  ∃ m2, PushAudioLevel (λ _, 0) 12 5 m1 =
      Some (voice_decision m2 (StdDev (λ _, 0) w (Avg (λ _, 0) w)) 5) ∧
    cfg m2 = test_cfg ∧ voiceState m2 = voiceState m1 ∧
    lastActivationTime m2 = lastActivationTime m1 ∧ window m2 = w.
Proof.
  destruct (vad_run (λ _, 0) (pushes [(0, 1); (7, 2); (0, 3); (90, 4)]) test_monitor)
    as [[m1 evs]|] eqn:Hr; [|vm_compute in Hr; discriminate].
  exists m1, evs. split; [reflexivity|].
  apply (vad_decides_on_last_levels (λ _, 0) test_cfg test_monitor
    [(0, 1); (7, 2); (0, 3); (90, 4)] m1 evs 12 5 eq_refl); [cbn; lia| |cbn; lia|exact Hr].
  repeat constructor; cbn; lia.
Defined.

(** A steady signal never triggers voice, at any level and for any valid
    configuration with a window of at least two samples. *)
Theorem vad_steady_is_silence arch c m v times :
  NewMonitor c true = Ok m → 1 < VoiceLevelsSampleSize c ≤ 2 ^ 36 → uint8 v →
  ∃ m', vad_run arch (pushes ((λ t, (v, t)) <$> times)) m = Some (m', []) ∧
    voiceState m' = false.
Proof.
  intros Hnew HN Hv. pose proof (NewMonitor_wf _ _ _ Hnew) as Hm.
  apply NewMonitor_inv in Hnew as (_ & _ & ->).
  assert (∀ times m, vad_wf m → cfg m = c → Forall (eq v) (voiceLevelsSample m) →
    voiceState m = false →
    ∃ m', vad_run arch (pushes ((λ t, (v, t)) <$> times)) m = Some (m', []) ∧
      voiceState m' = false) as Hgen; [|by apply Hgen].
  clear Hm times. intros times. induction times as [|t times IH]; intros m Hm Hc Hall Hst.
  { by exists m. }
  destruct (PushAudioLevel_steady arch v t m) as (m1 & Hp & Hall1 & Hst1);
    [done|done|by rewrite Hc|done|done|].
  destruct (PushAudioLevel_wf arch v t m Hm) as (m1' & ev' & Hp' & Hm1 & Hc1).
  rewrite Hp in Hp'. simplify_eq.
  destruct (IH m1' Hm1) as (m' & Hr & Hst'); [congruence|done|done|].
  exists m'. split; [|done]. rewrite fmap_cons. cbn. rewrite Hp. cbn.
  unfold pushes in Hr. rewrite Hr. done.
Qed.

Lemma vad_steady_is_silence_witness :
  ∃ m', vad_run (λ _, 0) (pushes ((λ t, (42, t)) <$> [1; 2; 3; 4; 5; 6])) test_monitor
          = Some (m', []) ∧ voiceState m' = false.
Proof. apply (vad_steady_is_silence (λ _, 0) test_cfg test_monitor); [reflexivity|cbn; lia|cbn; unfold uint8; lia]. Defined.
