(* ===== verification/Rate.v ===== *)
(** * Rate: the receive-rate monitor (service/rtc/rate.go)

    A [RateMonitor] appends samples until they span twice the sampling size;
    from then on its buffer has a fixed length and is overwritten in place,
    the write position being [samplesPtr] modulo that length.  The refinement
    below relates it to the plain history of the samples pushed.  [m.now()] is
    the argument [now]; [None] is a panic. *)
From Stdlib Require Import Floats.SpecFloat.
From S2P Require Import Prelude GoFloat.
Local Open Scope Z_scope.

(** ** Definitions *)
Record sample := { ts : Z; size : Z }.

Record RateMonitor := {
  samples : list sample;
  samplesPtr : Z;
  samplingSize : Z;
  filled : bool;
}.

Definition NewRateMonitor (samplingSize : Z) : result RateMonitor :=
  if samplingSize <=? 0 then Err (EText "invalid sampling size")
  else Ok {| samples := []; samplesPtr := 0; samplingSize := samplingSize; filled := false |}.

(** [len(m.samples)]. *)
Definition nsamples (m : RateMonitor) : Z := Z.of_nat (length (samples m)).

Definition getSamplesDuration (m : RateMonitor) : option Z :=
  if bool_decide (samples m = []) then Some 0
  else
    last ← go_index (samples m) (Z.rem (samplesPtr m - 1) (nsamples m));
    first ← go_index (samples m) (Z.rem (samplesPtr m) (nsamples m));
    Some (time_sub (ts last) (ts first)).

Definition PushSample (size now : Z) (m : RateMonitor) : option RateMonitor :=
  let s := {| ts := now; size := size |} in
  if negb (filled m) then
    let m1 := {| samples := samples m ++ [s]; samplesPtr := wrap_int 64 (samplesPtr m + 1);
                 samplingSize := samplingSize m; filled := false |} in
    d ← getSamplesDuration m1;
    Some (if wrap_int 64 (samplingSize m * 2) <=? d
          then {| samples := samples m1; samplesPtr := samplesPtr m1;
                  samplingSize := samplingSize m1; filled := true |}
          else m1)
  else
    let i := Z.rem (samplesPtr m) (nsamples m) in
    _ ← go_index (samples m) i;
    Some {| samples := <[Z.to_nat i := s]> (samples m);
            samplesPtr := wrap_int 64 (samplesPtr m + 1);
            samplingSize := samplingSize m; filled := true |}.

(** The loop of [GetRate]: [k] iterations are left and [i] is the loop
    variable; the loop runs [len(m.samples)] times unless it breaks. *)
Fixpoint rate_loop (m : RateMonitor) (now : Z) (k : nat) (i totalBytes samplesDuration : Z) :
    option (Z * Z) :=
  match k with
  | O => Some (totalBytes, samplesDuration)
  | S k =>
      s ← go_index (samples m) (Z.rem i (nsamples m));
      let samplesDuration := time_sub now (ts s) in
      let totalBytes := wrap_int 64 (totalBytes + size s) in
      if samplingSize m <=? samplesDuration then Some (totalBytes, samplesDuration)
      else rate_loop m now k (i - 1) totalBytes samplesDuration
  end.

(** [time.Duration.Seconds]: [float64(d/Second) + float64(d%Second)/1e9]. *)
Definition Seconds (d : Z) : float :=
  f64_add (f64_of_Z (Z.quot d second)) (f64_div (f64_of_Z (Z.rem d second)) (f64_of_Z second)).

(** [int(math.Round((float64(total) / d.Seconds()) * 8))]. *)
Definition bits_per_sec (arch : float → Z) (total d : Z) : Z :=
  float_to_int arch (f64_round (f64_mul (f64_div (f64_of_Z total) (Seconds d)) (f64_of_Z 8))).

Definition GetRate (arch : float → Z) (now : Z) (m : RateMonitor) : option (Z * Z) :=
  if negb (filled m) then Some (-1, 0)
  else
    '(totalBytes, samplesDuration) ←
      rate_loop m now (length (samples m)) (samplesPtr m - 1) 0 0;
    Some (bits_per_sec arch totalBytes samplesDuration, samplesDuration).

Fixpoint rate_run (h : list sample) (m : RateMonitor) : option RateMonitor :=
  match h with
  | [] => Some m
  | s :: h => m' ← PushSample (size s) (ts s) m; rate_run h m'
  end.

(** ** Specification over the history *)

(** How many samples it took to span twice the sampling size. *)
Definition span_reached (w : Z) (h : list sample) (s : sample) : Prop :=
  ∃ s0, head h = Some s0 ∧ 2 * w ≤ time_sub (ts s) (ts s0).
#[export] Instance span_reached_dec w h s : Decision (span_reached w h s).
Proof.
  unfold span_reached. destruct (head h) as [s0|].
  - destruct (decide (2 * w ≤ time_sub (ts s) (ts s0))); [left; eauto|].
    right. intros (? & [= <-] & ?). done.
  - right. by intros (? & ? & _).
Defined.

Definition fill_count (w : Z) (h : list sample) : option nat :=
  (λ p, S (fst p)) <$> list_find (span_reached w h) h.

(** The bytes and the age of the newest samples ([l] has the newest first),
    up to and including the first that is [w] old. *)
Fixpoint newest_until (w now : Z) (l : list sample) (total d : Z) : Z * Z :=
  match l with
  | [] => (total, d)
  | s :: l =>
      let d := time_sub now (ts s) in
      let total := wrap_int 64 (total + size s) in
      if w <=? d then (total, d) else newest_until w now l total d
  end.

Definition rate_spec (arch : float → Z) (w now : Z) (h : list sample) : Z * Z :=
  match fill_count w h with
  | None => (-1, 0)
  | Some n =>
      let '(total, d) := newest_until w now (reverse (lastn n h)) 0 0 in
      (bits_per_sec arch total d, d)
  end.

(** ** Invariant: the buffer against the history *)
Record rate_rep (w : Z) (m : RateMonitor) (h : list sample) : Prop := {
  rep_w : samplingSize m = w;
  rep_ptr : samplesPtr m = Z.of_nat (length h);
  rep_count : fill_count w h = if filled m then Some (length (samples m)) else None;
  rep_filling : filled m = false → samples m = h;
  rep_le : (length (samples m) ≤ length h)%nat;
  rep_pos : filled m = true → samples m ≠ [];
  rep_slot : ∀ i, (length h - length (samples m) ≤ i < length h)%nat →
    samples m !! (i mod length (samples m))%nat = h !! i;
}.

Lemma NewRateMonitor_rep w m : NewRateMonitor w = Ok m → 0 < w ∧ rate_rep w m [].
Proof.
  unfold NewRateMonitor. destruct (Z.leb_spec w 0); [done|]. intros [= <-].
  split; [done|]. split; cbn; try done; lia.
Qed.

Lemma rem_nat i n : (n ≠ 0)%nat → Z.rem (Z.of_nat i) (Z.of_nat n) = Z.of_nat (i mod n).
Proof. intros Hn. rewrite Z.rem_mod_nonneg by lia. by rewrite Nat2Z.inj_mod. Qed.

Lemma head_snoc {A} (h : list A) x : h ≠ [] → head (h ++ [x]) = head h.
Proof. by destruct h. Qed.

Lemma span_reached_snoc w h x s : h ≠ [] → span_reached w (h ++ [x]) s ↔ span_reached w h s.
Proof. intros Hh. unfold span_reached. by rewrite head_snoc. Qed.

(** One more sample either leaves the count as it is or, at the first sample
    that reaches the span, sets it to the length of the history. *)
Lemma fill_count_snoc w h s :
  0 < w →
  fill_count w (h ++ [s]) =
    match fill_count w h with
    | Some n => Some n
    | None => if decide (span_reached w (h ++ [s]) s) then Some (S (length h)) else None
    end.
Proof.
  intros Hw. destruct (decide (h = [])) as [->|Hh].
  { unfold fill_count. cbn. destruct (decide _) as [[s0 [[= <-] Hs]]|]; [|done].
    unfold time_sub, min_int64, max_int64 in Hs. lia. }
  unfold fill_count.
  rewrite (list_find_ext (span_reached w (h ++ [s])) (span_reached w h))
    by (intros x; by apply span_reached_snoc).
  destruct (list_find (span_reached w h) h) as [[i x]|] eqn:Hf; cbn.
  - by rewrite (list_find_app_l _ _ _ _ _ Hf).
  - rewrite list_find_app_r by done. cbn.
    destruct (decide (span_reached w h s)) as [Hs|Hs],
      (decide (span_reached w (h ++ [s]) s)) as [Hs'|Hs']; cbn; try done;
      rewrite span_reached_snoc in Hs' by done; done.
Qed.

Lemma getSamplesDuration_filling m h s :
  samples m = h ++ [s] → samplesPtr m = Z.of_nat (length (h ++ [s])) →
  ∃ s0, head (h ++ [s]) = Some s0 ∧ getSamplesDuration m = Some (time_sub (ts s) (ts s0)).
Proof.
  intros Hs Hp. unfold getSamplesDuration, nsamples. rewrite Hp, Hs.
  rewrite bool_decide_false by (by destruct h).
  replace (Z.of_nat (length (h ++ [s])) - 1) with (Z.of_nat (length h))
    by (rewrite length_app; cbn; lia).
  rewrite !rem_nat by (rewrite length_app; cbn; lia).
  rewrite !go_index_nat, Nat.Div0.mod_same, Nat.mod_small by (rewrite length_app; cbn; lia).
  rewrite (lookup_app_r h [s] (length h)), Nat.sub_diag by lia. cbn.
  destruct h as [|s0 h]; cbn; eauto.
Qed.

(** A push of a sample whose history stays below 2^63 keeps the invariant and
    never indexes out of range. *)
Lemma PushSample_rep w m h s :
  0 < w < 2 ^ 62 → rate_rep w m h → Z.of_nat (length h) < max_int64 →
  ∃ m', PushSample (size s) (ts s) m = Some m' ∧ rate_rep w m' (h ++ [s]).
Proof.
  intros Hw [Ew Ep Ec Ef Hle Hpos Hsl] Hlen.
  assert (Hs : {| ts := ts s; size := size s |} = s) by (by destruct s).
  assert (Hptr : wrap_int 64 (samplesPtr m + 1) = Z.of_nat (length (h ++ [s]))).
  { rewrite Ep, wrap_int_id, length_app by (unfold min_int64; lia). cbn. lia. }
  unfold PushSample. rewrite Hs, Hptr. destruct (filled m) eqn:Hf; cbn [negb].
  - (* overwrite *)
    pose proof (Hpos eq_refl) as Hne. assert (length (samples m) ≠ 0)%nat as Hl0.
    { by destruct (samples m). }
    set (n := length (samples m)) in *.
    assert (Hi : Z.rem (samplesPtr m) (nsamples m) = Z.of_nat (length h mod n)).
    { rewrite Ep. by apply rem_nat. }
    pose proof (Nat.mod_upper_bound (length h) n Hl0) as Hub.
    rewrite Hi, go_index_nat, Nat2Z.id.
    destruct (lookup_lt_is_Some_2 (samples m) (length h mod n)) as [y Hy]; [done|].
    rewrite Hy. cbn. eexists. split; [done|].
    assert (Hins : ∀ x, length (<[(length h mod n)%nat:=x]> (samples m)) = n)
      by (intros; apply length_insert).
    split; cbn -[fill_count]; rewrite ?Hins; try done.
    + rewrite fill_count_snoc, Ec by lia. done.
    + rewrite length_app. cbn. lia.
    + intros _ H. apply (f_equal length) in H. rewrite Hins in H. done.
    + intros i. rewrite length_app. cbn. intros Hir.
      destruct (decide (i = length h)) as [->|Hne'].
      * rewrite list_lookup_insert_eq by done. by rewrite lookup_app_r, Nat.sub_diag by lia.
      * rewrite list_lookup_insert_ne.
        -- rewrite lookup_app_l by lia. apply Hsl. lia.
        -- apply not_eq_sym, mod_slots_distinct. lia.
  - (* filling *)
    rewrite (Ef eq_refl).
    set (m1 := {| samples := h ++ [s]; samplesPtr := Z.of_nat (length (h ++ [s]));
                  samplingSize := samplingSize m; filled := false |}).
    destruct (getSamplesDuration_filling m1 h s eq_refl eq_refl) as (s0 & Hh & Hd).
    rewrite Hd. cbn -[time_sub]. rewrite Ew, wrap_int_id by (unfold min_int64, max_int64; lia).
    assert (Hfc : fill_count w (h ++ [s]) =
      if w * 2 <=? time_sub (ts s) (ts s0) then Some (length (h ++ [s])) else None).
    { rewrite fill_count_snoc, Ec by lia.
      destruct (Z.leb_spec (w * 2) (time_sub (ts s) (ts s0))) as [Ht|Ht];
        destruct (decide _) as [(s0' & Hh' & Ht')|Hn]; simplify_eq.
      - rewrite length_app. cbn. f_equal. lia.
      - destruct Hn. exists s0. split; [done|lia].
      - lia.
      - done. }
    assert (Hslot : ∀ i, (length (h ++ [s]) - length (h ++ [s]) ≤ i < length (h ++ [s]))%nat →
      (h ++ [s]) !! (i mod length (h ++ [s]))%nat = (h ++ [s]) !! i)
      by (intros i Hi; by rewrite Nat.mod_small by lia).
    destruct (w * 2 <=? _); eexists; (split; [done|]); split; cbn -[fill_count]; try done;
      by destruct h.
Qed.

Lemma rate_run_rep w m h0 h :
  0 < w < 2 ^ 62 → rate_rep w m h0 → Z.of_nat (length h0 + length h) ≤ max_int64 →
  ∃ m', rate_run h m = Some m' ∧ rate_rep w m' (h0 ++ h).
Proof.
  intros Hw. revert m h0. induction h as [|s h IH]; intros m h0 Hm Hlen; cbn.
  { rewrite app_nil_r. eauto. }
  cbn in Hlen. destruct (PushSample_rep w m h0 s) as (m1 & -> & Hm1); [done..|lia|].
  cbn. rewrite cons_middle, app_assoc.
  apply IH; [done|]. rewrite length_app. cbn. lia.
Qed.

(** The loop reads the window of the history from its newest sample back. *)
Lemma rate_loop_spec w m h now k total d :
  rate_rep w m h → filled m = true → (k ≤ length (samples m))%nat →
  rate_loop m now k (Z.of_nat (length h - length (samples m) + k) - 1) total d =
  Some (newest_until w now (reverse (take k (lastn (length (samples m)) h))) total d).
Proof.
  intros Hm Hf. pose proof Hm as [Ew Ep Ec _ Hle Hpos Hsl]. revert total d.
  induction k as [|k IH]; intros total d Hk; [by rewrite take_0|].
  set (n := length (samples m)) in *. cbn [rate_loop].
  replace (Z.of_nat (length h - n + S k) - 1) with (Z.of_nat (length h - n + k)) by lia.
  unfold nsamples. rewrite rem_nat, go_index_nat, Hsl by lia.
  destruct (lookup_lt_is_Some_2 h (length h - n + k)) as [s Hs]; [lia|]. rewrite Hs.
  rewrite (take_S_r _ _ s) by (unfold lastn; by rewrite lookup_drop).
  rewrite reverse_snoc. cbn. rewrite Ew. destruct (w <=? _); [done|].
  by rewrite <- IH by lia.
Qed.

Lemma GetRate_spec arch w m h now :
  rate_rep w m h → GetRate arch now m = Some (rate_spec arch w now h).
Proof.
  intros Hm. pose proof Hm as [Ew Ep Ec _ Hle _ _]. unfold GetRate, rate_spec.
  rewrite Ec. destruct (filled m) eqn:Hf; [|done]. cbn [negb].
  replace (samplesPtr m - 1) with
    (Z.of_nat (length h - length (samples m) + length (samples m)) - 1) by lia.
  rewrite (rate_loop_spec w m h) by done.
  rewrite take_ge by (rewrite length_lastn; lia).
  cbn. by destruct (newest_until _ _ _ _ _) as [total d].
Qed.

(** ** Exactness of the reported rate *)

(** Total of the newest samples, without overflow. *)
Definition total_size (l : list sample) : Z := foldr (λ s, Z.add (size s)) 0 l.

#[export] Instance total_size_proper : Proper ((≡ₚ) ==> eq) total_size.
Proof. intros l1 l2 H. unfold total_size. induction H; cbn in *; lia. Qed.

Lemma newest_until_all w now l s total d :
  Forall (λ x, 0 ≤ size x) (l ++ [s]) →
  Forall (λ x, time_sub now (ts x) < w) l →
  0 ≤ total → total + total_size (l ++ [s]) ≤ max_int64 →
  newest_until w now (l ++ [s]) total d =
  (total + total_size (l ++ [s]), time_sub now (ts s)).
Proof.
  revert total d. induction l as [|x l IH]; intros total d Hpos Hyoung Ht Hsum; cbn in *.
  - apply Forall_inv in Hpos. rewrite wrap_int_id by (unfold min_int64; lia).
    destruct (w <=? _); (f_equal; lia).
  - apply Forall_cons in Hpos as [Hx Hpos]. apply Forall_cons in Hyoung as [Hy Hyoung].
    assert (0 ≤ total_size (l ++ [s])).
    { clear -Hpos. induction (l ++ [s]) as [|y k IHk]; cbn; [lia|].
      apply Forall_cons in Hpos as [Hy Hpos]. specialize (IHk Hpos). unfold total_size in IHk. lia. }
    rewrite (proj2 (Z.leb_gt _ _)) by done. unfold total_size in *.
    rewrite wrap_int_id by (unfold min_int64; lia).
    rewrite IH by (done || lia). f_equal. lia.
Qed.

Lemma newest_until_stop w now l s rest total d :
  w ≤ time_sub now (ts s) →
  newest_until w now ((l ++ [s]) ++ rest) total d = newest_until w now (l ++ [s]) total d.
Proof.
  intros Hs. revert total d. induction l as [|x l IH]; intros total d; cbn.
  - by rewrite (proj2 (Z.leb_le _ _)).
  - destruct (w <=? _); [done|]. apply IH.
Qed.

Lemma Seconds_exact k : exact_int k → 0 ≤ k → Seconds (k * second) = f64_of_Z k.
Proof.
  intros Hk Hk0. unfold Seconds. rewrite Z.quot_mul, Z.rem_mul by done.
  change (f64_div (f64_of_Z 0) (f64_of_Z second)) with (f64_of_Z 0).
  rewrite f64_add_exact; [by rewrite Z.add_0_r|done|done|by rewrite Z.add_0_r].
Qed.

Lemma bits_per_sec_exact arch b k :
  0 < b → 0 < k → exact_int (b * k) → exact_int (b * 8) →
  bits_per_sec arch (b * k) (k * second) = b * 8.
Proof.
  intros Hb Hk Hbk Hb8. unfold bits_per_sec, exact_int in *.
  rewrite Seconds_exact, f64_div_exact, f64_mul_exact, f64_round_of_Z by (unfold exact_int; nia).
  unfold float_to_int. rewrite float_trunc_of_Z by (unfold exact_int; lia).
  unfold min_int64, max_int64. rewrite !(proj2 (Z.leb_le _ _)) by lia. done.
Qed.

(** ** Properties *)

(** C21: for every history of samples (fewer than 2^63 of them) a new monitor
    never indexes its ring buffer out of range, and the rate it reports is the
    rate over the plain history: -1 until some sample came twice the sampling
    size after the first, and from then on the rate of the newest samples up
    to and including the first that is at least the sampling size old, among
    as many samples as it took to span twice the sampling size. *)
Theorem rate_refines_history arch w m h now :
  NewRateMonitor w = Ok m → w < 2 ^ 62 → Z.of_nat (length h) ≤ max_int64 →
  ∃ m', rate_run h m = Some m' ∧ GetRate arch now m' = Some (rate_spec arch w now h).
Proof.
  intros Hm Hw Hlen. apply NewRateMonitor_rep in Hm as [Hw0 Hm].
  destruct (rate_run_rep w m [] h) as (m' & Hr & Hm'); [lia|done|done|].
  exists m'. split; [done|]. by apply GetRate_spec.
Qed.

Lemma rate_refines_history_witness :
  let h := (λ i, {| ts := i * second; size := 1000 |}) <$> [0; 1; 2; 3; 4; 5] in
  ∃ m m', NewRateMonitor (2 * second) = Ok m ∧ rate_run h m = Some m' ∧
    samples m' !! 0%nat = Some {| ts := 5 * second; size := 1000 |} ∧
    GetRate (λ _, 0) (6 * second) m' = Some (8000, 2 * second).
Proof.
  intros h. destruct (rate_refines_history (λ _, 0) (2 * second)
    {| samples := []; samplesPtr := 0; samplingSize := 2 * second; filled := false |}
    h (6 * second)) as (m' & H1 & H2); [done|done|done|].
  eexists _, m'. split; [reflexivity|]. split; [exact H1|].
  vm_compute in H1. injection H1 as <-. split; [reflexivity|].
  rewrite H2. vm_compute. reflexivity.
Defined.

(** The reported rate is exact in bits per second: when the newest samples
    younger than the sampling size and the first older one, [k] seconds old,
    hold [k * b] bytes in total, the rate of a filled monitor is [8 * b]. *)
Theorem rate_exact arch w now h n old new s b k :
  fill_count w h = Some n → lastn n h = old ++ s :: new →
  Forall (λ x, 0 ≤ size x) (s :: new) → Forall (λ x, time_sub now (ts x) < w) new →
  now - ts s = k * second → w ≤ k * second → k * second ≤ max_int64 →
  0 < k → 0 < b → total_size (s :: new) = b * k → b * k < 2 ^ 53 → b * 8 < 2 ^ 53 →
  rate_spec arch w now h = (b * 8, k * second).
Proof.
  intros Hn Hlast Hpos Hyoung Hk Hwk Hmax Hk0 Hb Htot Hbk Hb8. unfold rate_spec. rewrite Hn, Hlast.
  assert (Hage : time_sub now (ts s) = k * second).
  { rewrite time_sub_exact; [done|]. unfold min_int64, second in *. lia. }
  assert (Hall : total_size (reverse new ++ [s]) = b * k).
  { rewrite <- reverse_cons, <- Htot. by rewrite reverse_Permutation. }
  rewrite reverse_app, reverse_cons, newest_until_stop by (rewrite Hage; lia).
  rewrite (newest_until_all w) by (rewrite ?Hall, <- ?reverse_cons;
    (by apply Forall_reverse) || (unfold max_int64; lia)).
  rewrite Hage, Hall, Z.add_0_l, bits_per_sec_exact by (unfold exact_int; lia). done.
Qed.

Lemma rate_exact_witness :
  let h := (λ i, {| ts := i * second; size := 1000 |}) <$> [0; 1; 2; 3; 4; 5] in
  rate_spec (λ _, 0) (2 * second) (6 * second) h = (1000 * 8, 2 * second).
Proof.
  intros h. apply (rate_exact (λ _, 0) (2 * second) (6 * second) h 5
    ((λ i, {| ts := i * second; size := 1000 |}) <$> [1; 2; 3])
    ((λ i, {| ts := i * second; size := 1000 |}) <$> [5])
    {| ts := 4 * second; size := 1000 |} 1000 2); try reflexivity.
  all: repeat constructor; vm_compute; discriminate.
Defined.
