(* ===== verification/RtcMonitor.v ===== *)
(** * RtcMonitor: the statistics a Calls client reports (client/rtc_monitor.go)

    Every interval the monitor reads the statistics of the audio streams from
    the library, averages what changed since the last interval, and offers the
    result on a channel of one element.  A stream is identified by its SSRC;
    the counters are [uint64], the rest [float64].  The order in which [range]
    visits a map of streams is the argument [visit]. *)
From Stdlib Require Import Floats.SpecFloat.
From S2P Require Import Prelude GoFloat Stat.
Local Open Scope Z_scope.

(** [stats.Stats]: the fields the monitor reads. *)
Record stats := {
  Out_PacketsSent : Z;
  RemoteIn_FractionLost : float;
  RemoteIn_Jitter : float;
  In_PacketsReceived : Z;
  In_Jitter : float;
  RemoteOut_PacketsSent : Z;
}.
Definition ssrc_stats : Type := gmap Z stats.

Record rtcStats := { lossRate : float; jitter : float }.

Record rtcMonitor := {
  lastSndStats : ssrc_stats;
  lastRcvStats : ssrc_stats;
  statsCh : chan rtcStats;
  stopCh : bool;
  doneCh : bool;
}.

Definition newRTCMonitor : rtcMonitor := {|
  lastSndStats := ∅; lastRcvStats := ∅; statsCh := make_chan 1; stopCh := false; doneCh := false |}.

Definition put_last (snd rcv : ssrc_stats) (m : rtcMonitor) : rtcMonitor := {|
  lastSndStats := snd; lastRcvStats := rcv; statsCh := statsCh m; stopCh := stopCh m; doneCh := doneCh m |}.
Definition put_statsCh (ch : chan rtcStats) (m : rtcMonitor) : rtcMonitor := {|
  lastSndStats := lastSndStats m; lastRcvStats := lastRcvStats m; statsCh := ch; stopCh := stopCh m;
  doneCh := doneCh m |}.

(** ** Reading the statistics *)
Definition MimeTypeOpus : string := "audio/opus".

(** The encodings of one sender: SSRCs by position, and the codecs of the
    sender.  [None]: [Codecs[i]] is out of range. *)
Fixpoint sender_stats (get : Z → option stats) (codecs : list string) (encodings : list Z) (i : nat)
    (acc : ssrc_stats) : option ssrc_stats :=
  match encodings with
  | [] => Some acc
  | ssrc :: encodings =>
      match codecs !! i with
      | None => None
      | Some mime =>
          sender_stats get codecs encodings (S i)
            (if bool_decide (mime ≠ MimeTypeOpus) then acc
             else match get ssrc with Some s => <[ssrc := s]> acc | None => acc end)
      end
  end.

Fixpoint senders_stats (get : Z → option stats) (senders : list (option (list string * list Z)))
    (acc : ssrc_stats) : option ssrc_stats :=
  match senders with
  | [] => Some acc
  | None :: senders => senders_stats get senders acc
  | Some (codecs, encodings) :: senders =>
      acc ← sender_stats get codecs encodings 0 acc; senders_stats get senders acc
  end.

(** A receiver and its track: the codec and the SSRC. *)
Definition receiver_stats (get : Z → option stats) (acc : ssrc_stats) (rcv : option (option (string * Z))) :
    ssrc_stats :=
  match rcv with
  | Some (Some (mime, ssrc)) =>
      if bool_decide (mime ≠ MimeTypeOpus) then acc
      else match get ssrc with Some s => <[ssrc := s]> acc | None => acc end
  | _ => acc
  end.

Definition gatherStats (get : Z → option stats) (senders : list (option (list string * list Z)))
    (receivers : list (option (option (string * Z)))) : option (ssrc_stats * ssrc_stats) :=
  snd ← senders_stats get senders ∅;
  Some (snd, foldl (receiver_stats get) ∅ receivers).

(** ** Averages *)
Section averages.
  Context (visit : ssrc_stats → list (Z * stats)).

(** The running totals: two sums and the number of streams. *)
Definition totals : Type := float * float * float.
Definition f64_zero : float := S754_zero false.
Definition f64_one : float := f64_of_Z 1.

Definition add_sender (last : ssrc_stats) (t : totals) (e : Z * stats) : totals :=
  let '(loss, jit, n) := t in
  let s := e.2 in
  match last !! e.1 with
  | None => t
  | Some p =>
      if bool_decide (Out_PacketsSent s = Out_PacketsSent p) then t
      else (f64_add loss (RemoteIn_FractionLost s), f64_add jit (RemoteIn_Jitter s), f64_add n f64_one)
  end.

(** The results are the loss rate, the jitter and the number of streams. *)
Definition getAvgSenderStats (last snd : ssrc_stats) : float * float * float :=
  let '(loss, jit, n) := foldl (add_sender last) (f64_zero, f64_zero, f64_zero) (visit snd) in
  if SFltb f64_zero n then (f64_div loss n, f64_div jit n, n) else (f64_zero, f64_zero, n).

(** Packets lost since the last interval, as far as the reports tell; the
    subtractions are on [int64]. *)
Definition lost_diff (s p : stats) : Z :=
  let lost := wrap_int 64 (wrap_int 64 (RemoteOut_PacketsSent s) - wrap_int 64 (In_PacketsReceived s)) in
  let prev := wrap_int 64 (wrap_int 64 (RemoteOut_PacketsSent p) - wrap_int 64 (In_PacketsReceived p)) in
  if bool_decide (0 ≤ prev) && bool_decide (prev < lost) then wrap_int 64 (lost - prev) else 0.

Definition received_diff (s p : stats) : Z := wrap_uint 64 (In_PacketsReceived s - In_PacketsReceived p).

(** Lost, received, jitter and the number of streams. *)
Definition add_receiver (last : ssrc_stats) (t : float * float * float * float) (e : Z * stats) :
    float * float * float * float :=
  let '(lost, received, jit, n) := t in
  let s := e.2 in
  match last !! e.1 with
  | None => t
  | Some p =>
      if bool_decide (In_PacketsReceived s = In_PacketsReceived p) then t
      else (f64_add lost (f64_of_Z (lost_diff s p)), f64_add received (f64_of_Z (received_diff s p)),
            f64_add jit (In_Jitter s), f64_add n f64_one)
  end.

Definition getAvgReceiverStats (last rcv : ssrc_stats) : float * float * float :=
  let '(lost, received, jit, n) := foldl (add_receiver last) (f64_zero, f64_zero, f64_zero, f64_zero) (visit rcv) in
  if SFltb f64_zero n then (f64_div lost received, f64_div jit n, n) else (f64_zero, f64_zero, n).

(** The built-in [max]: a NaN wins, and [0] is larger than [-0]. *)
Definition f64_max (x y : float) : float :=
  match SFcompare x y with
  | None => S754_nan
  | Some Lt => y
  | Some Gt => x
  | Some Eq => match x with S754_zero true => y | _ => x end
  end.

Definition processStats (snd rcv : ssrc_stats) : go rtcMonitor unit := λ m,
  let '(sndLoss, sndJitter, sndCnt) := getAvgSenderStats (lastSndStats m) snd in
  let '(rcvLoss, rcvJitter, rcvCnt) := getAvgReceiverStats (lastRcvStats m) rcv in
  if SFeqb sndCnt f64_zero && SFeqb rcvCnt f64_zero then Some (tt, put_last snd rcv m)
  else
    match try_send {| lossRate := f64_max sndLoss rcvLoss; jitter := f64_max sndJitter rcvJitter |} (statsCh m) with
    | SendPanic => None
    | Full => Some (tt, put_last snd rcv m)
    | Sent ch => Some (tt, put_last snd rcv (put_statsCh ch m))
    end.

(** ** The goroutine of [Start] and [Stop] *)
Inductive monitor_thread := MoLoop | MoDone | MoEnd.
Inductive stop_thread := SpStop | SpWait | SpClose | SpEnd.

(** What is read at a tick: [None] when the reading panics. *)
Definition monitor_step (tick : option (option (ssrc_stats * ssrc_stats))) (st : monitor_thread) :
    go rtcMonitor monitor_thread :=
  match st with
  | MoLoop =>
      match tick with
      | Some None => panic
      | Some (Some (snd, rcv)) => processStats snd rcv ;; mret MoLoop
      | None => b ← gets stopCh; mret (if b : bool then MoDone else MoLoop)
      end
  | MoDone => λ m,
      if doneCh m then None
      else Some (MoEnd, {| lastSndStats := lastSndStats m; lastRcvStats := lastRcvStats m; statsCh := statsCh m;
                           stopCh := stopCh m; doneCh := true |})
  | MoEnd => mret MoEnd
  end.

Definition stop_step (st : stop_thread) : go rtcMonitor stop_thread :=
  match st with
  | SpStop => λ m,
      if stopCh m then None
      else Some (SpWait, {| lastSndStats := lastSndStats m; lastRcvStats := lastRcvStats m; statsCh := statsCh m;
                            stopCh := true; doneCh := doneCh m |})
  | SpWait => b ← gets doneCh; mret (if b : bool then SpClose else SpWait)
  | SpClose => λ m, ch ← close_chan (statsCh m); Some (SpEnd, put_statsCh ch m)
  | SpEnd => mret SpEnd
  end.

(** A reader of the channel. *)
Definition take_stats : go rtcMonitor (option rtcStats) := λ m,
  match recv (statsCh m) with
  | inl (v, ch) => Some (Some v, put_statsCh ch m)
  | inr _ => Some (None, m)
  end.

Inductive mon_event := EvMonitor (tick : option (ssrc_stats * ssrc_stats)) | EvStop (k : nat) | EvTake.
Record mon_sys := { mo_mon : rtcMonitor; mo_thread : monitor_thread; mo_stops : list stop_thread }.

Definition mon_step (ev : mon_event) (s : mon_sys) : option mon_sys :=
  match ev with
  | EvMonitor tick =>
      '(st, m) ← monitor_step (Some <$> tick) (mo_thread s) (mo_mon s);
      Some {| mo_mon := m; mo_thread := st; mo_stops := mo_stops s |}
  | EvStop k =>
      match mo_stops s !! k with
      | None => Some s
      | Some st =>
          '(st, m) ← stop_step st (mo_mon s);
          Some {| mo_mon := m; mo_thread := mo_thread s; mo_stops := <[k := st]> (mo_stops s) |}
      end
  | EvTake =>
      '(_, m) ← take_stats (mo_mon s);
      Some {| mo_mon := m; mo_thread := mo_thread s; mo_stops := mo_stops s |}
  end.

Fixpoint mon_run (evs : list mon_event) (s : mon_sys) : option mon_sys :=
  match evs with [] => Some s | ev :: evs => s ← mon_step ev s; mon_run evs s end.

(** A monitor that has been started, and the calls of [Stop] that will be
    made. *)
Definition mon_initial (stops : nat) : mon_sys := {|
  mo_mon := newRTCMonitor; mo_thread := MoLoop; mo_stops := replicate stops SpStop |}.

End averages.

(** ** What the sums are *)

(** The streams that count: known from the last interval, and changed. *)
Definition changed (last : ssrc_stats) (e : Z * stats) : bool :=
  match last !! e.1 with
  | None => false
  | Some p => negb (bool_decide (In_PacketsReceived e.2 = In_PacketsReceived p))
  end.
Definition changed_streams (last : ssrc_stats) (l : list (Z * stats)) : list (Z * stats) :=
  List.filter (changed last) l.

(** A function of a stream and its last statistics. *)
Definition over (last : ssrc_stats) (f : stats → stats → Z) (e : Z * stats) : Z :=
  match last !! e.1 with None => 0 | Some p => f e.2 p end.

(** The sum over the streams that count. *)
Definition total (last : ssrc_stats) (f : stats → stats → Z) (l : list (Z * stats)) : Z :=
  sumZ (over last f <$> changed_streams last l).

Lemma lost_diff_nonneg s p : 0 ≤ lost_diff s p.
Proof.
  assert (∀ z, min_int64 ≤ wrap_int 64 z ≤ max_int64) as Hr.
  { intros z. unfold wrap_int, min_int64, max_int64.
    pose proof (Z.mod_pos_bound (z + 2 ^ (64 - 1)) (2 ^ 64) ltac:(lia)). lia. }
  unfold lost_diff. cbn zeta.
  pose proof (Hr (wrap_int 64 (RemoteOut_PacketsSent s) - wrap_int 64 (In_PacketsReceived s))) as Ha.
  pose proof (Hr (wrap_int 64 (RemoteOut_PacketsSent p) - wrap_int 64 (In_PacketsReceived p))) as Hb.
  revert Ha Hb. generalize (wrap_int 64 (wrap_int 64 (RemoteOut_PacketsSent s) - wrap_int 64 (In_PacketsReceived s))).
  generalize (wrap_int 64 (wrap_int 64 (RemoteOut_PacketsSent p) - wrap_int 64 (In_PacketsReceived p))).
  intros b a Ha Hb. destruct (bool_decide_reflect (0 ≤ b)); [|cbn; lia].
  destruct (bool_decide_reflect (b < a)); [|cbn; lia]. cbn [andb].
  rewrite wrap_int_id; unfold min_int64, max_int64 in *; lia.
Qed.

Lemma received_diff_nonneg s p : 0 ≤ received_diff s p.
Proof. unfold received_diff, wrap_uint. apply Z.mod_pos_bound. lia. Qed.

Lemma over_nonneg last f e : (∀ s p, 0 ≤ f s p) → 0 ≤ over last f e.
Proof. intros Hf. unfold over. destruct (last !! e.1); [apply Hf|lia]. Qed.

Lemma total_nonneg last f l : (∀ s p, 0 ≤ f s p) → 0 ≤ total last f l.
Proof. intros Hf. apply sumZ_nonneg, Forall_fmap, Forall_true. intros e. by apply over_nonneg. Qed.

(** The order of the streams does not matter. *)
Lemma total_Permutation last f l k : l ≡ₚ k → total last f l = total last f k.
Proof.
  intros Hp. apply sumZ_Permutation, fmap_Permutation. unfold changed_streams.
  induction Hp as [|x l k _ IH|x y l|]; cbn [List.filter]; [done| | |by etrans].
  - destruct (changed last x); [by apply perm_skip|done].
  - destruct (changed last x), (changed last y); try done. apply perm_swap.
Qed.

Definition count (last : ssrc_stats) (l : list (Z * stats)) : Z := total last (λ _ _, 1) l.

Lemma total_cons last f e l :
  total last f (e :: l) = (if changed last e then over last f e else 0) + total last f l.
Proof. unfold total, changed_streams. cbn [List.filter]. by destruct (changed last e). Qed.

Lemma receivers_foldl last l a b j n :
  0 ≤ a → 0 ≤ b → 0 ≤ n →
  a + total last lost_diff l < 2 ^ 53 → b + total last received_diff l < 2 ^ 53 → n + count last l < 2 ^ 53 →
  ∃ j', foldl (add_receiver last) (f64_of_Z a, f64_of_Z b, j, f64_of_Z n) l =
    (f64_of_Z (a + total last lost_diff l), f64_of_Z (b + total last received_diff l), j', f64_of_Z (n + count last l)).
Proof.
  revert a b j n. induction l as [|e l IH]; intros a b j n Ha Hb Hn Hta Htb Htn.
  { exists j. cbn. by rewrite !Z.add_0_r. }
  unfold count in *. rewrite !total_cons in *.
  pose proof (total_nonneg last lost_diff l lost_diff_nonneg).
  pose proof (total_nonneg last received_diff l received_diff_nonneg).
  pose proof (total_nonneg last (λ _ _, 1) l (λ _ _, Z.le_0_1)).
  cbn [foldl]. unfold add_receiver at 2. unfold changed, over in *.
  destruct (last !! e.1) as [p|]; [|by apply IH].
  destruct (bool_decide_reflect (In_PacketsReceived e.2 = In_PacketsReceived p)) as [Heq|Hne]; cbn [negb] in *.
  { by apply IH. }
  pose proof (lost_diff_nonneg e.2 p). pose proof (received_diff_nonneg e.2 p).
  unfold f64_one. rewrite !f64_add_exact by (unfold exact_int; lia).
  destruct (IH (a + lost_diff e.2 p) (b + received_diff e.2 p) (f64_add j (In_Jitter e.2)) (n + 1)) as [j' ->]; [lia..|].
  exists j'. by rewrite !Z.add_assoc.
Qed.

(** Counters that only grow and fit in [int64], and what the differences
    then are. *)
Definition sane (s p : stats) : Prop :=
  0 ≤ In_PacketsReceived p ≤ In_PacketsReceived s ∧ In_PacketsReceived s < 2 ^ 63 ∧
  0 ≤ RemoteOut_PacketsSent p < 2 ^ 63 ∧ 0 ≤ RemoteOut_PacketsSent s < 2 ^ 63.

(** The packets a report leaves unaccounted for. *)
Definition missing (s : stats) : Z := RemoteOut_PacketsSent s - In_PacketsReceived s.
Definition lost_plain (s p : stats) : Z :=
  if bool_decide (0 ≤ missing p) then Z.max 0 (missing s - missing p) else 0.
Definition received_plain (s p : stats) : Z := In_PacketsReceived s - In_PacketsReceived p.

Lemma lost_diff_plain s p : sane s p → lost_diff s p = lost_plain s p.
Proof.
  intros (? & ? & ? & ?). unfold lost_diff, lost_plain, missing. cbn zeta.
  rewrite (wrap_int_id (RemoteOut_PacketsSent s)), (wrap_int_id (In_PacketsReceived s)),
    (wrap_int_id (RemoteOut_PacketsSent p)), (wrap_int_id (In_PacketsReceived p)) by (unfold min_int64, max_int64; lia).
  rewrite (wrap_int_id (RemoteOut_PacketsSent s - _)), (wrap_int_id (RemoteOut_PacketsSent p - _))
    by (unfold min_int64, max_int64; lia).
  destruct (bool_decide_reflect (0 ≤ RemoteOut_PacketsSent p - In_PacketsReceived p)); cbn [andb]; [|done].
  destruct (bool_decide_reflect (RemoteOut_PacketsSent p - In_PacketsReceived p <
    RemoteOut_PacketsSent s - In_PacketsReceived s)); [|lia].
  rewrite wrap_int_id by (unfold min_int64, max_int64; lia). lia.
Qed.

Lemma received_diff_plain s p : sane s p → received_diff s p = received_plain s p.
Proof.
  intros (? & ? & ? & ?). unfold received_diff, received_plain, wrap_uint. apply Z.mod_small. lia.
Qed.

Definition sane_streams (last : ssrc_stats) (l : list (Z * stats)) : Prop :=
  ∀ e p, e ∈ l → last !! e.1 = Some p → sane e.2 p.

Lemma total_ext last f g l :
  (∀ e p, e ∈ l → last !! e.1 = Some p → f e.2 p = g e.2 p) → total last f l = total last g l.
Proof.
  induction l as [|e l IH]; intros Hfg; [done|]. rewrite !total_cons, IH.
  2:{ intros e' p He. apply Hfg. by apply list_elem_of_further. }
  f_equal. unfold changed, over. destruct (last !! e.1) as [p|] eqn:Hp; [|done].
  by rewrite (Hfg e p (list_elem_of_here _ _) Hp).
Qed.

Lemma total_le last f g l :
  (∀ e p, e ∈ l → last !! e.1 = Some p → changed last e = true → f e.2 p ≤ g e.2 p) → total last f l ≤ total last g l.
Proof.
  induction l as [|e l IH]; intros Hfg; [done|]. rewrite !total_cons.
  specialize (IH (λ e' p He, Hfg e' p (list_elem_of_further _ _ _ He))).
  destruct (changed last e) eqn:Hc; [|lia]. unfold over.
  destruct (last !! e.1) as [p|] eqn:Hp; [|unfold changed in Hc; by rewrite Hp in Hc].
  specialize (Hfg e p (list_elem_of_here _ _) Hp Hc). lia.
Qed.

Lemma f64_pos n : 0 < n < 2 ^ 53 → SFltb f64_zero (f64_of_Z n) = true.
Proof.
  intros Hn. destruct (f64_of_Z_finite n) as (p & e & -> & _); [lia|unfold exact_int; lia|].
  by rewrite (proj2 (Z.ltb_ge n 0)) by lia.
Qed.

Lemma receiver_average (visit : ssrc_stats → list (Z * stats)) last rcv :
  visit rcv ≡ₚ map_to_list rcv →
  total last lost_diff (map_to_list rcv) < 2 ^ 53 → total last received_diff (map_to_list rcv) < 2 ^ 53 →
  count last (map_to_list rcv) < 2 ^ 53 →
  ∃ jit, getAvgReceiverStats visit last rcv =
    (if bool_decide (count last (map_to_list rcv) = 0) then f64_zero
     else f64_div (f64_of_Z (total last lost_diff (map_to_list rcv)))
                  (f64_of_Z (total last received_diff (map_to_list rcv))),
     jit, f64_of_Z (count last (map_to_list rcv))).
Proof.
  intros Hv Hl Hr Hc. unfold getAvgReceiverStats.
  change f64_zero with (f64_of_Z 0). unfold count in *.
  pose proof (total_nonneg last (λ _ _, 1) (map_to_list rcv) (λ _ _, Z.le_0_1)) as Hn.
  destruct (receivers_foldl last (visit rcv) 0 0 (f64_of_Z 0) 0) as [j' ->]; unfold count;
    rewrite ?(total_Permutation last _ _ _ Hv); [lia..|].
  rewrite !Z.add_0_l. destruct (bool_decide_reflect (total last (λ _ _, 1) (map_to_list rcv) = 0)) as [H0|H0].
  - rewrite H0. by eexists.
  - change (f64_of_Z 0) with f64_zero. rewrite f64_pos by lia. by eexists.
Qed.

(** ** The goroutine and one [Stop] *)
Definition stop_ok (m : rtcMonitor) (th : monitor_thread) (st : stop_thread) : Prop :=
  ch_closed (statsCh m) = (match st with SpEnd => true | _ => false end) ∧
  stopCh m = (match st with SpStop => false | _ => true end) ∧
  doneCh m = (match th with MoEnd => true | _ => false end) ∧
  match st with
  | SpStop => th = MoLoop
  | SpWait => True
  | SpClose | SpEnd => th = MoEnd
  end.

(** No [Stop] yet is as one that has not begun. *)
Definition mon_ok (s : mon_sys) : Prop :=
  (mo_stops s = [] ∧ stop_ok (mo_mon s) (mo_thread s) SpStop) ∨
  ∃ st, mo_stops s = [st] ∧ stop_ok (mo_mon s) (mo_thread s) st.

Section threads.
  Context (visit : ssrc_stats → list (Z * stats)).

Lemma processStats_ok snd rcv th st m :
  stop_ok m th st → ch_closed (statsCh m) = false → wp (processStats visit snd rcv) (λ _ m', stop_ok m' th st) m.
Proof.
  intros (Hc & Hs & Hd & Hst) Ho. unfold wp, processStats.
  destruct (getAvgSenderStats _ _ _) as [[l j] n]. destruct (getAvgReceiverStats _ _ _) as [[l' j'] n'].
  destruct (_ && _); [done|]. unfold try_send. rewrite Ho.
  destruct (bool_decide (length _ < _)%nat); [|done]. split; [|done]. cbn. by rewrite <- Hc, Ho.
Qed.

Lemma monitor_step_ok tick th st m :
  stop_ok m th st → wp (monitor_step visit (Some <$> tick) th) (λ th' m', stop_ok m' th' st) m.
Proof.
  intros Hok. pose proof Hok as (Hc & Hs & Hd & Hst). destruct th; cbn [monitor_step].
  - destruct tick as [[snd rcv]|]; cbn [fmap option_fmap option_map].
    + apply wp_bind. eapply wp_mono; [apply processStats_ok; [done|]|intros ? m' Hm; exact Hm].
      rewrite Hc. by destruct st.
    + apply wp_bind, wp_gets, wp_ret. rewrite Hs.
      destruct st; cbn in *; try done; split_and!; try done; by rewrite Hc.
  - unfold wp. rewrite Hd. split_and!; [done..|]. by destruct st.
  - done.
Qed.

Lemma stop_step_ok th st m : stop_ok m th st → wp (stop_step st) (λ st' m', stop_ok m' th st') m.
Proof.
  intros (Hc & Hs & Hd & Hst). destruct st; cbn [stop_step].
  - unfold wp. rewrite Hs. by split_and!.
  - apply wp_bind, wp_gets, wp_ret. rewrite Hd. by destruct th; split_and!.
  - unfold wp. unfold close_chan. rewrite Hc. by split_and!.
  - done.
Qed.

Lemma mon_step_ok ev s : mon_ok s → ∃ s', mon_step visit ev s = Some s' ∧ mon_ok s' ∧ length (mo_stops s') = length (mo_stops s).
Proof.
  intros Hok. destruct ev as [tick|k|]; cbn [mon_step].
  - assert (∀ st, stop_ok (mo_mon s) (mo_thread s) st → ∃ th m,
      monitor_step visit (Some <$> tick) (mo_thread s) (mo_mon s) = Some (th, m) ∧ stop_ok m th st) as Hstep.
    { intros st H. apply (proj1 (wp_inv _ _ _) (monitor_step_ok tick _ _ _ H)). }
    destruct Hok as [[He H]|(st & He & H)]; destruct (Hstep _ H) as (th & m & -> & H');
      eexists; (split; [done|]); (split; [|done]); [by left|right; by exists st].
  - destruct (mo_stops s !! k) as [st|] eqn:Hk; [|by exists s].
    destruct Hok as [[He _]|(st' & He & H)]; [by rewrite He in Hk|].
    rewrite He in Hk. destruct k as [|k]; [|done]. injection Hk as ->.
    destruct (proj1 (wp_inv _ _ _) (stop_step_ok _ _ _ H)) as (st' & m & -> & H').
    eexists. split; [done|]. split; [|cbn; by rewrite length_insert]. right. exists st'. cbn. by rewrite He.
  - assert (∀ st, stop_ok (mo_mon s) (mo_thread s) st → ∃ o m,
      take_stats (mo_mon s) = Some (o, m) ∧ stop_ok m (mo_thread s) st) as Hstep.
    { intros st H. unfold take_stats, recv. destruct (ch_buf (statsCh (mo_mon s))); by do 2 eexists. }
    destruct Hok as [[He H]|(st & He & H)]; destruct (Hstep _ H) as (o & m & -> & H');
      eexists; (split; [done|]); (split; [|done]); [by left|right; by exists st].
Qed.

Lemma mon_run_ok evs s : mon_ok s → ∃ s', mon_run visit evs s = Some s' ∧ mon_ok s' ∧ length (mo_stops s') = length (mo_stops s).
Proof.
  revert s. induction evs as [|ev evs IH]; intros s Hok; [by exists s|]. cbn [mon_run].
  destruct (mon_step_ok ev s Hok) as (s1 & -> & H1 & Hl). cbn [mbind option_bind].
  destruct (IH s1 H1) as (s2 & -> & H2 & Hl2). exists s2. by rewrite Hl2, Hl.
Qed.

Lemma mon_initial_ok n : (n ≤ 1)%nat → mon_ok (mon_initial n).
Proof. intros Hn. destruct n as [|[|n]]; [by left|right; by exists SpStop|lia]. Qed.

(** The events that let a [Stop] return. *)
Definition stop_events : list mon_event := [EvStop 0; EvMonitor None; EvMonitor None; EvStop 0; EvStop 0].

Lemma stop_events_end s st :
  mo_stops s = [st] → mon_ok s → ∃ s', mon_run visit stop_events s = Some s' ∧ mo_stops s' = [SpEnd].
Proof.
  intros Hs [[He _]|(st' & He & Hc & Hp & Hd & Hst)]; [by rewrite Hs in He|].
  rewrite Hs in He. injection He as <-. destruct s as [[lsnd lrcv [cap buf cl] sp dn] th stops].
  cbn in *. subst stops cl sp dn. destruct st, th; try done; eexists; split; cbn; reflexivity.
Qed.
End threads.

Lemma count_le last l : count last l ≤ Z.of_nat (length l).
Proof.
  unfold count. induction l as [|e l IH]; [done|]. rewrite total_cons, length_cons.
  unfold changed, over. destruct (last !! e.1); [destruct (bool_decide _)|]; cbn [negb]; lia.
Qed.

(** ** Properties *)

(** C30: The loss rate reported for what is received is the rounded quotient of the
    packets lost by the packets received since the last interval, over all the
    streams that received something, and does not depend on the order they are
    visited in; the divisor is positive. *)
Theorem receiver_loss_rate (visit : ssrc_stats → list (Z * stats)) last rcv :
  let l := map_to_list rcv in
  visit rcv ≡ₚ l → sane_streams last l → Z.of_nat (length l) < 2 ^ 53 →
  total last lost_plain l < 2 ^ 53 → total last received_plain l < 2 ^ 53 → 0 < count last l →
  0 < total last received_plain l ∧
  ∃ jit, getAvgReceiverStats visit last rcv =
    (f64_div (f64_of_Z (total last lost_plain l)) (f64_of_Z (total last received_plain l)), jit,
     f64_of_Z (count last l)).
Proof.
  intros l Hv Hs Hn Hl Hr Hc.
  pose proof (total_ext last lost_diff lost_plain l (λ e p He Hp, lost_diff_plain _ _ (Hs e p He Hp))) as El.
  pose proof (total_ext last received_diff received_plain l
    (λ e p He Hp, received_diff_plain _ _ (Hs e p He Hp))) as Er.
  split.
  - enough (count last l ≤ total last received_plain l) by lia. apply total_le. intros e p He Hp Hch.
    destruct (Hs e p He Hp) as [? _]. unfold changed in Hch. rewrite Hp in Hch.
    destruct (bool_decide_reflect (In_PacketsReceived e.2 = In_PacketsReceived p)); [done|].
    unfold received_plain. lia.
  - pose proof (count_le last l). destruct (receiver_average visit last rcv) as [jit Hj];
      fold l; rewrite ?El, ?Er; [done|lia..|]. exists jit. rewrite Hj. fold l.
    by rewrite El, Er, bool_decide_false by lia.
Qed.

(** The goroutine, a reader of the channel and one [Stop] never panic, whatever
    their order, and [Stop] can always return. *)
Theorem monitor_stops (visit : ssrc_stats → list (Z * stats)) evs n :
  (n ≤ 1)%nat →
  ∃ s, mon_run visit evs (mon_initial n) = Some s ∧
    (n = 1%nat → ∃ s', mon_run visit stop_events s = Some s' ∧ mo_stops s' = [SpEnd]).
Proof.
  intros Hn. destruct (mon_run_ok visit evs _ (mon_initial_ok n Hn)) as (s & Hrun & Hok & Hl).
  exists s. split; [done|]. intros ->. cbn in Hl.
  destruct (mo_stops s) as [|st [|]] eqn:Hs; [done| |done]. by eapply stop_events_end.
Qed.

(** A second [Stop] panics. *)
Theorem second_stop_panics (visit : ssrc_stats → list (Z * stats)) :
  mon_run visit [EvStop 0; EvStop 1] (mon_initial 2) = None.
Proof. reflexivity. Qed.

(** ** Witnesses *)
Definition toy_stats (received sent : Z) : stats := {|
  Out_PacketsSent := 0; RemoteIn_FractionLost := f64_zero; RemoteIn_Jitter := f64_zero;
  In_PacketsReceived := received; In_Jitter := f64_zero; RemoteOut_PacketsSent := sent |}.

Lemma receiver_loss_rate_witness :
  let last : ssrc_stats := {[1 := toy_stats 100 100; 2 := toy_stats 50 50]} in
  let rcv : ssrc_stats := {[1 := toy_stats 190 200; 2 := toy_stats 50 60]} in
  0 < total last received_plain (map_to_list rcv) ∧
  ∃ jit, getAvgReceiverStats (λ m, map_to_list m) last rcv =
    (f64_div (f64_of_Z (total last lost_plain (map_to_list rcv)))
       (f64_of_Z (total last received_plain (map_to_list rcv))), jit, f64_of_Z (count last (map_to_list rcv))).
Proof.
  intros last rcv. apply (receiver_loss_rate (λ m, map_to_list m) last rcv).
  - done.
  - intros e p He Hp. destruct e as [k s]. apply elem_of_map_to_list in He. cbn in *. unfold rcv, last in *.
    apply lookup_insert_Some in He as [[<- <-]|[? He]].
    + vm_compute in Hp. injection Hp as <-. unfold sane. cbn. lia.
    + apply lookup_singleton_Some in He as [<- <-]. vm_compute in Hp. injection Hp as <-. unfold sane. cbn. lia.
  - vm_compute. done.
  - vm_compute. done.
  - vm_compute. done.
  - vm_compute. done.
Defined.

Lemma monitor_stops_witness :
  ∃ s, mon_run (λ m, map_to_list m) [EvMonitor (Some (∅, ∅)); EvStop 0; EvTake] (mon_initial 1) = Some s ∧
    (1%nat = 1%nat → ∃ s', mon_run (λ m, map_to_list m) stop_events s = Some s' ∧ mo_stops s' = [SpEnd]).
Proof. apply monitor_stops. lia. Defined.
