(* ===== verification/GoText.v ===== *)
(** * GoText: the parts of Go's strings, strconv and fmt the program uses

    A Go string is a Rocq [string] of bytes.  Separators are single
    characters, as they are everywhere in the program. *)
From stdpp Require Import pretty.
From Stdlib Require Import Ascii.
From S2P Require Import Prelude.

(** [strings.HasPrefix(s, p)]. *)
Definition HasPrefix (s p : string) : bool := String.prefix p s.

(** [strings.Contains(s, sep)] and [strings.Split(s, sep)] for a
    one-character separator. *)
Fixpoint Contains (c : ascii) (s : string) : bool :=
  match s with
  | EmptyString => false
  | String a s => bool_decide (a = c) || Contains c s
  end.

Fixpoint Split (c : ascii) (s : string) : list string :=
  match s with
  | EmptyString => [str0]
  | String a s =>
      if bool_decide (a = c) then str0 :: Split c s
      else match Split c s with
           | [] => [String a EmptyString]
           | x :: l => String a x :: l
           end
  end.

(** [utf8.ValidString]: every sequence of bytes is the shortest encoding of a
    code point that is not a surrogate. *)
Definition byte_in (lo hi : N) (a : ascii) : bool := (lo <=? N_of_ascii a)%N && (N_of_ascii a <=? hi)%N.

Fixpoint ValidString (s : string) : bool :=
  match s with
  | EmptyString => true
  | String a s =>
      if byte_in 0 127 a then ValidString s
      else if byte_in 194 223 a then
        match s with String b s => byte_in 128 191 b && ValidString s | _ => false end
      else if byte_in 224 239 a then
        match s with
        | String b (String c s) =>
            byte_in (if (N_of_ascii a =? 224)%N then 160 else 128) (if (N_of_ascii a =? 237)%N then 159 else 191) b
            && byte_in 128 191 c && ValidString s
        | _ => false
        end
      else if byte_in 240 244 a then
        match s with
        | String b (String c (String d s)) =>
            byte_in (if (N_of_ascii a =? 240)%N then 144 else 128) (if (N_of_ascii a =? 244)%N then 143 else 191) b
            && byte_in 128 191 c && byte_in 128 191 d && ValidString s
        | _ => false
        end
      else false
  end.

(** [%d] of an integer. *)
Definition Itoa (z : Z) : string := pretty z.

Definition digit (a : ascii) : option Z :=
  let n := Z.of_N (N_of_ascii a) in
  if (48 <=? n)%Z && (n <=? 57)%Z then Some (n - 48)%Z else None.

Fixpoint parse_digits (acc : Z) (s : string) : option Z :=
  match s with
  | EmptyString => Some acc
  | String a s => d ← digit a; parse_digits (acc * 10 + d)%Z s
  end.

(** [strconv.Atoi]: the value comes with the error, and is not zero when the
    number is out of range but the nearest [int]. *)
Definition atoi_unsigned (neg : bool) (s : string) : Z * option error :=
  match s with
  | EmptyString => (0%Z, Some (EText "invalid syntax"))
  | _ =>
      match parse_digits 0 s with
      | None => (0%Z, Some (EText "invalid syntax"))
      | Some n =>
          let z := if neg then (- n)%Z else n in
          if (max_int64 <? z)%Z then (max_int64, Some (EText "value out of range"))
          else if (z <? min_int64)%Z then (min_int64, Some (EText "value out of range"))
          else (z, None)
      end
  end.

Definition Atoi (s : string) : Z * option error :=
  match s with
  | EmptyString => (0%Z, Some (EText "invalid syntax"))
  | String a t =>
      if bool_decide (a = "-"%char) then atoi_unsigned true t
      else if bool_decide (a = "+"%char) then atoi_unsigned false t
      else atoi_unsigned false s
  end.

(** ** Splitting *)
Lemma sapp_nil s : str0 +:+ s = s.
Proof. reflexivity. Qed.
Lemma sapp_cons a s t : String a s +:+ t = String a (s +:+ t).
Proof. reflexivity. Qed.
Lemma sapp_nil_r s : s +:+ str0 = s.
Proof. induction s as [|a s IH]; [done|]. by rewrite sapp_cons, IH. Qed.
Lemma sapp_assoc s t u : (s +:+ t) +:+ u = s +:+ (t +:+ u).
Proof. induction s as [|a s IH]; [done|]. by rewrite !sapp_cons, IH. Qed.
Ltac sapp := rewrite ?sapp_nil, ?sapp_cons; cbn.

Lemma Split_nonempty c s : Split c s ≠ [].
Proof. destruct s as [|a s]; cbn; [done|]. case_bool_decide; [done|]. by destruct (Split c s). Qed.

Lemma Split_none c s : Contains c s = false → Split c s = [s].
Proof.
  induction s as [|a s IH]; cbn; [done|]. case_bool_decide; [done|]. cbn. intros Hs.
  by rewrite IH.
Qed.

Lemma Split_app c s t : Contains c s = false → Split c (s +:+ String c t) = s :: Split c t.
Proof.
  induction s as [|a s IH]; sapp; [by rewrite bool_decide_true|].
  case_bool_decide; [done|]. cbn. intros Hs. by rewrite IH.
Qed.

Lemma Contains_app c s t : Contains c (s +:+ t) = Contains c s || Contains c t.
Proof. induction s as [|a s IH]; sapp; [done|]. by rewrite IH, orb_assoc. Qed.

(** No field of a split holds the separator. *)
Lemma Split_fields c s : Forall (λ f, Contains c f = false) (Split c s).
Proof.
  induction s as [|a s IH]; cbn; [by repeat constructor|].
  case_bool_decide; [by constructor|]. destruct (Split c s) as [|x l].
  - constructor; [|constructor]. cbn. by rewrite bool_decide_false.
  - apply Forall_cons in IH as [Hx Hl]. constructor; [|done]. cbn. by rewrite bool_decide_false.
Qed.

(** [strings.Join]. *)
Fixpoint Join (c : ascii) (l : list string) : string :=
  match l with
  | [] => str0
  | [x] => x
  | x :: l => x +:+ String c (Join c l)
  end.

Lemma Join_Split c s : Join c (Split c s) = s.
Proof.
  induction s as [|a s IH]; cbn; [done|]. pose proof (Split_nonempty c s) as Hne.
  case_bool_decide as Ha.
  - subst. destruct (Split c s) as [|x l] eqn:E; [done|]. cbn. by rewrite <- IH.
  - destruct (Split c s) as [|x l] eqn:E; [done|]. destruct l; cbn in *; sapp; by rewrite IH.
Qed.

Lemma Split_Join c l :
  l ≠ [] → Forall (λ f, Contains c f = false) l → Split c (Join c l) = l.
Proof.
  induction l as [|x l IH]; intros Hne Hl; [done|]. apply Forall_cons in Hl as [Hx Hl].
  destruct l as [|y l]; [by apply Split_none|].
  change (Join c (x :: y :: l)) with (x +:+ String c (Join c (y :: l))).
  rewrite Split_app by done. by rewrite IH.
Qed.

Lemma HasPrefix_app p s : HasPrefix (p +:+ s) p = true.
Proof.
  unfold HasPrefix. induction p as [|a p IH]; sapp; [by destruct s|].
  by destruct (ascii_dec a a).
Qed.

(** ** Numbers *)
Lemma digit_pretty d : (d < 10)%N → digit (pretty_N_char d) = Some (Z.of_N d).
Proof.
  intros H. assert (d = 0 ∨ d = 1 ∨ d = 2 ∨ d = 3 ∨ d = 4 ∨ d = 5 ∨ d = 6 ∨ d = 7 ∨ d = 8 ∨ d = 9)%N
    as Hd by lia. by repeat destruct Hd as [->|Hd]; try subst.
Qed.

Lemma parse_digits_pretty x s : parse_digits 0 (pretty_N_go x s) = parse_digits (Z.of_N x) s.
Proof.
  revert s. induction (N.lt_wf_0 x) as [x _ IH]; intros s.
  destruct (decide (x = 0)%N) as [->|Hx]; [by rewrite pretty_N_go_0|].
  rewrite pretty_N_go_step by lia. rewrite IH by (apply N.div_lt; lia).
  cbn [parse_digits]. rewrite digit_pretty by (apply N.mod_lt; lia). cbn.
  f_equal. rewrite N2Z.inj_div, N2Z.inj_mod. pose proof (Z.div_mod (Z.of_N x) 10). lia.
Qed.

Lemma pretty_N_digits x : ∃ a t, pretty x = String a t ∧ is_Some (digit a) ∧
  parse_digits 0 (String a t) = Some (Z.of_N x).
Proof.
  destruct (decide (x = 0)%N) as [->|Hx]; [by exists "0"%char, str0|].
  assert (Hp : parse_digits 0 (pretty x) = Some (Z.of_N x)).
  { unfold pretty, pretty_N. rewrite decide_False by done. by rewrite parse_digits_pretty. }
  destruct (pretty x) as [|a t] eqn:E.
  - cbn in Hp. injection Hp as Hp. lia.
  - exists a, t. split_and!; [done| |done]. cbn in Hp. destruct (digit a); [eauto|done].
Qed.

Lemma digit_not_sign a : is_Some (digit a) → a ≠ "-"%char ∧ a ≠ "+"%char.
Proof. intros [d Hd]. split; intros ->; by cbn in Hd. Qed.

Lemma atoi_unsigned_pretty neg x :
  atoi_unsigned neg (pretty x) =
    let z := if neg then (- Z.of_N x)%Z else Z.of_N x in
    if (max_int64 <? z)%Z then (max_int64, Some (EText "value out of range"))
    else if (z <? min_int64)%Z then (min_int64, Some (EText "value out of range"))
    else (z, None).
Proof.
  destruct (pretty_N_digits x) as (a & t & -> & _ & Hp). unfold atoi_unsigned. by rewrite Hp.
Qed.

(** Reading back a printed [int]. *)
Lemma Atoi_Itoa z : (min_int64 ≤ z ≤ max_int64)%Z → Atoi (Itoa z) = (z, None).
Proof.
  intros Hz. unfold Itoa.
  assert (Hpos : ∀ x, (Z.of_N x ≤ max_int64)%Z → Atoi (pretty x) = (Z.of_N x, None)).
  { intros x Hx. pose proof (atoi_unsigned_pretty false x) as Hu.
    destruct (pretty_N_digits x) as (a & t & Heq & [Hm Hp]%digit_not_sign & _).
    rewrite Heq in *. unfold Atoi. rewrite !bool_decide_false by done. rewrite Hu. cbv zeta.
    destruct (Z.ltb_spec max_int64 (Z.of_N x)); [lia|].
    destruct (Z.ltb_spec (Z.of_N x) min_int64); [unfold min_int64 in *; lia|done]. }
  destruct z as [|p|p]; [done|apply (Hpos (N.pos p)); lia|].
  change (pretty (Z.neg p)) with (String "-" (pretty (N.pos p))).
  cbn [Atoi]. rewrite bool_decide_true by done. rewrite atoi_unsigned_pretty. cbv zeta.
  change (- Z.of_N (N.pos p))%Z with (Z.neg p).
  destruct (Z.ltb_spec max_int64 (Z.neg p)); [lia|].
  destruct (Z.ltb_spec (Z.neg p) min_int64); [lia|done].
Qed.

Lemma Itoa_inj z w : Itoa z = Itoa w → z = w.
Proof. apply pretty_Z_inj. Qed.

Lemma Contains_digits c s : digit c = None → is_Some (parse_digits 0 s) → Contains c s = false.
Proof.
  intros Hc. generalize 0%Z. induction s as [|a s IH]; intros acc; cbn; [done|].
  destruct (digit a) as [d|] eqn:Ha; cbn; [|by intros []].
  intros H. rewrite (IH _ H), bool_decide_false by congruence. done.
Qed.

Lemma Contains_Itoa c z : digit c = None → c ≠ "-"%char → Contains c (Itoa z) = false.
Proof.
  intros Hc Hm. unfold Itoa.
  assert (Hn : ∀ x : N, Contains c (pretty x) = false).
  { intros x. destruct (pretty_N_digits x) as (a & t & -> & _ & Hp).
    apply Contains_digits; [done|]. by rewrite Hp. }
  destruct z as [|p|p].
  - apply (Hn 0%N).
  - apply (Hn (N.pos p)).
  - change (pretty (Z.neg p)) with (String "-" (pretty (N.pos p))). cbn.
    rewrite Hn, bool_decide_false by done. done.
Qed.
