(* ===== verification/Random.v ===== *)
(** * Random: identifiers and secrets (service/random)

    The random bytes are the argument [data]: what [uuid.NewRandom] or
    [crypto/rand.Read] produced.  Both encodings (base32 with the z-base-32
    alphabet, base64 with the URL alphabet, the latter without padding) read
    the bytes as a stream of bits and cut it in groups of five or six. *)
From Stdlib Require Import Ascii.
From S2P Require Import Prelude GoText.

(** ** Definitions *)
Definition byte_bits (b : Z) : list bool :=
  Z.testbit b <$> [7; 6; 5; 4; 3; 2; 1; 0]%Z.

Definition bits_of (data : list Z) : list bool := data ≫= byte_bits.

(** The value of a group of bits, most significant first. *)
Definition group_value (g : list bool) : nat :=
  foldl (λ acc b, 2 * acc + Nat.b2n b) 0 g.

(** A short last group is filled with zeros. *)
Definition pad_group (k : nat) (g : list bool) : list bool :=
  g ++ replicate (k - length g) false.

Fixpoint groups (fuel k : nat) (bits : list bool) : list (list bool) :=
  match fuel, bits with
  | S fuel, _ :: _ => pad_group k (take k bits) :: groups fuel k (drop k bits)
  | _, _ => []
  end.

Definition alphabet_char (table : string) (v : nat) : ascii :=
  default zero (String.get v table).

Definition encode (table : string) (k : nat) (data : list Z) : list ascii :=
  (λ g, alphabet_char table (group_value g)) <$>
    groups (length (bits_of data)) k (bits_of data).

Definition charset : string := "ybndrfg8ejkmcpqxot1uwisza345h769".
Definition url_alphabet : string :=
  "ABCDEFGHIJKLMNOPQRSTUVWXYZabcdefghijklmnopqrstuvwxyz0123456789-_".

(** A base32 text is padded to a multiple of eight characters. *)
Definition base32_padding (l : list ascii) : list ascii :=
  replicate ((8 - length l `mod` 8) `mod` 8) "="%char.

(** [s[:n]] and [b.Truncate(n)] panic beyond the length. *)
Definition prefix_of (n : nat) (l : list ascii) : option (list ascii) :=
  if bool_decide (n ≤ length l) then Some (take n l) else None.

Definition NewID (uuid : list Z) : option string :=
  let l := encode charset 5 uuid in
  String.string_of_list_ascii <$> prefix_of 26 (l ++ base32_padding l).

(** How many bytes [NewSecureString(length)] reads, and what it makes of
    them; the two error returns are the failures of [rand.Read]. *)
Definition secure_bytes (len : nat) : nat := 1 + (len * 4) / 3.

Definition NewSecureString (read : nat → result (list Z)) (len : nat) : option (result string) :=
  match read (secure_bytes len) with
  | Err e => Some (Err e)
  | Ok data =>
      if bool_decide (length data ≠ secure_bytes len) then
        Some (Err (EText "failed to read enough data"))
      else (λ l, Ok (String.string_of_list_ascii l)) <$> prefix_of len (encode url_alphabet 6 data)
  end.

(** ** Lengths *)
Lemma length_bits_of data : length (bits_of data) = 8 * length data.
Proof.
  unfold bits_of. induction data as [|b data IH]; [done|].
  rewrite bind_cons, length_app, IH. cbn. lia.
Qed.

Lemma length_groups fuel k bits :
  0 < k → length bits ≤ fuel → length (groups fuel k bits) = (length bits + (k - 1)) / k.
Proof.
  intros Hk. revert bits. induction fuel as [|fuel IH]; intros bits Hf.
  - destruct bits; [|cbn in Hf; lia]. symmetry. apply Nat.div_small. cbn. lia.
  - destruct bits as [|b bits]; [symmetry; apply Nat.div_small; cbn; lia|].
    cbn [groups]. rewrite length_cons, IH by (rewrite length_drop; cbn in *; lia).
    rewrite length_drop. set (n := length (b :: bits)). assert (0 < n) by (cbn in n; lia).
    destruct (decide (k ≤ n)).
    + replace (n + (k - 1)) with (n - k + (k - 1) + 1 * k) by lia.
      rewrite Nat.div_add by lia. lia.
    + replace (n - k) with 0 by lia. rewrite (Nat.div_small (0 + _)) by lia.
      replace (n + (k - 1)) with (n - 1 + 1 * k) by lia.
      rewrite Nat.div_add, Nat.div_small by lia. done.
Qed.

Lemma length_encode table k data :
  0 < k → length (encode table k data) = (8 * length data + (k - 1)) / k.
Proof.
  intros Hk. unfold encode. rewrite length_fmap, length_groups, length_bits_of by (done || lia).
  done.
Qed.

(** ** Injectivity *)
Lemma foldl_bits_inj g1 g2 a1 a2 :
  length g1 = length g2 →
  foldl (λ acc b, 2 * acc + Nat.b2n b) a1 g1 = foldl (λ acc b, 2 * acc + Nat.b2n b) a2 g2 →
  a1 = a2 ∧ g1 = g2.
Proof.
  revert g2 a1 a2. induction g1 as [|b1 g1 IH]; intros [|b2 g2] a1 a2 Hl Hv; try done.
  cbn in Hl, Hv. destruct (IH g2 _ _ ltac:(lia) Hv) as [Ha ->].
  destruct b1, b2; cbn in Ha; split; try (f_equal; done); lia.
Qed.

Lemma group_value_bound g : group_value g < 2 ^ length g.
Proof.
  unfold group_value. enough (∀ a, foldl (λ acc b, 2 * acc + Nat.b2n b) a g < (a + 1) * 2 ^ length g)
    as H by (specialize (H 0); lia).
  induction g as [|b g IH]; intros a; cbn [foldl length]; [rewrite Nat.pow_0_r; lia|].
  eapply Nat.lt_le_trans; [apply IH|]. rewrite Nat.pow_succ_r'. destruct b; cbn [Nat.b2n]; nia.
Qed.

Lemma length_pad_group k g : length g ≤ k → length (pad_group k g) = k.
Proof. intros H. unfold pad_group. rewrite length_app, length_replicate. lia. Qed.

Lemma groups_length fuel k bits : Forall (λ g, length g = k) (groups fuel k bits).
Proof.
  revert bits. induction fuel as [|fuel IH]; intros [|b bits]; try constructor; [|apply IH].
  apply length_pad_group. rewrite length_take. lia.
Qed.

Lemma groups_inj fuel k b1 b2 :
  0 < k → length b1 = length b2 → length b1 ≤ fuel →
  groups fuel k b1 = groups fuel k b2 → b1 = b2.
Proof.
  intros Hk. revert b1 b2. induction fuel as [|fuel IH]; intros [|x b1] [|y b2] Hl Hf Hg;
    try done; [cbn in Hf; lia|].
  cbn [groups] in Hg. injection Hg as Hh Ht.
  set (l1 := x :: b1) in *. set (l2 := y :: b2) in *.
  rewrite <- (take_drop k l1), <- (take_drop k l2). f_equal.
  - unfold pad_group in Hh. apply app_inj_1 in Hh as [? _]; [done|].
    rewrite !length_take. lia.
  - apply IH; [rewrite !length_drop; lia| |done].
    rewrite length_drop. subst l1. cbn in *. lia.
Qed.

Lemma byte_bits_inj x y :
  (0 ≤ x < 256)%Z → (0 ≤ y < 256)%Z → byte_bits x = byte_bits y → x = y.
Proof.
  intros Hx Hy H. unfold byte_bits in H. cbn in H. apply Z.bits_inj'. intros n Hn.
  destruct (decide (8 ≤ n)%Z) as [H8|H8].
  - assert (Hhigh : ∀ z, (0 ≤ z < 256)%Z → Z.testbit z n = false).
    { intros z Hz. rewrite <- (Z.mod_small z (2 ^ 8)) by (cbn; lia).
      apply Z.mod_pow2_bits_high. lia. }
    by rewrite !Hhigh.
  - injection H as H7 H6 H5 H4 H3 H2 H1 H0.
    assert (n = 0 ∨ n = 1 ∨ n = 2 ∨ n = 3 ∨ n = 4 ∨ n = 5 ∨ n = 6 ∨ n = 7)%Z as Hc by lia.
    destruct Hc as [->|[->|[->|[->|[->|[->|[->| ->]]]]]]]; done.
Qed.

Definition is_byte (b : Z) : Prop := (0 ≤ b < 256)%Z.

Lemma bits_of_inj d1 d2 :
  Forall is_byte d1 → Forall is_byte d2 → length d1 = length d2 →
  bits_of d1 = bits_of d2 → d1 = d2.
Proof.
  intros H1. revert d2. induction H1 as [|x d1 Hx _ IH]; intros [|y d2] H2 Hl Hb; try done.
  apply Forall_cons in H2 as [Hy H2]. unfold bits_of in Hb. rewrite !bind_cons in Hb.
  apply app_inj_1 in Hb as [Hb1 Hb2]; [|done]. f_equal; [by apply byte_bits_inj|].
  apply IH; [done|cbn in Hl; lia|done].
Qed.

(** An alphabet is usable when it has a distinct character per group value. *)
Definition alphabet_ok (table : string) (k : nat) : bool :=
  forallb (λ i, forallb (λ j, bool_decide (i = j) ||
    negb (bool_decide (alphabet_char table i = alphabet_char table j))) (seq 0 (2 ^ k)))
    (seq 0 (2 ^ k)).

Lemma alphabet_char_inj table k i j :
  alphabet_ok table k = true → i < 2 ^ k → j < 2 ^ k →
  alphabet_char table i = alphabet_char table j → i = j.
Proof.
  unfold alphabet_ok. rewrite forallb_forall. intros H Hi Hj Heq.
  specialize (H i). rewrite forallb_forall in H. specialize (H ltac:(apply in_seq; lia) j ltac:(apply in_seq; lia)).
  apply orb_true_iff in H as [H|H]; [by apply bool_decide_eq_true in H|].
  apply negb_true_iff, bool_decide_eq_false in H. done.
Qed.

Lemma encode_inj table k d1 d2 :
  0 < k → alphabet_ok table k = true → Forall is_byte d1 → Forall is_byte d2 →
  length d1 = length d2 → encode table k d1 = encode table k d2 → d1 = d2.
Proof.
  intros Hk Ht H1 H2 Hl He. unfold encode in He. rewrite !length_bits_of, Hl in He.
  apply bits_of_inj; [done..|]. apply (groups_inj (8 * length d2) k); [done| | |].
  - rewrite !length_bits_of. lia.
  - rewrite length_bits_of. lia.
  - pose proof (groups_length (8 * length d2) k (bits_of d1)) as G1.
    pose proof (groups_length (8 * length d2) k (bits_of d2)) as G2.
    revert He G1 G2. generalize (groups (8 * length d2) k (bits_of d1)).
    generalize (groups (8 * length d2) k (bits_of d2)). clear -Ht.
    intros l2 l1. revert l2. induction l1 as [|g1 l1 IH]; intros [|g2 l2] He G1 G2; try done.
    cbn in He. injection He as Hc He. apply Forall_cons in G1 as [L1 G1].
    apply Forall_cons in G2 as [L2 G2]. f_equal; [|by apply IH].
    apply (alphabet_char_inj table k) in Hc; [|done| |].
    + unfold group_value in Hc. apply foldl_bits_inj in Hc as [_ ?]; [done|congruence].
    + rewrite <- L1. apply group_value_bound.
    + rewrite <- L2. apply group_value_bound.
Qed.

Lemma NewID_spec uuid :
  length uuid = 16 → NewID uuid = Some (String.string_of_list_ascii (encode charset 5 uuid)) ∧
  length (encode charset 5 uuid) = 26.
Proof.
  intros H. assert (Hl : length (encode charset 5 uuid) = 26) by by rewrite length_encode, H by lia.
  split; [|done]. unfold NewID, prefix_of. rewrite bool_decide_true.
  - cbn [fmap option_fmap option_map]. by rewrite take_app_le, take_ge by lia.
  - rewrite length_app. lia.
Qed.

Lemma string_of_list_ascii_inj l1 l2 :
  String.string_of_list_ascii l1 = String.string_of_list_ascii l2 → l1 = l2.
Proof.
  intros H. rewrite <- (String.list_ascii_of_string_of_list_ascii l1), H.
  apply String.list_ascii_of_string_of_list_ascii.
Qed.

Lemma length_string_of_list l : String.length (String.string_of_list_ascii l) = length l.
Proof. induction l as [|a l IH]; cbn; [done|]. by rewrite IH. Qed.

(** Enough characters are encoded for the slice [[:length]]. *)
Lemma secure_prefix len data :
  length data = secure_bytes len →
  ∃ l, prefix_of len (encode url_alphabet 6 data) = Some l ∧
    String.length (String.string_of_list_ascii l) = len.
Proof.
  intros Hd. assert (Hlen : len ≤ (8 * length data + (6 - 1)) / 6).
  { rewrite Hd. unfold secure_bytes. apply Nat.div_le_lower_bound; [lia|].
    pose proof (Nat.div_mod_eq (len * 4) 3). pose proof (Nat.mod_upper_bound (len * 4) 3). lia. }
  unfold prefix_of. rewrite length_encode by lia. rewrite bool_decide_true by exact Hlen.
  eexists. split; [done|]. rewrite length_string_of_list, length_take, length_encode by lia. lia.
Qed.

(** ** Properties *)

(** [NewID] of a UUID never panics and keeps the whole UUID: two UUIDs
    with the same identifier are equal. *)
Theorem NewID_injective u1 u2 :
  length u1 = 16 → length u2 = 16 → Forall is_byte u1 → Forall is_byte u2 →
  is_Some (NewID u1) ∧ (NewID u1 = NewID u2 → u1 = u2).
Proof.
  intros L1 L2 B1 B2. destruct (NewID_spec u1 L1) as [-> _], (NewID_spec u2 L2) as [-> _].
  split; [done|]. intros [= H%string_of_list_ascii_inj].
  apply (encode_inj charset 5); [lia|vm_compute; reflexivity|done|done|congruence|done].
Qed.

Lemma NewID_injective_witness :
  NewID (replicate 16 0%Z) = Some "yyyyyyyyyyyyyyyyyyyyyyyyyy"%string ∧
  is_Some (NewID (replicate 16 255%Z)).
Proof.
  split; [vm_compute; reflexivity|].
  apply (NewID_injective (replicate 16 255%Z) (replicate 16 0%Z)); try reflexivity;
    repeat constructor; vm_compute; discriminate.
Defined.

(** [NewSecureString] of any length yields that many characters when the
    random source delivers: enough bytes are read, and the slice is in range. *)
Theorem NewSecureString_length read len data :
  read (secure_bytes len) = Ok data → length data = secure_bytes len →
  ∃ s, NewSecureString read len = Some (Ok s) ∧ String.length s = len.
Proof.
  intros Hr Hd. unfold NewSecureString. rewrite Hr, bool_decide_false by (intros H; by apply H).
  destruct (secure_prefix len data Hd) as (l & -> & Hl). eexists. split; [reflexivity|exact Hl].
Qed.

Lemma NewSecureString_length_witness :
  ∃ s, NewSecureString (λ n, Ok (replicate n 7%Z)) 32 = Some (Ok s) ∧ String.length s = 32.
Proof.
  apply (NewSecureString_length (λ n, Ok (replicate n 7%Z)) 32 (replicate 43 7%Z)); reflexivity.
Defined.
