(* ===== verification/RtcConfig.v ===== *)
(** * RtcConfig: configuration of the RTC server and its sessions
    (service/rtc/config.go, service/rtc/turn.go)

    A Go value of type [any] is an [any]; a pointer receiver that may be nil is
    an [option].  [net.ParseIP(a) != nil] is the argument [is_ip], the
    credential's HMAC the argument [mac]. *)
From Stdlib Require Import Ascii.
From S2P Require Import Prelude GoText.

(** ** Definitions *)
Inductive any :=
  | ANil
  | AString (s : string)
  | ABool (b : bool)
  | AInt (z : Z)
  | AFloat (bits : Z)
  | ASlice (l : list any)
  | AMap (m : gmap string any).

(** [v, _ := x.(string)] and [v, _ := x.(bool)]: the zero value otherwise. *)
Definition as_string (v : any) : string := match v with AString s => s | _ => str0 end.
Definition as_bool (v : any) : bool := match v with ABool b => b | _ => false end.
Definition as_slice (v : any) : list any := match v with ASlice l => l | _ => [] end.

(** [m[k]] of a [map[string]any]. *)
Definition any_at (m : gmap string any) (k : string) : any := default ANil (m !! k).

(** *** TURN *)
Definition MaxTURNCredentialsExpiration : Z := (7 * 24 * 60)%Z.

Record TURNConfig := {
  StaticAuthSecret : string;
  CredentialsExpirationMinutes : Z;
}.

Definition TURNConfig_IsValid (c : TURNConfig) : result unit :=
  if bool_decide (StaticAuthSecret c ≠ str0) then
    _ ← guard_err (CredentialsExpirationMinutes c <=? 0)%Z
      "invalid CredentialsExpirationMinutes value: should be a positive number";
    guard_err (MaxTURNCredentialsExpiration <=? CredentialsExpirationMinutes c)%Z
      "invalid CredentialsExpirationMinutes value: should be less than 1 week"
  else Ok tt.

(** [mac secret text] is the base64 of the HMAC-SHA1 of [text]; [now] is
    [time.Now()], in seconds where [Unix()] is taken. *)
Definition genTURNCredentials (mac : string → string → string) (now : Z)
    (username secret : string) (expirationTS : Z) : result (string * string) :=
  _ ← guard_err (bool_decide (username = str0)) "username should not be empty";
  _ ← guard_err (bool_decide (secret = str0)) "secret should not be empty";
  _ ← guard_err (expirationTS <=? 0)%Z "expirationTS should be a positive number";
  _ ← guard_err ((now + MaxTURNCredentialsExpiration * minute) / second <? expirationTS)%Z
    "expirationTS cannot be more than a week into the future";
  let username := Itoa expirationTS +:+ ":" +:+ username in
  Ok (username, mac secret username).

(** *** ICE servers *)
Record ICEServerConfig := {
  URLs : list string;
  Username : string;
  Credential : string;
}.
Definition ICEServers := list ICEServerConfig.

Definition non_empty {A} (l : list A) : bool := match l with [] => false | _ => true end.

Definition IsTURN (c : ICEServerConfig) : bool :=
  forallb (λ u, HasPrefix u "turn:" || HasPrefix u "turns:") (URLs c) && non_empty (URLs c).

Definition IsSTUN (c : ICEServerConfig) : bool :=
  forallb (λ u, HasPrefix u "stun:" || HasPrefix u "stuns:") (URLs c) && non_empty (URLs c).

Fixpoint valid_urls (c : ICEServerConfig) (urls : list string) : result unit :=
  match urls with
  | [] => Ok tt
  | u :: urls =>
      _ ← guard_err (bool_decide (u = str0)) "invalid empty URL";
      _ ← guard_err (negb (IsSTUN c) && negb (IsTURN c)) "URL is not a valid STUN/TURN server";
      valid_urls c urls
  end.

Definition ICEServerConfig_IsValid (c : ICEServerConfig) : result unit :=
  _ ← guard_err (negb (non_empty (URLs c))) "invalid empty URLs";
  valid_urls c (URLs c).

Fixpoint ICEServers_IsValid (s : ICEServers) : result unit :=
  match s with
  | [] => Ok tt
  | cfg :: s => _ ← ICEServerConfig_IsValid cfg; ICEServers_IsValid s
  end.

(** [cfg.URLs[0]] is in range: a STUN configuration has a URL. *)
Fixpoint getSTUN (s : ICEServers) : string :=
  match s with
  | [] => str0
  | cfg :: s => if IsSTUN cfg then default str0 (head (URLs cfg)) else getSTUN s
  end.

(** [json_urls] and [json_servers] are [json.Unmarshal] at the two types. *)
Definition ICEServers_Decode (json_urls : string → result (list string))
    (json_servers : string → result ICEServers) (value : string) : result ICEServers :=
  match json_urls value with
  | Ok urls => Ok [{| URLs := urls; Username := str0; Credential := str0 |}]
  | Err _ => json_servers value
  end.

Fixpoint servers_of_toml (d : list any) : result ICEServers :=
  match d with
  | [] => Ok []
  | obj :: d =>
      server ← match obj with
        | AString u => Ok {| URLs := [u]; Username := str0; Credential := str0 |}
        | AMap m => Ok {| URLs := as_string <$> as_slice (any_at m "urls");
                          Username := as_string (any_at m "username");
                          Credential := as_string (any_at m "credential") |}
        | _ => Err (EText "unknown type")
        end;
      servers ← servers_of_toml d;
      Ok (server :: servers)
  end.

Definition ICEServers_UnmarshalTOML (data : any) : result ICEServers :=
  match data with
  | ASlice d => servers_of_toml d
  | _ => Err (EText "invalid type")
  end.

(** One TURN server's configuration in the loop of [GenTURNConfigs]. *)
Fixpoint gen_turn_configs (mac : string → string → string) (now ts : Z)
    (username secret : string) (turnServers : ICEServers) : result ICEServers :=
  match turnServers with
  | [] => Ok []
  | cfg :: turnServers =>
      if bool_decide (Username cfg ≠ str0) || bool_decide (Credential cfg ≠ str0)
      then gen_turn_configs mac now ts username secret turnServers
      else
        '(u, p) ← genTURNCredentials mac now username secret ts;
        configs ← gen_turn_configs mac now ts username secret turnServers;
        Ok ({| URLs := URLs cfg; Username := u; Credential := p |} :: configs)
  end.

Definition GenTURNConfigs (mac : string → string → string) (now : Z)
    (turnServers : ICEServers) (username secret : string) (expiryMinutes : Z) :
    result ICEServers :=
  gen_turn_configs mac now ((now + wrap_int 64 (expiryMinutes * minute)) / second) username secret turnServers.

(** *** The host port override *)
Definition SinglePort (s : option string) : Z :=
  match s with
  | None => 0%Z
  | Some s => fst (Atoi s)
  end.

(** The loop over the pairs; the key set of [ports] holds the ports seen. *)
Fixpoint parse_pairs (pairs : list string) (m : gmap string Z) (ports : gset Z) :
    result (gmap string Z) :=
  match pairs with
  | [] => Ok m
  | p :: pairs =>
      match Split "/" p with
      | [addr; num] =>
          let '(port, err) := Atoi num in
          match err with
          | Some e => Err (EWrap "failed to parse port number" e)
          | None =>
              if bool_decide (is_Some (m !! addr)) then
                Err (EText ("duplicate mapping found for " +:+ addr))
              else if bool_decide (port ∈ ports) then
                Err (EText ("duplicate port found for " +:+ Itoa port))
              else parse_pairs pairs (<[addr:=port]> m) ({[port]} ∪ ports)
          end
      | _ => Err (EText "invalid map pairing syntax")
      end
  end.

(** A nil map is the empty one: the callers only read it. *)
Definition ParseMap (s : option string) : result (gmap string Z) :=
  match s with
  | None => Err (EText "should not be nil")
  | Some s => if bool_decide (s = str0) then Ok ∅ else parse_pairs (Split "," s) ∅ ∅
  end.

Definition port_range (port : Z) : bool := negb ((port <? 80)%Z || (49151 <? port)%Z).

Definition ICEHostPortOverride_IsValid (s : option string) : result unit :=
  match s with
  | None => Err (EText "should not be nil")
  | Some str =>
      if bool_decide (str = str0) then Ok tt
      else
        let port := SinglePort s in
        if negb (port =? 0)%Z then
          guard_err (negb (port_range port)) (Itoa port +:+ " is not in allowed range [80, 49151]")
        else
          _ ← wrap_err "failed to parse mapping" (ParseMap s);
          Ok tt
  end.

Definition ICEHostPortOverride_UnmarshalTOML (data : any) : result string :=
  match data with
  | AString s => Ok s
  | AInt z => Ok (Itoa z)
  | _ => Err (EText "unknown type")
  end.

(** *** The server's and the session's configuration *)
Record ServerConfig := {
  ICEAddressUDP : string;
  ICEPortUDP : Z;
  ICEAddressTCP : string;
  ICEPortTCP : Z;
  ICEHostOverride : string;
  ICEHostPortOverride : string;
  cfgICEServers : ICEServers;
  cfgTURNConfig : TURNConfig;
  EnableIPv6 : bool;
  UDPSocketsCount : Z;
}.

Definition ServerConfig_IsValid (is_ip : string → bool) (c : ServerConfig) : result unit :=
  _ ← guard_err (bool_decide (ICEAddressUDP c ≠ str0) && negb (is_ip (ICEAddressUDP c)))
    "invalid ICEAddressUDP value: not a valid address";
  _ ← guard_err (bool_decide (ICEAddressTCP c ≠ str0) && negb (is_ip (ICEAddressTCP c)))
    "invalid ICEAddressTCP value: not a valid address";
  _ ← guard_err (negb (port_range (ICEPortUDP c)))
    ("invalid ICEPortUDP value: " +:+ Itoa (ICEPortUDP c) +:+ " is not in allowed range [80, 49151]");
  _ ← guard_err (negb (port_range (ICEPortTCP c)))
    ("invalid ICEPortTCP value: " +:+ Itoa (ICEPortTCP c) +:+ " is not in allowed range [80, 49151]");
  _ ← wrap_err "invalid ICEServers value" (ICEServers_IsValid (cfgICEServers c));
  _ ← wrap_err "invalid TURNConfig" (TURNConfig_IsValid (cfgTURNConfig c));
  _ ← wrap_err "invalid ICEHostPortOverride value"
    (ICEHostPortOverride_IsValid (Some (ICEHostPortOverride c)));
  guard_err (UDPSocketsCount c <=? 0)%Z
    "invalid UDPSocketsCount value: should be greater than 0".

(** [Props] is nil or a map. *)
Record SessionConfig := {
  GroupID : string;
  CallID : string;
  UserID : string;
  SessionID : string;
  Props : option (gmap string any);
}.

Definition prop_at (p : option (gmap string any)) (k : string) : any :=
  match p with None => ANil | Some m => any_at m k end.
Definition ChannelID (p : option (gmap string any)) : string := as_string (prop_at p "channelID").
Definition AV1Support (p : option (gmap string any)) : bool := as_bool (prop_at p "av1Support").
Definition DCSignaling (p : option (gmap string any)) : bool := as_bool (prop_at p "dcSignaling").

Definition SessionConfig_IsValid (c : SessionConfig) : result unit :=
  _ ← guard_err (bool_decide (GroupID c = str0)) "invalid GroupID value: should not be empty";
  _ ← guard_err (bool_decide (CallID c = str0)) "invalid CallID value: should not be empty";
  _ ← guard_err (bool_decide (UserID c = str0)) "invalid UserID value: should not be empty";
  guard_err (bool_decide (SessionID c = str0)) "invalid SessionID value: should not be empty".

(** [c.FromMap(m)] overwrites every field of a non-nil [c]. *)
Definition FromMap (c : option SessionConfig) (m : option (gmap string any)) :
    result SessionConfig :=
  match c, m with
  | None, _ => Err (EText "invalid nil config")
  | _, None => Err (EText "invalid nil map")
  | Some _, Some m =>
      Ok {| GroupID := as_string (any_at m "groupID");
            CallID := as_string (any_at m "callID");
            UserID := as_string (any_at m "userID");
            SessionID := as_string (any_at m "sessionID");
            Props := Some (<["channelID" := any_at m "channelID"]>
                           (<["av1Support" := any_at m "av1Support"]>
                            {["dcSignaling" := any_at m "dcSignaling"]})) |}
  end.

(** ** ICE servers *)
Lemma valid_urls_ok c urls :
  valid_urls c urls = Ok tt ↔
  Forall (λ u, u ≠ str0) urls ∧ (urls ≠ [] → IsSTUN c = true ∨ IsTURN c = true).
Proof.
  induction urls as [|u urls IH]; [naive_solver|]. cbn [valid_urls].
  autorewrite with ok. rewrite IH, bool_decide_eq_false, Forall_cons.
  rewrite <- negb_orb, negb_false_iff, orb_true_iff. naive_solver.
Qed.

Lemma ICEServerConfig_IsValid_iff c :
  ICEServerConfig_IsValid c = Ok tt ↔
  Forall (λ u, u ≠ str0) (URLs c) ∧ (IsSTUN c = true ∨ IsTURN c = true).
Proof.
  unfold ICEServerConfig_IsValid. autorewrite with ok. rewrite valid_urls_ok.
  unfold IsSTUN, IsTURN. destruct (URLs c); cbn; [|naive_solver].
  split; [naive_solver|]. intros [_ [H|H]]; done.
Qed.

Lemma ICEServers_IsValid_iff s :
  ICEServers_IsValid s = Ok tt ↔ Forall (λ c, ICEServerConfig_IsValid c = Ok tt) s.
Proof.
  induction s as [|c s IH]; [done|]. cbn [ICEServers_IsValid].
  autorewrite with ok. by rewrite Forall_cons, IH.
Qed.

Lemma getSTUN_spec s :
  Forall (λ c, ICEServerConfig_IsValid c = Ok tt) s →
  (getSTUN s ≠ str0 ∧ ∃ c, c ∈ s ∧ IsSTUN c = true ∧ head (URLs c) = Some (getSTUN s)) ∨
  (getSTUN s = str0 ∧ Forall (λ c, IsTURN c = true) s).
Proof.
  induction 1 as [|c s Hc Hs IH]; [by right|]. cbn [getSTUN].
  apply ICEServerConfig_IsValid_iff in Hc as [Hne Hk].
  destruct (IsSTUN c) eqn:Hst.
  - left. unfold IsSTUN in Hst. destruct (URLs c) as [|u us] eqn:Hu.
    { by rewrite andb_false_r in Hst. }
    apply Forall_cons in Hne as [Hne _]. split; [done|]. exists c. rewrite Hu.
    split_and!; [by left| |done]. unfold IsSTUN. by rewrite Hu.
  - destruct Hk as [|Hk]; [done|].
    destruct IH as [(H1 & c' & H2 & H3)|[H1 H2]]; [left|right; split; [done|by constructor]].
    split; [done|]. exists c'. split; [by right|done].
Qed.

(** ** The mapping of the host port override *)
Definition pair_of (p : string) (e : string * Z) : Prop :=
  ∃ num, Split "/" p = [fst e; num] ∧ Atoi num = (snd e, None).

Lemma parse_pairs_ok pairs m ports m' :
  parse_pairs pairs m ports = Ok m' ↔
  ∃ l, Forall2 pair_of pairs l ∧ NoDup l.*1 ∧ NoDup l.*2 ∧
    Forall (λ a, m !! a = None) l.*1 ∧ Forall (λ n, n ∉ ports) l.*2 ∧
    m' = list_to_map l ∪ m.
Proof.
  revert m ports. induction pairs as [|p pairs IH]; intros m ports; cbn [parse_pairs].
  { split.
    - intros [= <-]. exists []. split_and!; try constructor. cbn. by rewrite map_empty_union.
    - intros (l & Hl & _ & _ & _ & _ & ->). apply Forall2_nil_inv_l in Hl as ->.
      cbn. by rewrite map_empty_union. }
  split.
  - destruct (Split "/" p) as [|a [|num [|]]] eqn:Hp; try done.
    destruct (Atoi num) as [n [e|]] eqn:Hn; [done|].
    case_bool_decide as Ha; [done|]. case_bool_decide as Hport; [done|].
    rewrite <- eq_None_not_Some in Ha.
    intros (l & Hl & Hk & Hv & Hm & Hps & ->)%IH. exists ((a, n) :: l).
    rewrite !fmap_cons. cbn [fst snd].
    assert (a ∉ l.*1) as Hal.
    { intros Hin. rewrite Forall_forall in Hm. apply Hm in Hin. by simplify_map_eq. }
    split_and!.
    + constructor; [|done]. exists num. done.
    + by constructor.
    + constructor; [|done]. intros Hin. rewrite Forall_forall in Hps. apply Hps in Hin. set_solver.
    + constructor; [done|]. eapply Forall_impl; [exact Hm|]. cbn.
      intros x Hx. by apply lookup_insert_None in Hx as [? _].
    + constructor; [done|]. eapply Forall_impl; [exact Hps|]. set_solver.
    + cbn. rewrite <- insert_union_l. rewrite insert_union_r; [done|]. by apply not_elem_of_list_to_map.
  - intros (l & Hl & Hk & Hv & Hm & Hps & ->).
    apply Forall2_cons_inv_l in Hl as ([a n] & l' & (num & Hs & Hn) & Hl & ->).
    rewrite !fmap_cons in *. cbn [fst snd] in *.
    rewrite Hs, Hn. apply NoDup_cons in Hk as [Hk1 Hk2]. apply NoDup_cons in Hv as [Hv1 Hv2].
    apply Forall_cons in Hm as [Hm1 Hm2]. apply Forall_cons in Hps as [Hp1 Hp2].
    rewrite bool_decide_false by (rewrite Hm1; by intros []).
    rewrite bool_decide_false by done. apply IH. exists l'. split_and!; [done..| | |].
    + apply Forall_forall. intros x Hx. apply lookup_insert_None. split.
      * by eapply Forall_forall in Hm2.
      * by intros ->.
    + apply Forall_forall. intros x Hx. eapply Forall_forall in Hp2; [|done].
      apply not_elem_of_union. split; [|done]. rewrite elem_of_singleton. by intros ->.
    + cbn. rewrite <- insert_union_l, insert_union_r; [done|]. by apply not_elem_of_list_to_map.
Qed.

(** A mapping as an operator writes it: [addr/port,addr/port]. *)
Definition format_pair (e : string * Z) : string := fst e +:+ "/" +:+ Itoa (snd e).
Definition format_map (l : list (string * Z)) : string := Join "," (format_pair <$> l).

Definition plain (a : string) : Prop := Contains "/" a = false ∧ Contains "," a = false.

Lemma Split_format_pair e : plain (fst e) → Split "/" (format_pair e) = [fst e; Itoa (snd e)].
Proof.
  intros [H _]. unfold format_pair. change ("/" +:+ Itoa (snd e)) with (String "/" (Itoa (snd e))).
  rewrite Split_app by done. by rewrite Split_none by by apply Contains_Itoa.
Qed.

Lemma plain_format_pair e : plain (fst e) → Contains "," (format_pair e) = false.
Proof.
  intros [_ H]. unfold format_pair. rewrite !Contains_app, H. cbn.
  by apply Contains_Itoa.
Qed.

Definition int_ports (l : list (string * Z)) : Prop :=
  Forall (λ e, min_int64 ≤ snd e ≤ max_int64)%Z l.

Lemma pair_of_format e l' :
  plain (fst e) → (min_int64 ≤ snd e ≤ max_int64)%Z → pair_of (format_pair e) l' ↔ l' = e.
Proof.
  intros Hp Hr. unfold pair_of. rewrite Split_format_pair by done. split.
  - intros (num & [= E1 <-] & E2). rewrite Atoi_Itoa in E2 by done. simplify_eq.
    destruct e, l'. cbn in *. by simplify_eq.
  - intros ->. exists (Itoa (snd e)). by rewrite Atoi_Itoa.
Qed.

Lemma pairs_of_format l l' :
  Forall (λ e, plain (fst e)) l → int_ports l →
  Forall2 pair_of (format_pair <$> l) l' ↔ l' = l.
Proof.
  intros Hp Hr. revert l'. induction l as [|e l IH]; intros l'; cbn.
  - split; [by intros ->%Forall2_nil_inv_l|intros ->; constructor].
  - apply Forall_cons in Hp as [Hp1 Hp2]. apply Forall_cons in Hr as [Hr1 Hr2]. split.
    + intros (e' & l'' & He & Hl & ->)%Forall2_cons_inv_l.
      apply pair_of_format in He as ->; [|done..]. by apply IH in Hl as ->.
    + intros ->. constructor; [by apply pair_of_format|]. by apply IH.
Qed.

Lemma ParseMap_format_iff l m :
  l ≠ [] → Forall (λ e, plain (fst e)) l → int_ports l →
  ParseMap (Some (format_map l)) = Ok m ↔ NoDup l.*1 ∧ NoDup l.*2 ∧ m = list_to_map l.
Proof.
  intros Hne Hp Hr. unfold ParseMap, format_map.
  assert (Hs : Split "," (Join "," (format_pair <$> l)) = format_pair <$> l).
  { apply Split_Join; [by destruct l|]. apply Forall_fmap.
    eapply Forall_impl; [exact Hp|]. intros e. apply plain_format_pair. }
  rewrite bool_decide_false.
  2: { intros E. rewrite E in Hs. destruct l as [|e l]; [done|]. cbn in Hs.
       injection Hs as Hs _. unfold format_pair in Hs. by destruct (fst e). }
  rewrite Hs, parse_pairs_ok. setoid_rewrite pairs_of_format; [|done..].
  setoid_rewrite map_union_empty. split.
  - by intros (? & -> & ? & ? & _ & _ & ->).
  - intros (? & ? & ->). exists l. split_and!; try done; apply Forall_forall; set_solver.
Qed.

(** What [ParseMap] accepts is one-to-one. *)
Lemma ParseMap_inj s m a b n :
  ParseMap s = Ok m → m !! a = Some n → m !! b = Some n → a = b.
Proof.
  destruct s as [s|]; [|done]. unfold ParseMap. case_bool_decide.
  { intros [= <-]. by rewrite lookup_empty. }
  intros (l & _ & Hk & Hv & _ & _ & ->)%parse_pairs_ok. rewrite map_union_empty.
  rewrite <- !elem_of_list_to_map by done. rewrite !list_elem_of_lookup.
  intros [i Hi] [j Hj]. assert (i = j) as ->; [|congruence].
  eapply NoDup_lookup; [exact Hv| |]; rewrite list_lookup_fmap; [by rewrite Hi|by rewrite Hj].
Qed.

Lemma ICEHostPortOverride_IsValid_iff s :
  ICEHostPortOverride_IsValid (Some s) = Ok tt ↔
  s = str0 ∨ (80 ≤ SinglePort (Some s) ≤ 49151)%Z ∨
  (SinglePort (Some s) = 0%Z ∧ is_ok (ParseMap (Some s)) = true).
Proof.
  unfold ICEHostPortOverride_IsValid. case_bool_decide as Hs; [naive_solver|].
  generalize (SinglePort (Some s)). intros port.
  destruct (Z.eqb_spec port 0) as [Hp|Hp]; cbn [negb].
  - rewrite Hp. destruct (ParseMap (Some s)); cbn; [naive_solver|].
    split; [done|]. intros [?|[[]|[_ ?]]]; done.
  - rewrite guard_err_ok. unfold port_range.
    destruct (Z.ltb_spec port 80), (Z.ltb_spec 49151 port); cbn [negb orb];
      (split; [intros; try done; right; left; lia|intros [?|[?|[? _]]]; try done; lia]).
Qed.

(** ** TURN credentials *)
Lemma TURNConfig_IsValid_iff c :
  TURNConfig_IsValid c = Ok tt ↔
  StaticAuthSecret c = str0 ∨ (0 < CredentialsExpirationMinutes c < MaxTURNCredentialsExpiration)%Z.
Proof.
  unfold TURNConfig_IsValid. case_bool_decide as Hs.
  - autorewrite with ok. rewrite !Z.leb_gt. naive_solver.
  - split; [|done]. intros _. left. by destruct (decide (StaticAuthSecret c = str0)).
Qed.

(** The expiration a valid configuration asks for is always accepted. *)
Lemma genTURNCredentials_valid mac c now now' user :
  TURNConfig_IsValid c = Ok tt → StaticAuthSecret c ≠ str0 → user ≠ str0 → (0 ≤ now ≤ now')%Z →
  let ts := ((now + CredentialsExpirationMinutes c * minute) / second)%Z in
  genTURNCredentials mac now' user (StaticAuthSecret c) ts =
    Ok (Itoa ts +:+ ":" +:+ user, mac (StaticAuthSecret c) (Itoa ts +:+ ":" +:+ user)).
Proof.
  intros [|Hc]%TURNConfig_IsValid_iff Hs Hu Hn ts; [done|].
  unfold genTURNCredentials, guard_err. rewrite !bool_decide_false by done. cbn [mbind result_bind].
  assert (Hts : (60 * CredentialsExpirationMinutes c ≤ ts)%Z).
  { apply Z.div_le_lower_bound; unfold minute, second; lia. }
  assert (Hle : (ts ≤ (now' + MaxTURNCredentialsExpiration * minute) / second)%Z).
  { apply Z.div_le_mono; unfold MaxTURNCredentialsExpiration, minute, second in *; lia. }
  rewrite (proj2 (Z.leb_gt ts 0)) by lia. rewrite (proj2 (Z.ltb_ge _ ts)) by done. done.
Qed.

(** ** Session properties *)
Lemma SessionConfig_IsValid_iff c :
  SessionConfig_IsValid c = Ok tt ↔
  GroupID c ≠ str0 ∧ CallID c ≠ str0 ∧ UserID c ≠ str0 ∧ SessionID c ≠ str0.
Proof.
  unfold SessionConfig_IsValid. autorewrite with ok. by rewrite !bool_decide_eq_false.
Qed.

Lemma FromMap_props c m cfg :
  FromMap (Some c) (Some m) = Ok cfg →
  ChannelID (Props cfg) = as_string (any_at m "channelID") ∧
  AV1Support (Props cfg) = as_bool (any_at m "av1Support") ∧
  DCSignaling (Props cfg) = as_bool (any_at m "dcSignaling").
Proof.
  intros [= <-]. unfold ChannelID, AV1Support, DCSignaling, prop_at, any_at. cbn.
  by rewrite lookup_insert_eq, !(lookup_insert_ne _ "channelID"), lookup_insert_eq,
    !(lookup_insert_ne _ "av1Support"), lookup_singleton_eq.
Qed.

(** ** Properties *)

(** C40: A server configuration is valid exactly when its addresses are empty
    or IPs, its ports are in range, every ICE server has URLs, none empty,
    that are all STUN or all TURN, the TURN credentials last between a minute
    and a week when there is a secret, at least one UDP socket is asked for,
    and the host port override is empty, a port in range, or a text that reads
    as 0 and parses as a mapping. *)
Theorem server_config_valid_spec is_ip c :
  ServerConfig_IsValid is_ip c = Ok tt ↔
  (ICEAddressUDP c = str0 ∨ is_ip (ICEAddressUDP c) = true) ∧
  (ICEAddressTCP c = str0 ∨ is_ip (ICEAddressTCP c) = true) ∧
  (80 ≤ ICEPortUDP c ≤ 49151)%Z ∧ (80 ≤ ICEPortTCP c ≤ 49151)%Z ∧
  Forall (λ i, Forall (λ u, u ≠ str0) (URLs i) ∧ (IsSTUN i = true ∨ IsTURN i = true))
    (cfgICEServers c) ∧
  (StaticAuthSecret (cfgTURNConfig c) = str0 ∨
   (0 < CredentialsExpirationMinutes (cfgTURNConfig c) < 7 * 24 * 60)%Z) ∧
  (ICEHostPortOverride c = str0 ∨
   (80 ≤ SinglePort (Some (ICEHostPortOverride c)) ≤ 49151)%Z ∨
   SinglePort (Some (ICEHostPortOverride c)) = 0%Z ∧
   is_ok (ParseMap (Some (ICEHostPortOverride c))) = true) ∧
  (0 < UDPSocketsCount c)%Z.
Proof.
  unfold ServerConfig_IsValid. autorewrite with ok.
  rewrite ICEHostPortOverride_IsValid_iff, TURNConfig_IsValid_iff, ICEServers_IsValid_iff.
  setoid_rewrite ICEServerConfig_IsValid_iff. rewrite Z.leb_gt.
  assert (Hr : ∀ p, negb (port_range p) = false ↔ (80 ≤ p ≤ 49151)%Z).
  { intros p. unfold port_range.
    destruct (Z.ltb_spec p 80), (Z.ltb_spec 49151 p); cbn; split; (done || lia). }
  assert (Ha : ∀ a, bool_decide (a ≠ str0) && negb (is_ip a) = false ↔ a = str0 ∨ is_ip a = true).
  { intros a. rewrite andb_false_iff, bool_decide_eq_false, negb_false_iff.
    destruct (decide (a = str0)); naive_solver. }
  rewrite !Hr, !Ha. done.
Qed.

(** Parsing inverts formatting: a list of addresses and ports written as
    [addr/port,addr/port] parses exactly when no address and no port occurs
    twice, and to the map it writes. *)
Theorem override_map_roundtrip l m :
  l ≠ [] → Forall (λ e, plain (fst e)) l → int_ports l →
  ParseMap (Some (format_map l)) = Ok m ↔ NoDup l.*1 ∧ NoDup l.*2 ∧ m = list_to_map l.
Proof. apply ParseMap_format_iff. Qed.

Lemma override_map_roundtrip_witness :
  let l := [("10.0.0.1", 8443); ("10.0.0.2", 8444)]%string%Z in
  format_map l = "10.0.0.1/8443,10.0.0.2/8444"%string ∧
  ParseMap (Some (format_map l)) = Ok (list_to_map l).
Proof.
  intros l. split; [vm_compute; reflexivity|].
  apply (override_map_roundtrip l (list_to_map l)); [discriminate| | |].
  - repeat constructor.
  - repeat constructor; vm_compute; discriminate.
  - split_and!; [|..|reflexivity]; apply (bool_decide_unpack _); vm_compute; exact I.
Defined.

(** A valid configuration may map an address to a port that is outside
    the range a single port must be in, or that is not a port at all. *)
Theorem override_map_port_unchecked :
  ICEHostPortOverride_IsValid (Some "10.0.0.1/99999"%string) = Ok tt ∧
  ICEHostPortOverride_IsValid (Some "99999"%string) ≠ Ok tt ∧
  ParseMap (Some "10.0.0.1/99999"%string) = Ok {["10.0.0.1"%string := 99999%Z]}.
Proof. split_and!; [vm_compute; reflexivity|vm_compute; discriminate|vm_compute; reflexivity]. Qed.
