(* ===== verification/Utils.v ===== *)
(** * Utils: track identifiers and addresses (service/rtc/utils.go,
    service/rtc/net.go, client/utils.go)

    A [netip.Addr] is a value of the type [Addr] of the class [NetIP], whose
    operations are those of the standard library the code calls.  The random
    part of a track identifier is the argument [id] (what [random.NewID()]
    returned), the index of [pickRandom] the argument [n] (what [rand.Intn]
    returned).  Name resolution is the argument [lookup_ip]. *)
From stdpp Require Import pretty.
From Stdlib Require Import Ascii.
From S2P Require Import Prelude GoText Random.

(** ** Definitions *)
Definition trackTypeVoice : string := "voice".
Definition trackTypeScreen : string := "screen".
Definition trackTypeScreenAudio : string := "screen-audio".

Definition trackTypes : gmap string string :=
  <["voice" := trackTypeVoice]> (<["screen" := trackTypeScreen]>
    {["screen-audio" := trackTypeScreenAudio]}).

(** [s[0:8]] panics on a shorter string. *)
Definition first8 (s : string) : option string :=
  if bool_decide (8 ≤ String.length s) then Some (String.substring 0 8 s) else None.

Definition genTrackID (tt baseID id : string) : option string :=
  r ← first8 id; Some (tt +:+ "_" +:+ baseID +:+ "_" +:+ r).

Definition getTrackIndex (mimeType rid : string) : string := mimeType +:+ "_" +:+ rid.

Definition isValidTrackID (trackID : string) : bool :=
  match Split "_" trackID with
  | [t; _; _] => negb (bool_decide (default str0 (trackTypes !! t) = str0))
  | _ => false
  end.

(** The client's reading of a track identifier. *)
Definition ParseTrackID (trackID : string) : result (string * string) :=
  match Split "_" trackID with
  | t :: sessionID :: _ :: _ => Ok (t, sessionID)
  | _ => Err (EText ("invalid trackID " +:+ trackID))
  end.

Inductive codec_kind := KindUnknown | KindAudio | KindVideo.
#[export] Instance codec_kind_eq_dec : EqDecision codec_kind.
Proof. solve_decision. Defined.

Definition getTrackType (kind : codec_kind) : string :=
  match kind with
  | KindAudio => "audio"
  | KindVideo => "video"
  | KindUnknown => "unknown"
  end.

Definition pickRandom {E} (n : nat) (s : list E) : option E :=
  match s with [] => None | _ => s !! (n `mod` length s) end.

Lemma pickRandom_elem {A} n (l : list A) x : pickRandom n l = Some x → x ∈ l.
Proof. unfold pickRandom. destruct l; [done|]. apply list_elem_of_lookup_2. Qed.

Lemma pickRandom_none {A} n (l : list A) : pickRandom n l = None → l = [].
Proof.
  unfold pickRandom. destruct l as [|x l]; [done|]. intros H%lookup_ge_None.
  pose proof (Nat.mod_upper_bound n (length (x :: l)) ltac:(done)). lia.
Qed.

(** *** Addresses *)
Class NetIP (Addr : Type) := {
  addr_String : Addr → string;
  addr_IsLoopback : Addr → bool;
  addr_Is4 : Addr → bool;
  addr_Is6 : Addr → bool;
  addr_IsGlobalUnicast : Addr → bool;
  ParseAddr : string → result Addr;
}.

(** [resolveHost]: the first address the resolver finds; none is an empty
    string without an error. *)
Definition resolveHost (lookup_ip : string → string → result (list string))
    (host network : string) : result string :=
  match lookup_ip network host with
  | Err e => Err (EWrap ("failed to resolve host " +:+ host) e)
  | Ok addrs => Ok (default str0 (head addrs))
  end.

Section addrs.
  Context {Addr : Type} `{Countable Addr} {ip : NetIP Addr}.

Definition areAddressesSameStack (a b : Addr) : bool :=
  (addr_Is4 a && addr_Is4 b) || (addr_Is6 a && addr_Is6 b).

(** The filters of [getSystemIPs] on an interface: whether it is up, and its
    addresses ([None] when they could not be listed, and inside when one did
    not parse). *)
Definition keep_ip (dualStack : bool) (ip : Addr) : bool :=
  negb (negb dualStack && addr_Is6 ip) && negb (addr_Is6 ip && negb (addr_IsGlobalUnicast ip)).

Definition interface_ips (dualStack : bool) (iface : bool * option (list (option Addr))) : list Addr :=
  match iface with
  | (true, Some addrs) => List.filter (keep_ip dualStack) (omap id addrs)
  | _ => []
  end.

Definition getSystemIPs (dualStack : bool)
    (interfaces : result (list (bool * option (list (option Addr))))) : result (list Addr) :=
  match interfaces with
  | Err e => Err (EWrap "failed to get system interfaces" e)
  | Ok l => Ok (l ≫= interface_ips dualStack)
  end.

Definition addr_pair (external local : string) : string := external +:+ "/" +:+ local.

Definition override_pairs (hostOverrideAddr : Addr) (localIPs : list Addr) : list string :=
  omap (λ localAddr,
    if addr_IsLoopback localAddr
    then Some (addr_pair (addr_String localAddr) (addr_String localAddr))
    else if areAddressesSameStack hostOverrideAddr localAddr
    then Some (addr_pair (addr_String hostOverrideAddr) (addr_String localAddr))
    else None) localIPs.

Definition public_pairs (localIPs : list Addr) (publicAddrsMap : gmap Addr string) : list string :=
  (λ localAddr,
    let publicAddr := default str0 (publicAddrsMap !! localAddr) in
    addr_pair (if bool_decide (publicAddr = str0) then addr_String localAddr else publicAddr)
      (addr_String localAddr)) <$> localIPs.

Definition generateAddrsPairs (lookup_ip : string → string → result (list string))
    (localIPs : list Addr) (publicAddrsMap : gmap Addr string)
    (hostOverride : string) (dualStack : bool) : result (list string) :=
  if Contains "/" hostOverride then Ok (Split "," hostOverride)
  else
    hostOverrideIP ←
      (if bool_decide (hostOverride ≠ str0)
       then wrap_err "failed to resolve host"
              (resolveHost lookup_ip hostOverride (if dualStack then "ip" else "ip4"))
       else Ok str0);
    match localIPs with
    | [] => Ok []
    | first :: others =>
        if bool_decide (hostOverrideIP ≠ str0) then
          hostOverrideAddr ← wrap_err "failed to parse hostOverrideIP" (ParseAddr hostOverrideIP);
          if bool_decide (others = []) && areAddressesSameStack hostOverrideAddr first
          then Ok [addr_pair (addr_String hostOverrideAddr) (addr_String first)]
          else Ok (override_pairs hostOverrideAddr localIPs)
        else if bool_decide (publicAddrsMap = ∅) then Ok []
        else Ok (public_pairs localIPs publicAddrsMap)
    end.

Definition external_of_pair (p : string) : option string :=
  match Split "/" p with
  | [external; internal] => if bool_decide (external = internal) then None else Some external
  | _ => None
  end.

(** The keys of the map, all of whose values are [true]. *)
Definition getExternalAddrMapFromHostOverride (override : string)
    (publicAddrsMap : gmap Addr string) : gset string :=
  if bool_decide (override = str0) then list_to_set (snd <$> map_to_list publicAddrsMap)
  else if negb (Contains "/" override) then {[override]}
  else list_to_set (omap external_of_pair (Split "," override)).

End addrs.

(** ** Track identifiers *)
Lemma encode_chars (P : ascii → Prop) table k data :
  0 < k → (∀ v, v < 2 ^ k → P (alphabet_char table v)) → Forall P (encode table k data).
Proof.
  intros Hk HP. unfold encode. apply Forall_fmap.
  eapply Forall_impl; [apply groups_length|]. cbn. intros g Hg. apply HP. rewrite <- Hg.
  apply group_value_bound.
Qed.

Lemma Contains_false_iff c l :
  Contains c (String.string_of_list_ascii l) = false ↔ Forall (λ a, a ≠ c) l.
Proof.
  induction l as [|a l IH]; cbn; [by split|].
  rewrite orb_false_iff, bool_decide_eq_false, IH, Forall_cons. done.
Qed.

Lemma Contains_substring c n s :
  Contains c s = false → Contains c (String.substring 0 n s) = false.
Proof.
  revert n. induction s as [|a s IH]; intros [|n]; cbn; try done.
  rewrite !orb_false_iff. intros [-> Hs]. split; [done|]. by apply IH.
Qed.

(** The random part of a track identifier exists and holds no separator. *)
Lemma first8_NewID uuid :
  length uuid = 16 →
  ∃ id r, NewID uuid = Some id ∧ first8 id = Some r ∧ Contains "_" r = false.
Proof.
  intros Hu. destruct (NewID_spec uuid Hu) as [Hid Hl].
  exists (String.string_of_list_ascii (encode charset 5 uuid)), (String.substring 0 8
    (String.string_of_list_ascii (encode charset 5 uuid))).
  split_and!; [done| |].
  - unfold first8. rewrite bool_decide_true; [done|]. rewrite length_string_of_list. lia.
  - apply Contains_substring, Contains_false_iff, encode_chars; [lia|].
    assert (Hc : Forall (λ v, alphabet_char charset v ≠ "_"%char) (seq 0 (2 ^ 5))).
    { apply (bool_decide_unpack _). vm_compute. exact I. }
    rewrite Forall_forall in Hc. intros v Hv. apply Hc, elem_of_seq. lia.
Qed.

Lemma Split_genTrackID tt baseID r :
  Contains "_" tt = false → Contains "_" baseID = false → Contains "_" r = false →
  Split "_" (tt +:+ "_" +:+ baseID +:+ "_" +:+ r) = [tt; baseID; r].
Proof.
  intros H1 H2 H3. change (tt +:+ "_" +:+ baseID +:+ "_" +:+ r) with
    (tt +:+ String "_" (baseID +:+ String "_" r)).
  by rewrite !Split_app, Split_none.
Qed.

(** ** Addresses *)
Section addrs_facts.
  Context {Addr : Type} `{Countable Addr} {ip : NetIP Addr}.
  (** The text of an address holds no slash. *)
  Hypothesis addr_String_plain : ∀ a : Addr, Contains "/" (addr_String a) = false.

Lemma external_addr_pair e (a : Addr) :
  Contains "/" e = false →
  external_of_pair (addr_pair e (addr_String a)) =
    if bool_decide (e = addr_String a) then None else Some e.
Proof.
  intros He. unfold external_of_pair, addr_pair.
  change ("/" +:+ addr_String a) with (String "/" (addr_String a)).
  by rewrite Split_app, Split_none.
Qed.

Lemma override_pairs_external (o : Addr) locals p x :
  p ∈ override_pairs o locals → external_of_pair p = Some x → x = addr_String o.
Proof.
  unfold override_pairs. rewrite list_elem_of_omap. intros (a & _ & Hp) Hx.
  destruct (addr_IsLoopback a); [|destruct (areAddressesSameStack o a)]; [| |done];
    injection Hp as <-; rewrite external_addr_pair in Hx by done;
    case_bool_decide; by simplify_eq.
Qed.

Lemma public_pairs_external locals (m : gmap Addr string) p x :
  (∀ a y, m !! a = Some y → Contains "/" y = false) →
  p ∈ public_pairs locals m → external_of_pair p = Some x →
  x ∈ (list_to_set (snd <$> map_to_list m) : gset string).
Proof.
  intros Hm. unfold public_pairs. rewrite list_elem_of_fmap. intros (a & -> & _) Hx.
  destruct (m !! a) as [y|] eqn:Hy; cbn [default] in Hx.
  - cbn [from_option id] in Hx. case_bool_decide.
    + rewrite external_addr_pair in Hx by done. by rewrite bool_decide_true in Hx.
    + rewrite external_addr_pair in Hx by (by eapply Hm). case_bool_decide; simplify_eq.
      apply elem_of_list_to_set, list_elem_of_fmap. exists (a, x). split; [done|].
      by apply elem_of_map_to_list.
  - cbn [from_option] in Hx. rewrite bool_decide_true in Hx by done.
    rewrite external_addr_pair in Hx by done. by rewrite bool_decide_true in Hx.
Qed.

(** The override is an address and not a host name. *)
Definition literal_override (lookup_ip : string → string → result (list string)) (o : string) : Prop :=
  (∀ network, lookup_ip network o = Ok [o]) ∧ ∃ a, ParseAddr o = Ok a ∧ addr_String a = o.

Lemma generated_pairs_external lookup_ip locals (m : gmap Addr string) o dual pairs p x :
  (∀ a y, m !! a = Some y → Contains "/" y = false) →
  o = str0 ∨ Contains "/" o = true ∨ literal_override lookup_ip o →
  generateAddrsPairs lookup_ip locals m o dual = Ok pairs →
  p ∈ pairs → external_of_pair p = Some x →
  x ∈ getExternalAddrMapFromHostOverride o m.
Proof.
  intros Hm Ho Hg Hp Hx. unfold generateAddrsPairs, getExternalAddrMapFromHostOverride in *.
  destruct (Contains "/" o) eqn:Hslash; cbn [negb].
  { injection Hg as <-. rewrite bool_decide_false by (by intros ->).
    apply elem_of_list_to_set, list_elem_of_omap. eauto. }
  destruct (decide (o = str0)) as [->|Hne].
  - rewrite bool_decide_true by done. rewrite (bool_decide_false (str0 ≠ str0)) in Hg by auto.
    cbn in Hg. destruct locals as [|l locals]; [injection Hg as <-; by apply elem_of_nil in Hp|].
    rewrite bool_decide_false in Hg by auto.
    case_bool_decide; [injection Hg as <-; by apply elem_of_nil in Hp|].
    eapply public_pairs_external; [done| |done]. by assert (pairs = public_pairs (l :: locals) m)
      as <- by congruence.
  - destruct Ho as [->|[?|[Hl (a & Ha & Hs)]]]; [done|done|].
    rewrite (bool_decide_true (o ≠ str0)) in Hg by done. rewrite (bool_decide_false (o = str0)) by done.
    unfold resolveHost in Hg. rewrite Hl in Hg. cbn in Hg.
    destruct locals as [|l locals]; [injection Hg as <-; by apply elem_of_nil in Hp|].
    rewrite bool_decide_true in Hg by done. rewrite Ha in Hg. cbn in Hg.
    apply elem_of_singleton. rewrite <- Hs.
    destruct (bool_decide _ && _).
    + injection Hg as <-. apply list_elem_of_singleton in Hp as ->. rewrite external_addr_pair in Hx by done.
      case_bool_decide; by simplify_eq.
    + injection Hg as <-. apply (override_pairs_external a (l :: locals) p); [exact Hp|done].
Qed.

End addrs_facts.

(** A concrete address type: the hosts of 10.0.0.0/8 by number. *)
Definition subnet_netip : NetIP nat := {|
  addr_String := λ n, "10.0.0." +:+ pretty n;
  addr_IsLoopback := λ _, false;
  addr_Is4 := λ _, true;
  addr_Is6 := λ _, false;
  addr_IsGlobalUnicast := λ _, true;
  ParseAddr := λ s,
    if HasPrefix s "10.0.0." then
      match Atoi (String.substring 7 (String.length s) s) with
      | (z, None) => Ok (Z.to_nat z)
      | (_, Some e) => Err e
      end
    else Err (EText "unable to parse IP");
|}.

Lemma subnet_String_plain n : Contains "/" (addr_String (NetIP := subnet_netip) n) = false.
Proof.
  cbn. rewrite Contains_app. cbn. unfold pretty, pretty_nat.
  destruct (pretty_N_digits (N.of_nat n)) as (a & t & -> & _ & Hp).
  apply Contains_digits; [done|]. by rewrite Hp.
Qed.

(** ** Properties *)

(** A generated track identifier is valid and the client reads back the
    track's type and the session, for every track type and every session
    identifier without an underscore. *)
Theorem track_id_roundtrip tt baseID uuid :
  tt ∈ [trackTypeVoice; trackTypeScreen; trackTypeScreenAudio] →
  Contains "_" baseID = false → length uuid = 16 →
  ∃ id trackID, NewID uuid = Some id ∧ genTrackID tt baseID id = Some trackID ∧
    isValidTrackID trackID = true ∧ ParseTrackID trackID = Ok (tt, baseID).
Proof.
  intros Htt Hb Hu. destruct (first8_NewID uuid Hu) as (id & r & Hid & Hr & Hc).
  exists id. unfold genTrackID. rewrite Hr. eexists. split_and!; [done|reflexivity| |].
  - unfold isValidTrackID. rewrite Split_genTrackID; [|set_solver..].
    repeat (apply elem_of_cons in Htt as [->|Htt]; [vm_compute; reflexivity|]).
    by apply elem_of_nil in Htt.
  - unfold ParseTrackID. rewrite Split_genTrackID; [done| |done|done]. set_solver.
Qed.

Lemma track_id_roundtrip_witness :
  ∃ id trackID, NewID (replicate 16 0%Z) = Some id ∧
    genTrackID trackTypeVoice "sessionA" id = Some trackID ∧
    isValidTrackID trackID = true ∧ ParseTrackID trackID = Ok (trackTypeVoice, "sessionA"%string).
Proof.
  apply (track_id_roundtrip trackTypeVoice "sessionA" (replicate 16 0%Z)); [|reflexivity..].
  apply list_elem_of_here.
Defined.

(** The candidate port override reaches every external address the server
    announces: whatever pairs the NAT mapping has, when the host override is
    empty, a full mapping or an address, the external side of each pair that
    is not its own internal side is in the map [OnICECandidate] looks in. *)
Theorem external_addresses_covered {Addr : Type} `{Countable Addr} {ip : NetIP Addr}
    lookup_ip (locals : list Addr) (m : gmap Addr string) o dual pairs p x :
  (∀ a : Addr, Contains "/" (addr_String a) = false) →
  (∀ a y, m !! a = Some y → Contains "/" y = false) →
  o = str0 ∨ Contains "/" o = true ∨ literal_override (Addr := Addr) lookup_ip o →
  generateAddrsPairs lookup_ip locals m o dual = Ok pairs →
  p ∈ pairs → external_of_pair p = Some x →
  x ∈ getExternalAddrMapFromHostOverride o m.
Proof. intros Ha. by apply generated_pairs_external. Qed.

Lemma external_addresses_covered_witness :
  let m : gmap nat string := {[1 := "8.8.4.4"]}%string in
  generateAddrsPairs (ip := subnet_netip) (λ _ _, Err (EText "no such host"))
    [1; 2] m "" false = Ok ["8.8.4.4/10.0.0.1"; "10.0.0.2/10.0.0.2"]%string ∧
  "8.8.4.4"%string ∈ getExternalAddrMapFromHostOverride "" m.
Proof.
  intros m. split; [vm_compute; reflexivity|].
  apply (external_addresses_covered (ip := subnet_netip) (λ _ _, Err (EText "no such host"))
    [1; 2] m "" false ["8.8.4.4/10.0.0.1"; "10.0.0.2/10.0.0.2"]%string "8.8.4.4/10.0.0.1").
  - apply subnet_String_plain.
  - intros a y Ha. unfold m in Ha. apply lookup_singleton_Some in Ha as [_ <-]. reflexivity.
  - left. reflexivity.
  - vm_compute. reflexivity.
  - apply list_elem_of_here.
  - vm_compute. reflexivity.
Defined.

(** When the host override is a name, the announced address is the one it
    resolves to, and the port override never applies to it: the map holds the
    name alone. *)
Theorem host_name_override_not_covered {Addr : Type} `{Countable Addr} {ip : NetIP Addr}
    lookup_ip (local : Addr) (m : gmap Addr string) o dual resolved (a : Addr) :
  o ≠ str0 → Contains "/" o = false →
  (∀ network, lookup_ip network o = Ok [resolved]) → resolved ≠ str0 → resolved ≠ o →
  ParseAddr resolved = Ok a → addr_String a = resolved → areAddressesSameStack a local = true →
  generateAddrsPairs lookup_ip [local] m o dual = Ok [addr_pair resolved (addr_String local)] ∧
  resolved ∉ getExternalAddrMapFromHostOverride o m.
Proof.
  intros Ho Hs Hl Hr Hro Ha Hstr Hstack.
  unfold generateAddrsPairs, getExternalAddrMapFromHostOverride, resolveHost. rewrite Hs.
  rewrite (bool_decide_true (o ≠ str0)), (bool_decide_false (o = str0)) by done. rewrite Hl. cbn.
  rewrite bool_decide_true by done. rewrite Ha. cbn. rewrite Hstack, Hstr. cbn.
  split; [done|]. by rewrite elem_of_singleton.
Qed.

Lemma host_name_override_not_covered_witness :
  let lookup := (λ _ _, Ok ["10.0.0.9"])%string : string → string → result (list string) in
  generateAddrsPairs (ip := subnet_netip) lookup [1] ∅ "rtcd.example.com" false =
    Ok [addr_pair "10.0.0.9" "10.0.0.1"] ∧
  "10.0.0.9"%string ∉
    getExternalAddrMapFromHostOverride "rtcd.example.com" (∅ : gmap nat string).
Proof.
  intros lookup. apply (host_name_override_not_covered (ip := subnet_netip) lookup 1 ∅
    "rtcd.example.com" false "10.0.0.9" 9); first [discriminate|intros; reflexivity].
Defined.
