(* ===== verification/Dc.v ===== *)
(** * Dc: messages on the data channel (service/rtc/dc/msg.go)

    A message is a type byte followed by an optional payload.  [DcCodec] names
    what the code calls of msgpack (vmihailenco/msgpack) and of zlib: a decoder
    reads one value off the front of its input; [DcLaws] states that each
    decoder reads back what its encoder wrote, and that decompression undoes
    compression.  A [float64] is its 64 bits. *)
From stdpp Require Import pretty.
From Stdlib Require Import Ascii.
From S2P Require Import Prelude GoText.

Class DcCodec := {
  EncodeUint8 : Z → result string;
  EncodeType : Z → result string;
  EncodeBytes : string → result string;
  EncodeFloat64 : Z → result string;
  DecodeUint8 : string → result (Z * string);
  DecodeBytes : string → result (string * string);
  DecodeFloat64 : string → result (Z * string);
  zwriter : Type;
  zreader : Type;
  zlib_Write : string → result zwriter;
  zlib_Close : zwriter → result string;
  zlib_NewReader : string → result zreader;
  ReadAll : zreader → result string;
}.

Definition MessageTypePing : Z := 1.
Definition MessageTypePong : Z := 2.
Definition MessageTypeSDP : Z := 3.
Definition MessageTypeLossRate : Z := 4.
Definition MessageTypeRoundTripTime : Z := 5.
Definition MessageTypeJitter : Z := 6.

(** The dynamic types of a payload: none, [[]byte], [MessageSDP], whose
    underlying type is [[]byte], and [float64]. *)
Inductive payload :=
  | NoPayload
  | BytesPayload (data : string)
  | MessageSDP (data : string)
  | FloatPayload (bits : Z).
#[export] Instance payload_eq_dec : EqDecision payload.
Proof. solve_decision. Defined.

Section dc.
  Context `{DcCodec}.

Definition unpackData (data : string) : result string :=
  rd ← wrap_err "failed to create zlib reader" (zlib_NewReader data);
  wrap_err "failed to read zlib data" (ReadAll rd).

Definition packData (data : string) : result string :=
  wr ← wrap_err "failed to write zlib data" (zlib_Write data);
  wrap_err "failed to close zlib writer" (zlib_Close wr).

(** [enc.EncodeMulti(mt, payload)]. *)
Definition encode_payload (p : payload) : result string :=
  match p with
  | NoPayload => Ok str0
  | BytesPayload d | MessageSDP d => EncodeBytes d
  | FloatPayload b => EncodeFloat64 b
  end.

Definition encode_multi (mt : Z) (p : payload) : result string :=
  t ← EncodeType mt; d ← encode_payload p; Ok (t +:+ d).

(** [None]: the type assertion [payload.([]byte)] of an SDP message panics. *)
Definition EncodeMessage (mt : Z) (p : payload) : option (result string) :=
  match p with
  | NoPayload => Some (EncodeUint8 mt)
  | _ =>
      if bool_decide (mt = MessageTypeSDP) then
        match p with
        | BytesPayload d =>
            Some (z ← wrap_err "failed to pack payload" (packData d);
                  encode_multi mt (BytesPayload z))
        | _ => None
        end
      else Some (encode_multi mt p)
  end.

Definition DecodeMessage (msg : string) : result (Z * payload) :=
  '(t, rest) ← wrap_err "failed to decode dc message type" (DecodeUint8 msg);
  if bool_decide (t = MessageTypePong) then Ok (MessageTypePong, NoPayload)
  else if bool_decide (t = MessageTypePing) then Ok (MessageTypePing, NoPayload)
  else if bool_decide (t = MessageTypeSDP) then
    '(z, _) ← wrap_err "failed to decode sdp message" (DecodeBytes rest);
    unpacked ← wrap_err "failed to unpack sdp data" (unpackData z);
    Ok (MessageTypeSDP, BytesPayload unpacked)
  else if bool_decide (t = MessageTypeLossRate) || bool_decide (t = MessageTypeRoundTripTime) ||
          bool_decide (t = MessageTypeJitter) then
    '(b, _) ← wrap_err ("failed to decode message type " +:+ Itoa t) (DecodeFloat64 rest);
    Ok (t, FloatPayload b)
  else Err (EText ("unexpected dc message type: " +:+ Itoa t)).

(** The payload each type is documented to carry. *)
Definition typed (mt : Z) (p : payload) : Prop :=
  match p with
  | NoPayload => mt = MessageTypePing ∨ mt = MessageTypePong
  | BytesPayload _ => mt = MessageTypeSDP
  | MessageSDP _ => False
  | FloatPayload b =>
      (mt = MessageTypeLossRate ∨ mt = MessageTypeRoundTripTime ∨ mt = MessageTypeJitter) ∧
      (0 ≤ b < 2 ^ 64)%Z
  end.

End dc.

Class DcLaws (C : DcCodec) := {
  uint8_law t e rest : (0 ≤ t < 256)%Z → EncodeUint8 t = Ok e → DecodeUint8 (e +:+ rest) = Ok (t, rest);
  type_law t e rest : (0 ≤ t < 256)%Z → EncodeType t = Ok e → DecodeUint8 (e +:+ rest) = Ok (t, rest);
  bytes_law d e : EncodeBytes d = Ok e → DecodeBytes e = Ok (d, str0);
  float_law b e : (0 ≤ b < 2 ^ 64)%Z → EncodeFloat64 b = Ok e → DecodeFloat64 e = Ok (b, str0);
  zlib_law d wr z : zlib_Write d = Ok wr → zlib_Close wr = Ok z →
    ∃ rd, zlib_NewReader z = Ok rd ∧ ReadAll rd = Ok d;
}.

Section laws.
  Context {C : DcCodec} `{!DcLaws C}.

Lemma unpack_pack d z : packData d = Ok z → unpackData z = Ok d.
Proof.
  unfold packData, unpackData. rewrite bind_ok. setoid_rewrite wrap_err_ok.
  intros (wr & Hw & Hc). destruct (zlib_law _ _ _ Hw Hc) as (rd & -> & Hr). cbn. by rewrite Hr.
Qed.

Lemma encode_multi_ok mt p e :
  encode_multi mt p = Ok e → ∃ t d, EncodeType mt = Ok t ∧ encode_payload p = Ok d ∧ e = t +:+ d.
Proof.
  unfold encode_multi. rewrite bind_ok. intros (t & Ht & He). rewrite bind_ok in He.
  destruct He as (d & Hd & [= <-]). eauto.
Qed.

End laws.

(** A decoded message always has the payload of its type: no type assertion on
    it can fail. *)
Lemma DecodeMessage_typed `{DcCodec} msg mt p :
  DecodeMessage msg = Ok (mt, p) →
  (mt = MessageTypePing ∨ mt = MessageTypePong) ∧ p = NoPayload ∨
  mt = MessageTypeSDP ∧ (∃ d, p = BytesPayload d) ∨
  (mt = MessageTypeLossRate ∨ mt = MessageTypeRoundTripTime ∨ mt = MessageTypeJitter) ∧
    (∃ b, p = FloatPayload b).
Proof.
  unfold DecodeMessage. rewrite bind_ok. intros ([t rest] & _ & Ht). cbn in Ht.
  case_bool_decide as H1; [left; naive_solver|]. case_bool_decide as H2; [left; naive_solver|].
  case_bool_decide as H3; [right; left|].
  { rewrite bind_ok in Ht. destruct Ht as ([z u] & _ & Ht). cbn in Ht. rewrite bind_ok in Ht.
    destruct Ht as (d & _ & [= <- <-]). eauto. }
  right; right. destruct (_ || _) eqn:Hor; [|done]. rewrite bind_ok in Ht.
  destruct Ht as ([b u] & _ & [= <- <-]). split; [|eauto].
  apply orb_true_iff in Hor as [[Hor|Hor]%orb_true_iff|Hor]; apply bool_decide_eq_true in Hor; auto.
Qed.

(** A message whose type is not one of the six is refused. *)
Lemma DecodeMessage_unknown `{DcCodec} msg t rest :
  DecodeUint8 msg = Ok (t, rest) → (t < 1 ∨ 6 < t)%Z →
  DecodeMessage msg = Err (EText ("unexpected dc message type: " +:+ Itoa t)).
Proof.
  intros Hd Ht. unfold DecodeMessage. rewrite Hd. cbn.
  unfold MessageTypePong, MessageTypePing, MessageTypeSDP, MessageTypeLossRate,
    MessageTypeRoundTripTime, MessageTypeJitter.
  by repeat (rewrite bool_decide_false by lia).
Qed.

(** ** Properties *)

(** C39: encoding and decoding a data channel message are inverse: whatever
    [EncodeMessage] produces for a message with the payload its type carries
    decodes to the same type and payload, and the type assertion inside
    [EncodeMessage] cannot fail on such a message; a payload given with a ping
    or a pong is dropped by the decoder, and an SDP message without payload is
    encoded and then refused. *)
Theorem dc_roundtrip {C : DcCodec} `{!DcLaws C} mt p :
  (typed mt p → EncodeMessage mt p ≠ None ∧
     ∀ e, EncodeMessage mt p = Some (Ok e) → DecodeMessage e = Ok (mt, p)) ∧
  (mt = MessageTypePing ∨ mt = MessageTypePong → ∀ e, EncodeMessage mt p = Some (Ok e) →
     DecodeMessage e = Ok (mt, NoPayload)) ∧
  (∀ e, DecodeBytes str0 = Err e → ∀ b, EncodeMessage MessageTypeSDP NoPayload = Some (Ok b) →
     DecodeMessage b = Err (EWrap "failed to decode sdp message" e)).
Proof.
  assert (Hempty : ∀ t e, EncodeUint8 t = Ok e → (0 ≤ t < 256)%Z → DecodeUint8 e = Ok (t, str0)).
  { intros t e He Ht. rewrite <- (uint8_law _ _ str0 Ht He). f_equal. by rewrite sapp_nil_r. }
  split_and!.
  - intros Hty. destruct p as [|d|d|b]; cbn in Hty; [..|done|].
    + split; [done|]. intros e [= He]. unfold DecodeMessage.
      destruct Hty as [-> | ->]; rewrite (Hempty _ _ He) by done; done.
    + subst mt. split; [done|]. intros e [= He]. rewrite bind_ok in He.
      destruct He as (z & Hz & He). rewrite wrap_err_ok in Hz.
      apply encode_multi_ok in He as (t & u & Ht & Hu & ->). unfold DecodeMessage.
      rewrite (type_law MessageTypeSDP _ _ ltac:(done) Ht). cbn. rewrite (bytes_law _ _ Hu). cbn.
      by rewrite (unpack_pack _ _ Hz).
    + destruct Hty as [Hmt Hb]. assert (Hne : mt ≠ MessageTypeSDP) by (by destruct Hmt as [->|[->| ->]]).
      cbn. rewrite bool_decide_false by done. split; [done|]. intros e [= He].
      apply encode_multi_ok in He as (t & u & Ht & Hu & ->). unfold DecodeMessage.
      rewrite (type_law mt _ _ ltac:(by destruct Hmt as [->|[->| ->]]) Ht). cbn.
      rewrite (float_law _ _ Hb Hu). by destruct Hmt as [->|[->| ->]].
  - intros Hmt e He.
    assert (Hd : ∃ rest, DecodeUint8 e = Ok (mt, rest)).
    { destruct p as [|d|d|b]; cbn in He.
      + injection He as He. eexists. apply Hempty; [done|]. by destruct Hmt as [-> | ->].
      + rewrite bool_decide_false in He by (by destruct Hmt as [-> | ->]). injection He as He.
        apply encode_multi_ok in He as (t & u & Ht & _ & ->). eexists.
        apply (type_law mt _ _ ltac:(by destruct Hmt as [-> | ->]) Ht).
      + rewrite bool_decide_false in He by (by destruct Hmt as [-> | ->]). injection He as He.
        apply encode_multi_ok in He as (t & u & Ht & _ & ->). eexists.
        apply (type_law mt _ _ ltac:(by destruct Hmt as [-> | ->]) Ht).
      + rewrite bool_decide_false in He by (by destruct Hmt as [-> | ->]). injection He as He.
        apply encode_multi_ok in He as (t & u & Ht & _ & ->). eexists.
        apply (type_law mt _ _ ltac:(by destruct Hmt as [-> | ->]) Ht). }
    destruct Hd as [rest Hd]. unfold DecodeMessage. rewrite Hd. by destruct Hmt as [-> | ->].
  - intros e He b [= Hb]. unfold DecodeMessage. rewrite (Hempty _ _ Hb) by done. cbn. by rewrite He.
Qed.

(** The comments of the package say that an SDP message carries a
    [MessageSDP]: with one the assertion fails, and the caller crashes. *)
Theorem message_sdp_panics `{DcCodec} d : EncodeMessage MessageTypeSDP (MessageSDP d) = None.
Proof. done. Qed.

(** A concrete codec: a type is one character, bytes are themselves, a float
    its decimal digits, and compression prepends a character. *)
Module ToyDc.

Definition encode_type (t : Z) : result string := Ok (String (ascii_of_N (Z.to_N t)) str0).
Definition decode_type (s : string) : result (Z * string) :=
  match s with
  | String c s => Ok (Z.of_N (N_of_ascii c), s)
  | EmptyString => Err (EText "EOF")
  end.
Definition decode_float (s : string) : result (Z * string) :=
  match parse_digits 0 s with Some z => Ok (z, str0) | None => Err (EText "EOF") end.
Definition mark (s : string) : result string := Ok (String "x" s).
Definition unmark (s : string) : result string :=
  match s with String _ s => Ok s | EmptyString => Err (EText "unexpected EOF") end.

#[program] Definition toy_codec : DcCodec := {|
  EncodeUint8 := encode_type;
  EncodeType := encode_type;
  EncodeBytes := mark;
  EncodeFloat64 := λ b, Ok (pretty (Z.to_N b));
  DecodeUint8 := decode_type;
  DecodeBytes := λ s, d ← unmark s; Ok (d, str0);
  DecodeFloat64 := decode_float;
  zwriter := string;
  zreader := string;
  zlib_Write := Ok;
  zlib_Close := mark;
  zlib_NewReader := unmark;
  ReadAll := Ok;
|}.

Lemma toy_codec_laws : DcLaws toy_codec.
Proof.
  assert (Htype : ∀ t e rest, (0 ≤ t < 256)%Z → encode_type t = Ok e →
    decode_type (e +:+ rest) = Ok (t, rest)).
  { intros t e rest Ht [= <-]. unfold decode_type. rewrite sapp_cons, sapp_nil.
    rewrite N_ascii_embedding by lia. by rewrite Z2N.id by lia. }
  split; cbn.
  - exact Htype.
  - exact Htype.
  - by intros d e [= <-].
  - intros b e Hb [= <-]. unfold decode_float.
    destruct (pretty_N_digits (Z.to_N b)) as (a & t & -> & _ & ->). by rewrite Z2N.id by lia.
  - intros d wr z [= <-] [= <-]. exists d. done.
Qed.

End ToyDc.

Lemma dc_roundtrip_witness :
  @DecodeMessage ToyDc.toy_codec (String "003" "xxoffer") =
    Ok (MessageTypeSDP, BytesPayload "offer").
Proof.
  destruct (dc_roundtrip (DcLaws0 := ToyDc.toy_codec_laws) MessageTypeSDP (BytesPayload "offer"))
    as [H _].
  apply H; [reflexivity|vm_compute; reflexivity].
Defined.
