(* ===== verification/Pion.v ===== *)
(** * Pion: the WebRTC library the server drives

    The library (github.com/pion) is not part of the program.  [Pion] names the
    operations the program calls on an abstract library state [rtc];
    [PionLaws] states what the program relies on; [Toy] is a concrete instance
    that satisfies the laws, for the witnesses.

    A value of a pointer type is compared by identity in the source: [pc],
    [sender], [track], [remote] and [bwe] have decidable equality.  A [track]
    is a [webrtc.TrackLocal]; all the program creates are
    [TrackLocalStaticRTP], whose identifier, kind, RID and codec are fixed at
    creation. *)
From S2P Require Import Prelude RtcConfig Utils Dc.

(** [sdp.Type] *)
Inductive sdp_type := SDPOffer | SDPPranswer | SDPAnswer | SDPRollback | SDPUnknown.
#[export] Instance sdp_type_eq_dec : EqDecision sdp_type.
Proof. solve_decision. Defined.

(** [rtp.Packet]: the fields the program reads or writes, and the rest of the
    header. *)
Record rtp_packet (H : Type) := {
  Padding : bool;
  PaddingSize : Z;
  Extension : bool;
  Extensions : list (Z * string);
  Payload : string;
  rtp_rest : H;
}.
Arguments Padding {H} _.
Arguments PaddingSize {H} _.
Arguments Extension {H} _.
Arguments Extensions {H} _.
Arguments Payload {H} _.
Arguments rtp_rest {H} _.

(** [webrtc.ICECandidate]: likewise. *)
Record ice_candidate (R : Type) := {
  Typ_host : bool;
  Address : string;
  Port : Z;
  ice_rest : R;
}.
Arguments Typ_host {R} _.
Arguments Address {R} _.
Arguments Port {R} _.
Arguments ice_rest {R} _.

(** Codecs and settings of a peer connection. *)
Record RTPCodecCapability := {
  MimeType : string;
  ClockRate : Z;
  Channels : Z;
  SDPFmtpLine : string;
  RTCPFeedback : list (string * string);
}.
Record RTPCodecParameters := {
  codec_capability : RTPCodecCapability;
  PayloadType : Z;
}.

Inductive network_type := NetworkTypeUDP4 | NetworkTypeTCP4 | NetworkTypeUDP6 | NetworkTypeTCP6.
Record SettingEngine := {
  NetworkTypes : list network_type;
  NAT1To1IPs : list string;
  SCTPZeroChecksum : bool;
  MulticastDNSDisabled : bool;
  IncludeLoopback : bool;
  SkipHelloVerify : bool;
  engine_udpMux : list string;
  engine_tcpMux : option string;
}.

(** [io.ErrClosedPipe] and [io.EOF]. *)
Definition ErrClosedPipe : error := EText "io: read/write on closed pipe".
Definition io_EOF : error := EText "EOF".

Class Pion := {
  rtc : Type;
  pc : Type;
  sender : Type;
  track : Type;
  remote : Type;
  bwe : Type;
  sdp : Type;
  candidate : Type;
  #[global] pc_eq_dec :: EqDecision pc;
  #[global] sender_eq_dec :: EqDecision sender;
  #[global] track_eq_dec :: EqDecision track;
  #[global] remote_eq_dec :: EqDecision remote;

  (** Tracks. *)
  track_ID : track → string;
  track_Kind : track → codec_kind;
  track_RID : track → string;
  track_MimeType : track → string;
  track_isStatic : track → bool;
  NewTrackLocalStaticRTP : string → string → string → string → rtc → result track * rtc;
  remote_Kind : remote → codec_kind;
  remote_MimeType : remote → string;
  remote_StreamID : remote → string;
  remote_RID : remote → string;
  remote_SSRC : remote → Z;
  MimeTypeVP8 : string;
  MimeTypeAV1 : string;

  (** Senders and the connection. *)
  GetSenders : pc → rtc → list sender;
  sender_Track : sender → rtc → option track;
  ReplaceTrack : sender → option track → rtc → result unit * rtc;
  sender_Stop : sender → rtc → result unit * rtc;
  AddTrack : pc → track → rtc → result sender * rtc;
  RemoveTrack : pc → sender → rtc → result unit * rtc;
  pc_Close : pc → rtc → rtc;

  (** Negotiation. *)
  CreateOffer : pc → rtc → result sdp * rtc;
  CreateAnswer : pc → rtc → result sdp * rtc;
  SetLocalDescription : pc → sdp → rtc → result unit * rtc;
  SetRemoteDescription : pc → sdp → rtc → result unit * rtc;
  LocalDescription : pc → rtc → option sdp;
  SignalingStable : pc → rtc → bool;
  AddICECandidate : pc → candidate → rtc → result unit * rtc;
  WritePLI : pc → Z → rtc → result unit * rtc;
  sdp_Type : sdp → sdp_type;
  cand_IsEmpty : candidate → bool;

  (** JSON of the library's types. *)
  json_Marshal_sdp : option sdp → result string;
  json_Unmarshal_sdp : string → result sdp;
  json_Unmarshal_candidate : string → result candidate;

  (** The bandwidth estimator: its target, and its statistics
      [lossTargetBitrate] and [delayTargetBitrate]. *)
  GetTargetBitrate : bwe → rtc → Z;
  GetStats : bwe → rtc → option Z * option Z;
  SetTargetBitrate : bwe → Z → rtc → rtc;

  (** Data channels, receivers, packets and local candidates. *)
  dchan : Type;
  dc_Send : dchan → string → rtc → result unit * rtc;
  dc_SendText : dchan → string → rtc → result unit * rtc;
  receiver : Type;
  receiver_Stop : receiver → rtc → result unit * rtc;
  HeaderExtensions : receiver → list (string * Z);
  rtp_header : Type;
  MarshalSize : rtp_packet rtp_header → Z;
  GetExtension : rtp_packet rtp_header → Z → option string;
  audio_level : string → Z * result unit;
  WriteRTP : track → rtp_packet rtp_header → rtc → result unit * rtc;
  ice_extra : Type;
  json_Marshal_candidate : ice_candidate ice_extra → result string;

  (** Building a peer connection; [NewPeerConnection] also yields the
      bandwidth estimator the congestion controller made for it. *)
  media : Type;
  media0 : media;
  RegisterCodec : RTPCodecParameters → codec_kind → media → result media;
  RegisterHeaderExtension : string → codec_kind → media → result media;
  RegisterFeedback : string → string → codec_kind → media → media;
  interceptor : Type;
  interceptors : Type;
  interceptors0 : interceptors;
  add_interceptor : interceptor → interceptors → interceptors;
  NewGeneratorInterceptor : result interceptor;
  NewResponderInterceptor : Z → result interceptor;
  ConfigureRTCPReports : interceptors → result interceptors;
  ConfigureTWCCSender : media → interceptors → result (media * interceptors);
  ConfigureTWCCHeaderExtensionSender : media → interceptors → result (media * interceptors);
  NewCongestionController : Z → Z → Z → result interceptor;
  NewPeerConnection : media → interceptors → SettingEngine → list ICEServerConfig → rtc →
    result (pc * bwe) * rtc;

  (** golang.org/x/time/rate; the rate of a limiter is in events per 1000
      seconds. *)
  limiter : Type;
  NewLimiter : Z → Z → limiter;
  Allow : Z → limiter → bool * limiter;
}.

(** The part of a library state a call on one sender leaves alone. *)
Definition same_senders {P : Pion} (r r' : rtc) : Prop :=
  ∀ c, GetSenders c r' = GetSenders c r.
Definition same_tracks_but {P : Pion} (snd : sender) (r r' : rtc) : Prop :=
  ∀ s, s ≠ snd → sender_Track s r' = sender_Track s r.

Class PionLaws (P : Pion) := {
  ReplaceTrack_nil snd r r' :
    ReplaceTrack snd None r = (Ok tt, r') → sender_Track snd r' = None;
  ReplaceTrack_frame snd t r x r' :
    ReplaceTrack snd t r = (x, r') → same_senders r r' ∧ same_tracks_but snd r r';
  ReplaceTrack_err snd t r e r' :
    ReplaceTrack snd t r = (Err e, r') → ∀ s, sender_Track s r' = sender_Track s r;
  sender_Stop_frame snd r x r' :
    sender_Stop snd r = (x, r') → same_senders r r' ∧ ∀ s, sender_Track s r' = sender_Track s r;
  AddTrack_ok c t r snd r' :
    AddTrack c t r = (Ok snd, r') → snd ∈ GetSenders c r' ∧ sender_Track snd r' = Some t ∧
      same_tracks_but snd r r';
  AddTrack_err c t r e r' :
    AddTrack c t r = (Err e, r') → same_senders r r' ∧ ∀ s, sender_Track s r' = sender_Track s r;
  RemoveTrack_ok c snd r r' :
    RemoveTrack c snd r = (Ok tt, r') → sender_Track snd r' = None ∧
      same_tracks_but snd r r' ∧ (∀ s, s ∈ GetSenders c r' → s ∈ GetSenders c r) ∧
      ∀ c', c' ≠ c → GetSenders c' r' = GetSenders c' r;
  CreateOffer_frame c r x r' :
    CreateOffer c r = (x, r') → same_senders r r' ∧ ∀ s, sender_Track s r' = sender_Track s r;
  SetLocalDescription_frame c d r x r' :
    SetLocalDescription c d r = (x, r') →
    same_senders r r' ∧ ∀ s, sender_Track s r' = sender_Track s r;
  mime_distinct : NoDup ["audio/opus"%string; MimeTypeVP8; MimeTypeAV1];
}.

(** ** A concrete library *)
Module Toy.

Record toy_track := TT {
  tt_id : string; tt_kind : codec_kind; tt_rid : string; tt_mime : string; tt_n : nat }.
#[export] Instance toy_track_eq_dec : EqDecision toy_track.
Proof. solve_decision. Defined.

Record toy_remote := TR {
  tr_kind : codec_kind; tr_mime : string; tr_stream : string; tr_rid : string; tr_ssrc : Z }.
#[export] Instance toy_remote_eq_dec : EqDecision toy_remote.
Proof. solve_decision. Defined.

Record toy_sdp := TS { ts_type : sdp_type; ts_text : string }.

(** Senders by number, each with its connection and its track; the
    connections with an offer outstanding; those with a remote description. *)
Record toy_rtc := TRtcD {
  toy_senders : list (nat * option toy_track);
  toy_unstable : list nat;
  toy_described : list nat;
}.
Definition TRtc (senders : list (nat * option toy_track)) (unstable : list nat) : toy_rtc :=
  TRtcD senders unstable [].

Definition toy_senders_of (c : nat) (r : toy_rtc) : list nat :=
  List.filter (λ i, bool_decide (fst <$> toy_senders r !! i = Some c))
    (seq 0 (length (toy_senders r))).

Definition toy_track_of (s : nat) (r : toy_rtc) : option toy_track :=
  toy_senders r !! s ≫= snd.

Definition toy_replace (s : nat) (t : option toy_track) (r : toy_rtc) : toy_rtc :=
  TRtcD (alter (λ p, (fst p, t)) s (toy_senders r)) (toy_unstable r) (toy_described r).

Definition toy_add (c : nat) (t : toy_track) (r : toy_rtc) : result nat * toy_rtc :=
  (Ok (length (toy_senders r)), TRtcD (toy_senders r ++ [(c, Some t)]) (toy_unstable r) (toy_described r)).

Definition kind_of_mime (mime : string) : codec_kind :=
  if bool_decide (mime = "audio/opus"%string) then KindAudio else KindVideo.

(** A description is written as its type; a text starting with [{] is not
    one, so that both outcomes of the decoding exist. *)
Definition toy_unmarshal (s : string) : result toy_sdp :=
  match s with
  | "offer"%string => Ok (TS SDPOffer s)
  | "answer"%string => Ok (TS SDPAnswer s)
  | "rollback"%string => Ok (TS SDPRollback s)
  | _ => Err (EText "invalid character")
  end.

#[program] Definition toy_pion : Pion := {|
  rtc := toy_rtc;
  pc := nat;
  sender := nat;
  track := toy_track;
  remote := toy_remote;
  bwe := Z;
  sdp := toy_sdp;
  candidate := string;
  track_ID := tt_id;
  track_Kind := tt_kind;
  track_RID := tt_rid;
  track_MimeType := tt_mime;
  track_isStatic := λ _, true;
  NewTrackLocalStaticRTP := λ mime id _ rid r,
    (Ok (TT id (kind_of_mime mime) rid mime 0), r);
  remote_Kind := tr_kind;
  remote_MimeType := tr_mime;
  remote_StreamID := tr_stream;
  remote_RID := tr_rid;
  remote_SSRC := tr_ssrc;
  MimeTypeVP8 := "video/VP8";
  MimeTypeAV1 := "video/AV1";
  GetSenders := toy_senders_of;
  sender_Track := toy_track_of;
  ReplaceTrack := λ s t r, (Ok tt, toy_replace s t r);
  sender_Stop := λ _ r, (Ok tt, r);
  AddTrack := toy_add;
  RemoveTrack := λ _ s r, (Ok tt, toy_replace s None r);
  pc_Close := λ _ r, r;
  CreateOffer := λ _ r, (Ok (TS SDPOffer "offer"), r);
  CreateAnswer := λ _ r, (Ok (TS SDPAnswer "answer"), r);
  SetLocalDescription := λ c d r,
    (Ok tt, if bool_decide (ts_type d = SDPOffer)
            then TRtcD (toy_senders r) (c :: toy_unstable r) (toy_described r) else r);
  SetRemoteDescription := λ c d r,
    (Ok tt, if bool_decide (ts_type d = SDPAnswer)
            then TRtcD (toy_senders r) (List.filter (λ x, negb (bool_decide (x = c))) (toy_unstable r))
                   (c :: toy_described r)
            else TRtcD (toy_senders r) (toy_unstable r) (c :: toy_described r));
  LocalDescription := λ _ _, Some (TS SDPOffer "offer");
  SignalingStable := λ c r, negb (bool_decide (c ∈ toy_unstable r));
  AddICECandidate := λ _ _ r, (Ok tt, r);
  WritePLI := λ _ _ r, (Ok tt, r);
  sdp_Type := ts_type;
  cand_IsEmpty := λ c, bool_decide (c = str0);
  json_Marshal_sdp := λ d, Ok (match d with Some d => ts_text d | None => "null" end)%string;
  json_Unmarshal_sdp := toy_unmarshal;
  json_Unmarshal_candidate := λ s, Ok s;
  GetTargetBitrate := λ b _, b;
  GetStats := λ b _, (Some b, Some b);
  SetTargetBitrate := λ _ _ r, r;
  dchan := nat;
  dc_Send := λ _ _ r, (Ok tt, r);
  dc_SendText := λ _ _ r, (Ok tt, r);
  receiver := list (string * Z);
  receiver_Stop := λ _ r, (Ok tt, r);
  HeaderExtensions := λ r, r;
  rtp_header := unit;
  MarshalSize := λ p, Z.of_nat (String.length (Payload p));
  GetExtension := λ p i, snd <$> List.find (λ e, Z.eqb (fst e) i) (Extensions p);
  audio_level := λ s, (Z.of_nat (String.length s), Ok tt);
  WriteRTP := λ _ _ r, (Ok tt, r);
  ice_extra := unit;
  json_Marshal_candidate := λ c, Ok (Address c);
  media := unit;
  media0 := tt;
  RegisterCodec := λ _ _ m, Ok m;
  RegisterHeaderExtension := λ _ _ m, Ok m;
  RegisterFeedback := λ _ _ _ m, m;
  interceptor := unit;
  interceptors := unit;
  interceptors0 := tt;
  add_interceptor := λ _ i, i;
  NewGeneratorInterceptor := Ok tt;
  NewResponderInterceptor := λ _, Ok tt;
  ConfigureRTCPReports := λ i, Ok i;
  ConfigureTWCCSender := λ m i, Ok (m, i);
  ConfigureTWCCHeaderExtensionSender := λ m i, Ok (m, i);
  NewCongestionController := λ _ _ _, Ok tt;
  NewPeerConnection := λ _ _ _ _ r, (Ok (7, 500000%Z), r);
  limiter := Z;
  NewLimiter := λ _ b, b;
  Allow := λ _ l, (bool_decide (0 < l)%Z, Z.pred l);
|}.

Definition toy_empty : toy_rtc := TRtc [] [].

Lemma toy_replace_frame s t r :
  same_senders (P := toy_pion) r (toy_replace s t r) ∧
  same_tracks_but (P := toy_pion) s r (toy_replace s t r).
Proof.
  split.
  - intros c. cbn. unfold toy_senders_of, toy_replace. cbn. rewrite length_alter.
    apply filter_ext_in. intros i _. apply bool_decide_ext. rewrite list_lookup_alter.
    destruct (decide (s = i)) as [->|]; [|done].
    by destruct (toy_senders r !! i) as [[]|].
  - intros s' Hs. cbn. unfold toy_track_of, toy_replace. cbn.
    by rewrite list_lookup_alter_ne by congruence.
Qed.

Lemma toy_replace_none s r : toy_track_of s (toy_replace s None r) = None.
Proof.
  unfold toy_track_of, toy_replace. cbn. rewrite list_lookup_alter_eq.
  by destruct (toy_senders r !! s).
Qed.

Lemma toy_laws : PionLaws toy_pion.
Proof.
  split; cbn.
  - intros s r r' [= <-]. apply toy_replace_none.
  - intros s t r x r' [= _ <-]. apply toy_replace_frame.
  - done.
  - intros s r x r' [= _ <-]. done.
  - intros c t r s r' [= <- <-]. unfold toy_senders_of, toy_track_of. cbn. split_and!.
    + apply list_elem_of_In, filter_In. split.
      * apply in_seq. rewrite length_app. cbn. lia.
      * rewrite lookup_app_r, Nat.sub_diag by done. cbn. by rewrite bool_decide_true.
    + by rewrite lookup_app_r, Nat.sub_diag by done.
    + intros s Hs. cbn. unfold toy_track_of. cbn.
      destruct (decide (s < length (toy_senders r))); [by rewrite lookup_app_l|].
      rewrite (lookup_ge_None_2 (toy_senders r)) by lia.
      rewrite lookup_ge_None_2; [done|]. rewrite length_app. cbn in *. lia.
  - done.
  - intros c s r r' [= <-]. destruct (toy_replace_frame s None r) as [Hs Ht].
    split_and!; [apply toy_replace_none|done| |intros; apply Hs].
    intros x Hx. specialize (Hs c). cbn in Hs. by rewrite <- Hs.
  - intros c r x r' [= _ <-]. done.
  - intros c d r x r' [= _ <-]. case_bool_decide; done.
  - by apply (bool_decide_unpack _).
Qed.

End Toy.

(** ** The environment of the server

    The library, the codec of the data channel, the decoding of a JSON object
    of strings, the address type, and the order in which [range] visits a
    map: the language leaves it unspecified, so it is any function that visits
    every entry once. *)
Class Env := {
  #[global] env_pion :: Pion;
  #[global] env_dc :: DcCodec;
  json_Unmarshal_strings : string → result (gmap string string);
  Addr : Type;
  #[global] addr_eq_dec :: EqDecision Addr;
  #[global] addr_countable :: Countable Addr;
  #[global] addr_netip :: NetIP Addr;
  range : ∀ A, gmap string A → list A;
  range_perm : ∀ A (m : gmap string A), range A m ≡ₚ (map_to_list m).*2;
}.
Arguments range {_ A} _.

#[program] Definition toy_env : Env := {|
  env_pion := Toy.toy_pion;
  env_dc := ToyDc.toy_codec;
  json_Unmarshal_strings := λ s, Ok {["screenStreamID"%string := s]};
  Addr := nat;
  addr_netip := subnet_netip;
  range := λ A m, (map_to_list m).*2;
|}.
Next Obligation. done. Defined.
