(* ===== verification/World.v ===== *)
(** * World: the state of the RTC service

    The structs of service/rtc: the server, its groups, their calls, their
    sessions (server.go, group.go, call.go, session.go), the messages they
    exchange (msg.go, track.go), the metrics they report (metrics.go).

    A Go pointer is a location [loc] in the [world]; every struct that is
    shared by pointer lives in a heap there, so aliasing is what the source
    has: a call reached from a group and a call held by a session are the same
    location.  A pointer that may be nil is an [option loc].  A [chan struct{}]
    that is only ever closed is a boolean.  Metrics are a trace: the value of a
    gauge is a count over it.  Each function of the source is an action of the
    monad [go world]; sections of code under one lock are atomic. *)
From S2P Require Import Prelude Utils RtcConfig Vad Rate Pion.

Abbreviation loc := positive (only parsing).

(** ** Messages *)
Definition ICEMessage : Z := 1.
Definition SDPMessage : Z := 2.
Definition MuteMessage : Z := 3.
Definition UnmuteMessage : Z := 4.
Definition ScreenOnMessage : Z := 5.
Definition ScreenOffMessage : Z := 6.
Definition VoiceOnMessage : Z := 7.
Definition VoiceOffMessage : Z := 8.

Record Message := {
  m_GroupID : string;
  m_UserID : string;
  m_SessionID : string;
  m_CallID : string;
  m_Type : Z;
  m_Data : string;
}.

Definition Message_IsValid (m : Message) : result unit :=
  _ ← guard_err (bool_decide (m_SessionID m = str0)) "invalid SessionID value: should not be empty";
  guard_err (bool_decide (m_Type m = 0%Z)) "invalid Type value".

(** [newMessage(s, msgType, data)] only reads the session's configuration. *)
Definition newMessage (c : SessionConfig) (msgType : Z) (data : string) : Message := {|
  m_GroupID := GroupID c;
  m_UserID := UserID c;
  m_SessionID := SessionID c;
  m_CallID := CallID c;
  m_Type := msgType;
  m_Data := data;
|}.

(** ** Metrics *)
Inductive metric :=
  | IncRTCSessions (groupID : string)
  | DecRTCSessions (groupID : string)
  | IncRTCConnState (state : string)
  | IncRTCErrors (groupID errType : string)
  | IncRTPTracks (groupID direction trackType : string)
  | DecRTPTracks (groupID direction trackType : string)
  | ObserveRTPTracksWrite (groupID trackType : string) (dur : Z)
  | ObserveRTCClientLossRate (groupID : string) (val : Z)
  | ObserveRTCClientRTT (groupID : string) (val : Z)
  | ObserveRTCClientJitter (groupID : string) (val : Z).
#[export] Instance metric_eq_dec : EqDecision metric.
Proof. solve_decision. Defined.

(** The value of a gauge: its increments less its decrements. *)
Definition count_metric (m : metric) (l : list metric) : Z :=
  Z.of_nat (length (filter (λ x, x = m) l)).
Definition sessions_gauge (g : string) (l : list metric) : Z :=
  (count_metric (IncRTCSessions g) l - count_metric (DecRTCSessions g) l)%Z.
Definition tracks_gauge (g dir tt : string) (l : list metric) : Z :=
  (count_metric (IncRTPTracks g dir tt) l - count_metric (DecRTPTracks g dir tt) l)%Z.

Lemma count_metric_app m l1 l2 :
  count_metric m (l1 ++ l2) = (count_metric m l1 + count_metric m l2)%Z.
Proof. unfold count_metric. rewrite filter_app, length_app. lia. Qed.

Lemma tracks_gauge_app g dir ty l1 l2 :
  tracks_gauge g dir ty (l1 ++ l2) = (tracks_gauge g dir ty l1 + tracks_gauge g dir ty l2)%Z.
Proof. unfold tracks_gauge. rewrite !count_metric_app. lia. Qed.

Lemma sessions_gauge_app g l1 l2 :
  sessions_gauge g (l1 ++ l2) = (sessions_gauge g l1 + sessions_gauge g l2)%Z.
Proof. unfold sessions_gauge. rewrite !count_metric_app. lia. Qed.

Lemma count_metric_1 m x : count_metric m [x] = if bool_decide (x = m) then 1%Z else 0%Z.
Proof. unfold count_metric. rewrite filter_cons, filter_nil. by repeat case_decide; case_bool_decide. Qed.

Section world.
  Context {E : Env}.

(** ** Structs *)
Definition trackActionAdd : Z := 1.
Definition trackActionRemove : Z := 2.

Record trackActionContext := {
  action : Z;
  ctx_track : option track;
}.

(** The channel an answer is written to: the server's, or a session's. *)
Inductive out_ch :=
  | ToReceiveCh
  | ToDcSDPCh (us : loc).

Record offerMessage := {
  o_sdp : sdp;
  o_answerCh : out_ch;
}.

Definition signalChSize : nat := 20.
Definition tracksChSize : nat := 100.
Definition msgChSize : nat := 2000.

Record session := Session {
  s_cfg : SessionConfig;
  rtcConn : option pc;
  tracksCh : chan trackActionContext;
  iceInCh : chan string;
  sdpOfferInCh : chan offerMessage;
  sdpAnswerInCh : chan sdp;
  dcSDPCh : chan Message;
  outVoiceTrack : option track;
  outVoiceTrackEnabled : bool;
  screenStreamID : string;
  outScreenTracks : gmap string (list track);
  outScreenAudioTrack : option track;
  remoteScreenTracks : gmap string remote;
  screenRateMonitors : gmap string loc;
  bwEstimator : option bwe;
  screenTrackSender : option sender;
  rxTracks : gmap string track;
  closeCh : bool;
  closeCb : bool;
  doneCh : bool;
  vadMonitor : option Vad.Monitor;
  makingOffer : bool;
  s_call : loc;
}.

Record call := Call {
  c_id : string;
  c_sessions : gmap string loc;
  screenSession : option loc;
  pliLimiters : gmap Z limiter;
}.

Record group := Group {
  g_id : string;
  g_calls : gmap string loc;
}.

(** [drainCh] is the channel [Stop] waits on; the world keeps the set of the
    ones that were closed.  A mux is known by the addresses it listens on. *)
Record server := Server {
  srv_cfg : ServerConfig;
  srv_groups : gmap string loc;
  srv_sessions : gmap string SessionConfig;
  publicAddrsMap : gmap Addr string;
  localIPs : list Addr;
  sendCh : chan Message;
  receiveCh : chan Message;
  drainCh : option loc;
  udpMux : list string;
  tcpMux : option string;
}.

Record world := World {
  w_server : server;
  w_groups : gmap loc group;
  w_calls : gmap loc call;
  w_sessions : gmap loc session;
  w_monitors : gmap loc RateMonitor;
  w_drained : gset loc;
  w_rtc : rtc;
  w_metrics : list metric;
  w_next : loc;
}.

(** Field updates. *)
Definition set_tracksCh (f : chan trackActionContext → chan trackActionContext) (s : session) : session :=
  Session (s_cfg s) (rtcConn s) (f (tracksCh s)) (iceInCh s) (sdpOfferInCh s) (sdpAnswerInCh s)
    (dcSDPCh s) (outVoiceTrack s) (outVoiceTrackEnabled s) (screenStreamID s) (outScreenTracks
    s) (outScreenAudioTrack s) (remoteScreenTracks s) (screenRateMonitors s) (bwEstimator s)
    (screenTrackSender s) (rxTracks s) (closeCh s) (closeCb s) (doneCh s) (vadMonitor s)
    (makingOffer s) (s_call s).
Definition set_iceInCh (f : chan string → chan string) (s : session) : session :=
  Session (s_cfg s) (rtcConn s) (tracksCh s) (f (iceInCh s)) (sdpOfferInCh s) (sdpAnswerInCh s)
    (dcSDPCh s) (outVoiceTrack s) (outVoiceTrackEnabled s) (screenStreamID s) (outScreenTracks
    s) (outScreenAudioTrack s) (remoteScreenTracks s) (screenRateMonitors s) (bwEstimator s)
    (screenTrackSender s) (rxTracks s) (closeCh s) (closeCb s) (doneCh s) (vadMonitor s)
    (makingOffer s) (s_call s).
Definition set_sdpOfferInCh (f : chan offerMessage → chan offerMessage) (s : session) : session :=
  Session (s_cfg s) (rtcConn s) (tracksCh s) (iceInCh s) (f (sdpOfferInCh s)) (sdpAnswerInCh s)
    (dcSDPCh s) (outVoiceTrack s) (outVoiceTrackEnabled s) (screenStreamID s) (outScreenTracks
    s) (outScreenAudioTrack s) (remoteScreenTracks s) (screenRateMonitors s) (bwEstimator s)
    (screenTrackSender s) (rxTracks s) (closeCh s) (closeCb s) (doneCh s) (vadMonitor s)
    (makingOffer s) (s_call s).
Definition set_sdpAnswerInCh (f : chan sdp → chan sdp) (s : session) : session :=
  Session (s_cfg s) (rtcConn s) (tracksCh s) (iceInCh s) (sdpOfferInCh s) (f (sdpAnswerInCh s))
    (dcSDPCh s) (outVoiceTrack s) (outVoiceTrackEnabled s) (screenStreamID s) (outScreenTracks
    s) (outScreenAudioTrack s) (remoteScreenTracks s) (screenRateMonitors s) (bwEstimator s)
    (screenTrackSender s) (rxTracks s) (closeCh s) (closeCb s) (doneCh s) (vadMonitor s)
    (makingOffer s) (s_call s).
Definition set_dcSDPCh (f : chan Message → chan Message) (s : session) : session :=
  Session (s_cfg s) (rtcConn s) (tracksCh s) (iceInCh s) (sdpOfferInCh s) (sdpAnswerInCh s) (f
    (dcSDPCh s)) (outVoiceTrack s) (outVoiceTrackEnabled s) (screenStreamID s) (outScreenTracks
    s) (outScreenAudioTrack s) (remoteScreenTracks s) (screenRateMonitors s) (bwEstimator s)
    (screenTrackSender s) (rxTracks s) (closeCh s) (closeCb s) (doneCh s) (vadMonitor s)
    (makingOffer s) (s_call s).
Definition set_outVoiceTrack (f : option track → option track) (s : session) : session :=
  Session (s_cfg s) (rtcConn s) (tracksCh s) (iceInCh s) (sdpOfferInCh s) (sdpAnswerInCh s)
    (dcSDPCh s) (f (outVoiceTrack s)) (outVoiceTrackEnabled s) (screenStreamID s)
    (outScreenTracks s) (outScreenAudioTrack s) (remoteScreenTracks s) (screenRateMonitors s)
    (bwEstimator s) (screenTrackSender s) (rxTracks s) (closeCh s) (closeCb s) (doneCh s)
    (vadMonitor s) (makingOffer s) (s_call s).
Definition set_outVoiceTrackEnabled (f : bool → bool) (s : session) : session :=
  Session (s_cfg s) (rtcConn s) (tracksCh s) (iceInCh s) (sdpOfferInCh s) (sdpAnswerInCh s)
    (dcSDPCh s) (outVoiceTrack s) (f (outVoiceTrackEnabled s)) (screenStreamID s)
    (outScreenTracks s) (outScreenAudioTrack s) (remoteScreenTracks s) (screenRateMonitors s)
    (bwEstimator s) (screenTrackSender s) (rxTracks s) (closeCh s) (closeCb s) (doneCh s)
    (vadMonitor s) (makingOffer s) (s_call s).
Definition set_screenStreamID (f : string → string) (s : session) : session :=
  Session (s_cfg s) (rtcConn s) (tracksCh s) (iceInCh s) (sdpOfferInCh s) (sdpAnswerInCh s)
    (dcSDPCh s) (outVoiceTrack s) (outVoiceTrackEnabled s) (f (screenStreamID s))
    (outScreenTracks s) (outScreenAudioTrack s) (remoteScreenTracks s) (screenRateMonitors s)
    (bwEstimator s) (screenTrackSender s) (rxTracks s) (closeCh s) (closeCb s) (doneCh s)
    (vadMonitor s) (makingOffer s) (s_call s).
Definition set_outScreenTracks (f : gmap string (list track) → gmap string (list track)) (s : session) : session :=
  Session (s_cfg s) (rtcConn s) (tracksCh s) (iceInCh s) (sdpOfferInCh s) (sdpAnswerInCh s)
    (dcSDPCh s) (outVoiceTrack s) (outVoiceTrackEnabled s) (screenStreamID s) (f
    (outScreenTracks s)) (outScreenAudioTrack s) (remoteScreenTracks s) (screenRateMonitors s)
    (bwEstimator s) (screenTrackSender s) (rxTracks s) (closeCh s) (closeCb s) (doneCh s)
    (vadMonitor s) (makingOffer s) (s_call s).
Definition set_outScreenAudioTrack (f : option track → option track) (s : session) : session :=
  Session (s_cfg s) (rtcConn s) (tracksCh s) (iceInCh s) (sdpOfferInCh s) (sdpAnswerInCh s)
    (dcSDPCh s) (outVoiceTrack s) (outVoiceTrackEnabled s) (screenStreamID s) (outScreenTracks
    s) (f (outScreenAudioTrack s)) (remoteScreenTracks s) (screenRateMonitors s) (bwEstimator s)
    (screenTrackSender s) (rxTracks s) (closeCh s) (closeCb s) (doneCh s) (vadMonitor s)
    (makingOffer s) (s_call s).
Definition set_remoteScreenTracks (f : gmap string remote → gmap string remote) (s : session) : session :=
  Session (s_cfg s) (rtcConn s) (tracksCh s) (iceInCh s) (sdpOfferInCh s) (sdpAnswerInCh s)
    (dcSDPCh s) (outVoiceTrack s) (outVoiceTrackEnabled s) (screenStreamID s) (outScreenTracks
    s) (outScreenAudioTrack s) (f (remoteScreenTracks s)) (screenRateMonitors s) (bwEstimator s)
    (screenTrackSender s) (rxTracks s) (closeCh s) (closeCb s) (doneCh s) (vadMonitor s)
    (makingOffer s) (s_call s).
Definition set_screenRateMonitors (f : gmap string loc → gmap string loc) (s : session) : session :=
  Session (s_cfg s) (rtcConn s) (tracksCh s) (iceInCh s) (sdpOfferInCh s) (sdpAnswerInCh s)
    (dcSDPCh s) (outVoiceTrack s) (outVoiceTrackEnabled s) (screenStreamID s) (outScreenTracks
    s) (outScreenAudioTrack s) (remoteScreenTracks s) (f (screenRateMonitors s)) (bwEstimator s)
    (screenTrackSender s) (rxTracks s) (closeCh s) (closeCb s) (doneCh s) (vadMonitor s)
    (makingOffer s) (s_call s).
Definition set_bwEstimator (f : option bwe → option bwe) (s : session) : session :=
  Session (s_cfg s) (rtcConn s) (tracksCh s) (iceInCh s) (sdpOfferInCh s) (sdpAnswerInCh s)
    (dcSDPCh s) (outVoiceTrack s) (outVoiceTrackEnabled s) (screenStreamID s) (outScreenTracks
    s) (outScreenAudioTrack s) (remoteScreenTracks s) (screenRateMonitors s) (f (bwEstimator s))
    (screenTrackSender s) (rxTracks s) (closeCh s) (closeCb s) (doneCh s) (vadMonitor s)
    (makingOffer s) (s_call s).
Definition set_screenTrackSender (f : option sender → option sender) (s : session) : session :=
  Session (s_cfg s) (rtcConn s) (tracksCh s) (iceInCh s) (sdpOfferInCh s) (sdpAnswerInCh s)
    (dcSDPCh s) (outVoiceTrack s) (outVoiceTrackEnabled s) (screenStreamID s) (outScreenTracks
    s) (outScreenAudioTrack s) (remoteScreenTracks s) (screenRateMonitors s) (bwEstimator s) (f
    (screenTrackSender s)) (rxTracks s) (closeCh s) (closeCb s) (doneCh s) (vadMonitor s)
    (makingOffer s) (s_call s).
Definition set_rxTracks (f : gmap string track → gmap string track) (s : session) : session :=
  Session (s_cfg s) (rtcConn s) (tracksCh s) (iceInCh s) (sdpOfferInCh s) (sdpAnswerInCh s)
    (dcSDPCh s) (outVoiceTrack s) (outVoiceTrackEnabled s) (screenStreamID s) (outScreenTracks
    s) (outScreenAudioTrack s) (remoteScreenTracks s) (screenRateMonitors s) (bwEstimator s)
    (screenTrackSender s) (f (rxTracks s)) (closeCh s) (closeCb s) (doneCh s) (vadMonitor s)
    (makingOffer s) (s_call s).
Definition set_closeCh (f : bool → bool) (s : session) : session :=
  Session (s_cfg s) (rtcConn s) (tracksCh s) (iceInCh s) (sdpOfferInCh s) (sdpAnswerInCh s)
    (dcSDPCh s) (outVoiceTrack s) (outVoiceTrackEnabled s) (screenStreamID s) (outScreenTracks
    s) (outScreenAudioTrack s) (remoteScreenTracks s) (screenRateMonitors s) (bwEstimator s)
    (screenTrackSender s) (rxTracks s) (f (closeCh s)) (closeCb s) (doneCh s) (vadMonitor s)
    (makingOffer s) (s_call s).
Definition set_doneCh (f : bool → bool) (s : session) : session :=
  Session (s_cfg s) (rtcConn s) (tracksCh s) (iceInCh s) (sdpOfferInCh s) (sdpAnswerInCh s)
    (dcSDPCh s) (outVoiceTrack s) (outVoiceTrackEnabled s) (screenStreamID s) (outScreenTracks
    s) (outScreenAudioTrack s) (remoteScreenTracks s) (screenRateMonitors s) (bwEstimator s)
    (screenTrackSender s) (rxTracks s) (closeCh s) (closeCb s) (f (doneCh s)) (vadMonitor s)
    (makingOffer s) (s_call s).
Definition set_vadMonitor (f : option Vad.Monitor → option Vad.Monitor) (s : session) : session :=
  Session (s_cfg s) (rtcConn s) (tracksCh s) (iceInCh s) (sdpOfferInCh s) (sdpAnswerInCh s)
    (dcSDPCh s) (outVoiceTrack s) (outVoiceTrackEnabled s) (screenStreamID s) (outScreenTracks
    s) (outScreenAudioTrack s) (remoteScreenTracks s) (screenRateMonitors s) (bwEstimator s)
    (screenTrackSender s) (rxTracks s) (closeCh s) (closeCb s) (doneCh s) (f (vadMonitor s))
    (makingOffer s) (s_call s).
Definition set_makingOffer (f : bool → bool) (s : session) : session :=
  Session (s_cfg s) (rtcConn s) (tracksCh s) (iceInCh s) (sdpOfferInCh s) (sdpAnswerInCh s)
    (dcSDPCh s) (outVoiceTrack s) (outVoiceTrackEnabled s) (screenStreamID s) (outScreenTracks
    s) (outScreenAudioTrack s) (remoteScreenTracks s) (screenRateMonitors s) (bwEstimator s)
    (screenTrackSender s) (rxTracks s) (closeCh s) (closeCb s) (doneCh s) (vadMonitor s) (f
    (makingOffer s)) (s_call s).
Definition set_c_sessions (f : gmap string loc → gmap string loc) (c : call) : call :=
  Call (c_id c) (f (c_sessions c)) (screenSession c) (pliLimiters c).
Definition set_screenSession (f : option loc → option loc) (c : call) : call :=
  Call (c_id c) (c_sessions c) (f (screenSession c)) (pliLimiters c).
Definition set_pliLimiters (f : gmap Z limiter → gmap Z limiter) (c : call) : call :=
  Call (c_id c) (c_sessions c) (screenSession c) (f (pliLimiters c)).
Definition set_g_calls (f : gmap string loc → gmap string loc) (g : group) : group :=
  Group (g_id g) (f (g_calls g)).
Definition set_srv_cfg (f : ServerConfig → ServerConfig) (v : server) : server :=
  Server (f (srv_cfg v)) (srv_groups v) (srv_sessions v) (publicAddrsMap v) (localIPs v) (sendCh
    v) (receiveCh v) (drainCh v) (udpMux v) (tcpMux v).
Definition set_srv_groups (f : gmap string loc → gmap string loc) (v : server) : server :=
  Server (srv_cfg v) (f (srv_groups v)) (srv_sessions v) (publicAddrsMap v) (localIPs v) (sendCh
    v) (receiveCh v) (drainCh v) (udpMux v) (tcpMux v).
Definition set_srv_sessions (f : gmap string SessionConfig → gmap string SessionConfig) (v : server) : server :=
  Server (srv_cfg v) (srv_groups v) (f (srv_sessions v)) (publicAddrsMap v) (localIPs v) (sendCh
    v) (receiveCh v) (drainCh v) (udpMux v) (tcpMux v).
Definition set_publicAddrsMap (f : gmap Addr string → gmap Addr string) (v : server) : server :=
  Server (srv_cfg v) (srv_groups v) (srv_sessions v) (f (publicAddrsMap v)) (localIPs v) (sendCh
    v) (receiveCh v) (drainCh v) (udpMux v) (tcpMux v).
Definition set_localIPs (f : list Addr → list Addr) (v : server) : server :=
  Server (srv_cfg v) (srv_groups v) (srv_sessions v) (publicAddrsMap v) (f (localIPs v)) (sendCh
    v) (receiveCh v) (drainCh v) (udpMux v) (tcpMux v).
Definition set_sendCh (f : chan Message → chan Message) (v : server) : server :=
  Server (srv_cfg v) (srv_groups v) (srv_sessions v) (publicAddrsMap v) (localIPs v) (f (sendCh
    v)) (receiveCh v) (drainCh v) (udpMux v) (tcpMux v).
Definition set_receiveCh (f : chan Message → chan Message) (v : server) : server :=
  Server (srv_cfg v) (srv_groups v) (srv_sessions v) (publicAddrsMap v) (localIPs v) (sendCh v)
    (f (receiveCh v)) (drainCh v) (udpMux v) (tcpMux v).
Definition set_drainCh (f : option loc → option loc) (v : server) : server :=
  Server (srv_cfg v) (srv_groups v) (srv_sessions v) (publicAddrsMap v) (localIPs v) (sendCh v)
    (receiveCh v) (f (drainCh v)) (udpMux v) (tcpMux v).
Definition set_udpMux (f : list string → list string) (v : server) : server :=
  Server (srv_cfg v) (srv_groups v) (srv_sessions v) (publicAddrsMap v) (localIPs v) (sendCh v) (receiveCh v) (drainCh v) (f (udpMux v)) (tcpMux v).
Definition set_tcpMux (f : option string → option string) (v : server) : server :=
  Server (srv_cfg v) (srv_groups v) (srv_sessions v) (publicAddrsMap v) (localIPs v) (sendCh v) (receiveCh v) (drainCh v) (udpMux v) (f (tcpMux v)).
Definition set_w_server (f : server → server) (w : world) : world :=
  World (f (w_server w)) (w_groups w) (w_calls w) (w_sessions w) (w_monitors w) (w_drained w)
    (w_rtc w) (w_metrics w) (w_next w).
Definition set_w_groups (f : gmap loc group → gmap loc group) (w : world) : world :=
  World (w_server w) (f (w_groups w)) (w_calls w) (w_sessions w) (w_monitors w) (w_drained w)
    (w_rtc w) (w_metrics w) (w_next w).
Definition set_w_calls (f : gmap loc call → gmap loc call) (w : world) : world :=
  World (w_server w) (w_groups w) (f (w_calls w)) (w_sessions w) (w_monitors w) (w_drained w)
    (w_rtc w) (w_metrics w) (w_next w).
Definition set_w_sessions (f : gmap loc session → gmap loc session) (w : world) : world :=
  World (w_server w) (w_groups w) (w_calls w) (f (w_sessions w)) (w_monitors w) (w_drained w)
    (w_rtc w) (w_metrics w) (w_next w).
Definition set_w_monitors (f : gmap loc RateMonitor → gmap loc RateMonitor) (w : world) : world :=
  World (w_server w) (w_groups w) (w_calls w) (w_sessions w) (f (w_monitors w)) (w_drained w)
    (w_rtc w) (w_metrics w) (w_next w).
Definition set_w_drained (f : gset loc → gset loc) (w : world) : world :=
  World (w_server w) (w_groups w) (w_calls w) (w_sessions w) (w_monitors w) (f (w_drained w))
    (w_rtc w) (w_metrics w) (w_next w).
Definition set_w_rtc (f : rtc → rtc) (w : world) : world :=
  World (w_server w) (w_groups w) (w_calls w) (w_sessions w) (w_monitors w) (w_drained w) (f
    (w_rtc w)) (w_metrics w) (w_next w).
Definition set_w_metrics (f : list metric → list metric) (w : world) : world :=
  World (w_server w) (w_groups w) (w_calls w) (w_sessions w) (w_monitors w) (w_drained w) (w_rtc
    w) (f (w_metrics w)) (w_next w).
Definition set_w_next (f : loc → loc) (w : world) : world :=
  World (w_server w) (w_groups w) (w_calls w) (w_sessions w) (w_monitors w) (w_drained w) (w_rtc
    w) (w_metrics w) (f (w_next w)).

(** ** Access to the world *)
Definition deref {A} (o : option A) : go world A := λ w, a ← o; Some (a, w).

Definition get_session (l : loc) : go world session := λ w, s ← w_sessions w !! l; Some (s, w).
Definition get_call (l : loc) : go world call := λ w, c ← w_calls w !! l; Some (c, w).
Definition get_group (l : loc) : go world group := λ w, g ← w_groups w !! l; Some (g, w).

Definition upd_session (l : loc) (f : session → session) : go world unit := λ w,
  s ← w_sessions w !! l; Some (tt, set_w_sessions (<[l := f s]>) w).
Definition upd_call (l : loc) (f : call → call) : go world unit := λ w,
  c ← w_calls w !! l; Some (tt, set_w_calls (<[l := f c]>) w).
Definition upd_group (l : loc) (f : group → group) : go world unit := λ w,
  g ← w_groups w !! l; Some (tt, set_w_groups (<[l := f g]>) w).
Definition upd_server (f : server → server) : go world unit := modify (set_w_server f).

Definition alloc_session (s : session) : go world loc := λ w,
  Some (w_next w, set_w_next Pos.succ (set_w_sessions (<[w_next w := s]>) w)).
Definition alloc_call (c : call) : go world loc := λ w,
  Some (w_next w, set_w_next Pos.succ (set_w_calls (<[w_next w := c]>) w)).
Definition alloc_group (g : group) : go world loc := λ w,
  Some (w_next w, set_w_next Pos.succ (set_w_groups (<[w_next w := g]>) w)).
Definition alloc_monitor (m : RateMonitor) : go world loc := λ w,
  Some (w_next w, set_w_next Pos.succ (set_w_monitors (<[w_next w := m]>) w)).
Definition alloc_chan : go world loc := λ w, Some (w_next w, set_w_next Pos.succ w).

(** An operation of the library, and a metric. *)
Definition lib {A} (f : rtc → A * rtc) : go world A := λ w,
  let '(a, r) := f (w_rtc w) in Some (a, set_w_rtc (λ _, r) w).
Definition lib_read {A} (f : rtc → A) : go world A := gets (λ w, f (w_rtc w)).
Definition emit (m : metric) : go world unit := modify (set_w_metrics (λ l, l ++ [m])).

(** [select { case ch <- v: return true; default: return false }] on a
    channel of a session or of the server. *)
Definition send_on {A} (v : A) (ch : chan A) (put : chan A → go world unit) : go world bool :=
  match try_send v ch with
  | Sent ch' => put ch' ;; mret true
  | Full => mret false
  | SendPanic => panic
  end.

Definition send_track (l : loc) (ctx : trackActionContext) : go world bool :=
  s ← get_session l;
  send_on ctx (tracksCh s) (λ ch, upd_session l (set_tracksCh (λ _, ch))).

Definition send_out (o : out_ch) (m : Message) : go world bool :=
  match o with
  | ToReceiveCh =>
      v ← gets w_server; send_on m (receiveCh v) (λ ch, upd_server (set_receiveCh (λ _, ch)))
  | ToDcSDPCh l =>
      s ← get_session l; send_on m (dcSDPCh s) (λ ch, upd_session l (set_dcSDPCh (λ _, ch)))
  end.

(** ** Rules for the accesses *)
Lemma wp_deref {A} (o : option A) a Q (w : world) : o = Some a → Q a w → wp (deref o) Q w.
Proof. by intros ->. Qed.

Lemma wp_get_session l s Q w : w_sessions w !! l = Some s → Q s w → wp (get_session l) Q w.
Proof. unfold wp, get_session. by intros ->. Qed.
Lemma wp_get_call l c Q w : w_calls w !! l = Some c → Q c w → wp (get_call l) Q w.
Proof. unfold wp, get_call. by intros ->. Qed.
Lemma wp_get_group l g Q w : w_groups w !! l = Some g → Q g w → wp (get_group l) Q w.
Proof. unfold wp, get_group. by intros ->. Qed.

Lemma wp_upd_session l s f Q w :
  w_sessions w !! l = Some s → Q tt (set_w_sessions (<[l := f s]>) w) → wp (upd_session l f) Q w.
Proof. unfold wp, upd_session. by intros ->. Qed.
Lemma wp_upd_call l c f Q w :
  w_calls w !! l = Some c → Q tt (set_w_calls (<[l := f c]>) w) → wp (upd_call l f) Q w.
Proof. unfold wp, upd_call. by intros ->. Qed.
Lemma wp_upd_group l g f Q w :
  w_groups w !! l = Some g → Q tt (set_w_groups (<[l := f g]>) w) → wp (upd_group l f) Q w.
Proof. unfold wp, upd_group. by intros ->. Qed.

Lemma wp_lib {A} (f : rtc → A * rtc) Q w :
  (∀ a r, f (w_rtc w) = (a, r) → Q a (set_w_rtc (λ _, r) w)) → wp (lib f) Q w.
Proof. intros H. unfold wp, lib. destruct (f (w_rtc w)) as [a r]. by apply H. Qed.

Lemma wp_lib_read {A} (f : rtc → A) Q w : Q (f (w_rtc w)) w → wp (lib_read f) Q w.
Proof. done. Qed.

Lemma wp_alloc_session x Q w :
  Q (w_next w) (set_w_next Pos.succ (set_w_sessions (<[w_next w := x]>) w)) → wp (alloc_session x) Q w.
Proof. done. Qed.
Lemma wp_alloc_call x Q w :
  Q (w_next w) (set_w_next Pos.succ (set_w_calls (<[w_next w := x]>) w)) → wp (alloc_call x) Q w.
Proof. done. Qed.
Lemma wp_alloc_group x Q w :
  Q (w_next w) (set_w_next Pos.succ (set_w_groups (<[w_next w := x]>) w)) → wp (alloc_group x) Q w.
Proof. done. Qed.
Lemma wp_alloc_monitor x Q w :
  Q (w_next w) (set_w_next Pos.succ (set_w_monitors (<[w_next w := x]>) w)) → wp (alloc_monitor x) Q w.
Proof. done. Qed.

Lemma wp_emit m Q w : Q tt (set_w_metrics (λ l, l ++ [m]) w) → wp (emit m) Q w.
Proof. done. Qed.

(** What a non-blocking send leaves in an open channel. *)
Definition push {A} (v : A) (ch : chan A) : chan A :=
  match try_send v ch with Sent ch' => ch' | _ => ch end.

Lemma try_send_push {A} (v : A) ch :
  ch_closed ch = false →
  (try_send v ch = Sent (push v ch) ∧ ch_buf (push v ch) = ch_buf ch ++ [v]) ∨
  (try_send v ch = Full ∧ push v ch = ch ∧ ch_cap ch ≤ length (ch_buf ch)).
Proof.
  intros Hc. unfold push, try_send. rewrite Hc. case_bool_decide; [by left|right]. split_and!; [done..|lia].
Qed.

Lemma push_closed {A} (v : A) ch : ch_closed (push v ch) = ch_closed ch.
Proof. unfold push, try_send. destruct (ch_closed ch) eqn:H; [done|]. by case_bool_decide. Qed.

Lemma wp_send_track l s ctx Q w :
  w_sessions w !! l = Some s → ch_closed (tracksCh s) = false →
  (∀ b, Q b (set_w_sessions (<[l := set_tracksCh (push ctx) s]>) w)) → wp (send_track l ctx) Q w.
Proof.
  intros Hl Hc HQ. unfold send_track, send_on. apply wp_bind. eapply wp_get_session; [done|].
  destruct (try_send_push ctx (tracksCh s) Hc) as [[-> _]|(-> & Hp & _)].
  - apply wp_bind. eapply wp_upd_session; [done|]. apply wp_ret. apply HQ.
  - apply wp_ret. specialize (HQ false). revert HQ.
    assert (set_tracksCh (push ctx) s = s) as -> by (destruct s; unfold set_tracksCh; cbn in *; by rewrite Hp).
    unfold set_w_sessions. rewrite insert_id by done. by destruct w.
Qed.

(** ** Maps iterated over *)
Lemma elem_of_range {A} (m : gmap string A) x : x ∈ range m ↔ ∃ k, m !! k = Some x.
Proof.
  rewrite range_perm, list_elem_of_fmap. split.
  - intros ([k y] & -> & Hk%elem_of_map_to_list). eauto.
  - intros [k Hk]. exists (k, x). split; [done|]. by apply elem_of_map_to_list.
Qed.

Lemma range_empty {A} : range (∅ : gmap string A) = [].
Proof. apply Permutation_nil. symmetry. by rewrite range_perm, map_to_list_empty. Qed.

Lemma NoDup_range {A} (m : gmap string A) :
  (∀ i j x, m !! i = Some x → m !! j = Some x → i = j) → NoDup (range m).
Proof.
  intros Hinj. rewrite range_perm. apply NoDup_fmap_2_strong; [|apply NoDup_map_to_list].
  intros [i x] [j y] Hi%elem_of_map_to_list Hj%elem_of_map_to_list ?. cbn in *. subst.
  by rewrite (Hinj i j y).
Qed.

(** ** Well-formed sessions and calls *)

(** The channels of a session are never closed, and it has a connection. *)
Record session_wf (s : session) : Prop := {
  sw_tracks : ch_closed (tracksCh s) = false;
  sw_ice : ch_closed (iceInCh s) = false;
  sw_offer : ch_closed (sdpOfferInCh s) = false;
  sw_answer : ch_closed (sdpAnswerInCh s) = false;
  sw_dc : ch_closed (dcSDPCh s) = false;
  sw_conn : is_Some (rtcConn s);
}.

(** The sessions a call holds are allocated and sit under their own
    identifiers. *)
Definition members_wf (w : world) (m : gmap string loc) : Prop :=
  ∀ id l, m !! id = Some l →
    ∃ s, w_sessions w !! l = Some s ∧ SessionID (s_cfg s) = id ∧ session_wf s.

Lemma members_wf_inj w m i j l :
  members_wf w m → m !! i = Some l → m !! j = Some l → i = j.
Proof.
  intros Hm Hi Hj. apply Hm in Hi as (s & Hs & <- & _). apply Hm in Hj as (s' & Hs' & <- & _).
  by simplify_eq.
Qed.

Lemma members_wf_NoDup w m : members_wf w m → NoDup (range m).
Proof. intros Hm. apply NoDup_range. intros i j l. by apply (members_wf_inj w). Qed.

End world.

(** An update of a session that only touches fields its invariants do not
    mention, or pushes on a channel. *)
Ltac keep := match goal with
  | |- _ ?s _ => destruct s; split; [done..|]; intros []; split; cbn in *; rewrite ?push_closed; done
  end.

(** Projections of updated structs. *)
Ltac wsimpl := cbn [w_server w_groups w_calls w_sessions w_monitors w_drained w_rtc w_metrics w_next
  set_w_server set_w_groups set_w_calls set_w_sessions set_w_monitors set_w_drained set_w_rtc set_w_metrics set_w_next
  set_tracksCh set_screenTrackSender set_c_sessions set_screenSession set_g_calls
  tracksCh screenTrackSender c_sessions screenSession g_calls c_id g_id pliLimiters
  s_cfg rtcConn rxTracks fst snd].
Tactic Notation "wsimpl" "in" "*" := cbn [w_server w_groups w_calls w_sessions w_monitors w_drained w_rtc w_metrics w_next
  set_w_server set_w_groups set_w_calls set_w_sessions set_w_monitors set_w_drained set_w_rtc set_w_metrics set_w_next
  set_tracksCh set_screenTrackSender set_c_sessions set_screenSession set_g_calls
  tracksCh screenTrackSender c_sessions screenSession g_calls c_id g_id pliLimiters
  s_cfg rtcConn rxTracks fst snd] in *.
