(* ===== verification/Call.v ===== *)
(** * Call: a call and the life of its screen share (service/rtc/call.go)

    The functions of call.go on the world, and what the two that touch every
    session of a call do: [clearScreenState] and [handleSessionClose]. *)
From S2P Require Import Prelude Utils RtcConfig Vad Rate Pion World.

Section call.
  Context {E : Env}.

(** ** Definitions *)

(** The composite literal of [call.addSession]. *)
Definition new_session (cfg : SessionConfig) (conn : option pc) (cb : bool) (c : loc) : session := {|
  s_cfg := cfg;
  rtcConn := conn;
  tracksCh := make_chan tracksChSize;
  iceInCh := make_chan (signalChSize * 2);
  sdpOfferInCh := make_chan signalChSize;
  sdpAnswerInCh := make_chan signalChSize;
  dcSDPCh := make_chan signalChSize;
  outVoiceTrack := None;
  outVoiceTrackEnabled := false;
  screenStreamID := str0;
  outScreenTracks := ∅;
  outScreenAudioTrack := None;
  remoteScreenTracks := ∅;
  screenRateMonitors := ∅;
  bwEstimator := None;
  screenTrackSender := None;
  rxTracks := ∅;
  closeCh := false;
  closeCb := cb;
  doneCh := false;
  vadMonitor := None;
  makingOffer := false;
  s_call := c;
|}.

Definition getSession (c : loc) (sessionID : string) : go world (option loc) :=
  cl ← get_call c; mret (c_sessions cl !! sessionID).

Definition call_addSession (c : loc) (cfg : SessionConfig) (conn : option pc) (cb : bool) :
    go world (loc * bool) :=
  cl ← get_call c;
  match c_sessions cl !! SessionID cfg with
  | Some l => mret (l, false)
  | None =>
      l ← alloc_session (new_session cfg conn cb c);
      upd_call c (set_c_sessions (<[SessionID cfg := l]>)) ;;
      mret (l, true)
  end.

Definition getScreenSession (c : loc) : go world (option loc) :=
  cl ← get_call c; mret (screenSession cl).

Definition setScreenSession (c s : loc) : go world bool :=
  cl ← get_call c;
  match screenSession cl with
  | None => upd_call c (set_screenSession (λ _, Some s)) ;; mret true
  | Some _ => mret false
  end.

Definition iterSessions (c : loc) (cb : loc → go world unit) : go world unit :=
  cl ← get_call c; go_iter cb (range (c_sessions cl)).

(** [session.clearScreenState] (session.go). *)
Definition session_clearScreenState (s : session) : session :=
  set_screenStreamID (λ _, str0) (set_outScreenTracks (λ _, ∅)
    (set_outScreenAudioTrack (λ _, None) (set_remoteScreenTracks (λ _, ∅)
      (set_screenRateMonitors (λ _, ∅) s)))).

(** One session in the loop of [clearScreenState]. *)
Definition clear_one (c l : loc) : go world unit :=
  cl ← get_call c;
  s ← get_session l;
  if bool_decide (screenSession cl = Some l) then
    upd_session l session_clearScreenState ;;
    upd_call c (set_screenSession (λ _, None))
  else
    match screenTrackSender s with
    | None => mret tt
    | Some snd =>
        t ← lib_read (sender_Track snd);
        send_track l {| action := trackActionRemove; ctx_track := t |} ;;
        upd_session l (set_screenTrackSender (λ _, None))
    end.

Definition clearScreenState (c : loc) (ss : option loc) : go world (result unit) :=
  cl ← get_call c;
  match ss, screenSession cl with
  | None, _ => mret (Err (EText "screenSession should not be nil"))
  | Some _, None => mret (Err (EText "call.screenSession should not be nil"))
  | Some s, Some cs =>
      if bool_decide (cs = s) then
        iterSessions c (clear_one c) ;; mret (Ok tt)
      else
        s1 ← get_session cs;
        s2 ← get_session s;
        mret (Err (EText ("screenSession mismatch, call.screenSession=" +:+
          SessionID (s_cfg s1) +:+ ", screenSession=" +:+ SessionID (s_cfg s2))))
  end.

(** The [cleanUp] closure: both errors are only logged. *)
Definition cleanUp (snd : sender) : go world unit :=
  _ ← lib (ReplaceTrack snd None);
  _ ← lib (sender_Stop snd);
  mret tt.

Definition cleanup_out (snd : sender) : go world unit :=
  t ← lib_read (sender_Track snd);
  match t with Some _ => cleanUp snd | None => mret tt end.

(** The identifiers of the tracks a session sends. *)
Definition out_track_ids (s : session) : gset string :=
  list_to_set (track_ID <$> option_list (outVoiceTrack s)) ∪
  list_to_set (track_ID <$> option_list (outScreenAudioTrack s)) ∪
  list_to_set (track_ID <$> mjoin (range (outScreenTracks s))).

(** Another session's sender that carries one of the closing session's
    tracks. *)
Definition cleanup_receiver (outTracks : gset string) (ss : loc) (snd : sender) : go world unit :=
  t ← lib_read (sender_Track snd);
  match t with
  | Some t =>
      if bool_decide (track_ID t ∈ outTracks) then
        if bool_decide (track_Kind t = KindVideo) then
          send_track ss {| action := trackActionRemove; ctx_track := Some t |} ;; mret tt
        else cleanUp snd
      else mret tt
  | None => mret tt
  end.

Definition forget_screen_sender (id : string) (l : loc) : go world unit :=
  ss ← get_session l;
  if bool_decide (SessionID (s_cfg ss) = id) then mret tt
  else upd_session l (set_screenTrackSender (λ _, None)).

Definition cleanup_session (id : string) (outTracks : gset string) (l : loc) : go world unit :=
  ss ← get_session l;
  if bool_decide (SessionID (s_cfg ss) = id) then mret tt
  else
    conn ← deref (rtcConn ss);
    senders ← lib_read (GetSenders conn);
    go_iter (cleanup_receiver outTracks l) senders.

Definition handleSessionClose (c us : loc) : go world unit :=
  s ← get_session us;
  cl ← get_call c;
  let id := SessionID (s_cfg s) in
  when (bool_decide (screenSession cl = Some us))
    (upd_call c (set_screenSession (λ _, None)) ;;
     iterSessions c (forget_screen_sender id)) ;;
  conn ← deref (rtcConn s);
  senders ← lib_read (GetSenders conn);
  go_iter cleanup_out senders ;;
  go_iter (λ t, emit (DecRTPTracks (GroupID (s_cfg s)) "out" (getTrackType (track_Kind t))))
    (range (rxTracks s)) ;;
  let outTracks := out_track_ids s in
  if bool_decide (outTracks = ∅) then mret tt
  else iterSessions c (cleanup_session id outTracks).

(** ** The end of a screen share *)

(** What happens to one session, [p] being the presenter. *)
Definition cleared (p : loc) (r : rtc) (l : loc) (s : session) : session :=
  if bool_decide (l = p) then session_clearScreenState s
  else match screenTrackSender s with
       | None => s
       | Some snd =>
           set_screenTrackSender (λ _, None)
             (set_tracksCh (push {| action := trackActionRemove; ctx_track := sender_Track snd r |}) s)
       end.

(** [g] applied to the sessions in [ls]. *)
Definition upd_all (ls : list loc) (g : loc → session → session) (m : gmap loc session) :
    gmap loc session :=
  map_imap (λ l s, Some (if bool_decide (l ∈ ls) then g l s else s)) m.

Lemma lookup_upd_all ls g m l :
  upd_all ls g m !! l = (λ s, if bool_decide (l ∈ ls) then g l s else s) <$> m !! l.
Proof. unfold upd_all. rewrite map_lookup_imap. by destruct (m !! l). Qed.

Lemma upd_all_nil g m : upd_all [] g m = m.
Proof.
  apply map_eq. intros l. rewrite lookup_upd_all, bool_decide_false by apply not_elem_of_nil.
  by destruct (m !! l).
Qed.

Lemma upd_all_snoc ls g m l s :
  l ∉ ls → m !! l = Some s → <[l := g l s]> (upd_all ls g m) = upd_all (ls ++ [l]) g m.
Proof.
  intros Hl Hs. apply map_eq. intros l'. rewrite lookup_upd_all.
  destruct (decide (l = l')) as [->|Hne].
  - rewrite lookup_insert_eq, Hs. cbn. rewrite bool_decide_true; [done|set_solver].
  - rewrite lookup_insert_ne, lookup_upd_all by done. destruct (m !! l') as [s'|]; [|done].
    cbn. f_equal. rewrite (bool_decide_ext (l' ∈ ls ++ [l]) (l' ∈ ls)); [done|set_solver].
Qed.

(** The world after the sessions [pre] were cleared. *)
Definition after_clear (c p : loc) (cl : call) (pre : list loc) (w : world) : world :=
  set_w_calls (λ m, if bool_decide (p ∈ pre) then <[c := set_screenSession (λ _, None) cl]> m else m)
    (set_w_sessions (upd_all pre (cleared p (w_rtc w))) w).

Lemma wp_clear_one c p cl pre l s Q w :
  w_calls w !! c = Some cl → screenSession cl = Some p →
  w_sessions w !! l = Some s → ch_closed (tracksCh s) = false → l ∉ pre →
  Q tt (after_clear c p cl (pre ++ [l]) w) →
  wp (clear_one c l) Q (after_clear c p cl pre w).
Proof.
  intros Hc Hp Hs Hopen Hl HQ. unfold clear_one, after_clear in *.
  unfold set_w_calls, set_w_sessions in HQ. wsimpl in *.
  set (g := cleared p (w_rtc w)) in *.
  set (cl' := if bool_decide (p ∈ pre) then set_screenSession (λ _, None) cl else cl).
  apply wp_bind, (wp_get_call _ cl').
  { wsimpl. unfold cl'. destruct (bool_decide (p ∈ pre)); [by rewrite lookup_insert_eq|done]. }
  assert (Hsl : w_sessions (after_clear c p cl pre w) !! l = Some s).
  { unfold after_clear. wsimpl. by rewrite lookup_upd_all, Hs, bool_decide_false by done. }
  apply wp_bind, (wp_get_session _ s); [done|].
  rewrite <- (upd_all_snoc pre g (w_sessions w) l s) in HQ by done.
  unfold g, cleared in HQ. fold (cleared p (w_rtc w)) in HQ. fold g in HQ.
  destruct (decide (l = p)) as [->|Hlp].
  - rewrite (bool_decide_true (p ∈ pre ++ [p])) in HQ by set_solver.
    rewrite (bool_decide_true (p = p)) in HQ by done.
    unfold cl'. rewrite (bool_decide_false (p ∈ pre)) by done. rewrite Hp, bool_decide_true by done.
    apply wp_bind. eapply wp_upd_session; [done|]. eapply wp_upd_call; [|done]. done.
  - rewrite (bool_decide_false (l = p)) in HQ by done.
    rewrite bool_decide_false.
    2: { unfold cl', set_screenSession. destruct (bool_decide (p ∈ pre)); wsimpl; congruence. }
    rewrite (bool_decide_ext (p ∈ pre ++ [l]) (p ∈ pre)) in HQ by set_solver.
    destruct (screenTrackSender s) as [snd|].
    + apply wp_bind, wp_lib_read. apply wp_bind. eapply wp_send_track; [done..|]. intros b.
      eapply wp_upd_session; [wsimpl; apply lookup_insert_eq|]. unfold set_w_calls, set_w_sessions.
      wsimpl. rewrite insert_insert_eq. exact HQ.
    + rewrite (insert_id (upd_all pre g (w_sessions w)) l s Hsl) in HQ. exact HQ.
Qed.

(** [clearScreenState] by the presenter itself: the presenter's screen state
    is reset, every viewer is told to remove the track it is shown, and the
    call is free for another presenter. *)
Lemma clearScreenState_spec c p cl Q w :
  w_calls w !! c = Some cl → screenSession cl = Some p →
  members_wf w (c_sessions cl) →
  Q (Ok tt) (after_clear c p cl (range (c_sessions cl)) w) →
  wp (clearScreenState c (Some p)) Q w.
Proof.
  intros Hc Hp Hm HQ. unfold clearScreenState.
  apply wp_bind. eapply wp_get_call; [done|]. rewrite Hp, bool_decide_true by done.
  apply wp_bind. unfold iterSessions. apply wp_bind. eapply wp_get_call; [done|].
  pose proof (members_wf_NoDup _ _ Hm) as Hnd.
  eapply wp_mono; [apply (wp_go_iter _ _ (λ pre w', w' = after_clear c p cl pre w))|].
  - unfold after_clear. rewrite bool_decide_false by apply not_elem_of_nil.
    unfold set_w_calls, set_w_sessions. cbn. rewrite upd_all_nil. by destruct w.
  - intros pre l post w' Hl ->. destruct (elem_of_range (c_sessions cl) l) as [Hin _].
    destruct Hin as [id Hid]; [rewrite Hl; set_solver|].
    destruct (Hm id l Hid) as (s & Hs & _ & Hwf).
    eapply wp_clear_one; [done..|by apply sw_tracks| |done].
    rewrite Hl in Hnd. apply NoDup_app in Hnd as (_ & Hnd & _). set_solver.
  - intros ? w' ->. apply wp_ret. exact HQ.
Qed.

(** Refused calls change nothing. *)
Lemma clearScreenState_refused c ss cl Q w :
  w_calls w !! c = Some cl → members_wf w (c_sessions cl) →
  (∀ p, screenSession cl = Some p → is_Some (w_sessions w !! p)) →
  (∀ p, ss = Some p → is_Some (w_sessions w !! p)) →
  ss = None ∨ screenSession cl ≠ ss →
  (∀ e, Q (Err e) w) → wp (clearScreenState c ss) Q w.
Proof.
  intros Hc Hm Hcs Hss Hne HQ. unfold clearScreenState.
  apply wp_bind. eapply wp_get_call; [done|].
  destruct ss as [s|]; [|by apply wp_ret]. destruct (screenSession cl) as [p|]; [|by apply wp_ret].
  rewrite bool_decide_false by (intros ->; naive_solver).
  destruct (Hcs p eq_refl) as [s1 H1], (Hss s eq_refl) as [s2 H2].
  apply wp_bind. eapply wp_get_session; [done|]. apply wp_bind. eapply wp_get_session; [done|].
  by apply wp_ret.
Qed.

(** ** Closing a session *)

(** What cleaning up may do to the world: sessions only lose their screen
    sender and only gain queued track actions, senders only lose their track,
    and nothing else changes. *)
Definition chan_grows {A} (a b : chan A) : Prop :=
  ch_cap b = ch_cap a ∧ ch_closed b = ch_closed a ∧ ∃ ext, ch_buf b = ch_buf a ++ ext.

Definition sess_evolve (s s' : session) : Prop :=
  ∃ ch x, s' = set_tracksCh (λ _, ch) (set_screenTrackSender (λ _, x) s) ∧
    chan_grows (tracksCh s) ch ∧ (x = screenTrackSender s ∨ x = None).

Record rtc_evolve (r r' : rtc) : Prop := {
  re_senders : same_senders r r';
  re_tracks : ∀ snd t, sender_Track snd r' = Some t → sender_Track snd r = Some t;
}.

Record evolve (w w' : world) : Prop := {
  ev_server : w_server w' = w_server w;
  ev_groups : w_groups w' = w_groups w;
  ev_calls : w_calls w' = w_calls w;
  ev_monitors : w_monitors w' = w_monitors w;
  ev_drained : w_drained w' = w_drained w;
  ev_metrics : w_metrics w' = w_metrics w;
  ev_next : w_next w' = w_next w;
  ev_rtc : rtc_evolve (w_rtc w) (w_rtc w');
  ev_sessions : ∀ l, match w_sessions w !! l with
    | Some s => ∃ s', w_sessions w' !! l = Some s' ∧ sess_evolve s s'
    | None => w_sessions w' !! l = None
    end;
}.

Lemma chan_grows_refl {A} (a : chan A) : chan_grows a a.
Proof. split_and!; [done..|]. exists []. by rewrite app_nil_r. Qed.

Lemma chan_grows_trans {A} (a b c : chan A) : chan_grows a b → chan_grows b c → chan_grows a c.
Proof.
  intros (H1 & H2 & e1 & H3) (H4 & H5 & e2 & H6). split_and!; [congruence..|].
  exists (e1 ++ e2). by rewrite H6, H3, app_assoc.
Qed.

Lemma chan_grows_push {A} (v : A) (a : chan A) : ch_closed a = false → chan_grows a (push v a).
Proof.
  intros Hc. destruct (try_send_push v a Hc) as [[_ Hb]|(_ & -> & _)]; [|apply chan_grows_refl].
  revert Hb. unfold push, try_send. rewrite Hc. case_bool_decide; [|intros; apply chan_grows_refl].
  cbn. intros _. split_and!; [done..|by eexists].
Qed.

Lemma sess_evolve_refl s : sess_evolve s s.
Proof.
  exists (tracksCh s), (screenTrackSender s). split_and!; [by destruct s|apply chan_grows_refl|by left].
Qed.

Lemma sess_evolve_trans s1 s2 s3 : sess_evolve s1 s2 → sess_evolve s2 s3 → sess_evolve s1 s3.
Proof.
  intros (c1 & x1 & -> & Hc1 & Hx1) (c2 & x2 & -> & Hc2 & Hx2). exists c2, x2.
  split_and!; [by destruct s1|by eapply chan_grows_trans|].
  destruct s1. cbn in *. destruct Hx2 as [->| ->]; auto.
Qed.

Lemma rtc_evolve_refl r : rtc_evolve r r.
Proof. by split. Qed.

Lemma rtc_evolve_trans r1 r2 r3 : rtc_evolve r1 r2 → rtc_evolve r2 r3 → rtc_evolve r1 r3.
Proof. intros [H1 H2] [H3 H4]. split; [intros c; by rewrite H3, H1|eauto]. Qed.

#[export] Instance evolve_preorder : PreOrder evolve.
Proof.
  split.
  - intros w. split; try done. intros l. destruct (w_sessions w !! l); eauto using sess_evolve_refl.
  - intros w1 w2 w3 [] []. split; try congruence; [by eapply rtc_evolve_trans|].
    intros l. specialize (ev_sessions0 l). specialize (ev_sessions1 l).
    destruct (w_sessions w1 !! l) as [s1|].
    + destruct ev_sessions0 as (s2 & H2 & H12). rewrite H2 in ev_sessions1.
      destruct ev_sessions1 as (s3 & H3 & H23). eauto using sess_evolve_trans.
    + by rewrite ev_sessions0 in ev_sessions1.
Qed.

Lemma evolve_session w w' l s :
  evolve w w' → w_sessions w !! l = Some s →
  ∃ s', w_sessions w' !! l = Some s' ∧ sess_evolve s s'.
Proof. intros Hw Hs. pose proof (ev_sessions _ _ Hw l) as H. by rewrite Hs in H. Qed.

Lemma sess_evolve_same s s' :
  sess_evolve s s' → s_cfg s' = s_cfg s ∧ rtcConn s' = rtcConn s ∧ rxTracks s' = rxTracks s ∧
    out_track_ids s' = out_track_ids s ∧ s_call s' = s_call s ∧ (session_wf s → session_wf s').
Proof.
  intros (ch & x & -> & Hc & _). destruct s. split_and!; try done.
  intros []. cbn in *. split; cbn; try done. destruct Hc as (_ & -> & _). done.
Qed.

(** An update of one session. *)
Lemma evolve_upd w l s f :
  w_sessions w !! l = Some s → sess_evolve s (f s) →
  evolve w (set_w_sessions (<[l := f s]>) w).
Proof.
  intros Hs He. split; try done. intros l'. wsimpl. destruct (decide (l = l')) as [->|Hne].
  - rewrite Hs, lookup_insert_eq. eauto.
  - rewrite lookup_insert_ne by done. destruct (w_sessions w !! l'); eauto using sess_evolve_refl.
Qed.

Lemma evolve_rtc w r : rtc_evolve (w_rtc w) r → evolve w (set_w_rtc (λ _, r) w).
Proof.
  intros Hr. split; try done. intros l. wsimpl.
  destruct (w_sessions w !! l); eauto using sess_evolve_refl.
Qed.

Lemma sess_evolve_push ctx s :
  ch_closed (tracksCh s) = false → sess_evolve s (set_tracksCh (push ctx) s).
Proof.
  intros Hc. exists (push ctx (tracksCh s)), (screenTrackSender s).
  split_and!; [by destruct s|by apply chan_grows_push|by left].
Qed.

Lemma sess_evolve_forget s : sess_evolve s (set_screenTrackSender (λ _, None) s).
Proof.
  exists (tracksCh s), None. split_and!; [by destruct s|apply chan_grows_refl|by right].
Qed.

(** A sender's removal of its track succeeds. *)
Definition lib_replaces : Prop := ∀ snd r, ∃ r', ReplaceTrack snd None r = (Ok tt, r').

Section closing.
  Context `{!PionLaws env_pion}.

Lemma ReplaceTrack_evolve snd r x r' : ReplaceTrack snd None r = (x, r') → rtc_evolve r r'.
Proof.
  intros H. pose proof (ReplaceTrack_frame _ _ _ _ _ H) as [Hs Ht]. split; [done|].
  intros s t Hst. destruct x as [[]|e].
  - destruct (decide (s = snd)) as [->|Hne]; [|by rewrite Ht in Hst].
    by rewrite (ReplaceTrack_nil _ _ _ H) in Hst.
  - by rewrite (ReplaceTrack_err _ _ _ _ _ H) in Hst.
Qed.

Lemma sender_Stop_evolve snd r x r' :
  sender_Stop snd r = (x, r') → rtc_evolve r r' ∧ ∀ s, sender_Track s r' = sender_Track s r.
Proof. intros [Hs Ht]%sender_Stop_frame. split; [|done]. split; [done|]. intros s t. by rewrite Ht. Qed.

Lemma wp_cleanUp snd Q w :
  (∀ w', evolve w w' → (lib_replaces → sender_Track snd (w_rtc w') = None) → Q tt w') →
  wp (cleanUp snd) Q w.
Proof.
  intros HQ. unfold cleanUp. apply wp_bind, wp_lib. intros x1 r1 H1.
  apply wp_bind, wp_lib. intros x2 r2 H2. apply wp_ret. wsimpl in *.
  apply ReplaceTrack_evolve in H1 as He1. apply sender_Stop_evolve in H2 as [He2 Hsame].
  apply HQ.
  - etrans; apply evolve_rtc; wsimpl; [exact He1|exact He2].
  - intros Hlib. wsimpl. rewrite Hsame. destruct (Hlib snd (w_rtc w)) as [r Hr].
    rewrite H1 in Hr. simplify_eq. by eapply ReplaceTrack_nil.
Qed.

Lemma wp_cleanup_out snd Q w :
  (∀ w', evolve w w' → (lib_replaces → sender_Track snd (w_rtc w') = None) → Q tt w') →
  wp (cleanup_out snd) Q w.
Proof.
  intros HQ. unfold cleanup_out. apply wp_bind, wp_lib_read.
  destruct (sender_Track snd (w_rtc w)) eqn:Ht; [by apply wp_cleanUp|]. apply wp_ret. by apply HQ.
Qed.

Lemma sender_gone w w' snd :
  evolve w w' → sender_Track snd (w_rtc w) = None → sender_Track snd (w_rtc w') = None.
Proof.
  intros Hw H. destruct (sender_Track snd (w_rtc w')) as [t|] eqn:Ht; [|done].
  apply (re_tracks _ _ (ev_rtc _ _ Hw)) in Ht. congruence.
Qed.

Lemma wp_cleanup_senders senders Q w :
  (∀ w', evolve w w' →
    (lib_replaces → Forall (λ snd, sender_Track snd (w_rtc w') = None) senders) → Q tt w') →
  wp (go_iter cleanup_out senders) Q w.
Proof.
  intros HQ. eapply wp_mono; [apply (wp_go_iter _ _ (λ pre w', evolve w w' ∧
    (lib_replaces → Forall (λ snd, sender_Track snd (w_rtc w') = None) pre)))|].
  - by split.
  - intros pre snd post w1 _ [Hw1 Hpre]. apply wp_cleanup_out. intros w2 Hw2 Hsnd. split; [by etrans|].
    intros Hlib. apply Forall_app. split; [|by constructor; [apply Hsnd|]].
    eapply Forall_impl; [by apply Hpre|]. intros s. by apply sender_gone.
  - intros [] w' [H1 H2]. by apply HQ.
Qed.

(** A sender of another session no longer carries a track of the closing
    session, or it carries a video track whose removal was asked for, as far
    as the queue of actions had room. *)
Definition handled (out : gset string) (l : loc) (w : world) (snd : sender) : Prop :=
  ∀ t s, w_sessions w !! l = Some s → sender_Track snd (w_rtc w) = Some t → track_ID t ∈ out →
    (lib_replaces → track_Kind t = KindVideo) ∧
    (track_Kind t = KindVideo →
      {| action := trackActionRemove; ctx_track := Some t |} ∈ ch_buf (tracksCh s) ∨
      ch_cap (tracksCh s) ≤ length (ch_buf (tracksCh s))).

Lemma handled_evolve out l w w' snd : evolve w w' → handled out l w snd → handled out l w' snd.
Proof.
  intros Hw Hh t s' Hs' Ht Hout. apply (re_tracks _ _ (ev_rtc _ _ Hw)) in Ht.
  pose proof (ev_sessions _ _ Hw l) as Hl. destruct (w_sessions w !! l) as [s|] eqn:Hs; [|congruence].
  destruct Hl as (s'' & Hs'' & ch & x & -> & (Hcap & _ & ext & Hbuf) & _). simplify_eq.
  destruct (Hh t s Hs Ht Hout) as [H1 H2]. split; [done|]. intros Hk.
  cbn [tracksCh set_tracksCh]. rewrite Hbuf, Hcap. destruct (H2 Hk) as [H|H].
  - left. set_solver.
  - right. rewrite length_app. lia.
Qed.

Lemma wp_cleanup_receiver out l s snd Q w :
  w_sessions w !! l = Some s → session_wf s →
  (∀ w', evolve w w' → handled out l w' snd → Q tt w') →
  wp (cleanup_receiver out l snd) Q w.
Proof.
  intros Hs Hwf HQ. unfold cleanup_receiver. apply wp_bind, wp_lib_read.
  destruct (sender_Track snd (w_rtc w)) as [t|] eqn:Ht.
  2: { apply wp_ret, HQ; [done|]. intros ?? _ ?. congruence. }
  case_bool_decide as Hout.
  2: { apply wp_ret, HQ; [done|]. intros ?? _ ??. congruence. }
  case_bool_decide as Hk.
  - apply wp_bind. eapply wp_send_track; [done|by apply sw_tracks|]. intros _. apply wp_ret.
    apply HQ.
    + eapply (evolve_upd w l s (set_tracksCh (push _))); [done|].
      apply sess_evolve_push. by apply sw_tracks.
    + intros t' s' Hs' Ht' _. wsimpl in *. rewrite lookup_insert_eq in Hs'.
      assert (t' = t) as -> by congruence. clear Ht'. simplify_eq.
      split; [done|]. intros _. cbn [tracksCh set_tracksCh].
      destruct (try_send_push {| action := trackActionRemove; ctx_track := Some t |}
        (tracksCh s) (sw_tracks _ Hwf)) as [[_ ->]|(_ & -> & Hfull)]; [left; set_solver|by right].
  - apply wp_cleanUp. intros w' Hw Hn. apply HQ; [done|].
    intros t' s' Hs' Ht' _. apply (re_tracks _ _ (ev_rtc _ _ Hw)) in Ht' as Ht2.
    rewrite Ht in Ht2. simplify_eq. split; [|done]. intros Hlib. rewrite (Hn Hlib) in Ht'. done.
Qed.

Lemma members_wf_evolve w w' m : evolve w w' → members_wf w m → members_wf w' m.
Proof.
  intros Hw Hm id l Hl. destruct (Hm id l Hl) as (s & Hs & Hid & Hwf).
  destruct (evolve_session _ _ _ _ Hw Hs) as (s' & Hs' & He). exists s'.
  apply sess_evolve_same in He as (Hcfg & _ & _ & _ & _ & Hwf'). split_and!; [done|congruence|auto].
Qed.

Lemma GetSenders_evolve w w' conn :
  evolve w w' → GetSenders conn (w_rtc w') = GetSenders conn (w_rtc w).
Proof. intros Hw. apply (re_senders _ _ (ev_rtc _ _ Hw)). Qed.

(** Every sender of a session other than [id] was handled. *)
Definition session_clean (out : gset string) (id : string) (l : loc) (w : world) : Prop :=
  ∀ s conn snd, w_sessions w !! l = Some s → SessionID (s_cfg s) ≠ id →
    rtcConn s = Some conn → snd ∈ GetSenders conn (w_rtc w) → handled out l w snd.

Lemma session_clean_evolve out id l w w' :
  evolve w w' → session_clean out id l w → session_clean out id l w'.
Proof.
  intros Hw Hc s' conn snd Hs' Hid Hconn Hsnd.
  pose proof (ev_sessions _ _ Hw l) as Hl. destruct (w_sessions w !! l) as [s|] eqn:Hs; [|congruence].
  destruct Hl as (s'' & Hs'' & He). simplify_eq.
  apply sess_evolve_same in He as (Hcfg & Hconn' & _). rewrite (GetSenders_evolve w w') in Hsnd by done.
  eapply handled_evolve; [done|]. eapply Hc; [done|by rewrite <- Hcfg|by rewrite <- Hconn'|done].
Qed.

Lemma wp_cleanup_session id out l s Q w :
  w_sessions w !! l = Some s → session_wf s →
  (∀ w', evolve w w' → session_clean out id l w' → Q tt w') →
  wp (cleanup_session id out l) Q w.
Proof.
  intros Hs Hwf HQ. unfold cleanup_session. apply wp_bind. eapply wp_get_session; [done|].
  case_bool_decide as Hid.
  { apply wp_ret, HQ; [done|]. intros s' conn snd Hs' Hne. congruence. }
  destruct (sw_conn _ Hwf) as [conn Hconn]. apply wp_bind. eapply wp_deref; [done|].
  apply wp_bind, wp_lib_read.
  eapply wp_mono; [apply (wp_go_iter _ _ (λ pre w', evolve w w' ∧ Forall (handled out l w') pre))|].
  - by split.
  - intros pre snd post w1 _ [Hw1 Hpre]. destruct (evolve_session _ _ _ _ Hw1 Hs) as (s1 & Hs1 & He).
    eapply wp_cleanup_receiver; [done| |].
    { by apply sess_evolve_same in He as (_ & _ & _ & _ & _ & He); apply He. }
    intros w2 Hw2 Hh. split; [by etrans|]. apply Forall_app. split; [|by constructor].
    eapply Forall_impl; [done|]. intros x. by apply handled_evolve.
  - intros [] w' [Hw' Hall]. apply HQ; [done|]. intros s' conn' snd Hs' _ Hconn' Hsnd.
    destruct (evolve_session _ _ _ _ Hw' Hs) as (s'' & Hs'' & He).
    apply sess_evolve_same in He as (_ & Hc & _). rewrite Hs' in Hs''. simplify_eq.
    rewrite Forall_forall in Hall. apply Hall. rewrite (GetSenders_evolve w w') in Hsnd by done.
    congruence.
Qed.

(** A loop over the sessions of a call. *)
Lemma wp_iter_members c cl (f : loc → go world unit) (I : loc → world → Prop) Q w :
  w_calls w !! c = Some cl → members_wf w (c_sessions cl) →
  (∀ l w1 w2, evolve w1 w2 → I l w1 → I l w2) →
  (∀ id l s w1 R, evolve w w1 → c_sessions cl !! id = Some l →
    w_sessions w1 !! l = Some s → session_wf s → SessionID (s_cfg s) = id →
    (∀ w2, evolve w1 w2 → I l w2 → R tt w2) → wp (f l) R w1) →
  (∀ w', evolve w w' → (∀ id l, c_sessions cl !! id = Some l → I l w') → Q tt w') →
  wp (iterSessions c f) Q w.
Proof.
  intros Hc Hm Hst Hf HQ. unfold iterSessions. apply wp_bind. eapply wp_get_call; [done|].
  eapply wp_mono; [apply (wp_go_iter _ _ (λ pre w', evolve w w' ∧ Forall (λ l, I l w') pre))|].
  - by split.
  - intros pre l post w1 Hl [Hw1 Hpre].
    destruct (proj1 (elem_of_range (c_sessions cl) l)) as [id Hid]; [rewrite Hl; set_solver|].
    destruct (members_wf_evolve _ _ _ Hw1 Hm id l Hid) as (s & Hs & Hsid & Hwf).
    eapply Hf; [done..|]. intros w2 Hw2 HI. split; [by etrans|].
    apply Forall_app. split; [|by constructor]. eapply Forall_impl; [done|]. intros x. by apply Hst.
  - intros [] w' [Hw' Hall]. apply HQ; [done|]. intros id l Hid. rewrite Forall_forall in Hall.
    apply Hall, elem_of_range. eauto.
Qed.

Lemma wp_emit_all {A} (g : A → metric) l Q w :
  Q tt (set_w_metrics (λ m, m ++ (g <$> l)) w) → wp (go_iter (λ x, emit (g x)) l) Q w.
Proof.
  intros HQ. eapply wp_mono; [apply (wp_go_iter _ _ (λ pre w',
    w' = set_w_metrics (λ m, m ++ (g <$> pre)) w))|].
  - unfold set_w_metrics. cbn. rewrite app_nil_r. by destruct w.
  - intros pre x post w' _ ->. apply wp_emit. unfold set_w_metrics. wsimpl.
    by rewrite fmap_app, app_assoc.
  - by intros [] w' ->.
Qed.

Lemma evolve_metrics f w w' : evolve w w' → evolve (set_w_metrics f w) (set_w_metrics f w').
Proof. intros []. split; try done. unfold set_w_metrics. wsimpl. congruence. Qed.

(** The metrics of a session's close, and the call once it is no longer
    presenting. *)
Definition dec_tracks (s : session) : list metric :=
  (λ t, DecRTPTracks (GroupID (s_cfg s)) "out" (getTrackType (track_Kind t))) <$>
    range (rxTracks s).

Definition unpresent (c us : loc) (cl : call) (m : gmap loc call) : gmap loc call :=
  if bool_decide (screenSession cl = Some us)
  then <[c := set_screenSession (λ _, None) cl]> m else m.

Definition close_base (c us : loc) (cl : call) (s : session) (w : world) : world :=
  set_w_metrics (λ l, l ++ dec_tracks s) (set_w_calls (unpresent c us cl) w).

Definition no_screen_sender (l : loc) (id : string) (w : world) : Prop :=
  ∀ s, w_sessions w !! l = Some s → SessionID (s_cfg s) ≠ id → screenTrackSender s = None.

Lemma no_screen_sender_evolve l id w w' :
  evolve w w' → no_screen_sender l id w → no_screen_sender l id w'.
Proof.
  intros Hw Hn s' Hs' Hid. pose proof (ev_sessions _ _ Hw l) as Hl.
  destruct (w_sessions w !! l) as [s|] eqn:Hs; [|congruence].
  destruct Hl as (s'' & Hs'' & ch & x & -> & _ & Hx). rewrite Hs' in Hs''. simplify_eq.
  cbn. destruct Hx as [->| ->]; [|done]. apply Hn; [done|]. by destruct s.
Qed.

Lemma wp_forget_all c us cl id Q w :
  w_calls w !! c = Some cl → members_wf w (c_sessions cl) →
  (∀ w', evolve (set_w_calls (unpresent c us cl) w) w' →
    (screenSession cl = Some us → ∀ i l, c_sessions cl !! i = Some l → no_screen_sender l id w') →
    Q tt w') →
  wp (when (bool_decide (screenSession cl = Some us))
    (upd_call c (set_screenSession (λ _, None)) ;; iterSessions c (forget_screen_sender id))) Q w.
Proof.
  intros Hc Hm HQ. unfold when. case_bool_decide as Hp.
  2: { apply wp_ret, HQ; [|done]. unfold unpresent. rewrite bool_decide_false by done. by destruct w. }
  apply wp_bind. eapply wp_upd_call; [done|].
  apply (wp_iter_members c (set_screenSession (λ _, None) cl) _ (λ l, no_screen_sender l id)).
  - wsimpl. apply lookup_insert_eq.
  - done.
  - intros l w1 w2. apply no_screen_sender_evolve.
  - intros id' l s w1 R _ _ Hs _ _ HR. unfold forget_screen_sender.
    apply wp_bind. eapply wp_get_session; [done|]. case_bool_decide as Hid.
    + apply wp_ret, HR; [done|]. intros s' Hs'. congruence.
    + eapply wp_upd_session; [done|]. apply HR.
      * eapply evolve_upd; [done|]. apply sess_evolve_forget.
      * intros s' Hs' _. wsimpl in *. rewrite lookup_insert_eq in Hs'. by simplify_eq.
  - intros w' Hw Hall. apply HQ; [|done]. unfold unpresent. by rewrite bool_decide_true.
Qed.

Lemma handleSessionClose_spec c us cl s Q w :
  w_calls w !! c = Some cl → members_wf w (c_sessions cl) →
  w_sessions w !! us = Some s → session_wf s →
  (∀ w', evolve (close_base c us cl s w) w' →
    (lib_replaces → ∀ conn snd, rtcConn s = Some conn → snd ∈ GetSenders conn (w_rtc w') →
      sender_Track snd (w_rtc w') = None) →
    (out_track_ids s ≠ ∅ → ∀ i l, c_sessions cl !! i = Some l →
      session_clean (out_track_ids s) (SessionID (s_cfg s)) l w') →
    (screenSession cl = Some us → ∀ i l, c_sessions cl !! i = Some l →
      no_screen_sender l (SessionID (s_cfg s)) w') →
    Q tt w') →
  wp (handleSessionClose c us) Q w.
Proof.
  intros Hc Hm Hs Hwf HQ. unfold handleSessionClose.
  apply wp_bind. eapply wp_get_session; [done|]. apply wp_bind. eapply wp_get_call; [done|].
  apply wp_bind. eapply wp_forget_all; [done..|]. intros w1 Hw1 Hforget.
  destruct (sw_conn _ Hwf) as [conn Hconn]. apply wp_bind. eapply wp_deref; [done|].
  apply wp_bind, wp_lib_read. apply wp_bind, wp_cleanup_senders. intros w2 Hw2 Hown.
  apply wp_bind, wp_emit_all. fold (dec_tracks s).
  set (w3 := set_w_metrics (λ m, m ++ dec_tracks s) w2).
  assert (H13 : evolve (close_base c us cl s w) w3) by (apply evolve_metrics; by etrans).
  assert (Hcl3 : ∃ cl', w_calls w3 !! c = Some cl' ∧ c_sessions cl' = c_sessions cl).
  { rewrite (ev_calls _ _ H13). unfold close_base, set_w_metrics, set_w_calls, unpresent. wsimpl.
    case_bool_decide; [rewrite lookup_insert_eq|]; by eexists. }
  assert (Hown3 : ∀ w', evolve w3 w' → lib_replaces → ∀ conn' snd, rtcConn s = Some conn' →
    snd ∈ GetSenders conn' (w_rtc w') → sender_Track snd (w_rtc w') = None).
  { intros w' Hw' Hlib conn' snd Hconn' Hsnd. specialize (Hown Hlib). rewrite Forall_forall in Hown.
    apply (sender_gone w3 w'); [done|]. apply Hown.
    assert (conn' = conn) as -> by congruence. rewrite (GetSenders_evolve w3 w') in Hsnd by done.
    rewrite <- (GetSenders_evolve w1 w2) by done. exact Hsnd. }
  assert (Hfor3 : ∀ w', evolve w3 w' → screenSession cl = Some us → ∀ i l,
    c_sessions cl !! i = Some l → no_screen_sender l (SessionID (s_cfg s)) w').
  { intros w' Hw' Hp i l Hi. apply (no_screen_sender_evolve _ _ w3 w'); [done|].
    apply (no_screen_sender_evolve _ _ w1 w2); [done|]. by apply (Hforget Hp i). }
  case_bool_decide as Hout.
  { apply wp_ret, HQ; [done|by apply Hown3|done|by apply Hfor3]. }
  destruct Hcl3 as (cl' & Hcl' & Hmem).
  apply (wp_iter_members c cl' _ (session_clean (out_track_ids s) (SessionID (s_cfg s))));
    rewrite ?Hmem.
  - done.
  - eapply members_wf_evolve; [exact H13|]. exact Hm.
  - intros l w4 w5. apply session_clean_evolve.
  - intros id l s' w4 R _ _ Hs' Hwf' _ HR. by eapply wp_cleanup_session.
  - intros w' Hw' Hall. apply HQ; [by etrans|by apply Hown3| |by apply Hfor3]. intros _. exact Hall.
Qed.

End closing.

End call.

(** ** A concrete world *)
Module ToyWorld.
Import Toy.

Definition toy_cfg (id : string) : SessionConfig := {|
  GroupID := "group"; CallID := "call"; UserID := "user"; SessionID := id; Props := Some ∅ |}.

Definition toy_cfg_in (call id : string) : SessionConfig := {|
  GroupID := "group"; CallID := call; UserID := "user"; SessionID := id; Props := Some ∅ |}.

(** Sessions a (at 3, connection 0) and b (at 4, connection 1) of one call
    (at 2) of one group (at 1). *)
Definition toy_session (id : string) (conn : nat) : session :=
  new_session (E := toy_env) (toy_cfg id) (Some conn) true 2.

Definition toy_server : server (E := toy_env) := {|
  srv_cfg := {|
    ICEAddressUDP := ""; ICEPortUDP := 8443; ICEAddressTCP := ""; ICEPortTCP := 8443;
    ICEHostOverride := ""; ICEHostPortOverride := ""; cfgICEServers := [];
    cfgTURNConfig := {| StaticAuthSecret := ""; CredentialsExpirationMinutes := 0 |};
    EnableIPv6 := false; UDPSocketsCount := 1 |};
  srv_groups := {["group"%string := 1%positive]};
  srv_sessions := <["a"%string := toy_cfg "a"]> {["b"%string := toy_cfg "b"]};
  publicAddrsMap := ∅; localIPs := []; sendCh := make_chan msgChSize;
  receiveCh := make_chan msgChSize; drainCh := None; udpMux := []; tcpMux := None |}.

Definition toy_call : call (E := toy_env) := {|
  c_id := "call"; c_sessions := <["a"%string := 3%positive]> {["b"%string := 4%positive]};
  screenSession := None; pliLimiters := ∅ |}.

Definition toy_world : world (E := toy_env) := {|
  w_server := toy_server;
  w_groups := {[1%positive := {| g_id := "group"; g_calls := {["call"%string := 2%positive]} |}]};
  w_calls := {[2%positive := toy_call]};
  w_sessions := <[3%positive := toy_session "a" 0]> {[4%positive := toy_session "b" 1]};
  w_monitors := ∅; w_drained := ∅; w_rtc := toy_empty; w_metrics := []; w_next := 5 |}.

(** The server before any session joins. *)
Definition new_server : server (E := toy_env) := {|
  srv_cfg := srv_cfg toy_server; srv_groups := ∅; srv_sessions := ∅;
  publicAddrsMap := ∅; localIPs := []; sendCh := make_chan msgChSize;
  receiveCh := make_chan msgChSize; drainCh := None; udpMux := []; tcpMux := None |}.

Definition nothing : world (E := toy_env) := {|
  w_server := new_server;
  w_groups := ∅; w_calls := ∅; w_sessions := ∅; w_monitors := ∅; w_drained := ∅;
  w_rtc := toy_empty; w_metrics := []; w_next := 1 |}.

Definition toy_conn (n : nat) : option (@pc (@env_pion toy_env)) := Some n.

Definition toy_voice : toy_track := TT "voice_b_xxxxxxxx" KindAudio "" "audio/opus" 0.
Definition toy_screen : toy_track := TT "screen_b_xxxxxxxx" KindVideo "" "video/VP8" 0.

End ToyWorld.

(** ** Properties *)

(** C20: a call has one presenter at a time.  Becoming the presenter succeeds
    exactly when there is none, and a refused attempt changes nothing; a
    session that is not the presenter cannot end the share, nor can a nil one,
    and the attempt changes nothing. *)
Theorem screen_share_exclusive {E : Env} c cl s w :
  w_calls w !! c = Some cl → is_Some (w_sessions w !! s) →
  (∀ p, screenSession cl = Some p → is_Some (w_sessions w !! p)) →
  members_wf w (c_sessions cl) →
  (match screenSession cl with
   | None => setScreenSession c s w =
       Some (true, set_w_calls (<[c := set_screenSession (λ _, Some s) cl]>) w)
   | Some _ => setScreenSession c s w = Some (false, w)
   end) ∧
  (screenSession cl ≠ Some s → ∃ e, clearScreenState c (Some s) w = Some (Err e, w)) ∧
  (∃ e, clearScreenState c None w = Some (Err e, w)).
Proof.
  intros Hc Hs Hp Hm. split_and!.
  - unfold setScreenSession, get_call, upd_call, mbind, go_bind, mret, go_ret. rewrite Hc. cbn.
    destruct (screenSession cl); [done|]. by rewrite Hc.
  - intros Hne. assert (Hwp : wp (clearScreenState c (Some s)) (λ r w', (∃ e, r = Err e) ∧ w' = w) w).
    { eapply clearScreenState_refused; [done..| |by right|by eauto]. by intros ? [= <-]. }
    apply wp_inv in Hwp as (r & w' & Hrun & (e & ->) & ->). eauto.
  - assert (Hwp : wp (clearScreenState c None) (λ r w', (∃ e, r = Err e) ∧ w' = w) w).
    { eapply clearScreenState_refused; [done..|by left|by eauto]. }
    apply wp_inv in Hwp as (r & w' & Hrun & (e & ->) & ->). eauto.
Qed.

Lemma toy_members_wf : members_wf (E := toy_env) ToyWorld.toy_world (c_sessions ToyWorld.toy_call).
Proof.
  intros id l Hl. change (c_sessions ToyWorld.toy_call) with
    (<["a"%string := 3%positive]> {["b"%string := 4%positive]} : gmap string positive) in Hl.
  apply lookup_insert_Some in Hl as [[<- <-]|[_ [<- <-]%lookup_singleton_Some]].
  - exists (ToyWorld.toy_session "a" 0). split_and!; [done|done|]. by split.
  - exists (ToyWorld.toy_session "b" 1). split_and!; [done|done|]. by split.
Qed.

Lemma screen_share_exclusive_witness :
  setScreenSession (E := toy_env) 2 3 ToyWorld.toy_world = Some (true, set_w_calls (E := toy_env)
    (<[2%positive := set_screenSession (λ _, Some 3%positive) ToyWorld.toy_call]>) ToyWorld.toy_world).
Proof.
  apply (screen_share_exclusive (E := toy_env) 2 ToyWorld.toy_call 3 ToyWorld.toy_world).
  - reflexivity.
  - eexists; reflexivity.
  - intros p Hp. discriminate Hp.
  - apply toy_members_wf.
Defined.

(** When the presenter ends its share, the call has no presenter any more,
    the presenter's screen state is reset, every session of the call that was
    shown the screen is told to remove the track it is shown and forgets its
    sender (the request is dropped only when its queue is full), every other
    session is left as it is, and nothing else changes. *)
Theorem end_screen_share {E : Env} c cl p w :
  w_calls w !! c = Some cl → screenSession cl = Some p → p ∈ range (c_sessions cl) →
  members_wf w (c_sessions cl) →
  ∃ w', clearScreenState c (Some p) w = Some (Ok tt, w') ∧
    w_calls w' = <[c := set_screenSession (λ _, None) cl]> (w_calls w) ∧
    w_server w' = w_server w ∧ w_groups w' = w_groups w ∧ w_metrics w' = w_metrics w ∧
    w_rtc w' = w_rtc w ∧
    w_sessions w' !! p = session_clearScreenState <$> w_sessions w !! p ∧
    (∀ l s snd, l ≠ p → l ∈ range (c_sessions cl) → w_sessions w !! l = Some s →
      screenTrackSender s = Some snd →
      w_sessions w' !! l = Some (set_screenTrackSender (λ _, None) (set_tracksCh (push
        {| action := trackActionRemove; ctx_track := sender_Track snd (w_rtc w) |}) s))) ∧
    (∀ l s, l ≠ p → w_sessions w !! l = Some s →
      screenTrackSender s = None ∨ l ∉ range (c_sessions cl) → w_sessions w' !! l = Some s).
Proof.
  intros Hc Hp Hin Hm.
  assert (Hwp : wp (clearScreenState c (Some p))
    (λ r w', r = Ok tt ∧ w' = after_clear c p cl (range (c_sessions cl)) w) w)
    by (by eapply clearScreenState_spec).
  apply wp_inv in Hwp as (r & w' & Hrun & -> & ->). eexists. split; [exact Hrun|].
  unfold after_clear. rewrite bool_decide_true by done. wsimpl. rewrite !lookup_upd_all.
  split_and!; try done.
  - destruct (w_sessions w !! p) as [s|]; [|done]. cbn. unfold cleared.
    by rewrite !bool_decide_true by done.
  - intros l s snd Hl Hlin Hs Hsnd. rewrite lookup_upd_all, Hs. cbn. unfold cleared.
    by rewrite bool_decide_true, (bool_decide_false (l = p)), Hsnd by done.
  - intros l s Hl Hs Hno. rewrite lookup_upd_all, Hs. cbn. unfold cleared.
    case_bool_decide; [|done]. rewrite (bool_decide_false (l = p)) by done.
    destruct Hno as [->|]; done.
Qed.

(** The call of [ToyWorld.toy_world] while session a shares its screen. *)
Definition toy_sharing : call (E := toy_env) :=
  set_screenSession (λ _, Some 3%positive) ToyWorld.toy_call.

Definition toy_sharing_world : world (E := toy_env) :=
  set_w_calls (<[2%positive := toy_sharing]>) ToyWorld.toy_world.

Lemma end_screen_share_witness :
  ∃ w', clearScreenState (E := toy_env) 2 (Some 3%positive) toy_sharing_world = Some (Ok tt, w') ∧
    w_calls w' = <[2%positive := set_screenSession (λ _, None) toy_sharing]> (w_calls toy_sharing_world).
Proof.
  destruct (end_screen_share (E := toy_env) 2 toy_sharing 3 toy_sharing_world) as (w' & H1 & H2 & _).
  - reflexivity.
  - reflexivity.
  - apply elem_of_range. exists "a"%string. reflexivity.
  - exact toy_members_wf.
  - exists w'. split; [exact H1|exact H2].
Defined.

(** C2: closing a session leaves nothing of it behind, for any library whose
    removal of a track succeeds: the gauge of outgoing tracks goes down by one
    for each track the session was sent, its own senders carry nothing, the
    call loses its presenter if the session was it and the others forget the
    sender they showed it with, and no other session's sender carries one of
    its audio tracks; for a video one, the removal was queued, unless the
    queue was full. *)
Theorem session_close_cleans {E : Env} `{!PionLaws env_pion} c us cl s w :
  w_calls w !! c = Some cl → members_wf w (c_sessions cl) →
  w_sessions w !! us = Some s → session_wf s → lib_replaces →
  ∃ w', handleSessionClose c us w = Some (tt, w') ∧
    w_metrics w' = w_metrics w ++ dec_tracks s ∧
    w_calls w' = unpresent c us cl (w_calls w) ∧
    (∀ conn snd, rtcConn s = Some conn → snd ∈ GetSenders conn (w_rtc w') →
      sender_Track snd (w_rtc w') = None) ∧
    (screenSession cl = Some us → ∀ i l, c_sessions cl !! i = Some l →
      no_screen_sender l (SessionID (s_cfg s)) w') ∧
    (∀ i l s' conn snd t, c_sessions cl !! i = Some l → w_sessions w' !! l = Some s' →
      i ≠ SessionID (s_cfg s) → rtcConn s' = Some conn → snd ∈ GetSenders conn (w_rtc w') →
      sender_Track snd (w_rtc w') = Some t → track_ID t ∈ out_track_ids s →
      track_Kind t = KindVideo ∧
      ({| action := trackActionRemove; ctx_track := Some t |} ∈ ch_buf (tracksCh s') ∨
       ch_cap (tracksCh s') ≤ length (ch_buf (tracksCh s')))).
Proof.
  intros Hc Hm Hs Hwf Hlib.
  assert (Hwp : wp (handleSessionClose c us) (λ _ w', evolve (close_base c us cl s w) w' ∧
    (∀ conn snd, rtcConn s = Some conn → snd ∈ GetSenders conn (w_rtc w') →
      sender_Track snd (w_rtc w') = None) ∧
    (out_track_ids s ≠ ∅ → ∀ i l, c_sessions cl !! i = Some l →
      session_clean (out_track_ids s) (SessionID (s_cfg s)) l w') ∧
    (screenSession cl = Some us → ∀ i l, c_sessions cl !! i = Some l →
      no_screen_sender l (SessionID (s_cfg s)) w')) w).
  { eapply handleSessionClose_spec; [done..|]. intros w' H1 H2 H3 H4.
    split; [exact H1|]. split; [exact (H2 Hlib)|]. split; [exact H3|exact H4]. }
  apply wp_inv in Hwp as ([] & w' & Hrun & Hev & Hown & Hclean & Hscr). exists w'.
  split_and!; [done|exact (ev_metrics _ _ Hev)|exact (ev_calls _ _ Hev)|done|done|].
  intros i l s' conn snd t Hi Hs' Hne Hconn Hsnd Ht Hout.
  destruct (Hm i l Hi) as (s0 & Hs0 & Hid & _).
  destruct (evolve_session _ _ l s0 Hev) as (s1 & Hs1 & Hsame%sess_evolve_same); [done|].
  assert (s1 = s') as -> by congruence. destruct Hsame as (Hcfg & _).
  destruct (Hclean ltac:(set_solver) i l Hi s' conn snd Hs' ltac:(congruence) Hconn Hsnd t s' Hs' Ht Hout)
    as [Hk Hq]. split; [by apply Hk|]. by apply Hq, Hk.
Qed.

(** [ToyWorld.toy_world] with session a speaking and session b hearing it. *)
Definition toy_speaker : session (E := toy_env) :=
  set_outVoiceTrack (E := toy_env) (λ _, Some (ToyWorld.toy_voice : @track (@env_pion toy_env)))
    (ToyWorld.toy_session "a" 0).

Definition toy_speaking : world (E := toy_env) :=
  set_w_sessions (<[3%positive := toy_speaker]>)
    (set_w_rtc (λ _, Toy.TRtc [(1, Some ToyWorld.toy_voice)] [] : @rtc (@env_pion toy_env))
      ToyWorld.toy_world).

Lemma toy_speaking_members : members_wf (E := toy_env) toy_speaking (c_sessions ToyWorld.toy_call).
Proof.
  intros id l Hl. change (c_sessions ToyWorld.toy_call) with
    (<["a"%string := 3%positive]> {["b"%string := 4%positive]} : gmap string positive) in Hl.
  apply lookup_insert_Some in Hl as [[<- <-]|[_ [<- <-]%lookup_singleton_Some]].
  - exists toy_speaker. split_and!; [done|done|]. by split.
  - exists (ToyWorld.toy_session "b" 1). split_and!; [done|done|]. by split.
Qed.

Lemma session_close_cleans_witness :
  ∃ w', handleSessionClose (E := toy_env) 2 3 toy_speaking = Some (tt, w') ∧ w_metrics w' = [].
Proof.
  destruct (session_close_cleans (E := toy_env) (PionLaws0 := Toy.toy_laws) 2 3 ToyWorld.toy_call
    toy_speaker toy_speaking) as (w' & Hrun & Hm & _).
  - reflexivity.
  - exact toy_speaking_members.
  - reflexivity.
  - by split.
  - intros snd r. eexists. reflexivity.
  - exists w'. split; [exact Hrun|]. rewrite Hm. unfold dec_tracks.
    change (rxTracks toy_speaker) with (∅ : gmap string (@track (@env_pion toy_env))).
    by rewrite range_empty.
Defined.
