(* ===== verification/Session.v ===== *)
(** * Session: negotiation and tracks of one session (service/rtc/session.go)

    Functions of session.go other than [addSession] and [handleNegotiations]
    (see Registry and Sfu).  A blocking [select] that ends a function's
    critical part is resolved by [select_outcome]: the branches that are ready
    in the state at that point, [pick] choosing among them as the scheduler
    would, [timer] saying whether the timer has fired; when none is ready the
    wait ends with the timer.  What other goroutines do to the world while the
    function waits is the argument [between], an arbitrary action. *)
From Stdlib Require Import Floats.SpecFloat.
From S2P Require Import Prelude GoFloat Utils RtcConfig Vad Rate Pion World Call.

Definition SimulcastLevelHigh : string := "h".
Definition SimulcastLevelLow : string := "l".
Definition SimulcastLevelDefault : string := SimulcastLevelLow.

(** [simulcastRates] and [simulcastRateMonitorSampleSizes]; a level that is
    not a key reads as zero. *)
Definition simulcastRates : gmap string Z :=
  <["h"%string := 2500000%Z]> {["l"%string := 500000%Z]}.
Definition simulcastRateMonitorSampleSizes : gmap string Z :=
  <["h"%string := (2 * second)%Z]> {["l"%string := (5 * second)%Z]}.

Definition getRateForSimulcastLevel (level : string) : Z := default 0%Z (simulcastRates !! level).

(** [rateTolerance] is an untyped constant, a [float32] where it is used:
    0.9 rounds to 15099494 / 2^24. *)
Definition rateTolerance : float := S754_finite false 15099494 (-24).

(** [int(float32(rate) * rateTolerance)]. *)
Definition tolerated (arch : float → Z) (rate : Z) : Z :=
  float_to_int arch (f32_mul (f32_of_Z rate) rateTolerance).

Definition getSimulcastLevel (arch : float → Z) (downRate sourceRate : Z) : string :=
  if ((0 <? sourceRate) && (tolerated arch sourceRate <? downRate))%Z
  then SimulcastLevelHigh else SimulcastLevelLow.

Definition getSimulcastLevelForRate (arch : float → Z) (rate : Z) : string :=
  if (tolerated arch (getRateForSimulcastLevel SimulcastLevelHigh) <? rate)%Z
  then SimulcastLevelHigh else SimulcastLevelLow.

Section session.
  Context {E : Env}.

(** ** Getters *)
Definition getScreenStreamID (l : loc) : go world string :=
  s ← get_session l; mret (screenStreamID s).

Definition level_or_default (rid : string) : string :=
  if bool_decide (rid = str0) then SimulcastLevelDefault else rid.

Definition getRemoteScreenTrack (l : loc) (mimeType rid : string) : go world (option remote) :=
  s ← get_session l;
  mret (remoteScreenTracks s !! getTrackIndex mimeType (level_or_default rid)).

Definition getSourceRate (arch : float → Z) (now : Z) (l : loc) (mimeType rid : string) :
    go world Z :=
  s ← get_session l;
  match screenRateMonitors s !! getTrackIndex mimeType (level_or_default rid) with
  | None => mret (-1)%Z
  | Some rm =>
      m ← gets (λ w, w_monitors w !! rm ≫= GetRate arch now);
      '(rate, _) ← deref m;
      mret rate
  end.

Definition getOutScreenTrack (n : nat) (l : loc) (mimeType rid : string) : go world (option track) :=
  s ← get_session l;
  mret (pickRandom n (default [] (outScreenTracks s !! getTrackIndex mimeType rid))).

Definition getExpectedSimulcastLevel (arch : float → Z) (l : loc) : go world string :=
  s ← get_session l;
  match bwEstimator s with
  | None => mret SimulcastLevelDefault
  | Some b => rate ← lib_read (GetTargetBitrate b); mret (getSimulcastLevelForRate arch rate)
  end.

Definition supportsAV1 (s : session) : bool := AV1Support (Props (s_cfg s)).
Definition dcSignaling (s : session) : bool := DCSignaling (Props (s_cfg s)).

(** ** Negotiation *)
Definition sendOffer (us : loc) (sdpOutCh : out_ch) : go world (result unit) :=
  s ← get_session us;
  conn ← deref (rtcConn s);
  r ← lib (CreateOffer conn);
  match r with
  | Err e => mret (Err (EWrap "failed to create offer" e))
  | Ok offer =>
      r ← lib (SetLocalDescription conn offer);
      match r with
      | Err e => mret (Err (EWrap "failed to set local description" e))
      | Ok _ =>
          d ← lib_read (LocalDescription conn);
          match json_Marshal_sdp d with
          | Err e => mret (Err (EWrap "failed to marshal sdp" e))
          | Ok js =>
              ok ← send_out sdpOutCh (newMessage (s_cfg s) SDPMessage js);
              mret (if ok : bool then Ok tt
                    else Err (EText "failed to send SDP message: channel is full"))
          end
      end
  end.

Definition hasSignalingConflict (us : loc) : go world bool :=
  s ← get_session us;
  match rtcConn s with
  | None => mret false
  | Some conn =>
      stable ← lib_read (SignalingStable conn);
      mret (makingOffer s || negb stable)
  end.

Definition signaling (us : loc) (offer : sdp) (answerCh : out_ch) : go world (result unit) :=
  conflict ← hasSignalingConflict us;
  if conflict : bool then mret (Ok tt)
  else
    s ← get_session us;
    conn ← deref (rtcConn s);
    _ ←? lib (SetRemoteDescription conn offer);
    answer ←? lib (CreateAnswer conn);
    _ ←? lib (SetLocalDescription conn answer);
    d ← lib_read (LocalDescription conn);
    js ←? mret (json_Marshal_sdp d);
    ok ← send_out answerCh (newMessage (s_cfg s) SDPMessage js);
    mret (if ok : bool then Ok tt
          else Err (EText "failed to send SDP message: channel is full")).

(** The [select] on the answer, the timer and [closeCh]. *)
Inductive waited :=
  | GotAnswer (answer : sdp) (ch : chan sdp)
  | AnswersClosed
  | TimedOut
  | SessionClosed.

Definition select_outcome (pick : nat) (timer : bool) (s : session) : waited :=
  let ready :=
    match recv (sdpAnswerInCh s) with
    | inl (answer, ch) => [GotAnswer answer ch]
    | inr true => [AnswersClosed]
    | inr false => []
    end ++ (if timer then [TimedOut] else []) ++ (if closeCh s then [SessionClosed] else []) in
  default TimedOut (pickRandom pick ready).

(** ** Adding a track *)

(** The part of [addTrack] under the session's lock. *)
Definition addTrack_sender (us : loc) (t : track) : go world (result sender) :=
  s ← get_session us;
  conn ← deref (rtcConn s);
  senders ← lib_read (GetSenders conn);
  r ← gets w_rtc;
  if existsb (λ snd, bool_decide (sender_Track snd r = Some t)) senders then
    mret (Err (EText "sender for track already exists"))
  else if bool_decide (track_Kind t = KindVideo) && bool_decide (screenTrackSender s ≠ None) then
    mret (Err (EText "screen track sender is already set"))
  else
    a ← lib (AddTrack conn t);
    match a with
    | Err e => mret (Err (EWrap ("failed to add track " +:+ track_ID t) e))
    | Ok snd =>
        emit (IncRTPTracks (GroupID (s_cfg s)) "out" (getTrackType (track_Kind t))) ;;
        mret (Ok snd)
    end.

(** The session once the answer is in. *)
Definition track_added (t : track) (snd : sender) (s : session) : session :=
  set_rxTracks (<[track_ID t := t]>)
    (if bool_decide (track_Kind t = KindVideo)
     then set_screenTrackSender (λ _, Some snd) s else s).

Definition addTrack_negotiate (us : loc) (sdpOutCh : out_ch) (t : track) (snd : sender)
    (between : go world unit) (pick : nat) (timer : bool) : go world (result unit) :=
  r ← sendOffer us sdpOutCh;
  match r with
  | Err e => mret (Err (EWrap ("failed to send offer for track " +:+ track_ID t) e))
  | Ok _ =>
      between ;;
      s ← get_session us;
      match select_outcome pick timer s with
      | GotAnswer answer ch =>
          upd_session us (set_sdpAnswerInCh (λ _, ch)) ;;
          conn ← deref (rtcConn s);
          r ← lib (SetRemoteDescription conn answer);
          match r with
          | Err e =>
              mret (Err (EWrap ("failed to set remote description for track " +:+ track_ID t) e))
          | Ok _ =>
              upd_session us (track_added t snd) ;;
              mret (Ok tt)
          end
      | AnswersClosed | SessionClosed => mret (Ok tt)
      | TimedOut => mret (Err (EText "timed out signaling"))
      end
  end.

(** The deferred clean-up of a failed [addTrack]. *)
Definition addTrack_rollback (us : loc) (t : track) (snd : sender) : go world unit :=
  s ← get_session us;
  r ← lib (ReplaceTrack snd None);
  match r with
  | Err _ => mret tt
  | Ok _ =>
      emit (DecRTPTracks (GroupID (s_cfg s)) "out" (getTrackType (track_Kind t))) ;;
      upd_session us (set_rxTracks (delete (track_ID t)))
  end.

Definition addTrack_body (us : loc) (sdpOutCh : out_ch) (t : track)
    (between : go world unit) (pick : nat) (timer : bool) : go world (result unit) :=
  snd ←? addTrack_sender us t;
  r ← addTrack_negotiate us sdpOutCh t snd between pick timer;
  match r with
  | Ok _ => mret (Ok tt)
  | Err e => addTrack_rollback us t snd ;; mret (Err e)
  end.

Definition addTrack (us : loc) (sdpOutCh : out_ch) (tr : option track)
    (between : go world unit) (pick : nat) (timer : bool) : go world (result unit) :=
  match tr with
  | None => mret (Err (EText "trying to add a nil track"))
  | Some t =>
      upd_session us (set_makingOffer (λ _, true)) ;;
      r ← addTrack_body us sdpOutCh t between pick timer;
      upd_session us (set_makingOffer (λ _, false)) ;;
      mret r
  end.

(** ** Removing a track *)

(** The part of [removeTrack] under the session's lock. *)
Definition removeTrack_sender (us : loc) (t : track) : go world (result unit) :=
  s ← get_session us;
  conn ← deref (rtcConn s);
  senders ← lib_read (GetSenders conn);
  r ← gets w_rtc;
  match List.find (λ snd, bool_decide (sender_Track snd r = Some t)) senders with
  | None => mret (Err (EText "failed to find sender for track"))
  | Some snd =>
      a ← lib (RemoveTrack conn snd);
      match a with
      | Err e => mret (Err (EWrap "failed to remove track" e))
      | Ok _ =>
          emit (DecRTPTracks (GroupID (s_cfg s)) "out" (getTrackType (track_Kind t))) ;;
          upd_session us (λ s,
            set_rxTracks (delete (track_ID t))
              (if bool_decide (screenTrackSender s = Some snd)
               then set_screenTrackSender (λ _, None) s else s)) ;;
          mret (Ok tt)
      end
  end.

Definition removeTrack (us : loc) (sdpOutCh : out_ch) (tr : option track)
    (between : go world unit) (pick : nat) (timer : bool) : go world (result unit) :=
  match tr with
  | None => mret (Err (EText "trying to remove a nil track"))
  | Some t =>
      _ ←? removeTrack_sender us t;
      r ← sendOffer us sdpOutCh;
      match r with
      | Err e => mret (Err (EWrap "failed to send offer" e))
      | Ok _ =>
          between ;;
          s ← get_session us;
          match select_outcome pick timer s with
          | GotAnswer answer ch =>
              upd_session us (set_sdpAnswerInCh (λ _, ch)) ;;
              conn ← deref (rtcConn s);
              r ← lib (SetRemoteDescription conn answer);
              mret (wrap_err "failed to set remote description" r)
          | AnswersClosed | SessionClosed => mret (Ok tt)
          | TimedOut => mret (Err (EText "timed out signaling"))
          end
      end
  end.

(** ** Incoming candidates and feedback *)

(** One iteration of [handleICE] on a candidate from [iceInCh]; every path
    continues the loop. *)
Definition handleICE_data (us : loc) (data : string) : go world unit :=
  s ← get_session us;
  match json_Unmarshal_candidate data with
  | Err _ => mret tt
  | Ok cand =>
      if cand_IsEmpty cand then mret tt
      else
        conn ← deref (rtcConn s);
        r ← lib (AddICECandidate conn cand);
        match r with
        | Err _ => emit (IncRTCErrors (GroupID (s_cfg s)) "ice")
        | Ok _ => mret tt
        end
  end.

(** The limiter of an SSRC, created on first use. *)
Definition pli_allow (now : Z) (c : loc) (ssrc : Z) : go world bool :=
  cl ← get_call c;
  let lim := default (NewLimiter 1000 1) (pliLimiters cl !! ssrc) in
  let '(ok, lim') := Allow now lim in
  upd_call c (set_pliLimiters (<[ssrc := lim']>)) ;;
  mret ok.

(** [handleSenderRTCP] on one PLI packet: [false] ends the goroutine. *)
Definition handlePLI (us : loc) (snd : sender) (now : Z) : go world bool :=
  s ← get_session us;
  screen ← getScreenSession (s_call s);
  match screen with
  | None => mret false
  | Some ss =>
      t ← lib_read (sender_Track snd);
      match t with
      | None => mret false
      | Some t =>
          if negb (track_isStatic t) then mret false
          else
            screenTrack ← getRemoteScreenTrack ss (track_MimeType t) (track_RID t);
            match screenTrack with
            | None => mret false
            | Some rt =>
                ok ← pli_allow now (s_call s) (remote_SSRC rt);
                if ok : bool then
                  presenter ← get_session ss;
                  conn ← deref (rtcConn presenter);
                  r ← lib (WritePLI conn (remote_SSRC rt));
                  mret (is_ok r)
                else mret true
            end
      end
  end.

(** ** Voice activity *)

(** The callback [InitVAD] gives the monitor: a voice message on the server's
    channel, dropped when it is full. *)
Definition vad_callback (us : loc) (voice : bool) : go world unit :=
  s ← get_session us;
  _ ← send_out ToReceiveCh
        (newMessage (s_cfg s) (if voice then VoiceOnMessage else VoiceOffMessage) str0);
  mret tt.

Definition InitVAD (us : loc) : go world (result unit) :=
  match NewMonitor (SetDefaults {| VoiceLevelsSampleSize := 0; ActivationDuration := 0;
                     VoiceActivationThreshold := 0; VoiceDeactivationThreshold := 0 |}) true with
  | Err e => mret (Err (EWrap "failed to create vad monitor" e))
  | Ok monitor => upd_session us (set_vadMonitor (λ _, Some monitor)) ;; mret (Ok tt)
  end.

Definition call_vad (us : loc) (ev : option bool) : go world unit :=
  match ev with Some voice => vad_callback us voice | None => mret tt end.

(** [us.vadMonitor.PushAudioLevel(level)] and [us.vadMonitor.Reset()]. *)
Definition vad_push (arch : float → Z) (us : loc) (level now : Z) : go world unit :=
  s ← get_session us;
  m ← deref (vadMonitor s);
  '(m', ev) ← deref (PushAudioLevel arch level now m);
  upd_session us (set_vadMonitor (λ _, Some m')) ;;
  call_vad us ev.

Definition vad_reset (us : loc) : go world unit :=
  s ← get_session us;
  match vadMonitor s with
  | None => mret tt
  | Some m =>
      upd_session us (set_vadMonitor (λ _, Some (fst (Reset m)))) ;;
      call_vad us (snd (Reset m))
  end.

(** ** Steps that only move messages *)

(** A session without its channels. *)
Definition core (s : session) : session :=
  set_tracksCh (λ _, make_chan 0) (set_iceInCh (λ _, make_chan 0) (set_sdpOfferInCh (λ _, make_chan 0)
    (set_sdpAnswerInCh (λ _, make_chan 0) (set_dcSDPCh (λ _, make_chan 0)
      (set_closeCh (λ _, false) (set_doneCh (λ _, false) s)))))).

(** Only channels and the library's state differ. *)
Record quiet (w w' : world) : Prop := {
  q_groups : w_groups w' = w_groups w;
  q_calls : w_calls w' = w_calls w;
  q_metrics : w_metrics w' = w_metrics w;
  q_sessions : ∀ l, core <$> w_sessions w' !! l = core <$> w_sessions w !! l;
}.

#[export] Instance quiet_preorder : PreOrder quiet.
Proof.
  split; [by split|]. intros w1 w2 w3 [] []. split; try congruence.
Qed.

Lemma quiet_rtc w r : quiet w (set_w_rtc (λ _, r) w).
Proof. by split. Qed.

Lemma quiet_server w f : quiet w (set_w_server f w).
Proof. by split. Qed.

Lemma quiet_upd w l s f :
  w_sessions w !! l = Some s → core (f s) = core s → quiet w (set_w_sessions (<[l := f s]>) w).
Proof.
  intros Hs Hc. split; try done. intros l'. wsimpl. destruct (decide (l = l')) as [->|Hne].
  - rewrite lookup_insert_eq, Hs. cbn. by rewrite Hc.
  - by rewrite lookup_insert_ne.
Qed.

Lemma quiet_session w w' l s :
  quiet w w' → w_sessions w !! l = Some s → ∃ s', w_sessions w' !! l = Some s' ∧ core s' = core s.
Proof.
  intros Hw Hs. pose proof (q_sessions _ _ Hw l) as H. rewrite Hs in H.
  destruct (w_sessions w' !! l) as [s'|]; [|done]. cbn in H. eexists. split; [done|congruence].
Qed.

Lemma core_fields s s' :
  core s' = core s → s_cfg s' = s_cfg s ∧ rtcConn s' = rtcConn s ∧ rxTracks s' = rxTracks s ∧
    screenTrackSender s' = screenTrackSender s ∧ makingOffer s' = makingOffer s ∧
    s_call s' = s_call s.
Proof. destruct s, s'. unfold core. cbn. intros [=]. by subst. Qed.

(** The output channel is open and its owner exists. *)
Definition out_ready (o : out_ch) (w : world) : Prop :=
  match o with
  | ToReceiveCh => ch_closed (receiveCh (w_server w)) = false
  | ToDcSDPCh l => ∃ s, w_sessions w !! l = Some s ∧ ch_closed (dcSDPCh s) = false
  end.

(** The messages queued on it. *)
Definition out_buf (o : out_ch) (w : world) : list Message :=
  match o with
  | ToReceiveCh => ch_buf (receiveCh (w_server w))
  | ToDcSDPCh l => match w_sessions w !! l with Some s => ch_buf (dcSDPCh s) | None => [] end
  end.

Lemma wp_send_out_buf o m Q w :
  out_ready o w →
  (∀ (b : bool) w', quiet w w' → w_rtc w' = w_rtc w →
    out_buf o w' = (if b then out_buf o w ++ [m] else out_buf o w) → Q b w') →
  wp (send_out o m) Q w.
Proof.
  intros Ho HQ. destruct o as [|l]; cbn in Ho; unfold send_out, send_on.
  - apply wp_bind, wp_gets.
    destruct (try_send_push m (receiveCh (w_server w)) Ho) as [[-> Hb]|[-> _]].
    + apply wp_bind, wp_modify, wp_ret, HQ; [apply quiet_server|done|exact Hb].
    + by apply wp_ret, HQ.
  - destruct Ho as (s & Hs & Hc). apply wp_bind. eapply wp_get_session; [done|].
    destruct (try_send_push m (dcSDPCh s) Hc) as [[-> Hb]|[-> _]].
    + apply wp_bind. eapply wp_upd_session; [done|]. apply wp_ret, HQ; [|done|].
      * eapply quiet_upd; [done|]. by destruct s.
      * unfold out_buf. wsimpl. by rewrite lookup_insert_eq, Hs.
    + by apply wp_ret, HQ.
Qed.

Lemma wp_send_out o m Q w :
  out_ready o w → (∀ b w', quiet w w' → w_rtc w' = w_rtc w → Q b w') → wp (send_out o m) Q w.
Proof. intros Ho HQ. apply wp_send_out_buf; auto. Qed.

Lemma wp_sendOffer us s o Q w :
  w_sessions w !! us = Some s → is_Some (rtcConn s) → out_ready o w →
  (∀ r w', quiet w w' → Q r w') → wp (sendOffer us o) Q w.
Proof.
  intros Hs [conn Hconn] Ho HQ. unfold sendOffer.
  apply wp_bind. eapply wp_get_session; [done|]. apply wp_bind. eapply wp_deref; [done|].
  apply wp_bind, wp_lib. intros [offer|e] r1 _; [|apply wp_ret, HQ, quiet_rtc].
  apply wp_bind, wp_lib. intros [[]|e] r2 _.
  2: { apply wp_ret, HQ. etrans; apply quiet_rtc. }
  apply wp_bind, wp_lib_read.
  assert (Hq : quiet w (set_w_rtc (λ _, r2) (set_w_rtc (λ _, r1) w))) by (etrans; apply quiet_rtc).
  destruct (json_Marshal_sdp _); [|by apply wp_ret, HQ].
  apply wp_bind, wp_send_out; [by destruct o|]. intros b w' Hw' _. apply wp_ret.
  destruct b; apply HQ; by etrans.
Qed.

(** ** The books of [addTrack] *)
Definition inc_out (s : session) (t : track) : metric :=
  IncRTPTracks (GroupID (s_cfg s)) "out" (getTrackType (track_Kind t)).
Definition dec_out (s : session) (t : track) : metric :=
  DecRTPTracks (GroupID (s_cfg s)) "out" (getTrackType (track_Kind t)).

(** The session and the metrics as [addTrack] left them: [rx] are the tracks
    sent to the session, [added] the metrics it reported. *)
Definition books (us : loc) (s : session) (w : world) (rx : gmap string track)
    (added : list metric) (w' : world) : Prop :=
  w_metrics w' = w_metrics w ++ added ∧
  ∃ s', w_sessions w' !! us = Some s' ∧ s_cfg s' = s_cfg s ∧ rtcConn s' = rtcConn s ∧
    rxTracks s' = rx.

Lemma books_quiet us s w rx added w1 w2 :
  books us s w rx added w1 → quiet w1 w2 → books us s w rx added w2.
Proof.
  intros (Hm & s1 & Hs1 & Hc1 & Hr1 & <-) Hq. split; [by rewrite (q_metrics _ _ Hq)|].
  destruct (quiet_session _ _ _ _ Hq Hs1) as (s2 & Hs2 & Hcore).
  apply core_fields in Hcore as (? & ? & ? & _). exists s2. split_and!; [done|congruence..].
Qed.

Lemma books_upd us s w rx added w1 s1 f :
  books us s w rx added w1 → w_sessions w1 !! us = Some s1 →
  (∀ x, s_cfg (f x) = s_cfg x ∧ rtcConn (f x) = rtcConn x) →
  books us s w (rxTracks (f s1)) added (set_w_sessions (<[us := f s1]>) w1).
Proof.
  intros (Hm & s1' & Hs1' & Hc & Hr & _) Hs1 Hf. split; [done|]. exists (f s1).
  rewrite Hs1 in Hs1'. simplify_eq. wsimpl. rewrite lookup_insert_eq.
  destruct (Hf s1') as [-> ->]. done.
Qed.

Lemma books_emit us s w rx added w1 m :
  books us s w rx added w1 → books us s w rx (added ++ [m]) (set_w_metrics (λ l, l ++ [m]) w1).
Proof. intros (Hm & Hs). split; [|exact Hs]. wsimpl. by rewrite Hm, app_assoc. Qed.

(** The session was closed, or its channel of answers was. *)
Definition given_up (us : loc) (w : world) : Prop :=
  ∃ s, w_sessions w !! us = Some s ∧ (closeCh s = true ∨ ch_closed (sdpAnswerInCh s) = true).

Lemma select_given_up us pick timer s w :
  w_sessions w !! us = Some s →
  select_outcome pick timer s = AnswersClosed ∨ select_outcome pick timer s = SessionClosed → given_up us w.
Proof.
  intros Hs Hsel. exists s. split; [done|]. unfold select_outcome in Hsel.
  destruct (pickRandom pick _) as [ev|] eqn:Hp; [|by destruct Hsel]. cbn in Hsel. apply pickRandom_elem in Hp.
  unfold recv in Hp. destruct Hsel as [-> | ->];
    destruct (ch_buf (sdpAnswerInCh s)), (ch_closed (sdpAnswerInCh s)), timer, (closeCh s); set_solver.
Qed.

(** What an outcome of [addTrack] means for the books. *)
Definition addTrack_books (us : loc) (s : session) (t : track) (w : world) (r : result unit)
    (w' : world) : Prop :=
  match r with
  | Ok _ =>
      books us s w (<[track_ID t := t]> (rxTracks s)) [inc_out s t] w' ∨
      (books us s w (rxTracks s) [inc_out s t] w' ∧ given_up us w')
  | Err _ =>
      books us s w (rxTracks s) [] w' ∨
      books us s w (delete (track_ID t) (rxTracks s)) [inc_out s t; dec_out s t] w' ∨
      ((∃ snd r e, fst (ReplaceTrack snd None r) = Err e) ∧
       books us s w (rxTracks s) [inc_out s t] w')
  end.

(** An action of other goroutines: it only moves messages, and may close the
    session. *)
Definition quiet_action (m : go world unit) : Prop := ∀ w, wp m (λ _, quiet w) w.

Lemma books_init us s w : w_sessions w !! us = Some s → books us s w (rxTracks s) [] w.
Proof. intros Hs. split; [by rewrite app_nil_r|]. by exists s. Qed.

Lemma books_session us s w rx added w1 :
  books us s w rx added w1 →
  ∃ s1, w_sessions w1 !! us = Some s1 ∧ s_cfg s1 = s_cfg s ∧ rtcConn s1 = rtcConn s ∧ rxTracks s1 = rx.
Proof. by intros [_ H]. Qed.

Lemma books_rtc us s w rx added w1 r :
  books us s w rx added w1 → books us s w rx added (set_w_rtc (λ _, r) w1).
Proof. intros H. exact H. Qed.

Lemma wp_addTrack_sender us s w0 rx t Q w :
  is_Some (rtcConn s) → books us s w0 rx [] w →
  (∀ e w', books us s w0 rx [] w' → Q (Err e) w') →
  (∀ snd w', books us s w0 rx [inc_out s t] w' → w_server w' = w_server w →
    w_sessions w' = w_sessions w → Q (Ok snd) w') →
  wp (addTrack_sender us t) Q w.
Proof.
  intros [conn Hconn] Hb HE HO. unfold addTrack_sender.
  destruct (books_session _ _ _ _ _ _ Hb) as (s1 & Hs1 & Hcfg & Hcn & Hrx).
  apply wp_bind. eapply wp_get_session; [done|].
  apply wp_bind. eapply wp_deref; [by rewrite Hcn|]. apply wp_bind, wp_lib_read.
  apply wp_bind, wp_gets. destruct (existsb _ _); [by apply wp_ret, HE|].
  destruct (_ && _); [by apply wp_ret, HE|]. apply wp_bind, wp_lib.
  intros [snd|e] r _; [|by apply wp_ret, HE, books_rtc].
  apply wp_bind, wp_emit, wp_ret. rewrite Hcfg. apply HO; [|done|done].
  apply (books_emit us s w0 rx [] _ (inc_out s t)). by apply books_rtc.
Qed.

Lemma wp_addTrack_negotiate us s w0 rx added o t snd between pick timer Q w :
  is_Some (rtcConn s) → books us s w0 rx added w → out_ready o w → quiet_action between →
  (∀ e w', books us s w0 rx added w' → Q (Err e) w') →
  (∀ rx' w', rx' = rx ∧ given_up us w' ∨ rx' = <[track_ID t := t]> rx →
     books us s w0 rx' added w' → Q (Ok tt) w') →
  wp (addTrack_negotiate us o t snd between pick timer) Q w.
Proof.
  intros [conn Hconn] Hb Ho Hbet HE HO. unfold addTrack_negotiate.
  destruct (books_session _ _ _ _ _ _ Hb) as (s1 & Hs1 & _ & Hcn & _).
  apply wp_bind. eapply wp_sendOffer; [done|by rewrite Hcn|done|]. intros r w1 Hq1.
  pose proof (books_quiet _ _ _ _ _ _ _ Hb Hq1) as Hb1.
  destruct r; [|by apply wp_ret, HE]. apply wp_bind. eapply wp_mono; [apply Hbet|].
  intros [] w2 Hq2. pose proof (books_quiet _ _ _ _ _ _ _ Hb1 Hq2) as Hb2.
  destruct (books_session _ _ _ _ _ _ Hb2) as (s2 & Hs2 & _ & Hcn2 & _).
  apply wp_bind. eapply wp_get_session; [done|].
  pose proof (select_given_up us pick timer s2 w2 Hs2) as Hgu.
  destruct (select_outcome pick timer s2) as [answer ch| | |].
  - apply wp_bind. eapply wp_upd_session; [done|].
    apply wp_bind. eapply wp_deref; [by rewrite Hcn2|]. apply wp_bind, wp_lib. intros r r3 _.
    assert (Hq3 : quiet w2 (set_w_sessions (<[us := set_sdpAnswerInCh (λ _, ch) s2]>) w2)).
    { eapply quiet_upd; [done|]. by destruct s2. }
    pose proof (books_rtc _ _ _ _ _ _ r3 (books_quiet _ _ _ _ _ _ _ Hb2 Hq3)) as Hb3.
    destruct r; [|by apply wp_ret, HE].
    destruct (books_session _ _ _ _ _ _ Hb3) as (s3 & Hs3 & _ & _ & Hrx3).
    apply wp_bind. eapply wp_upd_session; [exact Hs3|]. apply wp_ret.
    eapply HO; [|eapply (books_upd _ _ _ _ _ _ _ (track_added t snd)); [exact Hb3|exact Hs3|]].
    + right. rewrite <- Hrx3. unfold track_added. destruct s3. cbn. by case_bool_decide.
    + intros x. unfold track_added. destruct x. cbn. by case_bool_decide.
  - apply wp_ret. eapply HO; [left; auto|done].
  - apply wp_ret. by apply HE.
  - apply wp_ret. eapply HO; [left; auto|done].
Qed.

Lemma wp_addTrack_rollback us s w0 rx added t snd Q w :
  books us s w0 rx added w →
  (∀ w', books us s w0 (delete (track_ID t) rx) (added ++ [dec_out s t]) w' → Q tt w') →
  (∀ w' e, fst (ReplaceTrack snd None (w_rtc w)) = Err e → books us s w0 rx added w' → Q tt w') →
  wp (addTrack_rollback us t snd) Q w.
Proof.
  intros Hb HO HE. unfold addTrack_rollback.
  destruct (books_session _ _ _ _ _ _ Hb) as (s1 & Hs1 & Hcfg & _ & Hrx).
  apply wp_bind. eapply wp_get_session; [done|]. apply wp_bind, wp_lib. intros r r1 Hr.
  destruct r; [|eapply wp_ret, HE; [by rewrite Hr|by apply books_rtc]].
  apply wp_bind, wp_emit. rewrite Hcfg.
  pose proof (books_emit _ _ _ _ _ _ (dec_out s t) (books_rtc _ _ _ _ _ _ r1 Hb)) as Hb2.
  eapply wp_upd_session; [exact Hs1|]. apply HO.
  replace (delete (track_ID t) rx) with (rxTracks (set_rxTracks (delete (track_ID t)) s1))
    by (destruct s1; cbn in *; by rewrite Hrx).
  eapply books_upd; [exact Hb2|exact Hs1|by intros []].
Qed.

Lemma addTrack_spec us s o t between pick timer w :
  w_sessions w !! us = Some s → is_Some (rtcConn s) → out_ready o w → quiet_action between →
  wp (addTrack us o (Some t) between pick timer)
    (λ r w', addTrack_books us s t w r w' ∧
      ∃ s', w_sessions w' !! us = Some s' ∧ makingOffer s' = false) w.
Proof.
  intros Hs Hconn Ho Hbet. unfold addTrack.
  apply wp_bind. eapply wp_upd_session; [done|].
  set (w1 := set_w_sessions (<[us := set_makingOffer (λ _, true) s]>) w).
  assert (Hb1 : books us s w (rxTracks s) [] w1).
  { split; [by rewrite app_nil_r|]. eexists. unfold w1. wsimpl. rewrite lookup_insert_eq.
    by destruct s. }
  assert (Ho1 : out_ready o w1).
  { destruct o as [|l]; [done|]. destruct Ho as (s' & Hs' & Hc). unfold out_ready, w1. wsimpl.
    destruct (decide (us = l)) as [->|]; [|rewrite lookup_insert_ne by done; eauto].
    rewrite Hs in Hs'. simplify_eq. rewrite lookup_insert_eq. eexists. split; [done|].
    by destruct s'. }
  assert (Hend : ∀ (r : result unit) rx added w', books us s w rx added w' →
    wp (upd_session us (set_makingOffer (λ _, false)) ;; mret r) (λ r' w'', r' = r ∧
      books us s w rx added w'' ∧ (given_up us w' → given_up us w'') ∧
      ∃ s', w_sessions w'' !! us = Some s' ∧ makingOffer s' = false) w').
  { intros r rx added w' Hb. destruct (books_session _ _ _ _ _ _ Hb) as (s' & Hs' & _ & _ & Hrx).
    apply wp_bind. eapply wp_upd_session; [done|]. apply wp_ret. split_and!; [done| | |].
    - replace rx with (rxTracks (set_makingOffer (λ _, false) s')) by (by destruct s').
      eapply books_upd; [exact Hb|done|by intros []].
    - intros (x & Hx & Hc). assert (x = s') as -> by congruence. eexists. wsimpl. rewrite lookup_insert_eq.
      split; [done|]. by destruct s'.
    - eexists. wsimpl. rewrite lookup_insert_eq. split; [done|]. by destruct s'. }
  apply wp_bind. unfold addTrack_body, bind_res. apply wp_bind.
  eapply wp_addTrack_sender; [done|exact Hb1| |].
  - intros e w2 Hb2. apply wp_ret. eapply wp_mono; [by eapply Hend|].
    intros ? w' (-> & Hb & _ & Hmo). split; [by left|done].
  - intros snd w2 Hb2 Hsrv Hsess. apply wp_bind.
    eapply (wp_addTrack_negotiate us s w); [done|exact Hb2| |done| |].
    + destruct o; unfold out_ready in *; by rewrite ?Hsrv, ?Hsess.
    + intros e w3 Hb3. apply wp_bind. eapply wp_addTrack_rollback; [exact Hb3| |].
      * intros w4 Hb4. apply wp_ret. eapply wp_mono; [by eapply Hend|].
        intros ? w' (-> & Hb & _ & Hmo). split; [right; by left|done].
      * intros w4 e' He' Hb4. apply wp_ret. eapply wp_mono; [by eapply Hend|].
        intros ? w' (-> & Hb & _ & Hmo). split; [right; right; eauto|done].
    + intros rx' w3 Hrx' Hb3. apply wp_ret. eapply wp_mono; [by eapply Hend|].
      intros ? w' (-> & Hb & Hg & Hmo). split; [|done]. destruct Hrx' as [[-> Hgu]| ->]; [right; auto|by left].
Qed.

(** [removeTrack] takes a track off the books, or changes nothing on them. *)
Lemma removeTrack_spec us s o t between pick timer w :
  w_sessions w !! us = Some s → is_Some (rtcConn s) → out_ready o w → quiet_action between →
  wp (removeTrack us o (Some t) between pick timer)
    (λ r w', (is_ok r = false ∧ books us s w (rxTracks s) [] w') ∨
      books us s w (delete (track_ID t) (rxTracks s)) [dec_out s t] w') w.
Proof.
  intros Hs [conn Hconn] Ho Hbet. unfold removeTrack, bind_res.
  pose proof (books_init us s w Hs) as Hb.
  apply wp_bind. unfold removeTrack_sender. apply wp_bind. eapply wp_get_session; [done|].
  apply wp_bind. eapply wp_deref; [done|]. apply wp_bind, wp_lib_read. apply wp_bind, wp_gets.
  destruct (List.find _ _) as [snd|]; [|apply wp_ret, wp_ret; by left].
  apply wp_bind, wp_lib. intros [[]|e] r1 _.
  2: { apply wp_ret, wp_ret. left. split; [done|]. by apply books_rtc. }
  apply wp_bind, wp_emit.
  pose proof (books_emit _ _ _ _ _ _ (dec_out s t) (books_rtc _ _ _ _ _ _ r1 Hb)) as Hb2.
  set (f := λ s, set_rxTracks (delete (track_ID t))
    (if bool_decide (screenTrackSender s = Some snd) then set_screenTrackSender (λ _, None) s else s)).
  apply wp_bind. eapply wp_upd_session; [exact Hs|]. apply wp_ret. fold f.
  set (w2 := set_w_sessions (<[us := f s]>) _).
  assert (Hb3 : books us s w (delete (track_ID t) (rxTracks s)) [dec_out s t] w2).
  { replace (delete (track_ID t) (rxTracks s)) with (rxTracks (f s))
      by (unfold f; destruct s; cbn; by case_bool_decide).
    eapply (books_upd _ _ _ _ _ _ _ f); [exact Hb2|exact Hs|].
    intros x. unfold f. destruct x. cbn. by case_bool_decide. }
  assert (Ho2 : out_ready o w2).
  { destruct o as [|l]; [done|]. destruct Ho as (s' & Hs' & Hc). unfold out_ready, w2. wsimpl.
    destruct (decide (us = l)) as [->|]; [|rewrite lookup_insert_ne by done; eauto].
    rewrite Hs in Hs'. simplify_eq. rewrite lookup_insert_eq. eexists. split; [done|].
    unfold f. destruct s'. cbn in *. by case_bool_decide. }
  clearbody w2. clear Hb Hb2.
  destruct (books_session _ _ _ _ _ _ Hb3) as (s2 & Hs2 & _ & Hcn & _).
  apply wp_bind. eapply wp_sendOffer; [done|by rewrite Hcn, Hconn|done|]. intros r w3 Hq3.
  pose proof (books_quiet _ _ _ _ _ _ _ Hb3 Hq3) as Hb4.
  destruct r; [|apply wp_ret; by right]. apply wp_bind. eapply wp_mono; [apply Hbet|].
  intros [] w4 Hq4. pose proof (books_quiet _ _ _ _ _ _ _ Hb4 Hq4) as Hb5.
  destruct (books_session _ _ _ _ _ _ Hb5) as (s4 & Hs4 & _ & Hcn4 & _).
  apply wp_bind. eapply wp_get_session; [done|].
  destruct (select_outcome pick timer s4) as [answer ch| | |]; [|apply wp_ret; by right..].
  apply wp_bind. eapply wp_upd_session; [done|].
  apply wp_bind. eapply wp_deref; [by rewrite Hcn4|]. apply wp_bind, wp_lib. intros r r5 _.
  apply wp_ret. right. apply books_rtc. eapply books_quiet; [done|].
  eapply quiet_upd; [done|]. by destruct s4.
Qed.

(** ** The gauge of outgoing tracks against the tracks sent *)
Definition rx_count (ty : string) (rx : gmap string track) : Z :=
  Z.of_nat (base.size (filter (λ p, getTrackType (track_Kind (snd p)) = ty) rx)).

(** How far the group's gauge is ahead of the tracks session [us] is sent. *)
Definition ahead (us : loc) (s : session) (ty : string) (w : world) : Z :=
  (tracks_gauge (GroupID (s_cfg s)) "out" ty (w_metrics w) -
   match w_sessions w !! us with Some s' => rx_count ty (rxTracks s') | None => 0 end)%Z.

Lemma gauge_inc_out s t ty :
  tracks_gauge (GroupID (s_cfg s)) "out" ty [inc_out s t] =
    if bool_decide (getTrackType (track_Kind t) = ty) then 1%Z else 0%Z.
Proof.
  unfold tracks_gauge, inc_out. rewrite !count_metric_1. rewrite (bool_decide_false (_ = DecRTPTracks _ _ _)) by done.
  repeat case_bool_decide; simplify_eq; done.
Qed.

Lemma gauge_dec_out s t ty :
  tracks_gauge (GroupID (s_cfg s)) "out" ty [dec_out s t] =
    if bool_decide (getTrackType (track_Kind t) = ty) then (-1)%Z else 0%Z.
Proof.
  unfold tracks_gauge, dec_out. rewrite !count_metric_1. rewrite (bool_decide_false (_ = IncRTPTracks _ _ _)) by done.
  repeat case_bool_decide; simplify_eq; done.
Qed.

Lemma gauge_nil g dir ty : tracks_gauge g dir ty [] = 0%Z.
Proof. done. Qed.

Lemma rx_count_insert ty rx t :
  rx !! track_ID t = None →
  rx_count ty (<[track_ID t := t]> rx) =
    (rx_count ty rx + if bool_decide (getTrackType (track_Kind t) = ty) then 1 else 0)%Z.
Proof.
  intros Hn. unfold rx_count. case_bool_decide as Hty.
  - rewrite map_filter_insert_True by done. rewrite map_size_insert_None; [lia|].
    by apply map_lookup_filter_None; left.
  - rewrite map_filter_insert_False by done. rewrite delete_id by done. lia.
Qed.

Lemma books_ahead us s w rx added w' ty :
  w_sessions w !! us = Some s → books us s w rx added w' →
  (ahead us s ty w' - ahead us s ty w =
   tracks_gauge (GroupID (s_cfg s)) "out" ty added - (rx_count ty rx - rx_count ty (rxTracks s)))%Z.
Proof.
  intros Hs (Hm & s' & Hs' & _ & _ & Hrx). unfold ahead. rewrite Hs, Hs', Hm, Hrx, tracks_gauge_app. lia.
Qed.

(** ** Incoming offers *)
Definition conflicting (s : session) (conn : pc) (w : world) : Prop :=
  makingOffer s = true ∨ SignalingStable conn (w_rtc w) = false.

Lemma signaling_conflict us s conn offer o w :
  w_sessions w !! us = Some s → rtcConn s = Some conn → conflicting s conn w →
  signaling us offer o w = Some (Ok tt, w).
Proof.
  intros Hs Hc Hx.
  assert (Hwp : wp (signaling us offer o) (λ r w', r = Ok tt ∧ w' = w) w).
  { unfold signaling. apply wp_bind. unfold hasSignalingConflict. apply wp_bind.
    eapply wp_get_session; [done|]. rewrite Hc. apply wp_bind, wp_lib_read, wp_ret.
    assert (makingOffer s || negb (SignalingStable conn (w_rtc w)) = true) as ->; [|by apply wp_ret].
    destruct Hx as [-> | ->]; [done|]. by rewrite orb_true_r. }
  apply wp_inv in Hwp as (r & w' & Hrun & -> & ->). exact Hrun.
Qed.

(** What [signaling] leaves: on success one answer, on an error nothing. *)
Definition answered (s : session) (conn : pc) (o : out_ch) (w : world) (r : result unit)
    (w' : world) : Prop :=
  quiet w w' ∧
  match r with
  | Ok _ => ∃ js, json_Marshal_sdp (LocalDescription conn (w_rtc w')) = Ok js ∧
      out_buf o w' = out_buf o w ++ [newMessage (s_cfg s) SDPMessage js]
  | Err _ => out_buf o w' = out_buf o w
  end.

Lemma signaling_answers us s conn offer o w :
  w_sessions w !! us = Some s → rtcConn s = Some conn → ¬ conflicting s conn w → out_ready o w →
  wp (signaling us offer o) (answered s conn o w) w.
Proof.
  intros Hs Hconn Hx Ho. unfold signaling, bind_res.
  assert (Hout : ∀ r, out_buf o (set_w_rtc (λ _, r) w) = out_buf o w) by by destruct o.
  apply wp_bind. unfold hasSignalingConflict. apply wp_bind. eapply wp_get_session; [done|].
  rewrite Hconn. apply wp_bind, wp_lib_read, wp_ret.
  assert (makingOffer s = false) as ->.
  { destruct (makingOffer s) eqn:E1; [|done]. destruct Hx. by left. }
  destruct (SignalingStable conn (w_rtc w)) eqn:E2; [|destruct Hx; by right]. cbn [negb orb].
  apply wp_bind. eapply wp_get_session; [done|]. apply wp_bind. eapply wp_deref; [done|].
  apply wp_bind, wp_lib. intros [[]|e] r1 _; [|apply wp_ret; split; [apply quiet_rtc|apply Hout]].
  apply wp_bind, wp_lib. intros [answer|e] r2 _; [|apply wp_ret; split; [by split|apply Hout]].
  apply wp_bind, wp_lib. intros [[]|e] r3 _; [|apply wp_ret; split; [by split|apply Hout]].
  apply wp_bind, wp_lib_read. apply wp_bind, wp_ret. wsimpl.
  destruct (json_Marshal_sdp (LocalDescription conn r3)) as [js|] eqn:Hjs;
    [|apply wp_ret; split; [by split|apply Hout]].
  apply wp_bind, wp_send_out_buf; [by destruct o|]. intros b w' Hq Hr Hb. apply wp_ret.
  assert (Hq' : quiet w w') by (etrans; [|exact Hq]; by split).
  destruct b; (split; [done|]).
  - exists js. rewrite Hr. split; [done|]. rewrite Hb. f_equal; apply Hout.
  - rewrite Hb. apply Hout.
Qed.

End session.

(** ** Properties *)

(** C6: adding a track keeps the group's gauge of outgoing tracks in step with
    the tracks the session is sent.  Whatever the library answers and whatever
    other goroutines queue while it waits, [addTrack] never panics, ends with
    [makingOffer] off, and either the gauge moved with [rxTracks] (a success
    records the track, a failure leaves no trace), or the gauge is ahead by
    one track that is not recorded: a success, and then the session (or its
    channel of answers) was closed while it waited, or a failure, and then the
    library refused to take the track back. *)
Theorem addTrack_accounts {E : Env} us s o t between pick timer w :
  w_sessions w !! us = Some s → is_Some (rtcConn s) → out_ready o w → quiet_action between →
  rxTracks s !! track_ID t = None →
  ∃ r w' s', addTrack us o (Some t) between pick timer w = Some (r, w') ∧
    w_sessions w' !! us = Some s' ∧ makingOffer s' = false ∧
    let ty := getTrackType (track_Kind t) in
    (ahead us s ty w' = ahead us s ty w ∧
      rxTracks s' = (if is_ok r then <[track_ID t := t]> (rxTracks s) else rxTracks s)) ∨
    (ahead us s ty w' = ahead us s ty w + 1 ∧ rxTracks s' = rxTracks s ∧
      (if is_ok r then closeCh s' = true ∨ ch_closed (sdpAnswerInCh s') = true
       else ∃ snd lib e, fst (ReplaceTrack snd None lib) = Err e))%Z.
Proof.
  intros Hs Hconn Ho Hbet Hfresh.
  destruct (proj1 (wp_inv _ _ _) (addTrack_spec us s o t between pick timer w Hs Hconn Ho Hbet))
    as (r & w' & Hrun & Hbooks & s' & Hs' & Hmo).
  exists r, w', s'. split_and!; [done..|].
  assert (Hrx : ∀ rx added, books us s w rx added w' → rxTracks s' = rx).
  { intros rx added (_ & s1 & Hs1 & _ & _ & <-). by simplify_eq. }
  assert (Hah : ∀ rx added, books us s w rx added w' → _) by
    (intros rx added; exact (books_ahead us s w rx added w' (getTrackType (track_Kind t)) Hs)).
  unfold addTrack_books in Hbooks. destruct r as [[]|e]; cbn [is_ok].
  - destruct Hbooks as [Hb|[Hb (s1 & Hs1 & Hgu)]]; rewrite (Hrx _ _ Hb); specialize (Hah _ _ Hb);
      rewrite gauge_inc_out, bool_decide_true in Hah by done.
    + left. split; [|done]. rewrite rx_count_insert, bool_decide_true in Hah by done. lia.
    + right. assert (s1 = s') as -> by congruence. split_and!; [lia|done|done].
  - rewrite (delete_id (rxTracks s)) in Hbooks by done.
    destruct Hbooks as [Hb|[Hb|[(snd & lib & e' & He) Hb]]];
      rewrite (Hrx _ _ Hb); specialize (Hah _ _ Hb).
    + left. split; [|done]. rewrite gauge_nil in Hah. lia.
    + left. split; [|done]. change [inc_out s t; dec_out s t] with ([inc_out s t] ++ [dec_out s t]) in Hah.
      rewrite tracks_gauge_app, gauge_inc_out, gauge_dec_out, bool_decide_true in Hah by done. lia.
    + right. rewrite gauge_inc_out, bool_decide_true in Hah by done. split_and!; [lia|done|]. eauto.
Qed.

Lemma addTrack_accounts_witness :
  ∃ r w' s', addTrack (E := toy_env) 3 ToReceiveCh (Some ToyWorld.toy_voice) (mret tt) 0 true
      ToyWorld.toy_world = Some (r, w') ∧
    w_sessions w' !! 3%positive = Some s' ∧ makingOffer s' = false.
Proof.
  destruct (addTrack_accounts (E := toy_env) 3 (ToyWorld.toy_session "a" 0) ToReceiveCh
    ToyWorld.toy_voice (mret tt) 0 true ToyWorld.toy_world) as (r & w' & s' & H1 & H2 & H3 & _).
  - reflexivity.
  - eexists; reflexivity.
  - reflexivity.
  - intros w. apply wp_ret. reflexivity.
  - reflexivity.
  - exists r, w', s'. auto.
Defined.

(** C7: an offer that arrives while the session is making one, or while the
    connection is not stable, is ignored: [signaling] reports success and
    changes nothing.  Any other offer is answered at most once: on success
    exactly one message, the SDP of the connection's local description under
    the session's own identifiers, is queued on the channel of the offer; on an
    error none is; and nothing but channels and the library changes. *)
Theorem signaling_glare {E : Env} us s conn offer o w :
  w_sessions w !! us = Some s → rtcConn s = Some conn → out_ready o w →
  ∃ r w', signaling us offer o w = Some (r, w') ∧
    if makingOffer s || negb (SignalingStable conn (w_rtc w)) then r = Ok tt ∧ w' = w
    else answered s conn o w r w'.
Proof.
  intros Hs Hconn Ho.
  destruct (makingOffer s || negb (SignalingStable conn (w_rtc w))) eqn:Hx.
  - exists (Ok tt), w. split; [|done]. eapply signaling_conflict; [done..|].
    apply orb_true_iff in Hx as [?|?%negb_true_iff]; [by left|by right].
  - destruct (proj1 (wp_inv _ _ _) (signaling_answers us s conn offer o w Hs Hconn
      ltac:(apply orb_false_iff in Hx as [? ?%negb_false_iff]; intros [?|?]; congruence) Ho))
      as (r & w' & Hrun & Ha). eauto.
Qed.

Lemma signaling_glare_witness :
  ∃ r w', signaling (E := toy_env) 3 (Toy.TS SDPOffer "offer") ToReceiveCh ToyWorld.toy_world =
      Some (r, w') ∧
    answered (E := toy_env) (ToyWorld.toy_session "a" 0) 0%nat ToReceiveCh ToyWorld.toy_world r w'.
Proof.
  apply (signaling_glare (E := toy_env) 3 (ToyWorld.toy_session "a" 0) 0%nat
    (Toy.TS SDPOffer "offer") ToReceiveCh ToyWorld.toy_world); reflexivity.
Defined.
