(* ===== verification/Simulcast.v ===== *)
(** * Simulcast: choosing the level of a screen share
    (service/rtc/simulcast.go)

    [handleSenderBitrateChange] on the world, and the goroutine of
    [initBWEstimator]: its local variables are the record [bwe_vars], one run
    of its handler is [rateChangeHandler].  [now] is [time.Now()], [n] what
    [rand.Intn] returns. *)
From Stdlib Require Import Floats.SpecFloat.
From S2P Require Import Prelude GoFloat Utils RtcConfig Vad Rate Pion World Call Session.

Definition levelChangeInitialBackoff : Z := (10 * second)%Z.

(** The variables [initBWEstimator] captures, its limiter and its channel. *)
Record bwe_vars {E : Env} := {
  bv_limiter : limiter;
  rateCh : chan Z;
  currLevel : string;
  backoff : Z;
  lastLevelChangeAt : Z;
  lastDelayRate : Z;
  lastLossRate : Z;
}.
Arguments bwe_vars {E}.

Section simulcast.
  Context {E : Env}.

(** ** Definitions *)
Definition no_change : bool * Z * string := (false, 0%Z, str0).

(** The last part of [handleSenderBitrateChange], once the new track and its
    rate are known. *)
Definition switch_level (us : loc) (currTrack newTrack : track) (sourceRate : Z) (newLevel : string) :
    go world (bool * Z * string) :=
  ok ← send_track us {| action := trackActionRemove; ctx_track := Some currTrack |};
  if negb ok then mret no_change
  else
    ok ← send_track us {| action := trackActionAdd; ctx_track := Some newTrack |};
    if negb ok then mret no_change else mret (true, sourceRate, newLevel).

(** The part of [handleSenderBitrateChange] on a simulcast track. *)
Definition choose_level (arch : float → Z) (now : Z) (n : nat) (us ss : loc) (currTrack : track)
    (downRate lossRate : Z) : go world (bool * Z * string) :=
  let currLevel := track_RID currTrack in
  let mimeType := track_MimeType currTrack in
  currSourceRate ← getSourceRate arch now ss mimeType currLevel;
  if (currSourceRate <=? 0)%Z then mret no_change
  else
    let newLevel := getSimulcastLevel arch downRate currSourceRate in
    if bool_decide (newLevel = currLevel) then mret no_change
    else if bool_decide (currLevel = SimulcastLevelHigh) && (tolerated arch currSourceRate <? lossRate)%Z
    then mret no_change
    else
      newTrack ← getOutScreenTrack n ss mimeType newLevel;
      match newTrack with
      | None => mret no_change
      | Some newTrack =>
          sourceRate ← getSourceRate arch now ss mimeType newLevel;
          if (sourceRate <=? 0)%Z then mret no_change
          else switch_level us currTrack newTrack sourceRate newLevel
      end.

Definition handleSenderBitrateChange (arch : float → Z) (now : Z) (n : nat) (us : loc)
    (downRate lossRate : Z) : go world (bool * Z * string) :=
  s ← get_session us;
  screen ← getScreenSession (s_call s);
  match screen with
  | None => mret no_change
  | Some ss =>
      match screenTrackSender s with
      | None => mret no_change
      | Some snd =>
          t ← lib_read (sender_Track snd);
          match t with
          | None => mret no_change
          | Some currTrack =>
              if bool_decide (track_RID currTrack = str0) then mret no_change
              else if negb (track_isStatic currTrack) then mret no_change
              else choose_level arch now n us ss currTrack downRate lossRate
          end
      end
  end.

(** The start of [initBWEstimator]. *)
Definition initBWEstimator (us : loc) (b : bwe) : go world bwe_vars :=
  upd_session us (set_bwEstimator (λ _, Some b)) ;;
  mret {| bv_limiter := NewLimiter 1000 4; rateCh := make_chan 4;
          currLevel := SimulcastLevelDefault; backoff := levelChangeInitialBackoff;
          lastLevelChangeAt := zero_time; lastDelayRate := 0; lastLossRate := 0 |}.

(** The callback given to [OnTargetBitrateChange]. *)
Definition onTargetBitrateChange (now rate : Z) (v : bwe_vars) : option bwe_vars :=
  let '(ok, lim) := Allow now (bv_limiter v) in
  let v' ch := {| bv_limiter := lim; rateCh := ch; currLevel := currLevel v; backoff := backoff v;
                  lastLevelChangeAt := lastLevelChangeAt v;
                  lastDelayRate := lastDelayRate v; lastLossRate := lastLossRate v |} in
  if negb ok then Some (v' (rateCh v))
  else match try_send rate (rateCh v) with
       | Sent ch => Some (v' ch)
       | Full => Some (v' (rateCh v))
       | SendPanic => None
       end.

(** [stats[k].(int)]: zero when missing. *)
Definition bwe_stats (b : bwe) : go world (Z * Z) :=
  st ← lib_read (GetStats b);
  mret (default 0%Z (fst st), default 0%Z (snd st)).

(** [float64(a - b)]: the conversion keeps the sign of the difference, which
    is all [rateDiff] is used for. *)
Definition rate_delta (a b : Z) : Z := wrap_int 64 (a - b).

Definition rateChangeHandler (arch : float → Z) (now : Z) (n : nat) (us : loc) (b : bwe) (rate : Z)
    (v : bwe_vars) : go world bwe_vars :=
  '(lossRate, delayRate) ← bwe_stats b;
  let rateDiff :=
    Z.max (rate_delta delayRate (lastDelayRate v)) (rate_delta lossRate (lastLossRate v)) in
  let v1 := {| bv_limiter := bv_limiter v; rateCh := rateCh v; currLevel := currLevel v;
               backoff := backoff v; lastLevelChangeAt := lastLevelChangeAt v;
               lastDelayRate := delayRate; lastLossRate := lossRate |} in
  if (time_sub now (lastLevelChangeAt v) <? backoff v)%Z &&
     (bool_decide (currLevel v = SimulcastLevelLow) || (0 <=? rateDiff)%Z)
  then mret v1
  else
    '(changed, newRate, newLevel) ← handleSenderBitrateChange arch now n us rate lossRate;
    if negb changed then mret v1
    else
      when (bool_decide (newLevel = SimulcastLevelHigh))
        (lib (λ r, (tt, SetTargetBitrate b newRate r))) ;;
      mret {| bv_limiter := bv_limiter v; rateCh := rateCh v; currLevel := newLevel;
              backoff := wrap_int 64 (backoff v + Z.quot (backoff v) 2);
              lastLevelChangeAt := now; lastDelayRate := newRate; lastLossRate := newRate |}.

End simulcast.

(** ** Levels *)
Lemma getSimulcastLevel_cases arch d r :
  getSimulcastLevel arch d r = SimulcastLevelHigh ∨ getSimulcastLevel arch d r = SimulcastLevelLow.
Proof. unfold getSimulcastLevel. destruct (_ && _); auto. Qed.

Lemma tolerated_high arch : tolerated arch 2500000 = 2250000%Z.
Proof. vm_compute. reflexivity. Qed.

Lemma getSimulcastLevelForRate_high arch rate :
  getSimulcastLevelForRate arch rate = SimulcastLevelHigh ↔ (2250000 < rate)%Z.
Proof.
  unfold getSimulcastLevelForRate.
  change (getRateForSimulcastLevel SimulcastLevelHigh) with 2500000%Z. rewrite tolerated_high.
  destruct (Z.ltb_spec 2250000 rate); [done|]. split; [done|lia].
Qed.

Section facts.
  Context {E : Env}.

(** The monitors a session points to are allocated and follow a history. *)
Definition monitors_wf (w : world) (s : session) : Prop :=
  ∀ idx rm, screenRateMonitors s !! idx = Some rm →
    ∃ m win h, w_monitors w !! rm = Some m ∧ rate_rep win m h.

(** What [getSourceRate] reads. *)
Definition source_rate (arch : float → Z) (now : Z) (w : world) (s : session) (mime rid : string)
    (rate : Z) : Prop :=
  match screenRateMonitors s !! getTrackIndex mime (level_or_default rid) with
  | None => rate = (-1)%Z
  | Some rm => ∃ m d, w_monitors w !! rm = Some m ∧ GetRate arch now m = Some (rate, d)
  end.

Lemma wp_getSourceRate arch now l s mime rid Q w :
  w_sessions w !! l = Some s → monitors_wf w s →
  (∀ rate, source_rate arch now w s mime rid rate → Q rate w) →
  wp (getSourceRate arch now l mime rid) Q w.
Proof.
  intros Hs Hm HQ. unfold getSourceRate, source_rate in *.
  apply wp_bind. eapply wp_get_session; [done|].
  destruct (screenRateMonitors s !! _) as [rm|] eqn:Hrm; [|by apply wp_ret, HQ].
  destruct (Hm _ _ Hrm) as (m & win & h & Hm1 & Hrep). apply wp_bind, wp_gets.
  rewrite Hm1. cbn. rewrite (GetRate_spec arch _ _ _ now Hrep).
  destruct (rate_spec arch win now h) as [rate d] eqn:Hr.
  apply wp_bind. eapply wp_deref; [done|]. apply wp_ret, HQ. exists m, d. split; [done|].
  by rewrite (GetRate_spec arch _ _ _ now Hrep), Hr.
Qed.

(** The reasons to switch from the level of [curr] to [lvl]: enough bandwidth
    for the source's rate to go up; too little, by both estimates when going
    down from high. *)
Definition switch_reason (arch : float → Z) (curr : track) (downRate lossRate currRate : Z)
    (lvl : string) : Prop :=
  (0 < currRate)%Z ∧ lvl ≠ track_RID curr ∧
  ((lvl = SimulcastLevelHigh ∧ (tolerated arch currRate < downRate)%Z) ∨
   (lvl = SimulcastLevelLow ∧ (downRate ≤ tolerated arch currRate)%Z)) ∧
  (track_RID curr = SimulcastLevelHigh → (lossRate ≤ tolerated arch currRate)%Z).

Definition removal (t : track) : trackActionContext :=
  {| action := trackActionRemove; ctx_track := Some t |}.
Definition addition (t : track) : trackActionContext :=
  {| action := trackActionAdd; ctx_track := Some t |}.

(** The world once some track actions were queued for [us]. *)
Definition queued (us : loc) (s : session) (ctxs : list trackActionContext) (w : world) : world :=
  set_w_sessions (<[us := set_tracksCh (λ ch, Chan (ch_cap ch) (ch_buf ch ++ ctxs) (ch_closed ch)) s]>) w.

Definition room (s : session) : nat := ch_cap (tracksCh s) - length (ch_buf (tracksCh s)).

(** The outcome of [handleSenderBitrateChange] for a receiver [us] shown
    [curr] by the presenter [p]. *)
Definition bitrate_outcome (arch : float → Z) (now : Z) (us : loc) (s p : session) (curr : track)
    (downRate lossRate : Z) (w : world) (r : bool * Z * string) (w' : world) : Prop :=
  let '(changed, rate, lvl) := r in
  if changed then
    ∃ new currRate, source_rate arch now w p (track_MimeType curr) (track_RID curr) currRate ∧
      source_rate arch now w p (track_MimeType curr) lvl rate ∧ (0 < rate)%Z ∧
      switch_reason arch curr downRate lossRate currRate lvl ∧
      new ∈ default [] (outScreenTracks p !! getTrackIndex (track_MimeType curr) lvl) ∧
      2 ≤ room s ∧ w' = queued us s [removal curr; addition new] w
  else w' = w ∨ (room s = 1 ∧ w' = queued us s [removal curr] w).


Lemma wp_switch_level us s curr new rate lvl Q w :
  w_sessions w !! us = Some s → ch_closed (tracksCh s) = false →
  (2 ≤ room s → Q (true, rate, lvl) (queued us s [removal curr; addition new] w)) →
  (room s = 0 → Q no_change w) →
  (room s = 1 → Q no_change (queued us s [removal curr] w)) →
  wp (switch_level us curr new rate lvl) Q w.
Proof.
  intros Hs Hc H2 H0 H1. unfold switch_level, send_track, send_on, room in *.
  apply wp_bind, wp_bind. eapply wp_get_session; [done|].
  destruct (decide (length (ch_buf (tracksCh s)) < ch_cap (tracksCh s))) as [Hr|Hr].
  - rewrite try_send_open by done. apply wp_bind. eapply wp_upd_session; [done|]. apply wp_ret.
    cbn [negb]. apply wp_bind, wp_bind. eapply wp_get_session.
    { wsimpl. apply lookup_insert_eq. }
    assert (Heq : set_tracksCh (λ _, Chan (ch_cap (tracksCh s)) (ch_buf (tracksCh s) ++ [removal curr]) false) s
      = set_tracksCh (λ ch, Chan (ch_cap ch) (ch_buf ch ++ [removal curr]) (ch_closed ch)) s)
      by (unfold set_tracksCh; by rewrite Hc).
    destruct (decide (S (length (ch_buf (tracksCh s))) < ch_cap (tracksCh s))) as [Hr2|Hr2].
    + rewrite try_send_open; [|done|cbn; rewrite length_app; cbn; lia].
      apply wp_bind. eapply wp_upd_session; [wsimpl; apply lookup_insert_eq|]. apply wp_ret.
      cbn [negb]. apply wp_ret. specialize (H2 ltac:(lia)). revert H2. unfold queued, set_w_sessions.
      wsimpl. rewrite insert_insert_eq. unfold set_tracksCh. wsimpl. cbn [ch_cap ch_buf ch_closed].
      by rewrite Hc, <- app_assoc.
    + rewrite try_send_full; [|done|cbn; rewrite length_app; cbn; lia].
      apply wp_ret. cbn [negb]. apply wp_ret. specialize (H1 ltac:(lia)). revert H1.
      unfold queued. by rewrite <- Heq.
  - rewrite try_send_full by (done || lia). apply wp_ret. cbn [negb]. apply wp_ret, H0. lia.
Qed.

Lemma choose_level_spec arch now n us ss s p curr downRate lossRate w :
  w_sessions w !! us = Some s → ch_closed (tracksCh s) = false →
  w_sessions w !! ss = Some p → monitors_wf w p →
  wp (choose_level arch now n us ss curr downRate lossRate)
    (bitrate_outcome arch now us s p curr downRate lossRate w) w.
Proof.
  intros Hs Hc Hp Hm. unfold choose_level.
  apply wp_bind. eapply wp_getSourceRate; [done..|]. intros currRate Hcurr.
  destruct (Z.leb_spec currRate 0) as [|Hpos]; [apply wp_ret; by left|].
  case_bool_decide as Hlvl; [apply wp_ret; by left|].
  destruct (bool_decide (track_RID curr = SimulcastLevelHigh) && (tolerated arch currRate <? lossRate)%Z)
    eqn:Hloss; [apply wp_ret; by left|].
  apply wp_bind. unfold getOutScreenTrack. apply wp_bind. eapply wp_get_session; [done|]. apply wp_ret.
  destruct (pickRandom n _) as [new|] eqn:Hnew; [|apply wp_ret; by left].
  apply wp_bind. eapply wp_getSourceRate; [done..|]. intros rate Hrate.
  destruct (Z.leb_spec rate 0) as [|Hrpos]; [apply wp_ret; by left|].
  eapply wp_switch_level; [done..| | |].
  - intros Hroom. exists new, currRate. split_and!; try done; [|by eapply pickRandom_elem].
    split_and!; [done|done| |].
    + unfold getSimulcastLevel. destruct (Z.ltb_spec 0 currRate); [|lia].
      destruct (Z.ltb_spec (tolerated arch currRate) downRate); cbn; [by left|by right].
    + intros Hh. rewrite bool_decide_true in Hloss by done. cbn in Hloss. by apply Z.ltb_ge.
  - intros _. by left.
  - intros Hroom. by right.
Qed.

(** The backoff after [k] level changes. *)
Fixpoint backoff_after (k : nat) : Z :=
  match k with
  | O => levelChangeInitialBackoff
  | S k => let b := backoff_after k in (b + Z.quot b 2)%Z
  end.

Lemma backoff_after_step k : (backoff_after k ≤ backoff_after (S k))%Z ∧ (0 < backoff_after k)%Z.
Proof.
  induction k as [|k [IH1 IH2]]; [split; vm_compute; [discriminate|reflexivity]|].
  assert (0 < backoff_after (S k))%Z by lia. split; [|done].
  change (backoff_after (S (S k))) with (backoff_after (S k) + Z.quot (backoff_after (S k)) 2)%Z.
  pose proof (Z.quot_pos (backoff_after (S k)) 2). lia.
Qed.

Lemma backoff_after_mono j k : j ≤ k → (backoff_after j ≤ backoff_after k)%Z.
Proof.
  induction 1 as [|k _ IH]; [done|]. pose proof (backoff_after_step k). lia.
Qed.

Lemma backoff_after_range k : k ≤ 50 → (0 < backoff_after k ≤ max_int64)%Z.
Proof.
  intros Hk. split; [apply backoff_after_step|]. etrans; [by apply backoff_after_mono|].
  vm_compute. discriminate.
Qed.

Lemma handleSenderBitrateChange_spec arch now n us downRate lossRate s cl w :
  w_sessions w !! us = Some s → ch_closed (tracksCh s) = false →
  w_calls w !! s_call s = Some cl →
  (∀ ss, screenSession cl = Some ss → ∃ p, w_sessions w !! ss = Some p ∧ monitors_wf w p) →
  wp (handleSenderBitrateChange arch now n us downRate lossRate) (λ r w',
    (fst (fst r) = false ∧ w' = w) ∨
    ∃ ss p snd curr, screenSession cl = Some ss ∧ w_sessions w !! ss = Some p ∧
      screenTrackSender s = Some snd ∧ sender_Track snd (w_rtc w) = Some curr ∧
      track_RID curr ≠ str0 ∧ bitrate_outcome arch now us s p curr downRate lossRate w r w') w.
Proof.
  intros Hs Hc Hcl Hp. unfold handleSenderBitrateChange.
  apply wp_bind. eapply wp_get_session; [done|]. unfold getScreenSession.
  apply wp_bind, wp_bind. eapply wp_get_call; [done|]. apply wp_ret.
  destruct (screenSession cl) as [ss|]; [|apply wp_ret; by left].
  destruct (Hp ss eq_refl) as (p & Hpp & Hm).
  destruct (screenTrackSender s) as [snd|]; [|apply wp_ret; by left].
  apply wp_bind, wp_lib_read. destruct (sender_Track snd (w_rtc w)) as [curr|] eqn:Hcurr;
    [|apply wp_ret; by left].
  case_bool_decide as Hrid; [apply wp_ret; by left|].
  destruct (negb (track_isStatic curr)); [apply wp_ret; by left|].
  eapply wp_mono; [by eapply choose_level_spec|]. intros r w' Hr. right.
  exists ss, p, snd, curr. done.
Qed.

(** ** The ladder of backoffs *)

(** One run of the handler per element, each in the world and at the time it
    finds; a change of level is seen as a change of the backoff, and recorded
    with its time, the level before and the level after. *)
Record bwe_step := { st_world : world; st_now : Z; st_n : nat; st_rate : Z }.

Fixpoint bwe_run (arch : float → Z) (us : loc) (b : bwe) (steps : list bwe_step) (v : bwe_vars) :
    option (bwe_vars * list (Z * string * string)) :=
  match steps with
  | [] => Some (v, [])
  | st :: steps =>
      '(v', _) ← rateChangeHandler arch (st_now st) (st_n st) us b (st_rate st) v (st_world st);
      '(v'', evs) ← bwe_run arch us b steps v';
      Some (v'', if (backoff v' =? backoff v)%Z then evs
                 else (st_now st, currLevel v, currLevel v') :: evs)
  end.

(** The [k]-th change comes at least the [k]-th backoff after the previous
    one, unless it leaves a level that is not the low one. *)
Fixpoint ladder_ok (k : nat) (last : Z) (evs : list (Z * string * string)) : Prop :=
  match evs with
  | [] => True
  | (t, from, _) :: evs =>
      ((backoff_after k ≤ time_sub t last)%Z ∨ from ≠ SimulcastLevelLow) ∧ ladder_ok (S k) t evs
  end.

Lemma rateChangeHandler_step arch now n us b rate v w v' w' :
  rateChangeHandler arch now n us b rate v w = Some (v', w') →
  (backoff v' = backoff v ∧ currLevel v' = currLevel v ∧
    lastLevelChangeAt v' = lastLevelChangeAt v) ∨
  (backoff v' = wrap_int 64 (backoff v + Z.quot (backoff v) 2) ∧ lastLevelChangeAt v' = now ∧
    ((backoff v ≤ time_sub now (lastLevelChangeAt v))%Z ∨ currLevel v ≠ SimulcastLevelLow)).
Proof.
  unfold rateChangeHandler, bwe_stats, lib_read, gets, mbind, go_bind, mret, go_ret.
  destruct (GetStats b (w_rtc w)) as [ol od]. cbn [fst snd].
  destruct (Z.ltb_spec (time_sub now (lastLevelChangeAt v)) (backoff v)) as [Hb|Hb]; cbn [andb].
  - case_bool_decide as Hl; cbn [orb]; [by intros [= <- _]; left|].
    destruct (0 <=? _)%Z; [by intros [= <- _]; left|].
    destruct (handleSenderBitrateChange _ _ _ _ _ _ w) as [[[[ch nr] lvl] w1]|]; [|done].
    destruct ch; cbn [negb]; [|by intros [= <- _]; left].
    unfold when. case_bool_decide; (intros [= <- _]; right; split_and!; [done|done|by right]).
  - destruct (handleSenderBitrateChange _ _ _ _ _ _ w) as [[[[ch nr] lvl] w1]|]; [|done].
    destruct ch; cbn [negb]; [|by intros [= <- _]; left].
    unfold when. case_bool_decide; (intros [= <- _]; right; split_and!; [done|done|by left]).
Qed.

Lemma bwe_run_ladder arch us b steps v v' evs k :
  bwe_run arch us b steps v = Some (v', evs) →
  backoff v = backoff_after k → k + length evs ≤ 50 →
  ladder_ok k (lastLevelChangeAt v) evs ∧ backoff v' = backoff_after (k + length evs).
Proof.
  revert v evs k. induction steps as [|st steps IH]; intros v evs k Hrun Hb Hk.
  { cbn in Hrun. simplify_eq. by rewrite Nat.add_0_r. }
  apply bind_Some in Hrun as ([v1 w1] & Hh & Hrun). apply bind_Some in Hrun as ([v2 evs2] & Hr & Hrun).
  apply rateChangeHandler_step in Hh as [(Hb1 & Hl1 & Hla)|(Hb1 & Hla & Hwhy)].
  - rewrite Hb1, Z.eqb_refl in Hrun. simplify_eq. rewrite <- Hla. eapply IH; [done|congruence|done].
  - assert (Hk1 : k + 1 ≤ 50 → backoff v1 = backoff_after (S k)).
    { intros Hk1. rewrite Hb1, Hb. cbn [backoff_after]. apply wrap_int_id.
      pose proof (backoff_after_range (S k) ltac:(lia)) as Hr1. cbn [backoff_after] in Hr1.
      unfold min_int64. lia. }
    destruct (Z.eqb_spec (backoff v1) (backoff v)) as [Heq|Hne]; simplify_eq.
    + exfalso. destruct (decide (k + 1 ≤ 50)) as [Hk2|Hk2].
      * specialize (Hk1 Hk2). pose proof (backoff_after_step k) as [_ Hpos].
        assert (backoff_after k < backoff_after (S k))%Z; [|lia].
        pose proof (backoff_after_mono 0 k ltac:(lia)) as H0.
        change (backoff_after 0) with 10000000000%Z in H0. cbn [backoff_after].
        pose proof (Z.quot_le_lower_bound (backoff_after k) 2 1). lia.
      * assert (k = 50) as -> by lia. rewrite Hb1, Hb in Heq. vm_compute in Heq. discriminate.
    + cbn [length] in *. destruct (IH v1 evs2 (S k) Hr (Hk1 ltac:(lia)) ltac:(lia)) as [H1 H2].
      rewrite Hla in H1. split; [|rewrite H2; f_equal; lia]. cbn [ladder_ok]. split; [|done].
      by rewrite <- Hb.
Qed.

End facts.

(** ** A concrete switch *)
Module ToySwitch.
Import Toy ToyWorld.

Definition low : toy_track := TT "screen_b_low00000" KindVideo "l" "video/VP8" 0.
Definition high : toy_track := TT "screen_b_high0000" KindVideo "h" "video/VP8" 0.
Definition history : list sample :=
  (λ i, {| ts := i * second; Rate.size := 50000 |})%Z <$> [0; 1; 2; 3; 4; 5]%Z.
Definition monitor0 : RateMonitor :=
  {| samples := []; samplesPtr := 0; samplingSize := 2 * second; filled := false |}.
Definition monitor : RateMonitor := default monitor0 (rate_run history monitor0).

(** Session b presents at both levels; session a is shown the low one. *)
Definition presenter : session (E := toy_env) :=
  set_screenRateMonitors (E := toy_env) (λ _, <["video/VP8_l"%string := 10%positive]>
      {["video/VP8_h"%string := 11%positive]})
    (set_outScreenTracks (E := toy_env) (λ _, (<["video/VP8_l"%string := [low]]>
      {["video/VP8_h"%string := [high]]} : gmap string (list toy_track)))
      (toy_session "b" 1)).
Definition viewer : session (E := toy_env) :=
  set_screenTrackSender (E := toy_env) (λ _, (Some 0 : option (@sender toy_pion))) (toy_session "a" 0).

Definition sharing : world (E := toy_env) :=
  set_w_calls (E := toy_env) (<[2%positive := set_screenSession (λ _, Some 4%positive) toy_call]>)
    (set_w_sessions (λ _, <[3%positive := viewer]> {[4%positive := presenter]})
      (set_w_monitors (λ _, <[10%positive := monitor]> {[11%positive := monitor]})
        (set_w_rtc (E := toy_env) (λ _, TRtc [(0, Some low)] []) toy_world))).

Lemma monitor_rep : rate_rep (2 * second) monitor history.
Proof.
  destruct (rate_run_rep (2 * second) monitor0 [] history) as (m & Hr & Hm).
  - done.
  - by apply NewRateMonitor_rep.
  - vm_compute. discriminate.
  - unfold monitor. rewrite Hr. exact Hm.
Qed.

Lemma presenter_monitors : monitors_wf (E := toy_env) sharing presenter.
Proof.
  intros idx rm Hrm. exists monitor, (2 * second)%Z, history. split; [|apply monitor_rep].
  change (screenRateMonitors presenter) with (<["video/VP8_l"%string := 10%positive]>
    {["video/VP8_h"%string := 11%positive]} : gmap string positive) in Hrm.
  apply lookup_insert_Some in Hrm as [[_ <-]|[_ [_ <-]%lookup_singleton_Some]]; reflexivity.
Qed.

Definition one_change : list (bwe_step (E := toy_env)) :=
  [{| st_world := sharing; st_now := 6 * second; st_n := 0; st_rate := 3000000 |}].
Definition before_change : bwe_vars (E := toy_env) := {|
  bv_limiter := (4%Z : @limiter (@env_pion toy_env)); rateCh := make_chan 4; currLevel := "l";
  backoff := 10 * second; lastLevelChangeAt := zero_time; lastDelayRate := 0; lastLossRate := 0 |}.
Definition after_change : bwe_vars (E := toy_env) := {|
  bv_limiter := (4%Z : @limiter (@env_pion toy_env)); rateCh := make_chan 4; currLevel := "h";
  backoff := 15 * second; lastLevelChangeAt := 6 * second; lastDelayRate := 400000;
  lastLossRate := 400000 |}.

End ToySwitch.

(** ** Properties *)

(** C19: a bitrate change never panics.  It switches the level only when the
    receiver is shown a simulcast track of the current presenter, the
    presenter's source rate is known and positive at both levels, and the
    estimate asks for the other level: above 90% of the source's rate to go
    up, at most that to go down, by the loss estimate as well when leaving the
    high level.  A switch queues the removal of the shown track and the
    addition of a track of the presenter at the new level, in this order, and
    nothing else; when there is no switch nothing changes, except that with
    exactly one free slot in the queue the removal is queued without the
    addition. *)
Theorem bitrate_change_spec {E : Env} arch now n us downRate lossRate s cl w :
  w_sessions w !! us = Some s → ch_closed (tracksCh s) = false →
  w_calls w !! s_call s = Some cl →
  (∀ ss, screenSession cl = Some ss → ∃ p, w_sessions w !! ss = Some p ∧ monitors_wf w p) →
  ∃ r w', handleSenderBitrateChange arch now n us downRate lossRate w = Some (r, w') ∧
    ((fst (fst r) = false ∧ w' = w) ∨
     ∃ ss p snd curr, screenSession cl = Some ss ∧ w_sessions w !! ss = Some p ∧
       screenTrackSender s = Some snd ∧ sender_Track snd (w_rtc w) = Some curr ∧
       track_RID curr ≠ str0 ∧ bitrate_outcome arch now us s p curr downRate lossRate w r w').
Proof.
  intros. by apply wp_inv, handleSenderBitrateChange_spec.
Qed.

Lemma bitrate_change_spec_witness :
  ∃ r w', handleSenderBitrateChange (E := toy_env) (λ _, 0%Z) (6 * second) 0 3 3000000 3000000
      ToySwitch.sharing = Some (r, w') ∧ r = (true, 400000%Z, SimulcastLevelHigh).
Proof.
  destruct (bitrate_change_spec (E := toy_env) (λ _, 0%Z) (6 * second) 0 3 3000000 3000000
    ToySwitch.viewer (set_screenSession (λ _, Some 4%positive) ToyWorld.toy_call)
    ToySwitch.sharing) as (r & w' & Hrun & _).
  - reflexivity.
  - reflexivity.
  - reflexivity.
  - intros ss Hss. injection Hss as <-. exists ToySwitch.presenter.
    split; [reflexivity|apply ToySwitch.presenter_monitors].
  - exists r, w'. split; [exact Hrun|].
    assert (Hr : fst <$> handleSenderBitrateChange (E := toy_env) (λ _, 0%Z) (6 * second) 0 3
      3000000 3000000 ToySwitch.sharing = Some (true, 400000%Z, SimulcastLevelHigh))
      by (vm_compute; reflexivity).
    rewrite Hrun in Hr. injection Hr as ->. reflexivity.
Defined.

(** The levels of a receiver do not flap.  In any sequence of runs of the
    rate handler, each in whatever world it finds, with at most 50 changes,
    the [k]-th change comes at least 10s * 1.5^k after the previous one unless
    it leaves the high level, and the backoff is then exactly the next rung,
    within [int64]. *)
Theorem level_changes_back_off {E : Env} arch us b v0 w0 w1 steps v evs :
  initBWEstimator us b w0 = Some (v0, w1) →
  bwe_run arch us b steps v0 = Some (v, evs) → length evs ≤ 50 →
  ladder_ok 0 zero_time evs ∧ backoff v = backoff_after (length evs) ∧
  (0 < backoff v ≤ max_int64)%Z.
Proof.
  intros Hi Hrun Hlen. apply bind_Some in Hi as ([[] w] & Hu & [= <- <-]).
  destruct (bwe_run_ladder arch us b steps _ v evs 0 Hrun eq_refl Hlen) as [H1 H2].
  split_and!; [exact H1|exact H2|..]; rewrite H2; by apply backoff_after_range.
Qed.

Lemma level_changes_back_off_witness :
  ∃ v0 w1 v, initBWEstimator (E := toy_env) 3 3000000%Z ToySwitch.sharing = Some (v0, w1) ∧
    bwe_run (E := toy_env) (λ _, 0%Z) 3 3000000%Z ToySwitch.one_change v0 =
      Some (v, [(6 * second, "l"%string, "h"%string)])%Z ∧
    backoff v = backoff_after 1.
Proof.
  eexists _, _, ToySwitch.after_change. split; [reflexivity|].
  assert (Hrun : bwe_run (E := toy_env) (λ _, 0%Z) 3 3000000%Z ToySwitch.one_change
    ToySwitch.before_change = Some (ToySwitch.after_change, [(6 * second, "l"%string, "h"%string)])%Z)
    by vm_cast_no_check (eq_refl (Some (ToySwitch.after_change,
      [(6 * second, "l"%string, "h"%string)])%Z)).
  split; [exact Hrun|].
  refine (proj1 (proj2 (level_changes_back_off (E := toy_env) (λ _, 0%Z) 3 3000000%Z
    ToySwitch.before_change ToySwitch.sharing _ ToySwitch.one_change _ _ _ Hrun _))).
  - reflexivity.
  - apply (bool_decide_unpack _). vm_compute. exact I.
Defined.

(** The level a new receiver expects is high exactly when its estimated
    bitrate exceeds 2.25 Mbit/s: the single-precision product of 2500000 and
    0.9, truncated, is not off by one. *)
Theorem expected_level_threshold arch rate :
  (getSimulcastLevelForRate arch rate = SimulcastLevelHigh ↔ (2250000 < rate)%Z) ∧
  (getSimulcastLevelForRate arch rate = SimulcastLevelLow ↔ (rate ≤ 2250000)%Z).
Proof.
  pose proof (getSimulcastLevelForRate_high arch rate) as H. split; [done|].
  unfold getSimulcastLevelForRate in *. destruct (_ <? _)%Z; split; try done; intros Hr.
  - assert (2250000 < rate)%Z by by apply H. lia.
  - destruct (Z.ltb_spec 2250000 rate) as [Hlt|]; [|done]. by apply H in Hlt.
Qed.
