(* ===== verification/Registry.v ===== *)
(** * Registry: groups, calls and sessions of the server
    (service/rtc/session.go, service/rtc/group.go, service/rtc/sfu.go)

    [addSession] and [CloseSession] are written as the sequences of the
    sections the source runs under one lock each, so that the same sections
    also make the steps of the interleaving model at the end.  What runs while
    [CloseSession] waits for [doneCh] is the argument [between]; the result of
    the session's close callback is the argument [cb]. *)
From S2P Require Import Prelude Utils RtcConfig Vad Rate Pion World Call.

Section registry.
  Context {E : Env}.

(** ** Definitions *)
Definition getGroup (groupID : string) : go world (option loc) :=
  gets (λ w, srv_groups (w_server w) !! groupID).

(** [g] may be nil: the receiver is dereferenced. *)
Definition getCall (g : option loc) (callID : string) : go world (option loc) :=
  gl ← deref g; gr ← get_group gl; mret (g_calls gr !! callID).

(** The section of [addSession] under the server's lock. *)
Definition add_group (cfg : SessionConfig) : go world loc :=
  v ← gets w_server;
  match srv_groups v !! GroupID cfg with
  | Some g => mret g
  | None =>
      g ← alloc_group {| g_id := GroupID cfg; g_calls := ∅ |};
      upd_server (set_srv_groups (<[GroupID cfg := g]>)) ;;
      mret g
  end.

(** The section under the group's lock. *)
Definition add_call (g : loc) (cfg : SessionConfig) : go world loc :=
  gr ← get_group g;
  match g_calls gr !! CallID cfg with
  | Some c => mret c
  | None =>
      c ← alloc_call {| c_id := CallID cfg; c_sessions := ∅; screenSession := None; pliLimiters := ∅ |};
      upd_group g (set_g_calls (<[CallID cfg := c]>)) ;;
      mret c
  end.

Definition register (cfg : SessionConfig) : go world unit :=
  upd_server (set_srv_sessions (<[SessionID cfg := cfg]>)).

Definition addSession (cfg : SessionConfig) (conn : option pc) (cb : bool) :
    go world (result loc) :=
  match SessionConfig_IsValid cfg with
  | Err e => mret (Err e)
  | Ok _ =>
      match conn with
      | None => mret (Err (EText "peerConn should not be nil"))
      | Some _ =>
          g ← add_group cfg;
          c ← add_call g cfg;
          '(us, ok) ← call_addSession c cfg conn cb;
          if negb ok then mret (Err (EText "user session already exists"))
          else register cfg ;; mret (Ok us)
      end
  end.

(** The first section of [CloseSession]: the entry is taken out, and the drain
    channel closed when it was the last one. *)
Definition close_drain : go world unit := λ w,
  match drainCh (w_server w) with
  | None => Some (tt, w)
  | Some ch =>
      if bool_decide (ch ∈ w_drained w) then None
      else Some (tt, set_w_server (set_drainCh (λ _, None)) (set_w_drained (union {[ch]}) w))
  end.

Definition unregister (sessionID : string) : go world (option SessionConfig) :=
  v ← gets w_server;
  upd_server (set_srv_sessions (delete sessionID)) ;;
  left ← gets (λ w, srv_sessions (w_server w));
  when (bool_decide (left = ∅)) close_drain ;;
  mret (srv_sessions v !! sessionID).

(** The section under the call's lock, with the group's and the server's
    inside it. *)
Definition leave_call (cfg : SessionConfig) (g c us : loc) : go world unit :=
  handleSessionClose c us ;;
  upd_call c (set_c_sessions (delete (SessionID cfg))) ;;
  cl ← get_call c;
  when (bool_decide (c_sessions cl = ∅))
    (upd_group g (set_g_calls (delete (CallID cfg))) ;;
     gr ← get_group g;
     when (bool_decide (g_calls gr = ∅))
       (upd_server (set_srv_groups (delete (GroupID cfg))))).

(** [close(us.closeCh)]: a second close panics. *)
Definition close_closeCh (us : loc) : go world unit :=
  s ← get_session us;
  if closeCh s then panic else upd_session us (set_closeCh (λ _, true)).

Definition close_conn (us : loc) : go world unit :=
  s ← get_session us;
  conn ← deref (rtcConn s);
  lib (λ r, (tt, pc_Close conn r)).

(** [CloseSession] up to the wait on [us.doneCh]: the session to wait for, if
    there is one. *)
Definition CloseSession_run (sessionID : string) : go world (result (option loc)) :=
  entry ← unregister sessionID;
  match entry with
  | None => mret (Ok None)
  | Some cfg =>
      emit (DecRTCSessions (GroupID cfg)) ;;
      g ← getGroup (GroupID cfg);
      match g with
      | None => mret (Err (EText ("group not found: " +:+ GroupID cfg)))
      | Some gl =>
          c ← getCall g (CallID cfg);
          match c with
          | None => mret (Err (EText ("call not found: " +:+ CallID cfg)))
          | Some cl =>
              us ← getSession cl (SessionID cfg);
              match us with
              | None => mret (Err (EText ("session not found: " +:+ SessionID cfg)))
              | Some us =>
                  leave_call cfg gl cl us ;;
                  close_closeCh us ;;
                  close_conn us ;;
                  mret (Ok (Some us))
              end
          end
      end
  end.

(** [None]: [doneCh] is still open after [between], and the call waits. *)
Definition CloseSession (sessionID : string) (between : go world unit) (cb : result unit) :
    go world (option (result unit)) :=
  r ← CloseSession_run sessionID;
  match r with
  | Err e => mret (Some (Err e))
  | Ok None => mret (Some (Ok tt))
  | Ok (Some us) =>
      between ;;
      s ← get_session us;
      mret (if doneCh s then Some (if closeCb s then cb else Ok tt) else None)
  end.

(** ** Well-formedness *)
Definition at_call (w : world) (g c : string) (cl : loc) : Prop :=
  ∃ gl gr, srv_groups (w_server w) !! g = Some gl ∧ w_groups w !! gl = Some gr ∧
    g_calls gr !! c = Some cl.

(** Session [id] of call [c] of group [g] is the session at [l]. *)
Definition in_call (w : world) (g c id : string) (l : loc) : Prop :=
  ∃ cl call, at_call w g c cl ∧ w_calls w !! cl = Some call ∧ c_sessions call !! id = Some l.

(** A session a call holds. *)
Record member_wf (g c id : string) (cl : loc) (s : session) : Prop := {
  mw_group : GroupID (s_cfg s) = g;
  mw_call : CallID (s_cfg s) = c;
  mw_id : SessionID (s_cfg s) = id;
  mw_ptr : s_call s = cl;
  mw_open : closeCh s = false;
  mw_wf : session_wf s;
}.

Record reg_wf (w : world) : Prop := {
  rw_group : ∀ g gl, srv_groups (w_server w) !! g = Some gl →
    ∃ gr, w_groups w !! gl = Some gr ∧ g_id gr = g ∧ g_calls gr ≠ ∅;
  rw_call : ∀ g c cl, at_call w g c cl →
    ∃ call, w_calls w !! cl = Some call ∧ c_sessions call ≠ ∅;
  rw_member : ∀ g c cl call id l, at_call w g c cl → w_calls w !! cl = Some call →
    c_sessions call !! id = Some l → ∃ s, w_sessions w !! l = Some s ∧ member_wf g c id cl s;
  rw_screen : ∀ g c cl call p, at_call w g c cl → w_calls w !! cl = Some call →
    screenSession call = Some p → ∃ id, c_sessions call !! id = Some p;
  rw_entry : ∀ id cfg, srv_sessions (w_server w) !! id = Some cfg →
    SessionID cfg = id ∧ ∃ l s, in_call w (GroupID cfg) (CallID cfg) id l ∧
      w_sessions w !! l = Some s ∧ s_cfg s = cfg;
  rw_drain : ∀ ch, drainCh (w_server w) = Some ch → ch ∉ w_drained w;
  rw_fresh : ∀ l, (w_next w ≤ l)%positive →
    w_groups w !! l = None ∧ w_calls w !! l = None ∧ w_sessions w !! l = None;
}.

Lemma at_call_fun w g c cl cl' : at_call w g c cl → at_call w g c cl' → cl = cl'.
Proof. intros (gl & gr & H1 & H2 & H3) (gl' & gr' & H1' & H2' & H3'). by simplify_eq. Qed.

Lemma in_call_fun w g c id l l' : in_call w g c id l → in_call w g c id l' → l = l'.
Proof.
  intros (cl & call & Ha & H1 & H2) (cl' & call' & Ha' & H1' & H2').
  pose proof (at_call_fun _ _ _ _ _ Ha Ha'). by simplify_eq.
Qed.

(** A call belongs to one group under one name. *)
Lemma at_call_inj w g c g' c' cl :
  reg_wf w → at_call w g c cl → at_call w g' c' cl → g = g' ∧ c = c'.
Proof.
  intros Hw Ha Ha'. destruct (rw_call _ Hw _ _ _ Ha) as (call & Hc & Hne).
  apply map_choose in Hne as (id & l & Hl).
  destruct (rw_member _ Hw _ _ _ _ _ _ Ha Hc Hl) as (s & Hs & M1).
  destruct (rw_member _ Hw _ _ _ _ _ _ Ha' Hc Hl) as (s' & Hs' & M2). simplify_eq.
  destruct M1, M2. split; congruence.
Qed.

Lemma members_of_call w g c cl call :
  reg_wf w → at_call w g c cl → w_calls w !! cl = Some call → members_wf w (c_sessions call).
Proof.
  intros Hw Ha Hc id l Hl. destruct (rw_member _ Hw _ _ _ _ _ _ Ha Hc Hl) as (s & Hs & []). eauto.
Qed.

(** ** Adding a session *)

(** The group (call) the session goes to: the one that exists, or a new empty
    one at a fresh location. *)
Definition target_group (w : world) (cfg : SessionConfig) (gl : loc) (gr : group) : Prop :=
  (srv_groups (w_server w) !! GroupID cfg = Some gl ∧ w_groups w !! gl = Some gr) ∨
  (srv_groups (w_server w) !! GroupID cfg = None ∧ (w_next w ≤ gl)%positive ∧
   gr = {| g_id := GroupID cfg; g_calls := ∅ |}).

Definition target_call (w : world) (cfg : SessionConfig) (gr : group) (cl : loc) (call : call) : Prop :=
  (g_calls gr !! CallID cfg = Some cl ∧ w_calls w !! cl = Some call) ∨
  (g_calls gr !! CallID cfg = None ∧ (w_next w ≤ cl)%positive ∧
   call = {| c_id := CallID cfg; c_sessions := ∅; screenSession := None; pliLimiters := ∅ |}).

Definition server_chans (v : server) : chan Message * chan Message := (receiveCh v, sendCh v).

(** The world with the session added. *)
Record added (cfg : SessionConfig) (conn : option pc) (cb : bool) (gl cl us : loc) (gr : group)
    (call : call) (w w' : world) : Prop := {
  ad_groups : srv_groups (w_server w') = <[GroupID cfg := gl]> (srv_groups (w_server w));
  ad_entries : srv_sessions (w_server w') = <[SessionID cfg := cfg]> (srv_sessions (w_server w));
  ad_drain : drainCh (w_server w') = drainCh (w_server w);
  ad_group : w_groups w' = <[gl := set_g_calls (<[CallID cfg := cl]>) gr]> (w_groups w);
  ad_call : w_calls w' = <[cl := set_c_sessions (<[SessionID cfg := us]>) call]> (w_calls w);
  ad_session : w_sessions w' = <[us := new_session cfg conn cb cl]> (w_sessions w);
  ad_drained : w_drained w' = w_drained w;
  ad_metrics : w_metrics w' = w_metrics w;
  ad_rtc : w_rtc w' = w_rtc w;
  ad_fresh : (w_next w ≤ us)%positive;
  ad_chans : server_chans (w_server w') = server_chans (w_server w);
  ad_next : (w_next w ≤ w_next w' ∧ gl < w_next w' ∧ cl < w_next w' ∧ us < w_next w')%positive;
}.

Lemma lt_of_some w l :
  reg_wf w → is_Some (w_groups w !! l) ∨ is_Some (w_calls w !! l) ∨ is_Some (w_sessions w !! l) →
  (l < w_next w)%positive.
Proof.
  intros Hw H. destruct (decide (l < w_next w)%positive); [done|].
  destruct (rw_fresh _ Hw l) as (H1 & H2 & H3); [lia|]. rewrite H1, H2, H3 in H.
  by destruct H as [[? ?]|[[? ?]|[? ?]]].
Qed.

Lemma wp_add_group cfg Q w :
  reg_wf w →
  (∀ gl gr w1, target_group w cfg gl gr → w_groups w1 = <[gl := gr]> (w_groups w) →
    srv_groups (w_server w1) = <[GroupID cfg := gl]> (srv_groups (w_server w)) →
    (w_next w ≤ w_next w1)%positive → (gl < w_next w1)%positive →
    w1 = set_w_next (λ _, w_next w1) (set_w_groups (λ _, w_groups w1)
      (set_w_server (set_srv_groups (λ _, srv_groups (w_server w1))) w)) →
    (srv_groups (w_server w) !! GroupID cfg = Some gl → w1 = w) → Q gl w1) →
  wp (add_group cfg) Q w.
Proof.
  intros Hw HQ. unfold add_group. apply wp_bind, wp_gets.
  destruct (srv_groups (w_server w) !! GroupID cfg) as [gl|] eqn:Hg.
  - destruct (rw_group _ Hw _ _ Hg) as (gr & Hgr & _).
    apply wp_ret. apply (HQ gl gr w); [by left| | |lia| |by destruct w as [[]]|done].
    + by rewrite insert_id.
    + by rewrite insert_id.
    + eapply lt_of_some; eauto.
  - apply wp_bind, wp_alloc_group. apply wp_bind, wp_modify, wp_ret.
    eapply HQ; [right; split_and!; [done|reflexivity|reflexivity]|reflexivity|reflexivity|..];
      wsimpl; [lia|lia| |done].
    by destruct w as [[]].
Qed.

Lemma wp_add_call gl gr cfg Q w :
  w_groups w !! gl = Some gr →
  (∀ c, g_calls gr !! CallID cfg = Some c → is_Some (w_calls w !! c) ∧ (c < w_next w)%positive) →
  (∀ cl call w1, target_call w cfg gr cl call → w_calls w1 = <[cl := call]> (w_calls w) →
    w_groups w1 = <[gl := set_g_calls (<[CallID cfg := cl]>) gr]> (w_groups w) →
    (w_next w ≤ w_next w1)%positive → (cl < w_next w1)%positive →
    w1 = set_w_next (λ _, w_next w1) (set_w_groups (λ _, w_groups w1)
      (set_w_calls (λ _, w_calls w1) w)) →
    (g_calls gr !! CallID cfg = Some cl → w1 = w) → Q cl w1) →
  wp (add_call gl cfg) Q w.
Proof.
  intros Hg Hcs HQ. unfold add_call. apply wp_bind. eapply wp_get_group; [done|].
  destruct (g_calls gr !! CallID cfg) as [c|] eqn:Hc.
  - destruct (Hcs c eq_refl) as [[call Hcall] Hlt]. apply wp_ret.
    apply (HQ c call w); [by left| | |lia|done|by destruct w|done].
    + by rewrite insert_id.
    + assert (set_g_calls (<[CallID cfg := c]>) gr = gr) as ->; [|by rewrite insert_id].
      unfold set_g_calls. rewrite insert_id by done. by destruct gr.
  - apply wp_bind, wp_alloc_call. apply wp_bind. eapply wp_upd_group; [exact Hg|]. apply wp_ret.
    eapply HQ; [right; split_and!; [done|reflexivity|reflexivity]|reflexivity|reflexivity|..];
      wsimpl; [lia|lia| |done].
    by destruct w.
Qed.

(** [addSession] of a valid configuration: the session is there already and
    nothing changes, or it is added. *)
Lemma addSession_spec cfg conn cb Q w :
  reg_wf w → SessionConfig_IsValid cfg = Ok tt → is_Some conn →
  ((∃ l, in_call w (GroupID cfg) (CallID cfg) (SessionID cfg) l) →
    Q (Err (EText "user session already exists")) w) →
  ((¬ ∃ l, in_call w (GroupID cfg) (CallID cfg) (SessionID cfg) l) →
    ∀ gl cl us gr call w', target_group w cfg gl gr → target_call w cfg gr cl call →
      added cfg conn cb gl cl us gr call w w' → Q (Ok us) w') →
  wp (addSession cfg conn cb) Q w.
Proof.
  intros Hw Hv [pc0 ->] HE HO. unfold addSession. rewrite Hv.
  apply wp_bind, wp_add_group; [done|].
  intros gl gr w1 Htg Hgs1 Hsg1 Hn1 Hgl1 Hw1 Hsame1.
  assert (Hcalls : ∀ c, g_calls gr !! CallID cfg = Some c →
    is_Some (w_calls w !! c) ∧ (c < w_next w)%positive ∧ at_call w (GroupID cfg) (CallID cfg) c).
  { intros c Hc. destruct Htg as [[H1 H2]|(_ & _ & ->)]; [|done].
    assert (Ha : at_call w (GroupID cfg) (CallID cfg) c) by by exists gl, gr.
    destruct (rw_call _ Hw _ _ _ Ha) as (call & Hcall & _).
    split_and!; [by eexists| |done]. eapply lt_of_some; eauto. }
  apply wp_bind. eapply wp_add_call; [rewrite Hgs1; apply lookup_insert_eq| |].
  { intros c Hc. destruct (Hcalls c Hc) as (H1 & H2 & _). rewrite Hw1. wsimpl. split; [done|lia]. }
  intros cl call w2 Htc Hcs2 Hgs2 Hn2 Hcl2 Hw2 Hsame2.
  assert (Htc' : target_call w cfg gr cl call).
  { destruct Htc as [[H1 H2]|(H1 & H2 & H3)]; [left|right].
    - split; [done|]. by rewrite Hw1 in H2.
    - split_and!; [done|lia|done]. }
  assert (Hexists : is_Some (c_sessions call !! SessionID cfg) ↔
    ∃ l, in_call w (GroupID cfg) (CallID cfg) (SessionID cfg) l).
  { split.
    - intros [l Hl]. exists l. destruct Htc' as [[H1 H2]|(_ & _ & ->)]; [|done].
      destruct (Hcalls cl H1) as (_ & _ & Ha). by exists cl, call.
    - intros (l & cl' & call' & Ha & Hc' & Hl). destruct Ha as (gl' & gr' & H1 & H2 & H3).
      destruct Htg as [[H4 H5]|(H4 & _)]; [|congruence]. simplify_eq.
      destruct Htc' as [[H6 H7]|(H6 & _)]; [|congruence]. simplify_eq. eauto. }
  apply wp_bind. unfold call_addSession. apply wp_bind.
  eapply wp_get_call; [rewrite Hcs2; apply lookup_insert_eq|].
  destruct (c_sessions call !! SessionID cfg) as [l|] eqn:Hl.
  - apply wp_ret. cbn [negb]. apply wp_ret.
    assert (Hin : ∃ l, in_call w (GroupID cfg) (CallID cfg) (SessionID cfg) l).
    { apply Hexists. eauto. }
    assert (w2 = w) as ->; [|by apply HE].
    destruct Hin as (l' & cl' & call' & (gl' & gr' & H1 & H2 & H3) & Hc' & Hl').
    destruct Htg as [[H4 H5]|(H4 & _)]; [|congruence]. simplify_eq.
    destruct Htc' as [[H6 H7]|(H6 & _)]; [|congruence]. simplify_eq.
    rewrite Hsame2 by done. by apply Hsame1.
  - apply wp_bind, wp_alloc_session. apply wp_bind.
    eapply wp_upd_call; [wsimpl; rewrite Hcs2; apply lookup_insert_eq|]. apply wp_ret. cbn [negb].
    apply wp_bind, wp_modify, wp_ret. apply (HO ltac:(intros H; apply Hexists in H as [? ?]; congruence)
      gl cl (w_next w2) gr call); [done|done|].
    rewrite Hw1 in Hgs1, Hsg1. rewrite Hw2 in Hgs2, Hcs2. wsimpl in *.
    split; unfold set_srv_sessions; cbn [srv_groups srv_sessions drainCh]; wsimpl.
    all: first [lia | rewrite Hgs2, Hgs1, insert_insert_eq; done
               | rewrite Hcs2, insert_insert_eq, Hw1; done | rewrite Hw2; wsimpl; rewrite Hw1; done].
Qed.

Section adding.
  Context (cfg : SessionConfig) (conn : option pc) (cb : bool).
  Context (gl cl us : loc) (gr : group) (call : call) (w w' : world).
  Hypothesis Hw : reg_wf w.
  Hypothesis Hconn : is_Some conn.
  Hypothesis Htg : target_group w cfg gl gr.
  Hypothesis Htc : target_call w cfg gr cl call.
  Hypothesis Had : added cfg conn cb gl cl us gr call w w'.
  Local Abbreviation G := (GroupID cfg).
  Local Abbreviation C := (CallID cfg).

Lemma added_at_call_old : g_calls gr !! C = Some cl → at_call w G C cl.
Proof. intros Hc. destruct Htg as [[H1 H2]|(_ & _ & ->)]; [by exists gl, gr|done]. Qed.

(** The call's location is not that of another call. *)
Lemma added_call_fresh g c : at_call w g c cl → g = G ∧ c = C.
Proof.
  intros Ha. destruct Htc as [[H1 H2]|(_ & Hf & _)].
  - eapply at_call_inj; [done|exact Ha|by apply added_at_call_old].
  - destruct (rw_call _ Hw _ _ _ Ha) as (k & Hk & _).
    destruct (rw_fresh _ Hw cl Hf) as (_ & Hn & _). congruence.
Qed.

Lemma added_group_fresh g : srv_groups (w_server w) !! g = Some gl → g = G.
Proof.
  intros Hg. destruct Htg as [[H1 H2]|(_ & Hf & _)].
  - destruct (rw_group _ Hw _ _ Hg) as (gr1 & E1 & I1 & _).
    destruct (rw_group _ Hw _ _ H1) as (gr2 & E2 & I2 & _). congruence.
  - destruct (rw_group _ Hw _ _ Hg) as (gr1 & E1 & _).
    destruct (rw_fresh _ Hw gl Hf) as (Hn & _). congruence.
Qed.

Lemma added_at_call g c x :
  at_call w' g c x ↔ (g = G ∧ c = C ∧ x = cl) ∨ ((g, c) ≠ (G, C) ∧ at_call w g c x).
Proof.
  destruct Had as [Hgs _ _ Hgr _ _ _ _ _ _ _]. unfold at_call. split.
  - intros (gl' & gr' & H1 & H2 & H3). rewrite Hgs in H1. rewrite Hgr in H2.
    apply lookup_insert_Some in H1 as [[<- <-]|[Hg H1]].
    + rewrite lookup_insert_eq in H2. simplify_eq. cbn in H3.
      apply lookup_insert_Some in H3 as [[<- <-]|[Hc H3]]; [by left|right].
      split; [congruence|]. destruct Htg as [[H4 H5]|(_ & _ & ->)]; [by exists gl, gr|done].
    + right. split; [congruence|]. rewrite lookup_insert_ne in H2; [by exists gl', gr'|].
      intros <-. by apply Hg, eq_sym, added_group_fresh.
  - intros [(-> & -> & ->)|[Hne (gl' & gr' & H1 & H2 & H3)]].
    + exists gl, (set_g_calls (<[C := cl]>) gr). rewrite Hgs, Hgr, !lookup_insert_eq. cbn.
      by rewrite lookup_insert_eq.
    + rewrite Hgs, Hgr. destruct (decide (g = G)) as [->|Hg].
      * destruct Htg as [[H4 H5]|(H4 & _)]; [|congruence].
        assert (gl' = gl) as -> by congruence. assert (gr' = gr) as -> by congruence.
        exists gl, (set_g_calls (<[C := cl]>) gr). rewrite !lookup_insert_eq. cbn.
        rewrite lookup_insert_ne by congruence. done.
      * exists gl', gr'. rewrite lookup_insert_ne by done. split; [done|].
        rewrite lookup_insert_ne; [done|]. intros <-. by apply Hg, added_group_fresh.
Qed.

Lemma added_calls_other g c x k :
  (g, c) ≠ (G, C) → at_call w g c x → w_calls w' !! x = Some k ↔ w_calls w !! x = Some k.
Proof.
  intros Hne Ha. rewrite (ad_call _ _ _ _ _ _ _ _ _ _ Had), lookup_insert_ne; [done|].
  intros <-. apply added_call_fresh in Ha as [-> ->]. done.
Qed.

Lemma added_call_self : w_calls w' !! cl = Some (set_c_sessions (<[SessionID cfg := us]>) call).
Proof. by rewrite (ad_call _ _ _ _ _ _ _ _ _ _ Had), lookup_insert_eq. Qed.

Lemma added_session_old l s : w_sessions w !! l = Some s → w_sessions w' !! l = Some s.
Proof.
  intros Hl. rewrite (ad_session _ _ _ _ _ _ _ _ _ _ Had), lookup_insert_ne; [done|]. intros <-.
  destruct (rw_fresh _ Hw us (ad_fresh _ _ _ _ _ _ _ _ _ _ Had)) as (_ & _ & Hn). congruence.
Qed.

(** The members of the call before. *)
Lemma added_member_old id l :
  c_sessions call !! id = Some l → at_call w G C cl ∧ w_calls w !! cl = Some call.
Proof.
  intros Hl. destruct Htc as [[H1 H2]|(_ & _ & ->)]; [|done].
  split; [by apply added_at_call_old|done].
Qed.

Lemma added_in_call g c id l :
  in_call w' g c id l ↔
    (g = G ∧ c = C ∧ id = SessionID cfg ∧ l = us) ∨
    ((g, c, id) ≠ (G, C, SessionID cfg) ∧ in_call w g c id l).
Proof.
  unfold in_call. split.
  - intros (x & k & Ha & Hk & Hl). apply added_at_call in Ha as [(-> & -> & ->)|[Hne Ha]].
    + rewrite added_call_self in Hk. simplify_eq. cbn in Hl.
      apply lookup_insert_Some in Hl as [[<- <-]|[Hid Hl]]; [by left|right].
      split; [congruence|]. destruct (added_member_old _ _ Hl). by exists cl, call.
    + right. split; [congruence|]. apply (added_calls_other g c) in Hk; [|done..]. by exists x, k.
  - intros [(-> & -> & -> & ->)|[Hne (x & k & Ha & Hk & Hl)]].
    + exists cl, (set_c_sessions (<[SessionID cfg := us]>) call).
      split_and!; [apply added_at_call; by left|apply added_call_self|]. cbn. apply lookup_insert_eq.
    + destruct (decide ((g, c) = (G, C))) as [[= -> ->]|Hgc].
      * assert (x = cl ∧ k = call) as [-> ->].
        { destruct Htc as [[H1 H2]|(H1 & _ & _)].
          - apply added_at_call_old in H1. pose proof (at_call_fun _ _ _ _ _ Ha H1). by simplify_eq.
          - destruct Ha as (gl' & gr' & A1 & A2 & A3).
            destruct Htg as [[H4 H5]|(H4 & _)]; [|congruence]. simplify_eq. }
        exists cl, (set_c_sessions (<[SessionID cfg := us]>) call).
        split_and!; [apply added_at_call; by left|apply added_call_self|]. cbn.
        rewrite lookup_insert_ne by congruence. done.
      * exists x, k. split_and!; [apply added_at_call; by right|by apply (added_calls_other g c)|done].
Qed.

Lemma new_session_member : member_wf G C (SessionID cfg) cl (new_session cfg conn cb cl).
Proof. by repeat (split; cbn). Qed.

Lemma added_entries id c :
  (¬ ∃ l, in_call w G C (SessionID cfg) l) →
  srv_sessions (w_server w') !! id = Some c →
  SessionID c = id ∧ ∃ l s, in_call w' (GroupID c) (CallID c) id l ∧
    w_sessions w' !! l = Some s ∧ s_cfg s = c.
Proof.
  intros Hnew. rewrite (ad_entries _ _ _ _ _ _ _ _ _ _ Had).
  intros [[<- <-]|[Hid Hc]]%lookup_insert_Some.
  - split; [done|]. exists us, (new_session cfg conn cb cl).
    split_and!; [apply added_in_call; by left| |done].
    by rewrite (ad_session _ _ _ _ _ _ _ _ _ _ Had), lookup_insert_eq.
  - destruct (rw_entry _ Hw _ _ Hc) as (H1 & l & s & H2 & H3 & H4). split; [done|]. exists l, s.
    split_and!; [|by apply added_session_old|done]. apply added_in_call. right. split; [congruence|done].
Qed.

Lemma added_wf : (¬ ∃ l, in_call w G C (SessionID cfg) l) → reg_wf w'.
Proof.
  intros Hnew. split.
  - intros g x. rewrite (ad_groups _ _ _ _ _ _ _ _ _ _ Had).
    intros [[<- <-]|[Hg Hx]]%lookup_insert_Some.
    + exists (set_g_calls (<[C := cl]>) gr). rewrite (ad_group _ _ _ _ _ _ _ _ _ _ Had), lookup_insert_eq.
      split_and!; [done| |apply insert_non_empty]. cbn.
      destruct Htg as [[H1 H2]|(_ & _ & ->)]; [|done].
      destruct (rw_group _ Hw _ _ H1) as (gr' & H3 & H4 & _). by simplify_eq.
    + destruct (rw_group _ Hw _ _ Hx) as (gr' & H3 & H4 & H5). exists gr'.
      rewrite (ad_group _ _ _ _ _ _ _ _ _ _ Had), lookup_insert_ne; [done|].
      intros <-. apply Hg. symmetry. by apply added_group_fresh.
  - intros g c x [(-> & -> & ->)|[Hne Ha]]%added_at_call.
    + rewrite added_call_self. eexists. split; [done|]. apply insert_non_empty.
    + destruct (rw_call _ Hw _ _ _ Ha) as (k & Hk & Hke). exists k. split; [|done].
      by apply (added_calls_other g c).
  - intros g c x k id l [(-> & -> & ->)|[Hne Ha]]%added_at_call Hk Hl.
    + rewrite added_call_self in Hk. simplify_eq. cbn in Hl.
      apply lookup_insert_Some in Hl as [[<- <-]|[Hid Hl]].
      * exists (new_session cfg conn cb cl).
        rewrite (ad_session _ _ _ _ _ _ _ _ _ _ Had), lookup_insert_eq.
        split; [done|apply new_session_member].
      * destruct (added_member_old _ _ Hl) as [Ha Hc].
        destruct (rw_member _ Hw _ _ _ _ _ _ Ha Hc Hl) as (s & Hs & Hm).
        exists s. split; [by apply added_session_old|done].
    + apply (added_calls_other g c) in Hk; [|done..].
      destruct (rw_member _ Hw _ _ _ _ _ _ Ha Hk Hl) as (s & Hs & Hm).
      exists s. split; [by apply added_session_old|done].
  - intros g c x k p [(-> & -> & ->)|[Hne Ha]]%added_at_call Hk Hp.
    + rewrite added_call_self in Hk. simplify_eq. cbn in *.
      destruct Htc as [[H1 H2]|(_ & _ & ->)]; [|done].
      destruct (rw_screen _ Hw _ _ _ _ _ (added_at_call_old H1) H2 Hp) as (id & Hid).
      exists id. rewrite lookup_insert_ne; [done|]. intros <-. apply Hnew. exists p, cl, call.
      split_and!; [by apply added_at_call_old|done|done].
    + apply (added_calls_other g c) in Hk; [|done..]. by eapply rw_screen.
  - intros id c. by apply added_entries.
  - intros ch. rewrite (ad_drain _ _ _ _ _ _ _ _ _ _ Had), (ad_drained _ _ _ _ _ _ _ _ _ _ Had).
    apply rw_drain, Hw.
  - intros l Hl. destruct (ad_next _ _ _ _ _ _ _ _ _ _ Had) as (N1 & N2 & N3 & N4).
    destruct (rw_fresh _ Hw l) as (F1 & F2 & F3); [lia|].
    rewrite (ad_group _ _ _ _ _ _ _ _ _ _ Had), (ad_call _ _ _ _ _ _ _ _ _ _ Had),
      (ad_session _ _ _ _ _ _ _ _ _ _ Had), !lookup_insert_ne by (intros ->; lia). done.
Qed.

End adding.

(** ** Closing a session *)

(** The world with the session at [us] taken out. *)
Definition call_left (cfg : SessionConfig) (us : loc) (cl : call) : call :=
  set_c_sessions (delete (SessionID cfg))
    (if bool_decide (screenSession cl = Some us) then set_screenSession (λ _, None) cl else cl).

Definition last_in_call (cfg : SessionConfig) (cl : call) : bool :=
  bool_decide (delete (SessionID cfg) (c_sessions cl) = ∅).
Definition last_in_group (cfg : SessionConfig) (gr : group) : bool :=
  bool_decide (delete (CallID cfg) (g_calls gr) = ∅).

Record removed (cfg : SessionConfig) (gl cl us : loc) (gr : group) (call : call) (s : session)
    (w w' : world) : Prop := {
  rm_entries : srv_sessions (w_server w') = delete (SessionID cfg) (srv_sessions (w_server w));
  rm_groups : srv_groups (w_server w') =
    if last_in_call cfg call && last_in_group cfg gr
    then delete (GroupID cfg) (srv_groups (w_server w)) else srv_groups (w_server w);
  rm_group : w_groups w' =
    if last_in_call cfg call then <[gl := set_g_calls (delete (CallID cfg)) gr]> (w_groups w)
    else w_groups w;
  rm_call : w_calls w' = <[cl := call_left cfg us call]> (w_calls w);
  rm_us : ∃ s', w_sessions w' !! us = Some s' ∧ closeCh s' = true ∧ closeCb s' = closeCb s ∧
    doneCh s' = doneCh s ∧ s_cfg s' = s_cfg s;
  rm_others : ∀ l s, l ≠ us → w_sessions w !! l = Some s →
    ∃ s', w_sessions w' !! l = Some s' ∧ sess_evolve s s';
  rm_none : ∀ l, w_sessions w !! l = None → w_sessions w' !! l = None;
  rm_drain : drainCh (w_server w') =
    if bool_decide (delete (SessionID cfg) (srv_sessions (w_server w)) = ∅) then None
    else drainCh (w_server w);
  rm_drained : w_drained w' =
    if bool_decide (delete (SessionID cfg) (srv_sessions (w_server w)) = ∅)
    then list_to_set (option_list (drainCh (w_server w))) ∪ w_drained w else w_drained w;
  rm_metrics : w_metrics w' = w_metrics w ++ DecRTCSessions (GroupID cfg) :: dec_tracks s;
  rm_next : w_next w' = w_next w;
  rm_chans : server_chans (w_server w') = server_chans (w_server w);
}.

(** The first section, with the drain channel closed when it was the last
    entry. *)
Lemma wp_unregister id Q w :
  (∀ ch, drainCh (w_server w) = Some ch → ch ∉ w_drained w) →
  (let left := delete id (srv_sessions (w_server w)) in
   let w' := set_w_server (λ v, set_srv_sessions (λ _, left)
       (if bool_decide (left = ∅) then set_drainCh (λ _, None) v else v))
     (set_w_drained (λ d, if bool_decide (left = ∅)
       then list_to_set (option_list (drainCh (w_server w))) ∪ d else d) w) in
   Q (srv_sessions (w_server w) !! id) w') →
  wp (unregister id) Q w.
Proof.
  intros Hd HQ. unfold unregister. apply wp_bind, wp_gets. apply wp_bind, wp_modify.
  apply wp_bind, wp_gets. wsimpl.
  change (srv_sessions (set_srv_sessions (delete id) (w_server w)))
    with (delete id (srv_sessions (w_server w))).
  apply wp_bind. unfold when. cbv zeta in HQ. case_bool_decide as Hleft.
  - unfold wp, close_drain.
    change (drainCh (w_server (set_w_server (set_srv_sessions (delete id)) w)))
      with (drainCh (w_server w)).
    destruct (drainCh (w_server w)) as [ch|] eqn:Hch.
    + wsimpl. rewrite bool_decide_false by by apply Hd. apply wp_ret. revert HQ.
      cbn [option_list list_to_set list_to_set]. unfold set_w_server, set_w_drained. wsimpl.
      assert (Heq : ({[ch]} ∪ ∅ ∪ w_drained w : gset loc) = {[ch]} ∪ w_drained w) by set_solver.
      cbn. rewrite Heq. auto.
    + apply wp_ret. revert HQ. unfold set_w_server, set_w_drained. wsimpl. cbn.
      assert (Heq : (∅ ∪ w_drained w : gset loc) = w_drained w) by set_solver. rewrite Heq.
      destruct (w_server w) eqn:Hsrv. unfold set_srv_sessions, set_drainCh. cbn in *. by subst.
  - by apply wp_ret, wp_ret.
Qed.

(** Where a registered session sits. *)
Record placed (cfg : SessionConfig) (gl cl us : loc) (gr : group) (call : call) (s : session)
    (w : world) : Prop := {
  pl_group : srv_groups (w_server w) !! GroupID cfg = Some gl;
  pl_gr : w_groups w !! gl = Some gr;
  pl_call : g_calls gr !! CallID cfg = Some cl;
  pl_cl : w_calls w !! cl = Some call;
  pl_us : c_sessions call !! SessionID cfg = Some us;
  pl_s : w_sessions w !! us = Some s;
  pl_cfg : s_cfg s = cfg;
}.

Lemma entry_placed w id cfg :
  reg_wf w → srv_sessions (w_server w) !! id = Some cfg →
  SessionID cfg = id ∧ ∃ gl cl us gr call s, placed cfg gl cl us gr call s w ∧
    member_wf (GroupID cfg) (CallID cfg) id cl s.
Proof.
  intros Hw He. destruct (rw_entry _ Hw _ _ He) as (Hid & l & s & (cl & call & Ha & Hc & Hl) & Hs & Hcfg).
  split; [done|]. destruct (rw_member _ Hw _ _ _ _ _ _ Ha Hc Hl) as (s' & Hs' & Hm).
  destruct Ha as (gl & gr & H1 & H2 & H3). assert (s' = s) as -> by congruence.
  exists gl, cl, l, gr, call, s. split; [|done]. split; try done. by rewrite Hid.
Qed.

Section closing.
  Context `{!PionLaws env_pion}.

(** The sections after the lookups. *)
Lemma wp_leave cfg gl cl us gr call s Q w :
  w_groups w !! gl = Some gr → w_calls w !! cl = Some call → members_wf w (c_sessions call) →
  w_sessions w !! us = Some s → session_wf s → closeCh s = false → s_cfg s = cfg →
  c_sessions call !! SessionID cfg = Some us →
  (∀ w', 
    srv_groups (w_server w') = (if last_in_call cfg call && last_in_group cfg gr
      then delete (GroupID cfg) (srv_groups (w_server w)) else srv_groups (w_server w)) →
    srv_sessions (w_server w') = srv_sessions (w_server w) →
    drainCh (w_server w') = drainCh (w_server w) →
    w_groups w' = (if last_in_call cfg call
      then <[gl := set_g_calls (delete (CallID cfg)) gr]> (w_groups w) else w_groups w) →
    w_calls w' = <[cl := call_left cfg us call]> (w_calls w) →
    evolve (close_base cl us call s w) (set_w_server (λ _, w_server w)
      (set_w_groups (λ _, w_groups w) (set_w_calls (λ _, unpresent cl us call (w_calls w)) w'))) →
    server_chans (w_server w') = server_chans (w_server w) →
    Q tt w') →
  wp (leave_call cfg gl cl us) Q w.
Proof.
  intros Hgr Hcl Hm Hs Hwf Hopen Hcfg Hus HQ. unfold leave_call.
  apply wp_bind. eapply handleSessionClose_spec; [done..|]. intros w1 He _ _ _.
  set (cl1 := if bool_decide (screenSession call = Some us)
    then set_screenSession (λ _, None) call else call).
  assert (Hcl1 : w_calls w1 = <[cl := cl1]> (w_calls w)).
  { rewrite (ev_calls _ _ He). unfold close_base, set_w_metrics, set_w_calls, unpresent, cl1. wsimpl.
    case_bool_decide; [done|]. by rewrite insert_id. }
  apply wp_bind. eapply wp_upd_call; [rewrite Hcl1; apply lookup_insert_eq|].
  assert (Hleft : set_c_sessions (delete (SessionID cfg)) cl1 = call_left cfg us call) by done.
  assert (Hsess : c_sessions (call_left cfg us call) = delete (SessionID cfg) (c_sessions call)).
  { unfold call_left. by case_bool_decide. }
  apply wp_bind. eapply wp_get_call; [wsimpl; apply lookup_insert_eq|]. rewrite Hleft, Hsess.
  unfold when. fold (last_in_call cfg call).
  assert (Hev : ∀ w2, w_sessions w2 = w_sessions w1 → w_monitors w2 = w_monitors w1 →
    w_drained w2 = w_drained w1 → w_rtc w2 = w_rtc w1 → w_metrics w2 = w_metrics w1 →
    w_next w2 = w_next w1 →
    evolve (close_base cl us call s w) (set_w_server (λ _, w_server w)
      (set_w_groups (λ _, w_groups w) (set_w_calls (λ _, unpresent cl us call (w_calls w)) w2)))).
  { intros w2 F1 F2 F3 F4 F5 F6. destruct He. split; wsimpl; try done; try congruence; by rewrite F1. }
  assert (Esv : w_server w1 = w_server w) by (by rewrite (ev_server _ _ He)).
  assert (Egr : w_groups w1 = w_groups w) by (by rewrite (ev_groups _ _ He)).
  assert (Hcalls : <[cl := call_left cfg us call]> (w_calls w1) =
    <[cl := call_left cfg us call]> (w_calls w)) by (by rewrite Hcl1, insert_insert_eq).
  destruct (last_in_call cfg call) eqn:Hlast; cbn [andb] in HQ.
  2: { apply wp_ret, HQ; wsimpl; rewrite ?Esv, ?Egr; first [done|exact Hcalls|by apply Hev]. }
  apply wp_bind. eapply wp_upd_group; [wsimpl; by rewrite Egr|].
  apply wp_bind. eapply wp_get_group; [wsimpl; apply lookup_insert_eq|]. wsimpl.
  fold (last_in_group cfg gr). destruct (last_in_group cfg gr).
  - apply wp_modify, HQ; wsimpl; rewrite ?Esv, ?Egr; first [done|exact Hcalls|by apply Hev].
  - apply wp_ret, HQ; wsimpl; rewrite ?Esv, ?Egr; first [done|exact Hcalls|by apply Hev].
Qed.

Lemma CloseSession_run_spec id cfg Q w :
  reg_wf w → srv_sessions (w_server w) !! id = Some cfg →
  (∀ gl cl us gr call s w', placed cfg gl cl us gr call s w →
    member_wf (GroupID cfg) (CallID cfg) id cl s →
    removed cfg gl cl us gr call s w w' → Q (Ok (Some us)) w') →
  wp (CloseSession_run id) Q w.
Proof.
  intros Hw He HQ. destruct (entry_placed w id cfg Hw He) as (Hid & gl & cl & us & gr & call & s & Hp & Hm).
  specialize (HQ gl cl us gr call s). pose proof Hp as [P1 P2 P3 P4 P5 P6 P7].
  assert (Ha : at_call w (GroupID cfg) (CallID cfg) cl) by by exists gl, gr.
  pose proof (members_of_call _ _ _ _ _ Hw Ha P4) as Hmem.
  unfold CloseSession_run. apply wp_bind, wp_unregister; [apply rw_drain, Hw|]. cbv zeta.
  rewrite He. apply wp_bind, wp_emit. apply wp_bind, wp_gets. wsimpl.
  match goal with |- context [srv_groups ?v !! GroupID cfg] =>
    assert (Hsg : srv_groups v = srv_groups (w_server w)) by (cbn; by case_bool_decide) end.
  rewrite Hsg, P1. apply wp_bind. unfold getCall. apply wp_bind, (wp_deref _ gl); [done|].
  apply wp_bind. eapply wp_get_group; [exact P2|]. apply wp_ret. rewrite P3.
  apply wp_bind. unfold getSession. apply wp_bind. eapply wp_get_call; [exact P4|]. apply wp_ret.
  rewrite P5. apply wp_bind.
  match goal with |- wp _ _ ?W => set (w1 := W) in * end.
  eapply (wp_leave cfg gl cl us gr call s); [exact P2|exact P4|exact Hmem|exact P6|apply Hm|apply Hm|done|done|].
  intros w2 G1 G2 G3 G4 G5 Hev G6.
  assert (Hus2 : ∃ s2, w_sessions w2 !! us = Some s2 ∧ sess_evolve s s2).
  { apply (evolve_session _ _ us s Hev). exact P6. }
  destruct Hus2 as (s2 & Hs2 & Hse). pose proof Hse as (ch & x & -> & _).
  apply wp_bind. unfold close_closeCh. apply wp_bind. eapply wp_get_session; [done|].
  assert (closeCh (set_tracksCh (λ _, ch) (set_screenTrackSender (λ _, x) s)) = false) as ->
    by apply (mw_open _ _ _ _ _ Hm).
  eapply wp_upd_session; [done|]. apply wp_bind. unfold close_conn. apply wp_bind.
  eapply wp_get_session; [wsimpl; apply lookup_insert_eq|].
  destruct (sw_conn _ (mw_wf _ _ _ _ _ Hm)) as [conn Hconn].
  apply wp_bind, (wp_deref _ conn); [exact Hconn|]. apply wp_lib. intros u r _. apply wp_ret.
  apply HQ; [done|done|].
  split; wsimpl.
  - rewrite G2. cbn. rewrite Hid. by case_bool_decide.
  - rewrite G1. cbn. by case_bool_decide.
  - exact G4.
  - exact G5.
  - eexists. rewrite lookup_insert_eq. split_and!; done.
  - intros l s' Hne Hs'. rewrite lookup_insert_ne by done. exact (evolve_session _ _ l s' Hev Hs').
  - intros l Hn. rewrite lookup_insert_ne by congruence. pose proof (ev_sessions _ _ Hev l) as Hl.
    change (w_sessions (close_base cl us call s w1)) with (w_sessions w) in Hl. by rewrite Hn in Hl.
  - rewrite G3, Hid. cbn. by case_bool_decide.
  - change (w_drained w2) with (w_drained (set_w_server (λ _, w_server w1) (set_w_groups (λ _, w_groups w1)
      (set_w_calls (λ _, unpresent cl us call (w_calls w1)) w2)))).
    rewrite (ev_drained _ _ Hev), Hid. cbn. by case_bool_decide.
  - change (w_metrics w2) with (w_metrics (set_w_server (λ _, w_server w1) (set_w_groups (λ _, w_groups w1)
      (set_w_calls (λ _, unpresent cl us call (w_calls w1)) w2)))).
    rewrite (ev_metrics _ _ Hev). cbn. by rewrite <- app_assoc.
  - exact (ev_next _ _ Hev).
  - rewrite G6. cbn. by case_bool_decide.
Qed.

Section removing.
  Context (cfg : SessionConfig) (gl cl us : loc) (gr : group) (call : call) (s : session) (w w' : world).
  Hypothesis Hw : reg_wf w.
  Hypothesis Hp : placed cfg gl cl us gr call s w.
  Hypothesis Hr : removed cfg gl cl us gr call s w w'.
  Local Abbreviation G := (GroupID cfg).
  Local Abbreviation C := (CallID cfg).
  Local Abbreviation ID := (SessionID cfg).

Lemma placed_at_call : at_call w G C cl.
Proof. destruct Hp. by exists gl, gr. Qed.

Lemma placed_group g : srv_groups (w_server w) !! g = Some gl → g = G.
Proof.
  intros Hg. destruct (rw_group _ Hw _ _ Hg) as (gr1 & E1 & I1 & _).
  destruct (rw_group _ Hw _ _ (pl_group _ _ _ _ _ _ _ _ Hp)) as (gr2 & E2 & I2 & _). congruence.
Qed.

Lemma placed_call g c : at_call w g c cl → g = G ∧ c = C.
Proof. intros Ha. eapply at_call_inj; [done|exact Ha|apply placed_at_call]. Qed.

Lemma call_left_sessions : c_sessions (call_left cfg us call) = delete ID (c_sessions call).
Proof. unfold call_left. by case_bool_decide. Qed.

Lemma removed_at_call g c x :
  at_call w' g c x ↔ at_call w g c x ∧ (x = cl → last_in_call cfg call = false).
Proof.
  destruct Hr as [_ Hgs Hgr _ _ _ _ _ _ _ _]. destruct Hp as [P1 P2 P3 _ _ _ _]. unfold at_call. split.
  - intros (gl' & gr' & H1 & H2 & H3). rewrite Hgs in H1. rewrite Hgr in H2.
    assert (H1' : srv_groups (w_server w) !! g = Some gl').
    { destruct (_ && _); [by apply lookup_delete_Some in H1 as [_ ?]|done]. }
    destruct (last_in_call cfg call) eqn:Hlast.
    + destruct (decide (gl' = gl)) as [->|Hne].
      * rewrite lookup_insert_eq in H2. simplify_eq. cbn in H3. apply lookup_delete_Some in H3 as [Hc H3].
        split; [by exists gl, gr|]. intros ->. exfalso. apply Hc.
        symmetry. apply (placed_call g c). by exists gl, gr.
      * rewrite lookup_insert_ne in H2 by done. split; [by exists gl', gr'|]. intros ->. exfalso.
        destruct (placed_call g c) as [-> ->]; [by exists gl', gr'|]. congruence.
    + split; [by exists gl', gr'|done].
  - intros [(gl' & gr' & H1 & H2 & H3) Hx]. rewrite Hgs, Hgr.
    destruct (last_in_call cfg call) eqn:Hlast; cbn [andb]; [|by exists gl', gr'].
    destruct (decide (gl' = gl)) as [->|Hne].
    + assert (gr' = gr) as -> by congruence. pose proof (placed_group _ H1) as ->.
      assert (c ≠ C) as Hc. { intros ->. specialize (Hx ltac:(congruence)). done. }
      exists gl, (set_g_calls (delete C) gr). rewrite lookup_insert_eq. cbn.
      rewrite lookup_delete_ne by done. split_and!; [|done|done].
      unfold last_in_group. rewrite bool_decide_false; [done|]. intros Hempty.
      assert (delete C (g_calls gr) !! c = Some x) as Hd by by rewrite lookup_delete_ne.
      rewrite Hempty in Hd. done.
    + exists gl', gr'. rewrite lookup_insert_ne by done. split_and!; [|done|done].
      destruct (last_in_group cfg gr); [|done]. rewrite lookup_delete_ne; [done|].
      intros Hg. rewrite Hg in P1. congruence.
Qed.

Lemma removed_calls_other x : x ≠ cl → w_calls w' !! x = w_calls w !! x.
Proof. intros Hx. rewrite (rm_call _ _ _ _ _ _ _ _ _ Hr). by rewrite lookup_insert_ne. Qed.

Lemma removed_call_self : w_calls w' !! cl = Some (call_left cfg us call).
Proof. by rewrite (rm_call _ _ _ _ _ _ _ _ _ Hr), lookup_insert_eq. Qed.

Lemma last_in_call_false id l :
  c_sessions call !! id = Some l → id ≠ ID → last_in_call cfg call = false.
Proof.
  intros Hl Hne. unfold last_in_call. apply bool_decide_eq_false. intros Hempty.
  assert (delete ID (c_sessions call) !! id = Some l) as Hd by by rewrite lookup_delete_ne.
  rewrite Hempty in Hd. done.
Qed.

Lemma removed_in_call g c id l :
  in_call w' g c id l ↔ in_call w g c id l ∧ (g, c, id) ≠ (G, C, ID).
Proof.
  unfold in_call. split.
  - intros (x & k & Ha & Hk & Hl). apply removed_at_call in Ha as [Ha Hx].
    destruct (decide (x = cl)) as [->|Hne].
    + rewrite removed_call_self in Hk. injection Hk as <-. rewrite call_left_sessions in Hl.
      apply lookup_delete_Some in Hl as [Hid Hl]. split; [|congruence].
      exists cl, call. split_and!; [done|apply Hp|done].
    + rewrite removed_calls_other in Hk by done. split; [by exists x, k|]. intros [= -> -> _].
      apply Hne. eapply at_call_fun; [exact Ha|apply placed_at_call].
  - intros [(x & k & Ha & Hk & Hl) Hne]. destruct (decide (x = cl)) as [->|Hx].
    + pose proof (placed_call _ _ Ha) as [-> ->]. assert (k = call) as ->.
      { destruct Hp. congruence. }
      assert (id ≠ ID) as Hid by congruence.
      exists cl, (call_left cfg us call). split_and!; [|apply removed_call_self|].
      * apply removed_at_call. split; [done|]. intros _. by eapply last_in_call_false.
      * by rewrite call_left_sessions, lookup_delete_ne.
    + exists x, k. split_and!; [apply removed_at_call; by split| |done]. by rewrite removed_calls_other.
Qed.

(** A member other than the closed session is at another location. *)
Lemma member_not_us g c id l : in_call w g c id l → (g, c, id) ≠ (G, C, ID) → l ≠ us.
Proof.
  intros (x & k & Ha & Hk & Hl) Hne ->.
  destruct (rw_member _ Hw _ _ _ _ _ _ Ha Hk Hl) as (s1 & Hs1 & []).
  destruct Hp as [_ _ _ _ _ Hs Hcfg]. assert (s1 = s) as -> by congruence. subst cfg. congruence.
Qed.

Lemma member_evolve g c id x s1 s2 :
  member_wf g c id x s1 → sess_evolve s1 s2 → member_wf g c id x s2.
Proof.
  intros [M1 M2 M3 M4 M5 M6] He. pose proof (sess_evolve_same _ _ He) as (E1 & _ & _ & _ & E2 & E3).
  destruct He as (ch & y & -> & _). split; try done. by apply E3.
Qed.

Lemma removed_member g c id l x k :
  at_call w' g c x → w_calls w' !! x = Some k → c_sessions k !! id = Some l →
  ∃ s1, w_sessions w' !! l = Some s1 ∧ member_wf g c id x s1.
Proof.
  intros Ha Hk Hl. assert (Hin : in_call w' g c id l) by by exists x, k.
  apply removed_in_call in Hin as [Hin Hne]. pose proof (member_not_us _ _ _ _ Hin Hne) as Hlu.
  destruct Hin as (x' & k' & Ha' & Hk' & Hl'). apply removed_at_call in Ha as [Ha _].
  pose proof (at_call_fun _ _ _ _ _ Ha Ha') as <-.
  destruct (rw_member _ Hw _ _ _ _ _ _ Ha' Hk' Hl') as (s1 & Hs1 & Hm).
  destruct (rm_others _ _ _ _ _ _ _ _ _ Hr _ _ Hlu Hs1) as (s2 & Hs2 & He).
  exists s2. split; [done|]. by eapply member_evolve.
Qed.

Lemma removed_wf : reg_wf w'.
Proof.
  destruct Hp as [P1 P2 P3 P4 P5 P6 P7]. split.
  - intros g x Hg. rewrite (rm_groups _ _ _ _ _ _ _ _ _ Hr) in Hg.
    rewrite (rm_group _ _ _ _ _ _ _ _ _ Hr).
    assert (Hg' : srv_groups (w_server w) !! g = Some x).
    { destruct (_ && _); [by apply lookup_delete_Some in Hg as [_ ?]|done]. }
    destruct (rw_group _ Hw _ _ Hg') as (gr' & H1 & H2 & H3).
    destruct (last_in_call cfg call); cbn [andb] in Hg; [|by exists gr'].
    destruct (decide (gl = x)) as [<-|Hne]; [|exists gr'; by rewrite lookup_insert_ne].
    assert (gr' = gr) as -> by congruence. pose proof (placed_group _ Hg') as ->.
    exists (set_g_calls (delete C) gr). rewrite lookup_insert_eq. split_and!; [done|done|]. cbn.
    destruct (last_in_group cfg gr) eqn:Hlast; [by rewrite lookup_delete_eq in Hg|].
    unfold last_in_group in Hlast. by apply bool_decide_eq_false in Hlast.
  - intros g c x [Ha Hx]%removed_at_call. destruct (decide (x = cl)) as [->|Hne].
    + rewrite removed_call_self. eexists. split; [done|]. rewrite call_left_sessions.
      specialize (Hx eq_refl). unfold last_in_call in Hx. by apply bool_decide_eq_false in Hx.
    + rewrite removed_calls_other by done. by eapply rw_call.
  - intros g c x k id l. apply removed_member.
  - intros g c x k p [Ha Hx]%removed_at_call Hk Hscr. destruct (decide (x = cl)) as [->|Hne].
    + rewrite removed_call_self in Hk. injection Hk as <-. rewrite call_left_sessions.
      unfold call_left in Hscr. case_bool_decide as Hpu; [done|]. cbn in Hscr.
      destruct (rw_screen _ Hw _ _ _ _ _ Ha P4 Hscr) as (id & Hid). exists id.
      rewrite lookup_delete_ne; [done|]. intros <-. congruence.
    + rewrite removed_calls_other in Hk by done. by eapply rw_screen.
  - intros id c. rewrite (rm_entries _ _ _ _ _ _ _ _ _ Hr). intros [Hid Hc]%lookup_delete_Some.
    destruct (rw_entry _ Hw _ _ Hc) as (H1 & l & s1 & H2 & H3 & H4). split; [done|].
    assert (Hne : (GroupID c, CallID c, id) ≠ (G, C, ID)) by congruence.
    pose proof (member_not_us _ _ _ _ H2 Hne) as Hlu.
    destruct (rm_others _ _ _ _ _ _ _ _ _ Hr _ _ Hlu H3) as (s2 & Hs2 & He).
    exists l, s2. split_and!; [by apply removed_in_call|done|].
    apply sess_evolve_same in He as (-> & _). done.
  - intros ch. rewrite (rm_drain _ _ _ _ _ _ _ _ _ Hr), (rm_drained _ _ _ _ _ _ _ _ _ Hr).
    case_bool_decide; [done|]. apply rw_drain, Hw.
  - intros l Hl. rewrite (rm_next _ _ _ _ _ _ _ _ _ Hr) in Hl.
    destruct (rw_fresh _ Hw l Hl) as (F1 & F2 & F3). split_and!.
    + rewrite (rm_group _ _ _ _ _ _ _ _ _ Hr). destruct (last_in_call _ _); [|done].
      rewrite lookup_insert_ne; [done|]. intros ->. congruence.
    + rewrite removed_calls_other; [done|]. intros ->. congruence.
    + by apply (rm_none _ _ _ _ _ _ _ _ _ Hr).
Qed.

End removing.

(** ** The registry as a set *)

(** What the registry promises: a set of sessions, each under its group, call
    and identifier, and the configuration registered last under each session
    identifier. *)
Record registry := {
  a_members : gset (string * string * string);
  a_entries : gmap string SessionConfig;
}.

Inductive reg_op :=
  | OpAdd (cfg : SessionConfig) (conn : option pc) (cb : bool)
  | OpClose (sessionID : string).

Definition cfg_key (cfg : SessionConfig) : string * string * string :=
  (GroupID cfg, CallID cfg, SessionID cfg).

(** The specification of an operation: whether it took effect. *)
Definition reg_spec (op : reg_op) (a : registry) : bool * registry :=
  match op with
  | OpAdd cfg conn _ =>
      if is_ok (SessionConfig_IsValid cfg) && bool_decide (conn ≠ None) &&
         bool_decide (cfg_key cfg ∉ a_members a)
      then (true, {| a_members := {[cfg_key cfg]} ∪ a_members a;
                     a_entries := <[SessionID cfg := cfg]> (a_entries a) |})
      else (false, a)
  | OpClose id =>
      match a_entries a !! id with
      | Some cfg => (true, {| a_members := a_members a ∖ {[cfg_key cfg]};
                              a_entries := delete id (a_entries a) |})
      | None => (false, a)
      end
  end.

Fixpoint reg_specs (ops : list reg_op) (a : registry) : list bool * registry :=
  match ops with
  | [] => ([], a)
  | op :: ops =>
      let '(b, a1) := reg_spec op a in
      let '(bs, a2) := reg_specs ops a1 in
      (b :: bs, a2)
  end.

(** The same operations on the world. *)
Definition reg_step (op : reg_op) : go world bool :=
  match op with
  | OpAdd cfg conn cb => r ← addSession cfg conn cb; mret (is_ok r)
  | OpClose id =>
      r ← CloseSession_run id;
      mret (match r with Ok (Some _) => true | _ => false end)
  end.

Fixpoint reg_run (ops : list reg_op) : go world (list bool) :=
  match ops with
  | [] => mret []
  | op :: ops => b ← reg_step op; bs ← reg_run ops; mret (b :: bs)
  end.

Record reg_rep (w : world) (a : registry) : Prop := {
  rr_wf : reg_wf w;
  rr_members : ∀ g c id, (g, c, id) ∈ a_members a ↔ ∃ l, in_call w g c id l;
  rr_entries : srv_sessions (w_server w) = a_entries a;
}.

Lemma unregister_none id Q w :
  reg_wf w → srv_sessions (w_server w) !! id = None →
  (∀ w', reg_wf w' → (∀ g c i l, in_call w' g c i l ↔ in_call w g c i l) →
    srv_sessions (w_server w') = srv_sessions (w_server w) → w_sessions w' = w_sessions w →
    server_chans (w_server w') = server_chans (w_server w) → Q (Ok None) w') →
  wp (CloseSession_run id) Q w.
Proof.
  intros Hw Hn HQ. unfold CloseSession_run. apply wp_bind, wp_unregister; [apply rw_drain, Hw|].
  cbv zeta. rewrite Hn. apply wp_ret. rewrite (delete_id _ _ Hn).
  match goal with |- Q _ ?W => set (w1 := W) end.
  assert (Hs : srv_sessions (w_server w1) = srv_sessions (w_server w)) by done.
  assert (Hg : srv_groups (w_server w1) = srv_groups (w_server w)) by (cbn; by case_bool_decide).
  assert (Ha : ∀ g c x, at_call w1 g c x ↔ at_call w g c x).
  { intros g c x. unfold at_call. by rewrite Hg. }
  assert (Hi : ∀ g c i l, in_call w1 g c i l ↔ in_call w g c i l).
  { intros g c i l. unfold in_call. by setoid_rewrite Ha. }
  apply HQ; [|done|done|done|cbn; by case_bool_decide]. destruct Hw as [W1 W2 W3 W4 W5 W6 W7]. split.
  - rewrite Hg. exact W1.
  - intros g c x Hx. apply Ha in Hx. by apply (W2 g c).
  - intros g c x k i l Hx. apply Ha in Hx. by apply W3.
  - intros g c x k p Hx. apply Ha in Hx. by apply W4 with (g := g) (c := c).
  - rewrite Hs. intros i c Hc. setoid_rewrite Hi. by apply W5.
  - unfold w1. wsimpl. case_bool_decide; [done|]. exact W6.
  - exact W7.
Qed.

(** One operation refines its specification. *)
Lemma reg_step_refines op w a :
  reg_rep w a →
  wp (reg_step op) (λ b w', b = fst (reg_spec op a) ∧ reg_rep w' (snd (reg_spec op a))) w.
Proof.
  intros [Hw Hm He]. destruct op as [cfg conn cb|id]; cbn [reg_step reg_spec].
  - destruct (SessionConfig_IsValid cfg) as [[]|e] eqn:Hv; cbn [is_ok andb].
    2: { apply wp_bind. unfold addSession. rewrite Hv. by apply wp_ret, wp_ret. }
    destruct conn as [conn|].
    2: { rewrite bool_decide_false by auto. apply wp_bind. unfold addSession. rewrite Hv.
         by apply wp_ret, wp_ret. }
    rewrite bool_decide_true by done. cbn [andb].
    apply wp_bind, addSession_spec; [done|done|by eexists| |].
    + intros Hin. apply wp_ret. rewrite bool_decide_false; [done|]. unfold cfg_key. rewrite Hm. auto.
    + intros Hin gl cl us gr call w' Htg Htc Had. apply wp_ret.
      rewrite bool_decide_true by (unfold cfg_key; by rewrite Hm). split; [done|]. cbn [snd]. split; cbn.
      * by eapply added_wf.
      * intros g c id. rewrite elem_of_union, elem_of_singleton, Hm.
        setoid_rewrite (added_in_call cfg (Some conn) cb gl cl us gr call w w'); [|done..].
        unfold cfg_key. split.
        -- intros [[= -> -> ->]|[l Hl]]; [exists us; by left|].
           destruct (decide ((g, c, id) = (GroupID cfg, CallID cfg, SessionID cfg))) as [[= -> -> ->]|Hne];
             [exists us; by left|exists l; by right].
        -- intros [l [(-> & -> & -> & _)|[_ Hl]]]; [by left|right; eauto].
      * by rewrite (ad_entries _ _ _ _ _ _ _ _ _ _ Had), He.
  - apply wp_bind. rewrite <- He. destruct (srv_sessions (w_server w) !! id) as [cfg|] eqn:Hc.
    + eapply CloseSession_run_spec; [done|done|]. intros gl cl us gr call s w' Hp Hmem Hr.
      pose proof (rw_entry _ Hw _ _ Hc) as (Hid & _).
      apply wp_ret. split; [done|]. cbn [snd]. split; cbn.
      * by eapply removed_wf.
      * intros g c i. rewrite elem_of_difference, elem_of_singleton, Hm.
        setoid_rewrite (removed_in_call cfg gl cl us gr call s w w'); [|done..]. unfold cfg_key.
        naive_solver.
      * rewrite (rm_entries _ _ _ _ _ _ _ _ _ Hr). congruence.
    + eapply unregister_none; [done|done|]. intros w' Hw' Hin Hs _ _. apply wp_ret. split; [done|].
      cbn [snd]. split; [done| |congruence]. intros g c i. rewrite Hm. by setoid_rewrite Hin.
Qed.

Lemma reg_run_refines ops w a :
  reg_rep w a →
  wp (reg_run ops) (λ bs w', bs = fst (reg_specs ops a) ∧ reg_rep w' (snd (reg_specs ops a))) w.
Proof.
  revert w a. induction ops as [|op ops IH]; intros w a Hr; cbn [reg_run reg_specs].
  { by apply wp_ret. }
  apply wp_bind. eapply wp_mono; [by apply reg_step_refines|]. intros b w1 [-> Hr1].
  destruct (reg_spec op a) as [b a1]. cbn [fst snd] in *. apply wp_bind.
  eapply wp_mono; [by apply IH|]. intros bs w2 [-> Hr2]. apply wp_ret.
  by destruct (reg_specs ops a1).
Qed.

End closing.

(** A server that holds nothing. *)
Definition empty_registry (w : world) : Prop :=
  srv_groups (w_server w) = ∅ ∧ srv_sessions (w_server w) = ∅ ∧ drainCh (w_server w) = None ∧
  w_groups w = ∅ ∧ w_calls w = ∅ ∧ w_sessions w = ∅.

Lemma empty_registry_rep w :
  empty_registry w → reg_rep w {| a_members := ∅; a_entries := ∅ |}.
Proof.
  intros (H1 & H2 & H3 & H4 & H5 & H6).
  assert (Ha : ∀ g c x, ¬ at_call w g c x).
  { intros g c x (gl & gr & Hg & _). by rewrite H1 in Hg. }
  split; cbn; [split| |done].
  - intros g gl. by rewrite H1.
  - intros g c cl H. by apply Ha in H.
  - intros g c cl k id l H. by apply Ha in H.
  - intros g c cl k p H. by apply Ha in H.
  - intros id cfg. by rewrite H2.
  - intros ch. by rewrite H3.
  - intros l _. by rewrite H4, H5, H6.
  - intros g c id. split; [set_solver|]. intros (l & cl & k & H & _). by apply Ha in H.
Qed.

End registry.

(** ** Interleavings

    A thread runs [InitSession]'s use of the registry, or [CloseSession], one
    locked section (or unlocked lookup) per step; [JoinLookup] is the pair of
    lookups [s.getGroup(..).getCall(..)] that [InitSession] does on the
    session it has just added.  A step that panics crashes the process. *)
Section threads.
  Context {E : Env}.

Inductive thread :=
  | AddStart (cfg : SessionConfig) (conn : option pc)
  | AddInGroup (cfg : SessionConfig) (conn : option pc) (g : loc)
  | AddInCall (cfg : SessionConfig) (conn : option pc) (c : loc)
  | AddRegister (cfg : SessionConfig) (us : loc)
  | JoinLookup (cfg : SessionConfig) (us : loc)
  | Joined (us : loc) (c : option loc)
  | AddRefused
  | CloseStart (id : string)
  | CloseGroup (cfg : SessionConfig)
  | CloseCall (cfg : SessionConfig) (g : option loc)
  | CloseMember (cfg : SessionConfig) (g : loc) (c : option loc)
  | CloseLeave (cfg : SessionConfig) (g c : loc) (us : option loc)
  | CloseChannel (us : loc)
  | CloseConn (us : loc)
  | Closed.

Definition thread_step (t : thread) : go world thread :=
  match t with
  | AddStart cfg conn =>
      if is_ok (SessionConfig_IsValid cfg) && bool_decide (conn ≠ None)
      then g ← add_group cfg; mret (AddInGroup cfg conn g) else mret AddRefused
  | AddInGroup cfg conn g => c ← add_call g cfg; mret (AddInCall cfg conn c)
  | AddInCall cfg conn c =>
      '(us, ok) ← call_addSession c cfg conn false;
      mret (if ok : bool then AddRegister cfg us else AddRefused)
  | AddRegister cfg us => register cfg ;; mret (JoinLookup cfg us)
  | JoinLookup cfg us =>
      g ← getGroup (GroupID cfg); c ← getCall g (CallID cfg); mret (Joined us c)
  | CloseStart id =>
      e ← unregister id; mret (match e with Some cfg => CloseGroup cfg | None => Closed end)
  | CloseGroup cfg =>
      emit (DecRTCSessions (GroupID cfg)) ;;
      g ← getGroup (GroupID cfg); mret (CloseCall cfg g)
  | CloseCall cfg None => mret Closed
  | CloseCall cfg (Some g) => c ← getCall (Some g) (CallID cfg); mret (CloseMember cfg g c)
  | CloseMember cfg g None => mret Closed
  | CloseMember cfg g (Some c) =>
      us ← getSession c (SessionID cfg); mret (CloseLeave cfg g c us)
  | CloseLeave cfg g c None => mret Closed
  | CloseLeave cfg g c (Some us) => leave_call cfg g c us ;; mret (CloseChannel us)
  | CloseChannel us => close_closeCh us ;; mret (CloseConn us)
  | CloseConn us => close_conn us ;; mret Closed
  | Joined _ _ | AddRefused | Closed => mret t
  end.

(** A schedule names the thread that runs next. *)
Fixpoint run_schedule (sched : list nat) (ts : list thread) : go world (list thread) :=
  match sched with
  | [] => mret ts
  | i :: sched =>
      match ts !! i with
      | None => run_schedule sched ts
      | Some t => t' ← thread_step t; run_schedule sched (<[i := t']> ts)
      end
  end.

End threads.

(** Session a is alone in its group; thread 0 adds b, thread 1 closes a in
    between; [k] more steps of thread 0. *)
Definition orphan_race (k : nat) : go (world (E := toy_env)) (list (thread (E := toy_env))) :=
  reg_run [OpAdd (ToyWorld.toy_cfg "a") (ToyWorld.toy_conn 0) true] ;;
  run_schedule ([0; 1; 1; 1; 1; 1; 1; 1] ++ replicate k 0)
    [AddStart (ToyWorld.toy_cfg "b") (ToyWorld.toy_conn 1); CloseStart "a"].

Definition joining {E : Env} (t : thread) : option string :=
  match t with JoinLookup cfg _ => Some (SessionID cfg) | _ => None end.

(** ** Properties *)

(** C1: the registry refines its specification.  Starting from a server that
    holds nothing, any sequence of [addSession] and [CloseSession] calls runs
    without a panic, reports what the set-of-sessions specification reports,
    and ends in a well-formed state (no empty group or call, every session
    under its own identifiers, every entry pointing at a member) that holds
    exactly the sessions of the specification. *)
Theorem registry_refines {E : Env} `{!PionLaws env_pion} ops w :
  empty_registry w →
  ∃ w', reg_run ops w = Some (fst (reg_specs ops {| a_members := ∅; a_entries := ∅ |}), w') ∧
    reg_rep w' (snd (reg_specs ops {| a_members := ∅; a_entries := ∅ |})).
Proof.
  intros Hw. apply empty_registry_rep in Hw.
  destruct (proj1 (wp_inv _ _ _) (reg_run_refines ops w _ Hw)) as (bs & w' & Hrun & -> & Hr). eauto.
Qed.

(** Closing a registered session in a well-formed state takes out exactly
    that session: it runs without a panic up to the wait for [doneCh], closes
    the session's [closeCh], leaves every other session in its place, removes
    the call and the group when they become empty, takes one off the gauge of
    sessions and one off the gauge of tracks per track it was sent, and closes
    the drain channel when it was the last entry. *)
Theorem close_session_spec {E : Env} `{!PionLaws env_pion} id cfg w :
  reg_wf w → srv_sessions (w_server w) !! id = Some cfg →
  ∃ us s w', w_sessions w !! us = Some s ∧ in_call w (GroupID cfg) (CallID cfg) id us ∧
    CloseSession_run id w = Some (Ok (Some us), w') ∧ reg_wf w' ∧
    (∀ g c i l, in_call w' g c i l ↔
      in_call w g c i l ∧ (g, c, i) ≠ (GroupID cfg, CallID cfg, id)) ∧
    srv_sessions (w_server w') = delete id (srv_sessions (w_server w)) ∧
    (∃ s', w_sessions w' !! us = Some s' ∧ closeCh s' = true) ∧
    w_metrics w' = w_metrics w ++ DecRTCSessions (GroupID cfg) :: dec_tracks s ∧
    (∀ ch, drainCh (w_server w) = Some ch → delete id (srv_sessions (w_server w)) = ∅ →
      ch ∈ w_drained w').
Proof.
  intros Hw He. pose proof (rw_entry _ Hw _ _ He) as (Hid & _).
  assert (Hwp : wp (CloseSession_run id) (λ r w', ∃ gl cl us gr call s, r = Ok (Some us) ∧
    placed cfg gl cl us gr call s w ∧ removed cfg gl cl us gr call s w w') w).
  { apply (CloseSession_run_spec id cfg); [done|done|]. intros gl cl us gr call s w' Hp _ Hr.
    exists gl, cl, us, gr, call, s. done. }
  apply wp_inv in Hwp as (r & w' & Hrun & gl & cl & us & gr & call & s & -> & Hp & Hr).
  exists us, s, w'. split_and!; [apply Hp| |done|by eapply removed_wf| | | | |].
  - exists cl, call. split_and!; [by eapply placed_at_call|apply Hp|rewrite <- Hid; apply Hp].
  - intros g c i l. rewrite <- Hid. by eapply removed_in_call.
  - rewrite <- Hid. apply Hr.
  - destruct (rm_us _ _ _ _ _ _ _ _ _ Hr) as (s' & H1 & H2 & _). eauto.
  - apply Hr.
  - intros ch Hch Hlast. rewrite (rm_drained _ _ _ _ _ _ _ _ _ Hr), Hid, bool_decide_true, Hch by done.
    cbn. set_solver.
Qed.

(** Two sessions of one call, added to an empty server. *)
Lemma two_sessions :
  ∃ w, reg_run (E := toy_env) [OpAdd (ToyWorld.toy_cfg "a") (ToyWorld.toy_conn 0) true;
      OpAdd (ToyWorld.toy_cfg "b") (ToyWorld.toy_conn 1) true] ToyWorld.nothing =
      Some ([true; true], w) ∧
    reg_wf w ∧ srv_sessions (w_server w) !! "a"%string = Some (ToyWorld.toy_cfg "a").
Proof.
  assert (Hw : empty_registry ToyWorld.nothing) by (repeat split).
  apply empty_registry_rep in Hw.
  destruct (proj1 (wp_inv _ _ _) (@reg_run_refines toy_env Toy.toy_laws
    [OpAdd (ToyWorld.toy_cfg "a") (ToyWorld.toy_conn 0) true;
     OpAdd (ToyWorld.toy_cfg "b") (ToyWorld.toy_conn 1) true] ToyWorld.nothing _ Hw))
    as (bs & w & Hrun & -> & Hr).
  exists w. split_and!; [rewrite Hrun; f_equal|apply Hr|].
  rewrite (rr_entries _ _ Hr). vm_compute. reflexivity.
Qed.

Lemma close_session_spec_witness :
  ∃ w us w', reg_run (E := toy_env) [OpAdd (ToyWorld.toy_cfg "a") (ToyWorld.toy_conn 0) true;
      OpAdd (ToyWorld.toy_cfg "b") (ToyWorld.toy_conn 1) true] ToyWorld.nothing =
      Some ([true; true], w) ∧
    CloseSession_run "a" w = Some (Ok (Some us), w') ∧ reg_wf w'.
Proof.
  destruct two_sessions as (w & Hrun & Hwf & He).
  destruct (close_session_spec (E := toy_env) (PionLaws0 := Toy.toy_laws) "a"
    (ToyWorld.toy_cfg "a") w Hwf He) as (us & s & w' & _ & _ & H & Hwf' & _).
  exists w, us, w'. auto.
Defined.

(** Session identifiers are meant to be unique, but only a call checks
    them.  Adding the same identifier to two calls succeeds twice, and after
    the identifier is closed the session of the first call is still a member
    of it, while the server has no entry for it: closing the identifier again
    does nothing. *)
Theorem session_id_collision_orphans {E : Env} `{!PionLaws env_pion} c1 c2 conn1 conn2 cb w :
  empty_registry w → SessionConfig_IsValid c1 = Ok tt → SessionConfig_IsValid c2 = Ok tt →
  SessionID c1 = SessionID c2 → (GroupID c1, CallID c1) ≠ (GroupID c2, CallID c2) →
  conn1 ≠ None → conn2 ≠ None →
  ∃ w', reg_run [OpAdd c1 conn1 cb; OpAdd c2 conn2 cb; OpClose (SessionID c1); OpClose (SessionID c1)] w =
      Some ([true; true; true; false], w') ∧
    (∃ l, in_call w' (GroupID c1) (CallID c1) (SessionID c1) l) ∧
    srv_sessions (w_server w') !! SessionID c1 = None.
Proof.
  intros Hw V1 V2 Hid Hne Hconn1 Hconn2. apply empty_registry_rep in Hw.
  destruct (proj1 (wp_inv _ _ _) (reg_run_refines [OpAdd c1 conn1 cb; OpAdd c2 conn2 cb;
    OpClose (SessionID c1); OpClose (SessionID c1)] w _ Hw)) as (bs & w' & Hrun & -> & Hr).
  assert (Hk : cfg_key c2 ≠ cfg_key c1) by (unfold cfg_key; congruence).
  assert (Hspec : reg_specs [OpAdd c1 conn1 cb; OpAdd c2 conn2 cb; OpClose (SessionID c1);
    OpClose (SessionID c1)] {| a_members := ∅; a_entries := ∅ |} =
    ([true; true; true; false],
     {| a_members := ({[cfg_key c2]} ∪ ({[cfg_key c1]} ∪ ∅)) ∖ {[cfg_key c2]};
        a_entries := delete (SessionID c1) (<[SessionID c2 := c2]> (<[SessionID c1 := c1]> ∅)) |})).
  { unfold reg_specs, reg_spec. rewrite V1, V2. cbn [is_ok andb].
    rewrite (bool_decide_true (conn1 ≠ None)), (bool_decide_true (conn2 ≠ None)) by done. cbn [andb].
    rewrite (bool_decide_true (cfg_key c1 ∉ _)) by set_solver. cbn [a_members a_entries].
    rewrite (bool_decide_true (cfg_key c2 ∉ _)) by set_solver. cbn [a_members a_entries].
    rewrite Hid, lookup_insert_eq. cbn [a_entries]. by rewrite lookup_delete_eq. }
  rewrite Hspec in Hrun, Hr. exists w'. split; [exact Hrun|]. destruct Hr as [_ Hm He]. split.
  - apply Hm. cbn [snd a_members]. change (GroupID c1, CallID c1, SessionID c1) with (cfg_key c1).
    set_solver.
  - rewrite He. cbn [snd a_entries]. apply lookup_delete_eq.
Qed.

Lemma session_id_collision_orphans_witness :
  ∃ w', reg_run (E := toy_env)
    [OpAdd (ToyWorld.toy_cfg "a") (ToyWorld.toy_conn 0) true;
     OpAdd (ToyWorld.toy_cfg_in "other" "a") (ToyWorld.toy_conn 1) true;
     OpClose "a"; OpClose "a"] ToyWorld.nothing = Some ([true; true; true; false], w') ∧
    (∃ l, in_call w' "group" "call" "a" l) ∧ srv_sessions (w_server w') !! "a"%string = None.
Proof.
  apply (session_id_collision_orphans (E := toy_env) (PionLaws0 := Toy.toy_laws)
    (ToyWorld.toy_cfg "a") (ToyWorld.toy_cfg_in "other" "a")); try reflexivity.
  all: first [discriminate|repeat split].
Defined.

(** A session can join a call that no longer exists.  While a thread that
    adds session [b] is between the server's lock and the group's lock,
    closing the only other session of the group deletes the group from the
    server; [b] is then added to the orphaned group and registered, and the
    lookup [InitSession] does next dereferences nil: the process panics. *)
Theorem join_of_closed_group_panics :
  ('(ts, _) ← orphan_race 3 ToyWorld.nothing;
   t ← (ts : list (thread (E := toy_env))) !! 0; joining (E := toy_env) t) = Some "b"%string ∧
  orphan_race 4 ToyWorld.nothing = None.
Proof.
  split; [vm_compute; reflexivity|].
  vm_cast_no_check (eq_refl (@None (list (thread (E := toy_env)) * world (E := toy_env)))).
Qed.

Lemma registry_refines_witness :
  ∃ w', reg_run (E := toy_env) [OpAdd (ToyWorld.toy_cfg "a") (ToyWorld.toy_conn 0) true;
    OpAdd (ToyWorld.toy_cfg "b") (ToyWorld.toy_conn 1) true;
    OpAdd (ToyWorld.toy_cfg "a") (ToyWorld.toy_conn 2) true;
    OpClose "a"; OpClose "a"] ToyWorld.nothing = Some ([true; true; false; true; false], w').
Proof.
  destruct (registry_refines (E := toy_env) (PionLaws0 := Toy.toy_laws)
    [OpAdd (ToyWorld.toy_cfg "a") (ToyWorld.toy_conn 0) true;
     OpAdd (ToyWorld.toy_cfg "b") (ToyWorld.toy_conn 1) true;
     OpAdd (ToyWorld.toy_cfg "a") (ToyWorld.toy_conn 2) true;
     OpClose "a"; OpClose "a"] ToyWorld.nothing) as (w' & Hrun & _).
  - repeat split.
  - exists w'. rewrite Hrun. f_equal.
Defined.

