(* ===== verification/Server.v ===== *)
(** * Server: the RTC server and the messages it reads
    (service/rtc/server.go)

    [handle_message] is one iteration of the loop of [msgReader];
    [handleDCMessage] what a data channel message does.  [Start] takes what
    the system answers as arguments: the interfaces, the public address found
    for a local one, and the listeners; [Stop] takes the results of closing
    the muxes, and [between] is what happens while it waits for the drain
    channel. *)
From S2P Require Import Prelude GoText RtcConfig Utils Vad Rate Dc Pion World Call Session Registry.

Definition receiveMTU : Z := 1460.
Definition signalingTimeout : Z := (10 * second)%Z.

(** [int(sdp.Type)]. *)
Definition sdp_num (t : sdp_type) : Z :=
  match t with
  | SDPUnknown => 0 | SDPOffer => 1 | SDPPranswer => 2 | SDPAnswer => 3 | SDPRollback => 4
  end.

Section server.
  Context {E : Env}.

(** ** Definitions *)

(** [log] and [metrics] say whether the arguments are not nil. *)
Definition NewServer (is_ip : string → bool) (cfg : ServerConfig) (log metrics : bool) :
    result server :=
  _ ← ServerConfig_IsValid is_ip cfg;
  _ ← guard_err (negb log) "log should not be nil";
  _ ← guard_err (negb metrics) "metrics should not be nil";
  Ok {| srv_cfg := cfg; srv_groups := ∅; srv_sessions := ∅; publicAddrsMap := ∅; localIPs := [];
        sendCh := make_chan msgChSize; receiveCh := make_chan msgChSize; drainCh := None;
        udpMux := []; tcpMux := None |}.

Definition Send (msg : Message) : go world (result unit) :=
  v ← gets w_server;
  ok ← send_on msg (sendCh v) (λ ch, upd_server (set_sendCh (λ _, ch)));
  mret (if ok : bool then Ok tt else Err (EText "failed to send rtc message, channel is full")).

Definition handleIncomingSDP (us : loc) (answerCh : out_ch) (data : string) :
    go world (result unit) :=
  match json_Unmarshal_sdp data with
  | Err e => mret (Err (EWrap "failed to unmarshal sdp" e))
  | Ok d =>
      s ← get_session us;
      match sdp_Type d with
      | SDPOffer =>
          ok ← send_on {| o_sdp := d; o_answerCh := answerCh |} (sdpOfferInCh s)
                 (λ ch, upd_session us (set_sdpOfferInCh (λ _, ch)));
          mret (if ok : bool then Ok tt else Err (EText "failed to send sdp offer: channel is full"))
      | SDPAnswer =>
          ok ← send_on d (sdpAnswerInCh s) (λ ch, upd_session us (set_sdpAnswerInCh (λ _, ch)));
          mret (if ok : bool then Ok tt else Err (EText "failed to send sdp answer: channel is full"))
      | ty => mret (Err (EText ("unexpected sdp type: " +:+ Itoa (sdp_num ty))))
      end
  end.

(** The branches of the [switch] in [msgReader]. *)
Definition handle_ice (us : loc) (data : string) : go world unit :=
  s ← get_session us;
  _ ← send_on data (iceInCh s) (λ ch, upd_session us (set_iceInCh (λ _, ch)));
  mret tt.

Definition handle_screen_on (c us : loc) (data : string) : go world unit :=
  match json_Unmarshal_strings data with
  | Err _ => mret tt
  | Ok m =>
      upd_session us (set_screenStreamID (λ _, default str0 (m !! "screenStreamID"%string))) ;;
      _ ← setScreenSession c us;
      mret tt
  end.

Definition handle_mute (us : loc) (enabled : bool) : go world unit :=
  s ← get_session us;
  match outVoiceTrack s with
  | None => mret tt
  | Some _ =>
      when (negb enabled) (vad_reset us) ;;
      upd_session us (set_outVoiceTrackEnabled (λ _, enabled))
  end.

Definition dispatch (c us : loc) (msg : Message) : go world unit :=
  let ty := m_Type msg in
  if bool_decide (ty = ICEMessage) then handle_ice us (m_Data msg)
  else if bool_decide (ty = SDPMessage) then
    _ ← handleIncomingSDP us ToReceiveCh (m_Data msg); mret tt
  else if bool_decide (ty = ScreenOnMessage) then handle_screen_on c us (m_Data msg)
  else if bool_decide (ty = ScreenOffMessage) then _ ← clearScreenState c (Some us); mret tt
  else if bool_decide (ty = MuteMessage) || bool_decide (ty = UnmuteMessage) then
    handle_mute us (bool_decide (ty = UnmuteMessage))
  else mret tt.

(** One message of [msgReader]; every early [continue] is [mret tt]. *)
Definition handle_message (msg : Message) : go world unit :=
  match Message_IsValid msg with
  | Err _ => mret tt
  | Ok _ =>
      v ← gets w_server;
      match srv_sessions v !! m_SessionID msg with
      | None => mret tt
      | Some cfg =>
          g ← getGroup (GroupID cfg);
          match g with
          | None => mret tt
          | Some _ =>
              c ← getCall g (CallID cfg);
              match c with
              | None => mret tt
              | Some cl =>
                  us ← getSession cl (SessionID cfg);
                  match us with None => mret tt | Some us => dispatch cl us msg end
              end
          end
      end
  end.

(** [msgReader] on the messages waiting in [sendCh]. *)
Fixpoint msgReader (msgs : list Message) : go world unit :=
  match msgs with
  | [] => mret tt
  | msg :: msgs =>
      upd_server (set_sendCh (λ ch, Chan (ch_cap ch) (tail (ch_buf ch)) (ch_closed ch))) ;;
      handle_message msg ;; msgReader msgs
  end.

(** The payload's type is asserted: a payload of another type would panic. *)
Definition handle_dc_payload (us : loc) (ch : dchan) (mt : Z) (p : payload) :
    go world (result unit) :=
  s ← get_session us;
  let g := GroupID (s_cfg s) in
  let observe (m : Z → metric) : go world (result unit) :=
    match p with FloatPayload f => emit (m f) ;; mret (Ok tt) | _ => panic end in
  if bool_decide (mt = MessageTypePong) then mret (Ok tt)
  else if bool_decide (mt = MessageTypePing) then
    m ← deref (EncodeMessage MessageTypePong NoPayload);
    match m with
    | Err e => mret (Err (EWrap "failed to encode pong message" e))
    | Ok data => r ← lib (dc_Send ch data); mret (wrap_err "failed to send pong message" r)
    end
  else if bool_decide (mt = MessageTypeSDP) then
    match p with
    | BytesPayload d =>
        r ← handleIncomingSDP us (ToDcSDPCh us) d;
        mret (wrap_err "failed to handle incoming sdp message" r)
    | _ => panic
    end
  else if bool_decide (mt = MessageTypeLossRate) then observe (ObserveRTCClientLossRate g)
  else if bool_decide (mt = MessageTypeRoundTripTime) then observe (ObserveRTCClientRTT g)
  else if bool_decide (mt = MessageTypeJitter) then observe (ObserveRTCClientJitter g)
  else mret (Ok tt).

Definition handleDCMessage (data : string) (us : loc) (ch : dchan) : go world (result unit) :=
  match DecodeMessage data with
  | Err e => mret (Err (EWrap "failed to decode DC message" e))
  | Ok (mt, p) => handle_dc_payload us ch mt p
  end.

(** ** Starting and stopping *)
Definition set_port_override (o : string) (c : ServerConfig) : ServerConfig := {|
  ICEAddressUDP := ICEAddressUDP c; ICEPortUDP := ICEPortUDP c;
  ICEAddressTCP := ICEAddressTCP c; ICEPortTCP := ICEPortTCP c;
  ICEHostOverride := ICEHostOverride c; ICEHostPortOverride := o;
  cfgICEServers := cfgICEServers c; cfgTURNConfig := cfgTURNConfig c;
  EnableIPv6 := EnableIPv6 c; UDPSocketsCount := UDPSocketsCount c |}.

(** The override [Start] leaves in the configuration: the port mapped to the
    first local address that has one. *)
Definition start_override (ips : list Addr) (o : string) : string :=
  match ParseMap (Some o) with
  | Ok m =>
      match list_find (λ ip, is_Some (m !! addr_String ip)) ips with
      | Some (_, ip) => match m !! addr_String ip with Some port => Itoa port | None => o end
      | None => o
      end
  | Err _ => o
  end.

(** The public addresses [Start] records: a local address that does not
    resolve is skipped, one whose public address is not found maps to the
    empty string. *)
Definition start_public (resolve : Addr → result unit) (public : Addr → result string)
    (ips : list Addr) (m : gmap Addr string) : gmap Addr string :=
  fold_left (λ m ip,
    match resolve ip with
    | Err _ => m
    | Ok _ => <[ip := match public ip with Ok a => a | Err _ => str0 end]> m
    end) ips m.

(** The addresses [initUDP] listens on: the configured one, or every local
    address. *)
Definition udp_addresses (join : string → Z → string) (addr_port : Addr → Z → string)
    (c : ServerConfig) (ips : list Addr) : list string :=
  if bool_decide (ICEAddressUDP c = str0)
  then (λ ip, addr_port ip (wrap_uint 16 (ICEPortUDP c))) <$> ips
  else [join (ICEAddressUDP c) (ICEPortUDP c)].

(** Opening the muxes stops at the first address that fails; nothing is
    recorded then. *)
Fixpoint open_all (open : string → result unit) (addrs : list string) : result unit :=
  match addrs with
  | [] => Ok tt
  | a :: addrs => _ ← open a; open_all open addrs
  end.

Definition Start (interfaces : result (list (bool * option (list (option Addr)))))
    (resolve : Addr → result unit) (public : Addr → result string)
    (join : string → Z → string) (addr_port : Addr → Z → string)
    (open_udp open_tcp : string → result unit) : go world (result unit) :=
  v ← gets w_server;
  let c := srv_cfg v in
  match getSystemIPs (EnableIPv6 c) interfaces with
  | Err e => mret (Err (EWrap "failed to get system IPs" e))
  | Ok [] => mret (Err (EText "no valid address to listen on was found"))
  | Ok ips =>
      upd_server (set_localIPs (λ _, ips)) ;;
      upd_server (set_srv_cfg (set_port_override (start_override ips (ICEHostPortOverride c)))) ;;
      when (bool_decide (ICEHostOverride c = str0) && non_empty (cfgICEServers c))
        (upd_server (set_publicAddrsMap (start_public resolve public ips))) ;;
      match open_all open_udp (udp_addresses join addr_port c ips) with
      | Err e => mret (Err e)
      | Ok _ =>
          upd_server (set_udpMux (λ _, udp_addresses join addr_port c ips)) ;;
          let tcp := join (ICEAddressTCP c) (ICEPortTCP c) in
          match open_tcp tcp with
          | Err e => mret (Err (EWrap "failed to create TCP listener" e))
          | Ok _ => upd_server (set_tcpMux (λ _, Some tcp)) ;; mret (Ok tt)
          end
      end
  end.

(** The first section of [Stop]: the drain channel, when sessions are left. *)
Definition Stop_begin : go world (option loc) :=
  v ← gets w_server;
  if bool_decide (srv_sessions v = ∅) then mret None
  else
    ch ← alloc_chan;
    upd_server (set_drainCh (λ _, Some ch)) ;;
    mret (Some ch).

Definition close_server_chans : go world unit :=
  v ← gets w_server;
  recv ← deref (close_chan (receiveCh v));
  upd_server (set_receiveCh (λ _, recv)) ;;
  snd ← deref (close_chan (sendCh v));
  upd_server (set_sendCh (λ _, snd)).

Definition Stop_end (tcp udp : result unit) : go world (result unit) :=
  close_server_chans ;;
  v ← gets w_server;
  mret (_ ← match tcpMux v with None => Ok tt | Some _ => wrap_err "failed to close tcp mux" tcp end;
        match udpMux v with [] => Ok tt | _ => wrap_err "failed to close udp mux" udp end).

(** [None]: still waiting for the sessions to leave. *)
Definition Stop (between : go world unit) (tcp udp : result unit) : go world (option (result unit)) :=
  ch ← Stop_begin;
  match ch with
  | None => r ← Stop_end tcp udp; mret (Some r)
  | Some ch =>
      between ;;
      drained ← gets w_drained;
      if bool_decide (ch ∈ drained) then r ← Stop_end tcp udp; mret (Some r) else mret None
  end.

(** ** Reading messages *)

(** A non-blocking send on a channel of a session. *)
Lemma wp_send_session {A} l s (v : A) (get : session → chan A)
    (put : (chan A → chan A) → session → session) Q w :
  w_sessions w !! l = Some s → ch_closed (get s) = false → put (λ _, get s) s = s →
  (∀ b : bool, (b = true → ch_buf (push v (get s)) = ch_buf (get s) ++ [v]) →
    Q b (set_w_sessions (<[l := put (λ _, push v (get s)) s]>) w)) →
  wp (send_on v (get s) (λ ch, upd_session l (put (λ _, ch)))) Q w.
Proof.
  intros Hs Ho Hid HQ. unfold send_on.
  destruct (try_send_push v (get s) Ho) as [[-> Hb]|(-> & Hp & _)].
  - apply wp_bind. eapply wp_upd_session; [done|]. by apply wp_ret, HQ.
  - apply wp_ret. specialize (HQ false ltac:(done)). revert HQ. rewrite Hp, Hid.
    unfold set_w_sessions. rewrite insert_id by done. by destruct w.
Qed.

(** The session at [us] replaced. *)
Definition put_session (us : loc) (s : session) (w : world) : world :=
  set_w_sessions (<[us := s]>) w.

Lemma put_session_id us s w : w_sessions w !! us = Some s → put_session us s w = w.
Proof. intros Hs. unfold put_session, set_w_sessions. rewrite insert_id by done. by destruct w. Qed.

(** What an SDP message does to a session: an offer and an answer go to the
    queue of their kind, anything else is dropped. *)
Definition sdp_routed (o : out_ch) (data : string) (s : session) : session :=
  match json_Unmarshal_sdp data with
  | Ok d =>
      match sdp_Type d with
      | SDPOffer => set_sdpOfferInCh (push {| o_sdp := d; o_answerCh := o |}) s
      | SDPAnswer => set_sdpAnswerInCh (push d) s
      | _ => s
      end
  | Err _ => s
  end.

Lemma handleIncomingSDP_spec us o data s Q w :
  w_sessions w !! us = Some s → session_wf s →
  (∀ r, Q r (put_session us (sdp_routed o data s) w)) → wp (handleIncomingSDP us o data) Q w.
Proof.
  intros Hs Hwf HQ. unfold handleIncomingSDP, sdp_routed in *.
  pose proof (put_session_id us s w Hs) as Hid.
  destruct (json_Unmarshal_sdp data) as [d|e]; [|apply wp_ret; by rewrite <- Hid].
  apply wp_bind. eapply wp_get_session; [done|].
  destruct (sdp_Type d); try (apply wp_ret; by rewrite <- Hid); apply wp_bind.
  - eapply (wp_send_session _ _ _ sdpOfferInCh set_sdpOfferInCh);
      [done|apply Hwf|by destruct s|]. intros b _. apply wp_ret, HQ.
  - eapply (wp_send_session _ _ _ sdpAnswerInCh set_sdpAnswerInCh);
      [done|apply Hwf|by destruct s|]. intros b _. apply wp_ret, HQ.
Qed.

Lemma handle_ice_spec us data s Q w :
  w_sessions w !! us = Some s → session_wf s →
  Q tt (put_session us (set_iceInCh (push data) s) w) → wp (handle_ice us data) Q w.
Proof.
  intros Hs Hwf HQ. unfold handle_ice. apply wp_bind. eapply wp_get_session; [done|]. apply wp_bind.
  eapply (wp_send_session _ _ _ iceInCh set_iceInCh); [done|apply Hwf|by destruct s|].
  intros b _. by apply wp_ret.
Qed.

(** The lookups of [msgReader] find a registered session. *)
Lemma handle_message_dispatch msg gl cl us gr call s cfg Q w :
  Message_IsValid msg = Ok tt → srv_sessions (w_server w) !! m_SessionID msg = Some cfg →
  placed cfg gl cl us gr call s w → wp (dispatch cl us msg) Q w → wp (handle_message msg) Q w.
Proof.
  intros Hv He [P1 P2 P3 P4 P5 P6 P7] HQ. unfold handle_message. rewrite Hv. apply wp_bind, wp_gets. rewrite He.
  apply wp_bind. unfold getGroup. apply wp_gets. rewrite P1.
  apply wp_bind. unfold getCall. apply wp_bind. eapply wp_deref; [done|]. apply wp_bind.
  eapply wp_get_group; [done|]. apply wp_ret. rewrite P3.
  apply wp_bind. unfold getSession. apply wp_bind. eapply wp_get_call; [done|]. apply wp_ret.
  by rewrite P5.
Qed.

Lemma handle_message_dropped msg w :
  Message_IsValid msg ≠ Ok tt ∨ srv_sessions (w_server w) !! m_SessionID msg = None →
  handle_message msg w = Some (tt, w).
Proof.
  intros H. unfold handle_message. destruct (Message_IsValid msg) as [[]|e]; [|done].
  destruct H as [|H]; [done|]. unfold mbind, go_bind, gets. by rewrite H.
Qed.

(** What muting does: the voice track stops being forwarded, and the voice
    monitor starts over, announcing that the voice is off. *)
Definition muted (us : loc) (s : session) (w : world) : world :=
  match vadMonitor s with
  | None => put_session us (set_outVoiceTrackEnabled (λ _, false) s) w
  | Some m =>
      set_w_server (set_receiveCh (push (newMessage (s_cfg s) VoiceOffMessage str0)))
        (put_session us (set_outVoiceTrackEnabled (λ _, false)
          (set_vadMonitor (λ _, Some (fst (Reset m))) s)) w)
  end.

Lemma wp_send_receive m Q w :
  ch_closed (receiveCh (w_server w)) = false →
  (∀ b, Q b (set_w_server (set_receiveCh (push m)) w)) → wp (send_out ToReceiveCh m) Q w.
Proof.
  intros Ho HQ. unfold send_out, send_on. apply wp_bind, wp_gets.
  destruct (try_send_push m (receiveCh (w_server w)) Ho) as [[-> _]|(-> & Hp & _)].
  - apply wp_bind, wp_modify, wp_ret, HQ.
  - apply wp_ret. specialize (HQ false). revert HQ. unfold set_w_server, set_receiveCh. rewrite Hp.
    destruct w as [[] ? ? ? ? ? ? ? ?]. auto.
Qed.

Lemma handle_mute_off us s t Q w :
  w_sessions w !! us = Some s → outVoiceTrack s = Some t →
  ch_closed (receiveCh (w_server w)) = false →
  Q tt (muted us s w) → wp (handle_mute us false) Q w.
Proof.
  intros Hs Ht Ho HQ. unfold handle_mute, muted in *. apply wp_bind. eapply wp_get_session; [done|].
  rewrite Ht. unfold when, negb. apply wp_bind. unfold vad_reset. apply wp_bind.
  eapply wp_get_session; [done|]. destruct (vadMonitor s) as [m|].
  - apply wp_bind. eapply wp_upd_session; [done|]. unfold call_vad, Reset, vad_callback.
    cbn [Datatypes.snd]. apply wp_bind. eapply wp_get_session; [wsimpl; apply lookup_insert_eq|].
    apply wp_bind, wp_send_receive; [done|]. intros _. apply wp_ret.
    eapply wp_upd_session; [wsimpl; apply lookup_insert_eq|]. unfold put_session in HQ.
    unfold set_w_sessions, set_w_server in *. wsimpl. rewrite insert_insert_eq. exact HQ.
  - apply wp_ret. by eapply wp_upd_session.
Qed.

Lemma handle_mute_on us s t Q w :
  w_sessions w !! us = Some s → outVoiceTrack s = Some t →
  Q tt (put_session us (set_outVoiceTrackEnabled (λ _, true) s) w) → wp (handle_mute us true) Q w.
Proof.
  intros Hs Ht HQ. unfold handle_mute. apply wp_bind. eapply wp_get_session; [done|].
  rewrite Ht. unfold when, negb. apply wp_bind, wp_ret. by eapply wp_upd_session.
Qed.

(** ** Data channel messages *)

(** What a decoded message may do: nothing, one metric, an offer or an answer
    queued, or a reply sent. *)
Definition dc_effect (us : loc) (s : session) (ch : dchan) (mt : Z) (p : payload) (w w' : world) : Prop :=
  match p with
  | NoPayload => w' = w ∨ ∃ pong, EncodeMessage MessageTypePong NoPayload = Some (Ok pong) ∧
      w' = set_w_rtc (λ r, (dc_Send ch pong r).2) w ∧ mt = MessageTypePing
  | BytesPayload d => mt = MessageTypeSDP ∧ w' = put_session us (sdp_routed (ToDcSDPCh us) d s) w
  | MessageSDP _ => False
  | FloatPayload f => ∃ m, w' = set_w_metrics (λ l, l ++ [m]) w ∧
      (mt = MessageTypeLossRate ∧ m = ObserveRTCClientLossRate (GroupID (s_cfg s)) f ∨
       mt = MessageTypeRoundTripTime ∧ m = ObserveRTCClientRTT (GroupID (s_cfg s)) f ∨
       mt = MessageTypeJitter ∧ m = ObserveRTCClientJitter (GroupID (s_cfg s)) f)
  end.

Lemma handle_dc_payload_spec us s ch mt p data Q w :
  w_sessions w !! us = Some s → session_wf s → DecodeMessage data = Ok (mt, p) →
  (∀ r w', dc_effect us s ch mt p w w' → Q r w') → wp (handle_dc_payload us ch mt p) Q w.
Proof.
  intros Hs Hwf Hd HQ. unfold handle_dc_payload. apply wp_bind. eapply wp_get_session; [done|].
  destruct (DecodeMessage_typed _ _ _ Hd)
    as [[Hmt ->]|[(-> & d & ->)|(Hmt & f & ->)]].
  - destruct Hmt as [-> | ->]; [|by apply wp_ret, HQ; left]. cbn.
    apply wp_bind. eapply wp_deref; [reflexivity|].
    destruct (EncodeUint8 MessageTypePong) as [pong|e] eqn:He; [|by apply wp_ret, HQ; left].
    apply wp_bind, wp_lib. intros r rt Hr. apply wp_ret, HQ. right. exists pong. unfold set_w_rtc. cbn.
    rewrite He, Hr. split_and!; done.
  - cbn. apply wp_bind. eapply handleIncomingSDP_spec; [done..|]. intros r. by apply wp_ret, HQ.
  - destruct Hmt as [->|[->| ->]]; cbn; apply wp_bind, wp_emit, wp_ret, HQ; cbn; eexists;
      (split; [done|]); auto.
Qed.

(** ** Steps that keep the registry *)

(** A session that keeps its identity and stays open. *)
Record keeps (s s' : session) : Prop := {
  kp_cfg : s_cfg s' = s_cfg s;
  kp_call : s_call s' = s_call s;
  kp_close : closeCh s' = closeCh s;
  kp_wf : session_wf s → session_wf s';
}.

(** Calls keep their members; a presenter is one of them. *)
Definition call_keeps (c c' : call) : Prop :=
  c_sessions c' = c_sessions c ∧
  ∀ p, screenSession c' = Some p → screenSession c = Some p ∨ ∃ id, c_sessions c !! id = Some p.

Record reg_same (w w' : world) : Prop := {
  rs_groups : srv_groups (w_server w') = srv_groups (w_server w);
  rs_entries : srv_sessions (w_server w') = srv_sessions (w_server w);
  rs_drain : drainCh (w_server w') = drainCh (w_server w);
  rs_group : w_groups w' = w_groups w;
  rs_drained : w_drained w' = w_drained w;
  rs_next : w_next w' = w_next w;
  rs_sessions : ∀ l, option_Forall2 keeps (w_sessions w !! l) (w_sessions w' !! l);
  rs_calls : ∀ c, option_Forall2 call_keeps (w_calls w !! c) (w_calls w' !! c);
}.

#[export] Instance keeps_preorder : PreOrder keeps.
Proof. split; [by split|]. intros s1 s2 s3 [] []. split; try congruence. auto. Qed.

#[export] Instance call_keeps_preorder : PreOrder call_keeps.
Proof.
  split; [by split; auto|]. intros c1 c2 c3 [H1 H2] [H3 H4]. split; [congruence|].
  intros p Hp. destruct (H4 p Hp) as [|(id & Hid)]; [auto|]. right. exists id. congruence.
Qed.

#[export] Instance reg_same_preorder : PreOrder reg_same.
Proof.
  split.
  - intros w. by split.
  - intros w1 w2 w3 [] []. split; try congruence; intros l; etrans; eauto.
Qed.

Lemma reg_same_wf w w' : reg_same w w' → reg_wf w → reg_wf w'.
Proof.
  intros [Hg He Hd Hgr Hdr Hn Hs Hc] [W1 W2 W3 W4 W5 W6 W7].
  assert (Ha : ∀ g c cl, at_call w' g c cl ↔ at_call w g c cl).
  { intros g c cl. unfold at_call. by rewrite Hg, Hgr. }
  assert (Hcall : ∀ cl call', w_calls w' !! cl = Some call' →
    ∃ call, w_calls w !! cl = Some call ∧ call_keeps call call').
  { intros cl call' H. specialize (Hc cl). rewrite H in Hc. inversion Hc; eauto. }
  assert (Hsess : ∀ l s, w_sessions w !! l = Some s →
    ∃ s', w_sessions w' !! l = Some s' ∧ keeps s s').
  { intros l s H. specialize (Hs l). rewrite H in Hs. inversion Hs; eauto. }
  split.
  - intros g gl. rewrite Hg, Hgr. apply W1.
  - intros g c cl (call & H1 & H2)%Ha%W2. specialize (Hc cl). rewrite H1 in Hc.
    inversion Hc as [? call' [Hk _] Heq|]; subst. exists call'. split; [done|congruence].
  - intros g c cl call' id l H1%Ha (call & H2 & Hk & _)%Hcall H3. rewrite Hk in H3.
    destruct (W3 _ _ _ _ _ _ H1 H2 H3) as (s & H4 & []). destruct (Hsess _ _ H4) as (s' & H5 & []).
    exists s'. split; [done|]. split; try congruence. auto.
  - intros g c cl call' p H1%Ha (call & H2 & Hk & Hp)%Hcall H3. rewrite Hk.
    destruct (Hp p H3) as [H|H]; [by eapply W4|done].
  - intros id cfg. rewrite He. intros (Hid & l & s & (cl & call & H1 & H2 & H3) & H4 & H5)%W5.
    split; [done|]. destruct (Hsess _ _ H4) as (s' & H6 & []). exists l, s'. split_and!; [|done|congruence].
    specialize (Hc cl). rewrite H2 in Hc. inversion Hc as [? call' [Hk _] Heq|]; subst.
    exists cl, call'. split_and!; [by apply Ha|done|congruence].
  - intros ch. rewrite Hd, Hdr. apply W6.
  - intros l. rewrite Hn, Hgr. intros (H1 & H2 & H3)%W7. split_and!; [done| |].
    + specialize (Hc l). rewrite H2 in Hc. by inversion Hc.
    + specialize (Hs l). rewrite H3 in Hs. by inversion Hs.
Qed.

Lemma reg_same_put us s s' w :
  w_sessions w !! us = Some s → keeps s s' → reg_same w (put_session us s' w).
Proof.
  intros Hs Hk. split; try done.
  intros l.
  unfold put_session. wsimpl. destruct (decide (us = l)) as [->|Hne].
  - rewrite Hs, lookup_insert_eq. by constructor.
  - rewrite lookup_insert_ne by done. by destruct (_ !! l); constructor.
Qed.

Lemma reg_same_receive f w : reg_same w (set_w_server (set_receiveCh f) w).
Proof. by split. Qed.

Lemma reg_same_send f w : reg_same w (set_w_server (set_sendCh f) w).
Proof. by split. Qed.

Lemma reg_same_call c cl cl' w :
  w_calls w !! c = Some cl → call_keeps cl cl' → reg_same w (set_w_calls (<[c := cl']>) w).
Proof.
  intros Hc Hk. split; try done.
  intros l. wsimpl. destruct (decide (c = l)) as [->|Hne].
  - rewrite Hc, lookup_insert_eq. by constructor.
  - rewrite lookup_insert_ne by done. by destruct (_ !! l); constructor.
Qed.

Lemma sdp_routed_keeps o data s : keeps s (sdp_routed o data s).
Proof. unfold sdp_routed. destruct (json_Unmarshal_sdp data) as [d|]; [destruct (sdp_Type d)|]; keep. Qed.

Lemma muted_same us s w : w_sessions w !! us = Some s → reg_same w (muted us s w).
Proof.
  intros Hs. unfold muted. destruct (vadMonitor s) as [m|].
  - etrans; [|apply reg_same_receive]. eapply reg_same_put; [done|keep].
  - eapply reg_same_put; [done|keep].
Qed.

Lemma after_clear_same c p cl w :
  w_calls w !! c = Some cl → reg_same w (after_clear c p cl (range (c_sessions cl)) w).
Proof.
  intros Hc. split; try done.
  - intros l. unfold after_clear. wsimpl. rewrite lookup_upd_all.
    destruct (w_sessions w !! l) as [s|]; constructor. case_bool_decide; [|done].
    unfold cleared. case_bool_decide; [keep|]. destruct (screenTrackSender s); [keep|done].
  - intros l. unfold after_clear. wsimpl. case_bool_decide; [|by destruct (_ !! l); constructor].
    destruct (decide (c = l)) as [->|Hne].
    + rewrite Hc, lookup_insert_eq. by constructor.
    + rewrite lookup_insert_ne by done. by destruct (_ !! l); constructor.
Qed.

(** Every message is handled without a panic, and keeps the registry. *)
Lemma dispatch_same msg gl cl us gr call s cfg w :
  reg_wf w → placed cfg gl cl us gr call s w → ch_closed (receiveCh (w_server w)) = false →
  wp (dispatch cl us msg) (λ _ w', reg_same w w' ∧ ch_closed (receiveCh (w_server w')) = false ∧
    sendCh (w_server w') = sendCh (w_server w)) w.
Proof.
  intros Hw Hp Ho. pose proof Hp as [P1 P2 P3 P4 P5 P6 P7].
  assert (Ha : at_call w (GroupID cfg) (CallID cfg) cl) by by exists gl, gr.
  destruct (rw_member _ Hw _ _ _ _ _ _ Ha P4 P5) as (s' & Hs' & Hm). simplify_eq.
  assert (Hput : ∀ s1, keeps s s1 → reg_same w (put_session us s1 w)) by (intros; by eapply reg_same_put).
  unfold dispatch. case_bool_decide; [|case_bool_decide; [|case_bool_decide; [|case_bool_decide]]].
  - eapply handle_ice_spec; [done|apply Hm|]. split_and!; [apply Hput; keep|done|done].
  - apply wp_bind. eapply handleIncomingSDP_spec; [done|apply Hm|]. intros r. apply wp_ret.
    split_and!; [apply Hput, sdp_routed_keeps|done|done].
  - unfold handle_screen_on. destruct (json_Unmarshal_strings (m_Data msg)) as [m|e]; [|by apply wp_ret].
    apply wp_bind. eapply wp_upd_session; [done|]. apply wp_bind. unfold setScreenSession.
    apply wp_bind. eapply wp_get_call; [done|].
    assert (Hstr : reg_same w (put_session us (set_screenStreamID
      (λ _, default str0 (m !! "screenStreamID"%string)) s) w)) by (apply Hput; keep).
    destruct (screenSession call) eqn:Hscr; [by apply wp_ret, wp_ret|].
    apply wp_bind. eapply wp_upd_call; [done|]. apply wp_ret, wp_ret. split_and!; [|done|done].
    etrans; [exact Hstr|]. eapply reg_same_call; [done|]. split; [done|]. intros p [= <-]. eauto.
  - apply wp_bind. destruct (decide (screenSession call = Some us)) as [Hscr|Hscr].
    + eapply clearScreenState_spec; [done..|by eapply members_of_call|]. apply wp_ret.
      split_and!; [by apply after_clear_same|done|done].
    + eapply clearScreenState_refused; [done|by eapply members_of_call| | |by right|].
      * intros p Hpp. destruct (rw_screen _ Hw _ _ _ _ _ Ha P4 Hpp) as [id Hid].
        destruct (rw_member _ Hw _ _ _ _ _ _ Ha P4 Hid) as (s1 & Hs1 & _). eauto.
      * intros p [= <-]. eauto.
      * intros e. by apply wp_ret.
  - destruct (_ || _); [|by apply wp_ret].
    destruct (outVoiceTrack s) as [t|] eqn:Ht.
    2: { unfold handle_mute. apply wp_bind. eapply wp_get_session; [done|]. rewrite Ht. by apply wp_ret. }
    destruct (bool_decide (m_Type msg = UnmuteMessage)).
    + eapply handle_mute_on; [done..|]. split_and!; [apply Hput; keep|done|done].
    + eapply handle_mute_off; [done..|]. split; [by apply muted_same|].
      unfold muted. destruct (vadMonitor s); [|done]. cbn. by rewrite push_closed.
Qed.

Lemma handle_message_same msg w :
  reg_wf w → ch_closed (receiveCh (w_server w)) = false →
  wp (handle_message msg) (λ _ w', reg_same w w' ∧ ch_closed (receiveCh (w_server w')) = false ∧
    sendCh (w_server w') = sendCh (w_server w)) w.
Proof.
  intros Hw Ho.
  destruct (srv_sessions (w_server w) !! m_SessionID msg) as [cfg|] eqn:He.
  2: { apply wp_inv. exists tt, w. split; [|done]. apply handle_message_dropped. by right. }
  destruct (Message_IsValid msg) as [[]|e] eqn:Hv.
  2: { apply wp_inv. exists tt, w. split; [|done]. apply handle_message_dropped. left. by rewrite Hv. }
  destruct (entry_placed _ _ _ Hw He) as (Hid & gl & cl & us & gr & call & s & Hp & Hm).
  eapply handle_message_dispatch; [done..|]. by eapply dispatch_same.
Qed.

Lemma msgReader_same msgs w :
  reg_wf w → ch_closed (receiveCh (w_server w)) = false →
  wp (msgReader msgs) (λ _ w', reg_same w w' ∧ ch_closed (receiveCh (w_server w')) = false ∧
    ch_buf (sendCh (w_server w')) = drop (length msgs) (ch_buf (sendCh (w_server w)))) w.
Proof.
  revert w. induction msgs as [|msg msgs IH]; intros w Hw Ho; cbn [msgReader].
  { by apply wp_ret. }
  apply wp_bind, wp_modify. set (w1 := set_w_server _ w).
  assert (H1 : reg_same w w1) by apply reg_same_send.
  assert (Hw1 : reg_wf w1) by (by eapply reg_same_wf).
  apply wp_bind. eapply wp_mono; [by apply handle_message_same|]. intros _ w2 (H2 & Ho2 & Hs2).
  eapply wp_mono; [apply IH; [by eapply reg_same_wf|done]|]. intros _ w3 (H3 & Ho3 & Hs3).
  split_and!; [by etrans; [|etrans]|done|]. rewrite Hs3, Hs2. cbn [length].
  change (ch_buf (sendCh (w_server w1))) with (tail (ch_buf (sendCh (w_server w)))).
  destruct (ch_buf (sendCh (w_server w))); [|done]. cbn [tail]. by rewrite !drop_nil.
Qed.

(** Membership only depends on the groups and on the members of the calls. *)
Lemma in_call_same w w' g c id l :
  srv_groups (w_server w') = srv_groups (w_server w) → w_groups w' = w_groups w →
  (∀ x, c_sessions <$> w_calls w' !! x = c_sessions <$> w_calls w !! x) →
  in_call w' g c id l ↔ in_call w g c id l.
Proof.
  intros Hg Hgr Hc. unfold in_call, at_call. rewrite Hg, Hgr.
  split; intros (cl & call & Ha & H1 & H2); specialize (Hc cl); rewrite H1 in Hc.
  - destruct (w_calls w !! cl) as [k|] eqn:Hk; [|done]. injection Hc as Hc.
    exists cl, k. split_and!; [done..|congruence].
  - destruct (w_calls w' !! cl) as [k|] eqn:Hk; [|done]. injection Hc as Hc.
    exists cl, k. split_and!; [done..|congruence].
Qed.

Lemma reg_same_in_call w w' g c id l : reg_same w w' → in_call w' g c id l ↔ in_call w g c id l.
Proof.
  intros [Hg _ _ Hgr _ _ _ Hc]. apply in_call_same; [done..|]. intros x. specialize (Hc x).
  inversion Hc as [k k' [Hk _]|]; [|done]. cbn. by rewrite Hk.
Qed.

(** ** Draining *)

(** [CloseSession] of an identifier without an entry changes nothing: either
    sessions are left, or nobody waits. *)
Lemma CloseSession_missing id w :
  srv_sessions (w_server w) !! id = None →
  srv_sessions (w_server w) ≠ ∅ ∨ drainCh (w_server w) = None →
  CloseSession_run id w = Some (Ok None, w).
Proof.
  intros Hn Hd. unfold CloseSession_run, unregister, mbind, go_bind, gets, upd_server, modify, when, mret, go_ret.
  assert (Hs : set_srv_sessions (delete id) (w_server w) = w_server w).
  { unfold set_srv_sessions. rewrite delete_id by done. by destruct (w_server w). }
  unfold set_w_server. cbn [w_server]. rewrite Hs. case_bool_decide as Hleft.
  - destruct Hd as [Hd|Hd]; [done|]. unfold close_drain. wsimpl. rewrite Hd, Hn. by destruct w.
  - rewrite Hn. by destruct w.
Qed.

(** What holds while [Stop] waits on [ch]. *)
Record draining (ch : loc) (chans : chan Message * chan Message) (w : world) : Prop := {
  dr_wf : reg_wf w;
  dr_chans : server_chans (w_server w) = chans;
  dr_ch : if bool_decide (srv_sessions (w_server w) = ∅)
          then drainCh (w_server w) = None ∧ ch ∈ w_drained w
          else drainCh (w_server w) = Some ch;
}.

Lemma draining_close `{!PionLaws env_pion} ch chans id w :
  draining ch chans w →
  wp (reg_step (OpClose id)) (λ _ w', draining ch chans w' ∧
    srv_sessions (w_server w') = delete id (srv_sessions (w_server w))) w.
Proof.
  intros [Hw Hc Hd]. cbn [reg_step]. apply wp_bind.
  destruct (srv_sessions (w_server w) !! id) as [cfg|] eqn:He.
  - eapply CloseSession_run_spec; [done..|]. intros gl cl us gr call s w' Hp Hm Hr. apply wp_ret.
    pose proof (rw_entry _ Hw _ _ He) as (Hid & _).
    pose proof (rm_entries _ _ _ _ _ _ _ _ _ Hr) as Hent. rewrite Hid in Hent. split; [|done].
    split; [by eapply removed_wf|by rewrite (rm_chans _ _ _ _ _ _ _ _ _ Hr)|].
    rewrite (bool_decide_false (srv_sessions (w_server w) = ∅)) in Hd
      by (intros H0; rewrite H0 in He; done).
    rewrite Hent, (rm_drain _ _ _ _ _ _ _ _ _ Hr), (rm_drained _ _ _ _ _ _ _ _ _ Hr), Hid, Hd.
    case_bool_decide; [|done]. split; [done|]. cbn. set_solver.
  - apply wp_inv. exists (Ok None), w. split; [|apply wp_ret; split; [done|by rewrite delete_id]].
    apply CloseSession_missing; [done|]. case_bool_decide; [right; apply Hd|by left].
Qed.

Lemma draining_closes `{!PionLaws env_pion} ch chans ids w :
  draining ch chans w →
  wp (reg_run (OpClose <$> ids)) (λ _ w', draining ch chans w' ∧
    srv_sessions (w_server w') = foldr delete (srv_sessions (w_server w)) (rev ids)) w.
Proof.
  revert w. induction ids as [|id ids IH]; intros w Hw; [by apply wp_ret|].
  cbn [fmap list_fmap reg_run]. apply wp_bind. eapply wp_mono; [by apply draining_close|].
  intros b w1 [Hw1 Hs1]. apply wp_bind. eapply wp_mono; [by apply IH|]. intros bs w2 [Hw2 Hs2].
  apply wp_ret. split; [done|]. cbn [rev]. by rewrite foldr_app, Hs2, Hs1.
Qed.

Lemma foldr_delete_empty {A} (ids : list string) (m : gmap string A) :
  foldr delete m (rev ids) = ∅ ↔ ∀ id, is_Some (m !! id) → id ∈ ids.
Proof.
  assert (Hl : ∀ l id, foldr delete m l !! id = if decide (id ∈ l) then None else m !! id).
  { induction l as [|x l IH]; intros id; [by rewrite decide_False by apply not_elem_of_nil|].
    cbn. destruct (decide (x = id)) as [->|Hne].
    - rewrite lookup_delete_eq, decide_True; [done|set_solver].
    - rewrite lookup_delete_ne, IH by done. do 2 case_decide; set_solver. }
  split.
  - intros H0 id [a Ha]. specialize (Hl (rev ids) id). rewrite H0, lookup_empty in Hl.
    case_decide as Hd; [|congruence].
    by rewrite list_elem_of_In, <- in_rev, <- list_elem_of_In in Hd.
  - intros H. apply map_eq. intros id. rewrite Hl, lookup_empty. case_decide as Hd; [done|].
    destruct (m !! id) eqn:Hm; [|done]. destruct Hd. rewrite list_elem_of_In, <- in_rev, <- list_elem_of_In.
    apply H. eauto.
Qed.

(** [Stop] with sessions left. *)
Lemma Stop_begin_spec Q w :
  reg_wf w → srv_sessions (w_server w) ≠ ∅ → w_next w ∉ w_drained w →
  (∀ w1, draining (w_next w) (server_chans (w_server w)) w1 →
    srv_sessions (w_server w1) = srv_sessions (w_server w) → Q (Some (w_next w)) w1) →
  wp Stop_begin Q w.
Proof.
  intros Hw Hne Hfresh HQ. unfold Stop_begin. apply wp_bind, wp_gets.
  rewrite bool_decide_false by done. unfold alloc_chan. apply wp_bind. unfold wp at 1. apply wp_bind, wp_modify, wp_ret.
  apply HQ; [|done]. split; [|done|].
  - destruct Hw as [W1 W2 W3 W4 W5 W6 W7]. split; try done.
    + intros ch' [= <-]. done.
    + intros l Hl. apply W7. cbn in Hl. lia.
  - cbn. by rewrite bool_decide_false.
Qed.

Lemma close_server_chans_spec Q w :
  ch_closed (receiveCh (w_server w)) = false → ch_closed (sendCh (w_server w)) = false →
  (∀ w', ch_closed (receiveCh (w_server w')) = true → ch_closed (sendCh (w_server w')) = true →
    srv_sessions (w_server w') = srv_sessions (w_server w) → w_sessions w' = w_sessions w →
    Q tt w') →
  wp close_server_chans Q w.
Proof.
  intros H1 H2 HQ. unfold close_server_chans. apply wp_bind, wp_gets.
  apply wp_bind. eapply wp_deref; [unfold close_chan; by rewrite H1|].
  apply wp_bind, wp_modify. apply wp_bind. eapply wp_deref; [unfold close_chan; by rewrite H2|].
  by apply wp_modify, HQ.
Qed.

End server.

(** The world of two sessions is well-formed. *)
Ltac toy := cbn [w_server w_groups w_calls w_sessions srv_groups srv_sessions c_sessions g_calls
  ToyWorld.toy_world ToyWorld.toy_server ToyWorld.toy_call] in *.

Lemma toy_at_call g c cl :
  at_call (E := toy_env) ToyWorld.toy_world g c cl → g = "group"%string ∧ c = "call"%string ∧ cl = 2%positive.
Proof.
  intros (gl & gr & Hg & Hgr & Hc). toy. apply lookup_singleton_Some in Hg as [<- <-].
  apply lookup_singleton_Some in Hgr as [_ <-]. toy. by apply lookup_singleton_Some in Hc as [<- <-].
Qed.

Lemma toy_member id l :
  c_sessions ToyWorld.toy_call !! id = Some l →
  id = "a"%string ∧ l = 3%positive ∨ id = "b"%string ∧ l = 4%positive.
Proof.
  intros Hl. toy. apply lookup_insert_Some in Hl as [[<- <-]|[_ [<- <-]%lookup_singleton_Some]]; auto.
Qed.

Lemma toy_calls cl call :
  w_calls ToyWorld.toy_world !! cl = Some call → cl = 2%positive ∧ call = ToyWorld.toy_call.
Proof.
  intros H. cbn [w_calls ToyWorld.toy_world] in H. by apply lookup_singleton_Some in H as [<- <-].
Qed.

Lemma toy_world_wf : reg_wf (E := toy_env) ToyWorld.toy_world.
Proof.
  assert (Ha : at_call (E := toy_env) ToyWorld.toy_world "group" "call" 2) by (do 2 eexists; done).
  assert (Hin : ∀ id l, c_sessions ToyWorld.toy_call !! id = Some l →
    in_call (E := toy_env) ToyWorld.toy_world "group" "call" id l).
  { intros id l Hl. exists 2%positive, ToyWorld.toy_call. by split_and!. }
  split.
  - intros g gl Hg. toy. apply lookup_singleton_Some in Hg as [<- <-]. eexists. split_and!; [done|done|].
    by intros [=].
  - intros g c cl (-> & -> & ->)%toy_at_call. exists ToyWorld.toy_call. split; [done|]. by intros [=].
  - intros g c cl call id l (-> & -> & ->)%toy_at_call [_ ->]%toy_calls Hl.
    apply toy_member in Hl as [[-> ->]|[-> ->]]; eexists; (split; [done|]); by split; [..|split].
  - by intros g c cl call p _ [_ ->]%toy_calls Hp.
  - intros id cfg He. toy.
    apply lookup_insert_Some in He as [[<- <-]|[_ [<- <-]%lookup_singleton_Some]]; (split; [done|]).
    + exists 3%positive, (ToyWorld.toy_session "a" 0). split_and!; [by apply Hin|done|done].
    + exists 4%positive, (ToyWorld.toy_session "b" 1). split_and!; [by apply Hin|done|done].
  - done.
  - intros l Hl. cbn [w_next ToyWorld.toy_world] in Hl. toy.
    split_and!; rewrite ?lookup_insert_None, ?lookup_singleton_None; [lia|lia|split; lia].
Qed.

(** ** Properties *)

(** C5: the server routes a message to the session it names and to no other.
    In any well-formed state a message that is invalid or names an unknown
    session changes nothing; a candidate is queued on the session's own
    channel, an offer or an answer on the session's queue for its kind (each
    dropped when that queue is full), and a description of another kind, one
    that cannot be decoded, or a message of an unexpected type changes
    nothing. *)
Theorem messages_routed {E : Env} msg w :
  reg_wf w →
  match srv_sessions (w_server w) !! m_SessionID msg, Message_IsValid msg with
  | Some cfg, Ok _ => ∃ us s, in_call w (GroupID cfg) (CallID cfg) (m_SessionID msg) us ∧
      w_sessions w !! us = Some s ∧ s_cfg s = cfg ∧
      (m_Type msg = ICEMessage → handle_message msg w =
         Some (tt, put_session us (set_iceInCh (push (m_Data msg)) s) w)) ∧
      (m_Type msg = SDPMessage → handle_message msg w =
         Some (tt, put_session us (sdp_routed ToReceiveCh (m_Data msg) s) w)) ∧
      ((m_Type msg < 1 ∨ 6 < m_Type msg)%Z → handle_message msg w = Some (tt, w))
  | _, _ => handle_message msg w = Some (tt, w)
  end.
Proof.
  intros Hw. destruct (srv_sessions (w_server w) !! m_SessionID msg) as [cfg|] eqn:He;
    [|by apply handle_message_dropped; right].
  destruct (Message_IsValid msg) as [[]|e] eqn:Hv; [|by apply handle_message_dropped; left; rewrite Hv].
  destruct (entry_placed _ _ _ Hw He) as (Hid & gl & cl & us & gr & call & s & Hp & Hm).
  pose proof Hp as [P1 P2 P3 P4 P5 P6 P7]. exists us, s. split_and!; try done.
  { exists cl, call. rewrite <- Hid. split_and!; [by exists gl, gr|done|done]. }
  all: intros Hty.
  - assert (H : wp (handle_message msg) (λ _ w', w' = put_session us (set_iceInCh (push (m_Data msg)) s) w) w).
    { eapply handle_message_dispatch; [done..|]. unfold dispatch. rewrite Hty.
      eapply handle_ice_spec; [done|apply Hm|done]. }
    by apply wp_inv in H as ([] & w' & Hrun & ->).
  - assert (H : wp (handle_message msg)
      (λ _ w', w' = put_session us (sdp_routed ToReceiveCh (m_Data msg) s) w) w).
    { eapply handle_message_dispatch; [done..|]. unfold dispatch. rewrite Hty. apply wp_bind.
      eapply handleIncomingSDP_spec; [done|apply Hm|]. intros r. by apply wp_ret. }
    by apply wp_inv in H as ([] & w' & Hrun & ->).
  - assert (H : wp (handle_message msg) (λ _ w', w' = w) w).
    { eapply handle_message_dispatch; [done..|]. unfold dispatch, ICEMessage, SDPMessage,
        ScreenOnMessage, ScreenOffMessage, MuteMessage, UnmuteMessage.
      repeat (rewrite bool_decide_false by lia). cbn. by apply wp_ret. }
    by apply wp_inv in H as ([] & w' & Hrun & ->).
Qed.

Lemma messages_routed_witness :
  ∃ w w', srv_sessions (w_server w) !! "a"%string = Some (ToyWorld.toy_cfg "a") ∧
    handle_message (E := toy_env) {| m_GroupID := "group"; m_UserID := "user"; m_SessionID := "a";
      m_CallID := "call"; m_Type := 1; m_Data := "candidate" |} w = Some (tt, w').
Proof.
  destruct two_sessions as (w & _ & Hwf & He).
  pose proof (messages_routed (E := toy_env) {| m_GroupID := "group"; m_UserID := "user";
    m_SessionID := "a"; m_CallID := "call"; m_Type := 1; m_Data := "candidate" |} w Hwf) as H.
  cbn [m_SessionID] in H. rewrite He in H. cbn [Message_IsValid] in H.
  destruct H as (us & s & _ & _ & _ & Hice & _). exists w. eexists. split; [exact He|].
  apply Hice. reflexivity.
Defined.

(** Muting silences a session and unmuting restores it.  A mute or unmute
    message for a registered session without a voice track changes nothing;
    with one, unmuting marks the track to be forwarded and changes nothing
    else, and muting marks it not to be, resets the voice monitor if there is
    one and then announces that the voice is off (unless the channel is
    full). *)
Theorem mute_message {E : Env} msg cfg w :
  reg_wf w → srv_sessions (w_server w) !! m_SessionID msg = Some cfg → Message_IsValid msg = Ok tt →
  m_Type msg = MuteMessage ∨ m_Type msg = UnmuteMessage →
  ch_closed (receiveCh (w_server w)) = false →
  ∃ us s, in_call w (GroupID cfg) (CallID cfg) (m_SessionID msg) us ∧ w_sessions w !! us = Some s ∧
    match outVoiceTrack s with
    | None => handle_message msg w = Some (tt, w)
    | Some _ =>
        if bool_decide (m_Type msg = UnmuteMessage)
        then handle_message msg w =
          Some (tt, put_session us (set_outVoiceTrackEnabled (λ _, true) s) w)
        else handle_message msg w = Some (tt, muted us s w)
    end.
Proof.
  intros Hw He Hv Hty Ho.
  destruct (entry_placed _ _ _ Hw He) as (Hid & gl & cl & us & gr & call & s & Hp & Hm).
  pose proof Hp as [P1 P2 P3 P4 P5 P6 P7]. exists us, s. split_and!; [|done|].
  { exists cl, call. rewrite <- Hid. split_and!; [by exists gl, gr|done|done]. }
  assert (Hd : dispatch cl us msg = handle_mute us (bool_decide (m_Type msg = UnmuteMessage))).
  { unfold dispatch. by destruct Hty as [-> | ->]. }
  assert (Hgo : ∀ Q, wp (handle_mute us (bool_decide (m_Type msg = UnmuteMessage))) Q w →
    wp (handle_message msg) Q w).
  { intros Q HQ. eapply handle_message_dispatch; [done..|]. by rewrite Hd. }
  destruct (outVoiceTrack s) as [t|] eqn:Ht.
  - case_bool_decide.
    + pose proof (Hgo (λ _ w', w' = put_session us (set_outVoiceTrackEnabled (λ _, true) s) w)) as H1.
      apply wp_inv in H1 as ([] & w' & Hrun & ->); [done|]. by eapply handle_mute_on.
    + pose proof (Hgo (λ _ w', w' = muted us s w)) as H1.
      apply wp_inv in H1 as ([] & w' & Hrun & ->); [done|]. by eapply handle_mute_off.
  - pose proof (Hgo (λ _ w', w' = w)) as H1.
    apply wp_inv in H1 as ([] & w' & Hrun & ->); [done|]. unfold handle_mute. apply wp_bind.
    eapply wp_get_session; [done|]. rewrite Ht. by apply wp_ret.
Qed.

(** Reading messages is safe.  From any well-formed state, and as long as
    the server's output channel is open, the reader handles any sequence of
    messages, whatever they carry, without a panic: it consumes them, leaves
    the state well-formed, and neither adds nor removes a session, a call or a
    group. *)
Theorem msgReader_safe {E : Env} msgs w :
  reg_wf w → ch_closed (receiveCh (w_server w)) = false →
  ∃ w', msgReader msgs w = Some (tt, w') ∧ reg_wf w' ∧
    (∀ g c id l, in_call w' g c id l ↔ in_call w g c id l) ∧
    srv_sessions (w_server w') = srv_sessions (w_server w) ∧
    ch_buf (sendCh (w_server w')) = drop (length msgs) (ch_buf (sendCh (w_server w))).
Proof.
  intros Hw Ho. destruct (proj1 (wp_inv _ _ _) (msgReader_same msgs w Hw Ho))
    as ([] & w' & Hrun & Hsame & _ & Hbuf).
  exists w'. split_and!; [done|by eapply reg_same_wf| |apply Hsame|done].
  intros g c id l. by apply reg_same_in_call.
Qed.

Lemma msgReader_safe_witness :
  ∃ w w', msgReader (E := toy_env) [{| m_GroupID := "group"; m_UserID := "user";
      m_SessionID := "a"; m_CallID := "call"; m_Type := 5; m_Data := "stream" |};
      {| m_GroupID := "group"; m_UserID := "user"; m_SessionID := "b"; m_CallID := "call";
      m_Type := 6; m_Data := str0 |}] w = Some (tt, w') ∧ reg_wf w'.
Proof.
  assert (Hw : empty_registry ToyWorld.nothing) by (repeat split).
  apply empty_registry_rep in Hw. destruct Hw as [Hwf _ _].
  destruct (msgReader_safe (E := toy_env) [{| m_GroupID := "group"; m_UserID := "user";
      m_SessionID := "a"; m_CallID := "call"; m_Type := 5; m_Data := "stream" |};
      {| m_GroupID := "group"; m_UserID := "user"; m_SessionID := "b"; m_CallID := "call";
      m_Type := 6; m_Data := str0 |}] ToyWorld.nothing Hwf) as (w' & Hrun & Hwf' & _).
  - reflexivity.
  - exists ToyWorld.nothing, w'. split; [exact Hrun|exact Hwf'].
Defined.

(** A data channel message cannot crash the server.  Whatever the bytes,
    handling them does not panic (the payload always has the type that is
    asserted); bytes that do not decode change nothing, and a message that
    decodes does what its type says: a ping is answered with a pong, a session
    description is queued on the session with its answer going back to the data
    channel, a client metric is recorded once, for the session's group. *)
Theorem dc_message_safe {E : Env} data us s ch w :
  w_sessions w !! us = Some s → session_wf s →
  match DecodeMessage data with
  | Err e => handleDCMessage data us ch w = Some (Err (EWrap "failed to decode DC message" e), w)
  | Ok (mt, p) => ∃ r w', handleDCMessage data us ch w = Some (r, w') ∧ dc_effect us s ch mt p w w'
  end.
Proof.
  intros Hs Hwf. unfold handleDCMessage. destruct (DecodeMessage data) as [[mt p]|e] eqn:Hd; [|done].
  apply wp_inv. eapply handle_dc_payload_spec; done.
Qed.

Lemma dc_message_safe_witness :
  ∃ r w', handleDCMessage (E := toy_env) "not a message" 3 0 ToyWorld.toy_world = Some (Err r, w').
Proof.
  pose proof (dc_message_safe (E := toy_env) "not a message" 3 (ToyWorld.toy_session "a" 0) 0
    ToyWorld.toy_world eq_refl ltac:(by split)) as H.
  assert (Hd : ∃ e, DecodeMessage (H := @env_dc toy_env) "not a message" = Err e)
    by (eexists; vm_compute; reflexivity).
  destruct Hd as [e Hd]. rewrite Hd in H. eauto.
Defined.

(** C12: [Stop] waits for the sessions.  With sessions left, whatever sequence
    of closes runs meanwhile, it returns exactly when each of them was closed,
    and then both channels are closed and no session is registered; otherwise
    it is still waiting, and neither channel was closed. *)
Theorem stop_waits_for_sessions {E : Env} `{!PionLaws env_pion} ids tcp udp w :
  reg_wf w → srv_sessions (w_server w) ≠ ∅ → w_next w ∉ w_drained w →
  ch_closed (receiveCh (w_server w)) = false → ch_closed (sendCh (w_server w)) = false →
  ∃ r w', Stop (_ ← reg_run (OpClose <$> ids); mret tt) tcp udp w = Some (r, w') ∧
    (is_Some r ↔ ∀ id, is_Some (srv_sessions (w_server w) !! id) → id ∈ ids) ∧
    ch_closed (receiveCh (w_server w')) = bool_decide (is_Some r) ∧
    ch_closed (sendCh (w_server w')) = bool_decide (is_Some r) ∧
    (is_Some r → srv_sessions (w_server w') = ∅).
Proof.
  intros Hw Hne Hfresh Hr Hs. apply wp_inv. unfold Stop. apply wp_bind, Stop_begin_spec; [done..|].
  intros w1 Hd Hs1. apply wp_bind.
  assert (Hb : wp (_ ← reg_run (OpClose <$> ids); mret tt) (λ _ w2,
    draining (w_next w) (server_chans (w_server w)) w2 ∧
    srv_sessions (w_server w2) = foldr delete (srv_sessions (w_server w1)) (rev ids)) w1).
  { apply wp_bind. eapply wp_mono; [by apply draining_closes|]. intros bs w2 Hw2. by apply wp_ret. }
  eapply wp_mono; [exact Hb|]. intros _ w2 [Hw2 Hs2]. apply wp_bind, wp_gets. rewrite Hs1 in Hs2.
  pose proof (foldr_delete_empty ids (srv_sessions (w_server w))) as Hall. rewrite <- Hs2 in Hall.
  pose proof (dr_chans _ _ _ Hw2) as [= Hrecv Hsend]. pose proof (dr_ch _ _ _ Hw2) as Hch.
  case_bool_decide as Hempty.
  - destruct Hch as [_ Hch]. rewrite bool_decide_true by done. apply wp_bind. unfold Stop_end.
    apply wp_bind, close_server_chans_spec; [congruence..|]. intros w3 C1 C2 C3 _.
    apply wp_bind, wp_gets, wp_ret, wp_ret. rewrite bool_decide_true by done.
    split_and!; [|done|done|congruence]. split; [intros _; by apply Hall|done].
  - rewrite bool_decide_false by (by apply (rw_drain _ (dr_wf _ _ _ Hw2))).
    apply wp_ret. rewrite bool_decide_false by by intros [].
    split_and!; [|congruence|congruence|by intros []].
    split; [by intros []|]. intros H. by destruct Hempty; apply Hall.
Qed.

Lemma stop_waits_for_sessions_witness :
  (∃ w', Stop (E := toy_env) (_ ← reg_run [OpClose "a"]; mret tt) (Ok tt) (Ok tt) ToyWorld.toy_world =
    Some (None, w')) ∧
  (∃ r w', Stop (E := toy_env) (_ ← reg_run [OpClose "b"; OpClose "a"]; mret tt) (Ok tt) (Ok tt)
    ToyWorld.toy_world = Some (Some r, w')).
Proof.
  assert (Hne : srv_sessions (w_server ToyWorld.toy_world) ≠ ∅) by by intros [=].
  split.
  - destruct (stop_waits_for_sessions (E := toy_env) (PionLaws0 := Toy.toy_laws) ["a"%string] (Ok tt) (Ok tt)
      ToyWorld.toy_world toy_world_wf Hne ltac:(set_solver) eq_refl eq_refl)
      as (r & w' & Hrun & Hiff & _).
    exists w'. destruct r as [r|]; [|exact Hrun].
    assert (H : "b"%string ∈ ["a"%string]); [|set_solver].
    apply Hiff; [eauto|]. eexists. reflexivity.
  - destruct (stop_waits_for_sessions (E := toy_env) (PionLaws0 := Toy.toy_laws) ["b"%string; "a"%string]
      (Ok tt) (Ok tt) ToyWorld.toy_world toy_world_wf Hne ltac:(set_solver) eq_refl eq_refl)
      as (r & w' & Hrun & Hiff & _).
    destruct (proj2 Hiff) as [r' ->]; [|eauto]. intros id [cfg He]. toy.
    apply lookup_insert_Some in He as [[<- _]|[_ [<- _]%lookup_singleton_Some]]; set_solver.
Defined.

Lemma mute_message_witness :
  handle_message (E := toy_env) {| m_GroupID := "group"; m_UserID := "user"; m_SessionID := "a";
      m_CallID := "call"; m_Type := 3; m_Data := str0 |} (put_session 3 toy_speaker ToyWorld.toy_world) =
    Some (tt, muted 3 toy_speaker (put_session 3 toy_speaker ToyWorld.toy_world)).
Proof.
  assert (Hwf : reg_wf (E := toy_env) (put_session 3 toy_speaker ToyWorld.toy_world)).
  { eapply reg_same_wf; [|exact toy_world_wf].
    apply (reg_same_put _ (ToyWorld.toy_session "a" 0)); [done|]. split; [done..|]. intros _. by split. }
  destruct (mute_message (E := toy_env) {| m_GroupID := "group"; m_UserID := "user"; m_SessionID := "a";
      m_CallID := "call"; m_Type := 3; m_Data := str0 |} (ToyWorld.toy_cfg "a")
      (put_session 3 toy_speaker ToyWorld.toy_world) Hwf) as (us & s & (cl & call & Ha & Hc & Hl) & Hs & H).
  - reflexivity.
  - reflexivity.
  - left. reflexivity.
  - reflexivity.
  - apply toy_at_call in Ha as (_ & _ & ->). apply toy_calls in Hc as [_ ->].
    apply toy_member in Hl as [[_ ->]|[[=] _]].
    assert (s = toy_speaker) as ->; [|exact H].
    unfold put_session, set_w_sessions in Hs. cbn [w_sessions] in Hs. rewrite lookup_insert_eq in Hs.
    congruence.
Defined.

(** The drain channel is closed before the last session is gone.
    [CloseSession] closes it in its first section, while the session is still
    a member of its call, its [closeCh] is open and its goroutines are
    running; [Stop] may then run to its end, and from there every send of
    those goroutines on the server's channel (an offer, an answer, a voice
    message), although it is a [select] with a default branch, panics. *)
Theorem stop_closes_early {E : Env} id cfg tcp udp w :
  reg_wf w → srv_sessions (w_server w) = {[id := cfg]} → w_next w ∉ w_drained w →
  ch_closed (receiveCh (w_server w)) = false → ch_closed (sendCh (w_server w)) = false →
  ∃ ch us s w1 w2 r w3, Stop_begin w = Some (Some ch, w1) ∧
    unregister id w1 = Some (Some cfg, w2) ∧ ch ∈ w_drained w2 ∧
    Stop_end tcp udp w2 = Some (r, w3) ∧
    in_call w3 (GroupID cfg) (CallID cfg) id us ∧ w_sessions w3 !! us = Some s ∧ closeCh s = false ∧
    (∀ m, send_out ToReceiveCh m w3 = None) ∧ (∀ m, Send m w3 = None).
Proof.
  intros Hw Hone Hfresh Hr Hs. set (ch := w_next w).
  assert (He : srv_sessions (w_server w) !! id = Some cfg) by (rewrite Hone; apply lookup_singleton_eq).
  destruct (entry_placed _ _ _ Hw He) as (Hid & gl & cl & us & gr & call & s & Hp & Hm).
  pose proof Hp as [P1 P2 P3 P4 P5 P6 P7].
  assert (Hempty : delete id (srv_sessions (w_server w)) = ∅) by (by rewrite Hone, delete_singleton_eq).
  set (w1 := set_w_server (set_drainCh (λ _, Some ch)) (set_w_next Pos.succ w)).
  set (w2 := set_w_server (set_drainCh (λ _, None)) (set_w_drained (union {[ch]})
    (set_w_server (set_srv_sessions (delete id)) w1))).
  set (w3 := set_w_server (λ v, set_sendCh (λ c, Chan (ch_cap c) (ch_buf c) true)
    (set_receiveCh (λ c, Chan (ch_cap c) (ch_buf c) true) v)) w2).
  assert (Hb : Stop_begin w = Some (Some ch, w1)).
  { unfold Stop_begin, mbind, go_bind, gets. rewrite bool_decide_false; [done|].
    intros H0. by rewrite H0 in He. }
  assert (Hu : unregister id w1 = Some (Some cfg, w2)).
  { unfold unregister, mbind, go_bind, gets, upd_server, modify, when. cbn.
    rewrite Hempty, bool_decide_true by done. unfold close_drain. cbn.
    rewrite bool_decide_false by done. cbn. by rewrite He. }
  assert (Hend : ∃ r, Stop_end tcp udp w2 = Some (r, w3)).
  { unfold Stop_end, close_server_chans, mbind, go_bind, gets, upd_server, modify, deref, close_chan.
    cbn. rewrite Hr. cbn. rewrite Hs. cbn. eexists. reflexivity. }
  destruct Hend as [r Hend]. exists ch, us, s, w1, w2, r, w3. split_and!; try done.
  - cbn. set_solver.
  - exists cl, call. rewrite <- Hid. split_and!; [by exists gl, gr|done|done].
  - apply (mw_open _ _ _ _ _ Hm).
Qed.

(** The same world with session a alone registered. *)
Definition toy_single : world (E := toy_env) :=
  set_w_server (set_srv_sessions (delete "b"%string)) ToyWorld.toy_world.

Lemma toy_single_wf : reg_wf (E := toy_env) toy_single.
Proof.
  destruct toy_world_wf as [W1 W2 W3 W4 W5 W6 W7]. split; try done.
  intros id cfg He. apply W5.
  change (srv_sessions (w_server toy_single)) with
    (delete "b"%string (srv_sessions (w_server ToyWorld.toy_world))) in He.
  by apply lookup_delete_Some in He as [_ He].
Qed.

Lemma stop_closes_early_witness :
  ∃ w2 r w3, Stop_end (E := toy_env) (Ok tt) (Ok tt) w2 = Some (r, w3) ∧
    ∀ m, send_out (E := toy_env) ToReceiveCh m w3 = None.
Proof.
  destruct (stop_closes_early (E := toy_env) "a" (ToyWorld.toy_cfg "a") (Ok tt) (Ok tt) toy_single
    toy_single_wf) as (ch & us & s & w1 & w2 & r & w3 & _ & _ & _ & Hend & _ & _ & _ & Hsend & _).
  - change (srv_sessions (w_server toy_single)) with
      (delete "b"%string (<["a"%string := ToyWorld.toy_cfg "a"]> {["b"%string := ToyWorld.toy_cfg "b"]}
        : gmap string SessionConfig)).
    rewrite delete_insert_ne by done. by rewrite delete_singleton_eq.
  - set_solver.
  - reflexivity.
  - reflexivity.
  - exists w2, r, w3. split; [exact Hend|exact Hsend].
Defined.

(** A ScreenOn message of a session in a call nobody presents in. *)
Lemma screen_on_free {E : Env} cl us msg m call s w :
  w_sessions w !! us = Some s → w_calls w !! cl = Some call → screenSession call = None →
  m_Type msg = ScreenOnMessage → json_Unmarshal_strings (m_Data msg) = Ok m →
  dispatch cl us msg w = Some (tt, set_w_calls (<[cl := set_screenSession (λ _, Some us) call]>)
    (put_session us (set_screenStreamID (λ _, default str0 (m !! "screenStreamID"%string)) s) w)).
Proof.
  intros Hs Hc Hscr Hty Hm.
  set (w2 := set_w_calls _ _). enough (wp (dispatch cl us msg) (λ _ w', w' = w2) w) as Hwp
    by (by apply wp_inv in Hwp as ([] & ? & ? & ->)).
  unfold dispatch. rewrite Hty. change (wp (handle_screen_on cl us (m_Data msg)) (λ _ w', w' = w2) w).
  unfold handle_screen_on. rewrite Hm. apply wp_bind. eapply wp_upd_session; [done|].
  apply wp_bind. unfold setScreenSession. apply wp_bind. eapply wp_get_call; [exact Hc|].
  rewrite Hscr. apply wp_bind. eapply wp_upd_call; [exact Hc|]. by apply wp_ret, wp_ret.
Qed.

(** Nobody shares while there is a presenter, and only the presenter ends the
    share. *)
Lemma share_refused {E : Env} cl us call x w :
  w_calls w !! cl = Some call → screenSession call = Some us → setScreenSession cl x w = Some (false, w).
Proof.
  intros Hc Hs. enough (wp (setScreenSession cl x) (λ r w', r = false ∧ w' = w) w) as Hwp
    by (by apply wp_inv in Hwp as (? & ? & ? & -> & ->)).
  unfold setScreenSession. apply wp_bind. eapply wp_get_call; [exact Hc|]. rewrite Hs. by apply wp_ret.
Qed.

Lemma clear_refused {E : Env} cl us call x w :
  w_calls w !! cl = Some call → screenSession call = Some us → x ≠ us →
  is_Some (w_sessions w !! us) → is_Some (w_sessions w !! x) →
  ∃ e, clearScreenState cl (Some x) w = Some (Err e, w).
Proof.
  intros Hc Hs Hne [su Hu] [sx Hx].
  enough (wp (clearScreenState cl (Some x)) (λ r w', (∃ e, r = Err e) ∧ w' = w) w) as Hwp
    by (apply wp_inv in Hwp as (? & ? & ? & [e ->] & ->); eauto).
  unfold clearScreenState. apply wp_bind. eapply wp_get_call; [exact Hc|]. rewrite Hs. cbn.
  rewrite bool_decide_false by congruence. apply wp_bind. eapply wp_get_session; [exact Hu|]. apply wp_bind.
  eapply wp_get_session; [exact Hx|]. apply wp_ret. eauto.
Qed.

(** A session that leaves while its request to share is handled blocks the
    call.  The reader looks the session up and then makes it the presenter,
    with no lock in between; if the session was closed meanwhile and others
    are in the call, the call ends up with a presenter that is a member of no
    call: from then on no session can start to share there and no member can
    end the share. *)
Theorem stale_presenter_blocks_sharing {E : Env} `{!PionLaws env_pion} id cfg other l msg m w :
  reg_wf w → srv_sessions (w_server w) !! id = Some cfg →
  in_call w (GroupID cfg) (CallID cfg) other l → other ≠ id →
  (∀ cl call, at_call w (GroupID cfg) (CallID cfg) cl → w_calls w !! cl = Some call →
     screenSession call = None) →
  m_Type msg = ScreenOnMessage → json_Unmarshal_strings (m_Data msg) = Ok m →
  ∃ cl us w1 w2, at_call w (GroupID cfg) (CallID cfg) cl ∧
    in_call w (GroupID cfg) (CallID cfg) id us ∧
    CloseSession_run id w = Some (Ok (Some us), w1) ∧ dispatch cl us msg w1 = Some (tt, w2) ∧
    at_call w2 (GroupID cfg) (CallID cfg) cl ∧
    (∀ g c i, ¬ in_call w2 g c i us) ∧
    (∀ x, setScreenSession cl x w2 = Some (false, w2)) ∧
    (∀ g c i x, in_call w2 g c i x → ∃ e, clearScreenState cl (Some x) w2 = Some (Err e, w2)).
Proof.
  intros Hw He Hother Hne Hfree Hty Hm.
  assert (Hwp : wp (CloseSession_run id) (λ r w', ∃ gl cl us gr call s, r = Ok (Some us) ∧
    placed cfg gl cl us gr call s w ∧ removed cfg gl cl us gr call s w w') w).
  { apply (CloseSession_run_spec id cfg); [done|done|]. intros gl cl us gr call s w' Hp _ Hr.
    exists gl, cl, us, gr, call, s. done. }
  apply wp_inv in Hwp as (r & w1 & Hrun & gl & cl & us & gr & call & s & -> & Hp & Hr).
  pose proof (rw_entry _ Hw _ _ He) as (Hid & _).
  assert (Hat : at_call w (GroupID cfg) (CallID cfg) cl) by (by eapply placed_at_call).
  assert (Hus : in_call w (GroupID cfg) (CallID cfg) id us).
  { exists cl, call. rewrite <- Hid. split_and!; [done|apply Hp|apply Hp]. }
  assert (Hin1 : ∀ g c i x, in_call w1 g c i x ↔ in_call w g c i x ∧
    (g, c, i) ≠ (GroupID cfg, CallID cfg, id)).
  { intros g c i x. rewrite <- Hid. by eapply removed_in_call. }
  destruct (rm_us _ _ _ _ _ _ _ _ _ Hr) as (s1 & Hs1 & _ & _).
  pose proof (removed_call_self _ _ _ _ _ _ _ _ _ Hr) as Hcl1.
  set (cl1 := call_left cfg us call) in *.
  assert (Hscr : screenSession cl1 = None).
  { unfold cl1, call_left. case_bool_decide; [done|]. apply (Hfree cl call Hat). apply Hp. }
  set (s2 := set_screenStreamID (λ _, default str0 (m !! "screenStreamID"%string)) s1).
  set (w2 := set_w_calls (<[cl := set_screenSession (λ _, Some us) cl1]>) (put_session us s2 w1)).
  assert (Hdisp : dispatch cl us msg w1 = Some (tt, w2)) by exact (screen_on_free _ _ _ _ _ _ _ Hs1 Hcl1 Hscr Hty Hm).
  assert (Hin2 : ∀ g c i x, in_call w2 g c i x ↔ in_call w1 g c i x).
  { intros g c i x. apply in_call_same; [done..|]. intros y. unfold w2. wsimpl.
    destruct (decide (y = cl)) as [->|Hy].
    - rewrite lookup_insert_eq, Hcl1. done.
    - by rewrite lookup_insert_ne. }
  assert (Hus2 : w_sessions w2 !! us = Some s2) by apply lookup_insert_eq.
  assert (Hcl2 : w_calls w2 !! cl = Some (set_screenSession (λ _, Some us) cl1)) by apply lookup_insert_eq.
  assert (Hno : ∀ g c i, ¬ in_call w2 g c i us).
  { intros g c i Hi. rewrite Hin2, Hin1 in Hi. destruct Hi as [Hi Hk].
    eapply (member_not_us cfg gl cl us gr call s w); [exact Hw|exact Hp|exact Hr|exact Hi| |done].
    by rewrite Hid. }
  exists cl, us, w1, w2. split_and!; try done.
  - apply (removed_at_call cfg gl cl us gr call s w w1); [done..|]. split; [done|]. intros _.
    destruct Hother as (x & k & Ha & Hk & Hl). pose proof (at_call_fun _ _ _ _ _ Ha Hat) as ->.
    assert (k = call) as -> by (pose proof (pl_cl _ _ _ _ _ _ _ _ Hp); congruence).
    eapply (last_in_call_false cfg call); [exact Hl|congruence].
  - intros x. exact (share_refused _ _ _ _ _ Hcl2 eq_refl).
  - intros g c i x Hx. pose proof Hx as Hx2. rewrite Hin2 in Hx.
    assert (Hxs : is_Some (w_sessions w2 !! x)).
    { destruct Hx as (y & k & Ha & Hk & Hl).
      destruct (removed_member cfg gl cl us gr call s w w1 Hw Hp Hr _ _ _ _ _ _ Ha Hk Hl) as (sx & Hsx & _).
      unfold w2. wsimpl. unfold put_session. wsimpl. destruct (decide (x = us)) as [->|Hxu].
      - rewrite lookup_insert_eq. eauto.
      - rewrite lookup_insert_ne by done. eauto. }
    apply (clear_refused _ us _ _ _ Hcl2 eq_refl); [|by eexists|done]. intros ->. by apply (Hno g c i).
Qed.

Lemma stale_presenter_blocks_sharing_witness :
  ∃ cl us w1 w2, CloseSession_run (E := toy_env) "a" ToyWorld.toy_world = Some (Ok (Some us), w1) ∧
    dispatch cl us {| m_GroupID := "group"; m_UserID := "user"; m_SessionID := "a"; m_CallID := "call";
      m_Type := 5; m_Data := "stream" |} w1 = Some (tt, w2) ∧
    ∀ x, setScreenSession cl x w2 = Some (false, w2).
Proof.
  destruct (stale_presenter_blocks_sharing (E := toy_env) (PionLaws0 := Toy.toy_laws) "a"
    (ToyWorld.toy_cfg "a") "b" 4 {| m_GroupID := "group"; m_UserID := "user"; m_SessionID := "a";
    m_CallID := "call"; m_Type := 5; m_Data := "stream" |} {["screenStreamID"%string := "stream"%string]}
    ToyWorld.toy_world toy_world_wf) as (cl & us & w1 & w2 & _ & _ & Hrun & Hd & _ & _ & Hs & _).
  - reflexivity.
  - exists 2%positive, ToyWorld.toy_call. split_and!; [|done|done]. do 2 eexists. done.
  - done.
  - intros cl call _ Hc. apply toy_calls in Hc as [_ ->]. done.
  - reflexivity.
  - reflexivity.
  - exists cl, us, w1, w2. split; [exact Hrun|]. split; [exact Hd|exact Hs].
Defined.
