(* ===== verification/Sfu.v ===== *)
(** * Sfu: joining a call and forwarding media (service/rtc/sfu.go)

    [InitSession] and the callbacks it installs.  A goroutine that loops is
    given by one iteration: a packet of an audio track ([audio_packet]), a
    packet of a video track ([video_packet]) and one taken by a writer
    ([write_track]), an action or an offer of the negotiation loop
    ([track_loop_step]).  Random identifiers, [time.Now()], the results of a
    read and the choice of a [select] are arguments. *)
From Stdlib Require Import Floats.SpecFloat.
From S2P Require Import Prelude GoFloat GoText RtcConfig Utils Vad Rate Dc Pion World Call Session Simulcast Registry Server.

Definition nackResponderBufferSize : Z := 256.
Definition audioLevelExtensionURI : string := "urn:ietf:params:rtp-hdrext:ssrc-audio-level".
Definition writerQueueSize : nat := 200.

Definition videoRTCPFeedback : list (string * string) :=
  [("goog-remb", ""); ("ccm", "fir"); ("nack", ""); ("nack", "pli")].
Definition rtpAudioCodec : RTPCodecCapability := {|
  MimeType := "audio/opus"; ClockRate := 48000; Channels := 2;
  SDPFmtpLine := "minptime=10;useinbandfec=1"; RTCPFeedback := [] |}.
Definition rtpVideoExtensions : list string :=
  ["urn:ietf:params:rtp-hdrext:sdes:mid"; "urn:ietf:params:rtp-hdrext:sdes:rtp-stream-id";
   "urn:ietf:params:rtp-hdrext:sdes:repaired-rtp-stream-id"].

Section sfu.
  Context {E : Env}.

Definition ScreenTrackMimeTypeDefault : string := MimeTypeVP8.

Definition video_codec (mime : string) (pt : Z) : RTPCodecParameters := {|
  codec_capability := {| MimeType := mime; ClockRate := 90000; Channels := 0; SDPFmtpLine := str0;
                         RTCPFeedback := videoRTCPFeedback |};
  PayloadType := pt |}.

Definition rtpVideoCodecs : gmap string RTPCodecParameters :=
  <[MimeTypeVP8 := video_codec MimeTypeVP8 96]> {[MimeTypeAV1 := video_codec MimeTypeAV1 45]}.

(** ** Building a peer connection *)
Definition initSettingEngine (lookup_ip : string → string → result (list string)) (skip_env : bool)
    (v : server) : result SettingEngine :=
  let c := srv_cfg v in
  pairs ← wrap_err "failed to generate addresses pairs"
    (generateAddrsPairs lookup_ip (localIPs v) (publicAddrsMap v) (ICEHostOverride c) (EnableIPv6 c));
  Ok {| NetworkTypes := [NetworkTypeUDP4; NetworkTypeTCP4] ++
          (if EnableIPv6 c then [NetworkTypeUDP6; NetworkTypeTCP6] else []);
        NAT1To1IPs := pairs; SCTPZeroChecksum := true; MulticastDNSDisabled := true;
        IncludeLoopback := true; SkipHelloVerify := skip_env;
        engine_udpMux := udpMux v; engine_tcpMux := tcpMux v |}.

Fixpoint register_codecs (l : list RTPCodecParameters) (m : media) : result media :=
  match l with
  | [] => Ok m
  | p :: l => m ← RegisterCodec p KindVideo m; register_codecs l m
  end.

Fixpoint register_extensions (l : list string) (m : media) : result media :=
  match l with
  | [] => Ok m
  | uri :: l =>
      m ← wrap_err "failed to register header extension" (RegisterHeaderExtension uri KindVideo m);
      register_extensions l m
  end.

Definition initMediaEngine : result media :=
  m ← RegisterCodec {| codec_capability := rtpAudioCodec; PayloadType := 111 |} KindAudio media0;
  m ← register_codecs (range rtpVideoCodecs) m;
  m ← wrap_err "failed to register header extension"
        (RegisterHeaderExtension audioLevelExtensionURI KindAudio m);
  register_extensions rtpVideoExtensions m.

(** [int(float32(getRateForSimulcastLevel(level)) * f)], [f] a [float32]. *)
Definition half : float := S754_finite false 8388608 (-24).
Definition three_halves : float := S754_finite false 12582912 (-23).
Definition scaled_rate (arch : float → Z) (level : string) (f : float) : Z :=
  float_to_int arch (f32_mul (f32_of_Z (getRateForSimulcastLevel level)) f).

Definition initInterceptors (arch : float → Z) (m : media) : result (media * interceptors) :=
  generator ← NewGeneratorInterceptor;
  responder ← NewResponderInterceptor nackResponderBufferSize;
  let m := RegisterFeedback "nack" "" KindVideo m in
  let m := RegisterFeedback "nack" "pli" KindVideo m in
  let i := add_interceptor generator (add_interceptor responder interceptors0) in
  i ← ConfigureRTCPReports i;
  '(m, i) ← ConfigureTWCCSender m i;
  let minRate := scaled_rate arch SimulcastLevelLow half in
  let maxRate := scaled_rate arch SimulcastLevelHigh three_halves in
  cc ← wrap_err "failed to init congestion controller"
         (NewCongestionController minRate minRate maxRate);
  wrap_err "failed to add TWCC extensions"
    (ConfigureTWCCHeaderExtensionSender m (add_interceptor cc i)).

(** The loop over the configured ICE servers. *)
Definition ice_server (mac : string → string → string) (now : Z) (sessionID : string)
    (t : TURNConfig) (c : ICEServerConfig) : option ICEServerConfig :=
  if IsTURN c && bool_decide (StaticAuthSecret t = str0) then None
  else if IsTURN c && bool_decide (Username c = str0) && bool_decide (Credential c = str0) then
    let ts := ((now + wrap_int 64 (CredentialsExpirationMinutes t * minute)) / second)%Z in
    match genTURNCredentials mac now sessionID (StaticAuthSecret t) ts with
    | Err _ => None
    | Ok (u, p) => Some {| URLs := URLs c; Username := u; Credential := p |}
    end
  else Some c.

Definition ice_servers (mac : string → string → string) (now : Z) (sessionID : string)
    (c : ServerConfig) : list ICEServerConfig :=
  omap (ice_server mac now sessionID (cfgTURNConfig c)) (cfgICEServers c).

(** [InitSession] up to the callbacks: the session, the call its goroutines are
    given and the variables of its estimator. *)
Definition new_peer (arch : float → Z) (mac : string → string → string) (now : Z)
    (lookup_ip : string → string → result (list string)) (skip_env : bool) (cfg : SessionConfig) :
    go world (result (pc * bwe)) :=
  v ← gets w_server;
  match initMediaEngine with
  | Err e => mret (Err (EWrap "failed to init media engine" e))
  | Ok m =>
      match initInterceptors arch m with
      | Err e => mret (Err (EWrap "failed to init interceptors" e))
      | Ok (m, i) =>
          match initSettingEngine lookup_ip skip_env v with
          | Err e => mret (Err (EWrap "failed to init setting engine" e))
          | Ok se =>
              r ← lib (NewPeerConnection m i se (ice_servers mac now (SessionID cfg) (srv_cfg v)));
              mret (wrap_err "failed to create peer connection" r)
          end
      end
  end.

Definition InitSession (arch : float → Z) (mac : string → string → string) (now : Z)
    (lookup_ip : string → string → result (list string)) (skip_env : bool)
    (cfg : SessionConfig) (cb : bool) : go world (result (loc * option loc * bwe_vars)) :=
  match SessionConfig_IsValid cfg with
  | Err e => mret (Err (EWrap "invalid session config" e))
  | Ok _ =>
      emit (IncRTCSessions (GroupID cfg)) ;;
      p ← new_peer arch mac now lookup_ip skip_env cfg;
      match p with
      | Err e => mret (Err e)
      | Ok (conn, est) =>
          r ← addSession cfg (Some conn) cb;
          match r with
          | Err e => mret (Err (EWrap "failed to add session" e))
          | Ok us =>
              g ← getGroup (GroupID cfg);
              c ← getCall g (CallID cfg);
              vars ← initBWEstimator us est;
              mret (Ok (us, c, vars))
          end
      end
  end.

(** ** Callbacks of the connection *)
Definition set_Port {R} (p : Z) (c : ice_candidate R) : ice_candidate R := {|
  Typ_host := Typ_host c; Address := Address c; Port := p; ice_rest := ice_rest c |}.

(** The port of a host candidate at an external address is overridden. *)
Definition override_port (v : server) (c : ice_candidate ice_extra) : ice_candidate ice_extra :=
  let port := SinglePort (Some (ICEHostPortOverride (srv_cfg v))) in
  if bool_decide (port ≠ 0%Z) && Typ_host c &&
     bool_decide (Address c ∈
       getExternalAddrMapFromHostOverride (ICEHostOverride (srv_cfg v)) (publicAddrsMap v))
  then set_Port (wrap_uint 16 port) c else c.

Definition onICECandidate (us : loc) (cand : option (ice_candidate ice_extra)) : go world unit :=
  match cand with
  | None => mret tt
  | Some c =>
      v ← gets w_server;
      s ← get_session us;
      match json_Marshal_candidate (override_port v c) with
      | Err _ => mret tt
      | Ok js =>
          if closeCh s then mret tt
          else _ ← send_out ToReceiveCh (newMessage (s_cfg s) ICEMessage js); mret tt
      end
  end.

Inductive pc_state := PCConnected | PCDisconnected | PCFailed | PCClosed | PCOther.

Definition onConnectionStateChange (sessionID : string) (st : pc_state) (between : go world unit)
    (cb : result unit) : go world unit :=
  match st with
  | PCConnected => emit (IncRTCConnState "connected")
  | PCDisconnected => emit (IncRTCConnState "disconnected")
  | PCFailed => emit (IncRTCConnState "failed") ;; _ ← CloseSession sessionID between cb; mret tt
  | PCClosed => emit (IncRTCConnState "closed") ;; _ ← CloseSession sessionID between cb; mret tt
  | PCOther => mret tt
  end.

(** One message of the goroutine that sends a session's descriptions over its
    data channel; every path continues the loop. *)
Definition dc_pump (ch : dchan) (msg : Message) : go world unit :=
  m ← deref (EncodeMessage MessageTypeSDP (BytesPayload (m_Data msg)));
  match m with
  | Err _ => mret tt
  | Ok data => _ ← lib (dc_Send ch data); mret tt
  end.

Definition onDCMessage (us : loc) (ch : dchan) (data : string) : go world unit :=
  if bool_decide (data = "ping"%string) then _ ← lib (dc_SendText ch "pong"); mret tt
  else _ ← handleDCMessage data us ch; mret tt.

(** ** Tracks received from the peer *)

(** The start of [OnTrack] and its deferred end. *)
Definition track_enter (us c : loc) (rt : remote) : go world string :=
  s ← get_session us;
  emit (IncRTPTracks (GroupID (s_cfg s)) "in" (getTrackType (remote_Kind rt))) ;;
  screen ← getScreenSession c;
  match screen with None => mret str0 | Some ss => getScreenStreamID ss end.

Definition track_exit (us : loc) (rt : remote) (rcv : receiver) : go world unit :=
  s ← get_session us;
  _ ← lib (receiver_Stop rcv);
  emit (DecRTPTracks (GroupID (s_cfg s)) "in" (getTrackType (remote_Kind rt))).

(** The padding of an empty payload is cleared. *)
Definition strip_padding {H} (p : rtp_packet H) : rtp_packet H :=
  if Padding p && bool_decide (Payload p = str0) then
    {| Padding := false; PaddingSize := 0; Extension := Extension p; Extensions := Extensions p;
       Payload := Payload p; rtp_rest := rtp_rest p |}
  else p.

(** The local variables of the audio loop. *)
Record audio_vars := {
  trackType : string;
  outAudioTrack : track;
  audioLevelExtensionID : Z;
  hasVAD : bool;
}.

Definition send_add (us_id : string) (t : track) (l : loc) : go world unit :=
  ss ← get_session l;
  if bool_decide (SessionID (s_cfg ss) = us_id) then mret tt
  else _ ← send_track l {| action := trackActionAdd; ctx_track := Some t |}; mret tt.

Definition find_extension (rcv : receiver) : Z :=
  match List.find (λ e, bool_decide (fst e = audioLevelExtensionURI)) (HeaderExtensions rcv) with
  | Some e => snd e
  | None => 0%Z
  end.

(** The audio branch of [OnTrack] up to its loop; [None] ends the handler. *)
Definition audio_start (us c : loc) (rt : remote) (rcv : receiver) (screenStreamID id1 id2 : string) :
    go world (option audio_vars) :=
  s ← get_session us;
  let ty := if bool_decide (remote_StreamID rt = screenStreamID)
            then trackTypeScreenAudio else trackTypeVoice in
  tid ← deref (genTrackID ty (SessionID (s_cfg s)) id1);
  r ← lib (NewTrackLocalStaticRTP (MimeType rtpAudioCodec) tid id2 str0);
  match r with
  | Err _ => mret None
  | Ok t =>
      upd_session us (λ s,
        if bool_decide (ty = trackTypeVoice)
        then set_outVoiceTrackEnabled (λ _, true) (set_outVoiceTrack (λ _, Some t) s)
        else set_outScreenAudioTrack (λ _, Some t) s) ;;
      iterSessions c (send_add (SessionID (s_cfg s)) t) ;;
      let ext := find_extension rcv in
      vad ← (if (0 <? ext)%Z then r ← InitVAD us; mret (is_ok r) else mret false);
      mret (Some {| trackType := ty; outAudioTrack := t; audioLevelExtensionID := ext; hasVAD := vad |})
  end.

(** The voice monitor's share of a packet: an extension that does not parse
    still pushes its level. *)
Definition push_level (arch : float → Z) (now : Z) (us : loc) (a : audio_vars)
    (p : rtp_packet rtp_header) : go world unit :=
  if hasVAD a then
    match GetExtension p (wrap_uint 8 (audioLevelExtensionID a)) with
    | Some d => vad_push arch us (fst (audio_level d)) now
    | None => mret tt
    end
  else mret tt.

(** What follows a write: [io.ErrClosedPipe] is not an error. *)
Definition write_ok (r : result unit) : bool :=
  match r with Ok _ => true | Err e => error_is e ErrClosedPipe end.

(** One packet of the audio loop; [false] ends the handler. *)
Definition audio_packet (arch : float → Z) (now dur : Z) (us : loc) (a : audio_vars)
    (read : result (rtp_packet rtp_header)) : go world bool :=
  s ← get_session us;
  let g := GroupID (s_cfg s) in
  match read with
  | Err e => when (negb (error_is e io_EOF)) (emit (IncRTCErrors g "rtp")) ;; mret false
  | Ok p =>
      let p := strip_padding p in
      push_level arch now us a p ;;
      s ← get_session us;
      if bool_decide (trackType a = trackTypeVoice) && negb (outVoiceTrackEnabled s) then mret true
      else
        r ← lib (WriteRTP (outAudioTrack a) p);
        if write_ok r then emit (ObserveRTPTracksWrite g (trackType a) dur) ;; mret true
        else emit (IncRTCErrors g "rtp") ;; mret false
  end.

(** *** Video *)

(** [createOutScreenTracks(num)]. *)
Fixpoint createOutScreenTracks (ids : nat → string * string) (session mime rid : string) (num : nat) :
    go world (result (list track)) :=
  match num with
  | O => mret (Ok [])
  | S n =>
      tid ← deref (genTrackID trackTypeScreen session (fst (ids n)));
      r ← lib (NewTrackLocalStaticRTP mime tid (snd (ids n)) rid);
      match r with
      | Err _ => mret (Err (EText "failed to create screen track"))
      | Ok t => ts ←? createOutScreenTracks ids session mime rid n; mret (Ok (t :: ts))
      end
  end.

(** Whether a receiver is sent the track: its expected level matches, and of
    the two codecs it is sent the one both ends support. *)
Definition wants_codec (us_av1 ss_av1 : bool) (mime : string) : bool :=
  if bool_decide (mime = ScreenTrackMimeTypeDefault) && us_av1 && ss_av1 then false
  else if bool_decide (mime = MimeTypeAV1) && negb ss_av1 then false
  else true.

(** [draw] is what [rand.Intn] returns for each receiver. *)
Definition send_screen (arch : float → Z) (draw : loc → nat) (us : session) (rt : remote) (rid : string)
    (tracks : list track) (l : loc) : go world unit :=
  ss ← get_session l;
  if bool_decide (SessionID (s_cfg ss) = SessionID (s_cfg us)) then mret tt
  else
    level ← (if bool_decide (remote_RID rt = str0) then mret SimulcastLevelDefault
             else getExpectedSimulcastLevel arch l);
    if bool_decide (rid ≠ level) then mret tt
    else if wants_codec (supportsAV1 us) (supportsAV1 ss) (remote_MimeType rt) then
      _ ← send_track l {| action := trackActionAdd; ctx_track := pickRandom (draw l) tracks |}; mret tt
    else mret tt.

Record video_vars := {
  outTracks : list track;
  rate_monitor : loc;
  writerChs : list (chan (rtp_packet rtp_header));
  vid_limiter : limiter;
}.

(** The video branch of [OnTrack] up to its loop, on [NumCPU] processors. *)
Definition video_start (arch : float → Z) (NumCPU : nat) (draw : loc → nat) (ids : nat → string * string) (us c : loc)
    (rt : remote) (screenStreamID' : string) : go world (option video_vars) :=
  if bool_decide (screenStreamID' ≠ str0) && bool_decide (screenStreamID' ≠ remote_StreamID rt)
  then mret None
  else
    s ← get_session us;
    r ← createOutScreenTracks ids (SessionID (s_cfg s)) (remote_MimeType rt) (remote_RID rt) NumCPU;
    match r with
    | Err _ => mret None
    | Ok tracks =>
        let rid := level_or_default (remote_RID rt) in
        match NewRateMonitor (default 0%Z (simulcastRateMonitorSampleSizes !! rid)) with
        | Err _ => mret None
        | Ok rm =>
            rml ← alloc_monitor rm;
            let idx := getTrackIndex (remote_MimeType rt) rid in
            upd_session us (λ s, set_screenRateMonitors (<[idx := rml]>)
              (set_remoteScreenTracks (<[idx := rt]>) (set_outScreenTracks (<[idx := tracks]>) s))) ;;
            s ← get_session us;
            iterSessions c (send_screen arch draw s rt rid tracks) ;;
            mret (Some {| outTracks := tracks; rate_monitor := rml;
                          writerChs := replicate (length tracks) (make_chan writerQueueSize);
                          vid_limiter := NewLimiter 250 1 |})
        end
    end.

(** The copy a writer gets has no header extensions. *)
Definition without_extensions {H} (p : rtp_packet H) : rtp_packet H := {|
  Padding := Padding p; PaddingSize := PaddingSize p; Extension := false; Extensions := [];
  Payload := Payload p; rtp_rest := rtp_rest p |}.

Fixpoint fan_out (g : string) (p : rtp_packet rtp_header) (chs : list (chan (rtp_packet rtp_header))) :
    go world (list (chan (rtp_packet rtp_header))) :=
  match chs with
  | [] => mret []
  | ch :: chs =>
      ch' ← match try_send p ch with
            | Sent ch' => mret ch'
            | Full => emit (IncRTCErrors g "rtp") ;; mret ch
            | SendPanic => panic
            end;
      chs' ← fan_out g p chs;
      mret (ch' :: chs')
  end.

(** [rm.PushSample(size)] and [rm.GetRate()], whose result is only logged. *)
Definition monitor_push (rm : loc) (size now : Z) : go world unit := λ w,
  m ← w_monitors w !! rm; m' ← PushSample size now m;
  Some (tt, set_w_monitors (<[rm := m']>) w).

Definition monitor_rate (arch : float → Z) (rm : loc) (now : Z) : go world unit :=
  m ← gets (λ w, w_monitors w !! rm ≫= GetRate arch now); _ ← deref m; mret tt.

(** One packet of the video loop; [None] ends the handler. *)
Definition video_packet (arch : float → Z) (now : Z) (us : loc) (v : video_vars)
    (read : result (rtp_packet rtp_header)) : go world (option video_vars) :=
  s ← get_session us;
  let g := GroupID (s_cfg s) in
  match read with
  | Err e => when (negb (error_is e io_EOF)) (emit (IncRTCErrors g "rtp")) ;; mret None
  | Ok p =>
      let p := strip_padding p in
      monitor_push (rate_monitor v) (MarshalSize p) now ;;
      let '(ok, lim) := Allow now (vid_limiter v) in
      when ok (monitor_rate arch (rate_monitor v) now) ;;
      chs ← fan_out g (without_extensions p) (writerChs v);
      mret (Some {| outTracks := outTracks v; rate_monitor := rate_monitor v;
                    writerChs := chs; vid_limiter := lim |})
  end.

(** One packet taken by a writer; a failed write does not stop it. *)
Definition write_track (us : loc) (t : track) (p : rtp_packet rtp_header) (dur : Z) : go world unit :=
  s ← get_session us;
  r ← lib (WriteRTP t p);
  emit (if write_ok r then ObserveRTPTracksWrite (GroupID (s_cfg s)) trackTypeScreen dur
        else IncRTCErrors (GroupID (s_cfg s)) "rtp").

(** ** The negotiation goroutine *)

(** The tracks of another session a session that joins is sent; [n] is what
    [rand.Intn] returns. *)
Definition join_tracks (n : nat) (us ss : session) : list track :=
  let mime := if supportsAV1 ss && supportsAV1 us then MimeTypeAV1 else ScreenTrackMimeTypeDefault in
  option_list (outVoiceTrack ss) ++
  option_list (pickRandom n (default []
    (outScreenTracks ss !! getTrackIndex mime SimulcastLevelDefault))) ++
  option_list (outScreenAudioTrack ss).

Definition join_track (us : loc) (g : string) (t : track) : go world unit :=
  ok ← send_track us {| action := trackActionAdd; ctx_track := Some t |};
  when (negb ok) (emit (IncRTCErrors g "track")).

Definition join_session (draw : loc → nat) (us l : loc) : go world unit :=
  s ← get_session us;
  ss ← get_session l;
  if bool_decide (SessionID (s_cfg ss) = SessionID (s_cfg s)) then mret tt
  else go_iter (join_track us (GroupID (s_cfg s))) (join_tracks (draw l) s ss).

(** The beginning of [handleTracks]. *)
Definition handleTracks_join (draw : loc → nat) (c us : loc) : go world unit :=
  iterSessions c (join_session draw us).

Definition sdp_channel (us : loc) (s : session) : out_ch :=
  if dcSignaling s then ToDcSDPCh us else ToReceiveCh.

(** An action taken from [tracksCh].  When adding fails the track's identifier
    is logged: a nil track would panic there. *)
Definition handle_track_action (us : loc) (ctx : trackActionContext) (between : go world unit)
    (pick : nat) (timer : bool) : go world unit :=
  s ← get_session us;
  let out := sdp_channel us s in
  let failed := emit (IncRTCErrors (GroupID (s_cfg s)) "track") in
  if bool_decide (action ctx = trackActionAdd) then
    r ← addTrack us out (ctx_track ctx) between pick timer;
    match r with
    | Ok _ => mret tt
    | Err _ => failed ;; _ ← deref (ctx_track ctx); mret tt
    end
  else if bool_decide (action ctx = trackActionRemove) then
    r ← removeTrack us out (ctx_track ctx) between pick timer;
    match r with Ok _ => mret tt | Err _ => failed end
  else mret tt.

Definition handle_offer (us : loc) (o : offerMessage) : go world (result unit) :=
  s ← get_session us;
  r ← signaling us (o_sdp o) (o_answerCh o);
  match r with
  | Ok _ => mret (Ok tt)
  | Err e => emit (IncRTCErrors (GroupID (s_cfg s)) "signaling") ;; mret (Err e)
  end.

(** What the loop of [handleTracks] finds ready; [None] when it has to wait. *)
Inductive track_event :=
  | TrackAction (ctx : trackActionContext) (ch : chan trackActionContext)
  | OfferIn (o : offerMessage) (ch : chan offerMessage)
  | LoopEnd.

Definition track_events (s : session) : list track_event :=
  match recv (tracksCh s) with
  | inl (ctx, ch) => [TrackAction ctx ch] | inr true => [LoopEnd] | inr false => [] end ++
  match recv (sdpOfferInCh s) with
  | inl (o, ch) => [OfferIn o ch] | inr true => [LoopEnd] | inr false => [] end ++
  (if closeCh s then [LoopEnd] else []).

(** One iteration: [Some false] ends the loop. *)
Definition track_loop_step (us : loc) (pick : nat) (between : go world unit) (pick2 : nat)
    (timer : bool) : go world (option bool) :=
  s ← get_session us;
  match pickRandom pick (track_events s) with
  | None => mret None
  | Some LoopEnd => mret (Some false)
  | Some (TrackAction ctx ch) =>
      upd_session us (set_tracksCh (λ _, ch)) ;;
      handle_track_action us ctx between pick2 timer ;; mret (Some true)
  | Some (OfferIn o ch) =>
      upd_session us (set_sdpOfferInCh (λ _, ch)) ;;
      _ ← handle_offer us o; mret (Some true)
  end.

(** The loop, along a list of choices: what other goroutines do before an
    iteration and during its negotiation, and what its two [select]s pick.
    The result says whether the loop has ended. *)
Record loop_choice := {
  lc_before : go world unit;
  lc_pick : nat;
  lc_between : go world unit;
  lc_pick2 : nat;
  lc_timer : bool;
}.

Fixpoint track_loop (us : loc) (choices : list loop_choice) : go world bool :=
  match choices with
  | [] => mret false
  | ch :: choices =>
      lc_before ch ;;
      r ← track_loop_step us (lc_pick ch) (lc_between ch) (lc_pick2 ch) (lc_timer ch);
      match r with Some false => mret true | _ => track_loop us choices end
  end.

Definition close_doneCh (us : loc) : go world unit :=
  s ← get_session us;
  if doneCh s then panic else upd_session us (set_doneCh (λ _, true)).

(** The deferred close: only when it is still open. *)
Definition defer_doneCh (us : loc) : go world unit :=
  s ← get_session us;
  if doneCh s then mret tt else upd_session us (set_doneCh (λ _, true)).

(** The first [select] of [handleNegotiations]. *)
Inductive nego_event :=
  | FirstOffer (o : offerMessage) (ch : chan offerMessage)
  | OffersClosed
  | NegoTimedOut
  | NegoClosed.

Definition nego_select (pick : nat) (timer : bool) (s : session) : nego_event :=
  let ready :=
    match recv (sdpOfferInCh s) with
    | inl (o, ch) => [FirstOffer o ch] | inr true => [OffersClosed] | inr false => [] end ++
    (if timer then [NegoTimedOut] else []) ++ (if closeCh s then [NegoClosed] else []) in
  default NegoTimedOut (pickRandom pick ready).

(** The session gives up before it is connected: [doneCh] is closed first, so
    that the wait of [CloseSession] ends.  Whether the call returned. *)
Definition quit_nego (us : loc) (id : string) (cb : result unit) : go world bool :=
  close_doneCh us ;;
  r ← CloseSession id (mret tt) cb;
  mret (bool_decide (is_Some r)).

(** What became of the first negotiation: the loops are entered, or the
    goroutine returns, or it waits for itself. *)
Inductive nego_outcome := EnterLoops | Returns | Waits.

Definition quit_outcome (returned : bool) : nego_outcome := if returned then Returns else Waits.

(** [handleNegotiations] up to its loops. *)
Definition negotiate_first (us : loc) (pick : nat) (timer : bool) (cb : result unit) : go world nego_outcome :=
  s ← get_session us;
  let id := SessionID (s_cfg s) in
  let failed := emit (IncRTCErrors (GroupID (s_cfg s)) "signaling") in
  match nego_select pick timer s with
  | FirstOffer o ch =>
      upd_session us (set_sdpOfferInCh (λ _, ch)) ;;
      r ← signaling us (o_sdp o) (o_answerCh o);
      match r with
      | Ok _ => mret EnterLoops
      | Err _ => failed ;; b ← quit_nego us id cb; mret (quit_outcome b)
      end
  | NegoTimedOut => failed ;; b ← quit_nego us id cb; mret (quit_outcome b)
  | OffersClosed | NegoClosed => mret Returns
  end.

(** The whole goroutine; [c] may be nil.  Whether it ran to its end. *)
Definition handleNegotiations (us : loc) (c : option loc) (pick : nat) (timer : bool)
    (cb : result unit) (draw : loc → nat) (choices : list loop_choice) : go world bool :=
  o ← negotiate_first us pick timer cb;
  match o with
  | EnterLoops =>
      c ← deref c;
      handleTracks_join draw c us ;;
      ended ← track_loop us choices;
      when ended (defer_doneCh us) ;; mret ended
  | Returns => defer_doneCh us ;; mret true
  | Waits => mret false
  end.

(** ** Loops over a call with a known effect on each session *)
Lemma wp_iter_exact c cl (f : loc → go world unit) (g : loc → session → session) Q w :
  w_calls w !! c = Some cl → members_wf w (c_sessions cl) →
  (∀ pre l s, l ∉ pre → l ∈ range (c_sessions cl) → w_sessions w !! l = Some s → session_wf s →
    let w1 := set_w_sessions (upd_all pre g) w in
    w_sessions w1 !! l = Some s →
    wp (f l) (λ _ w2, w2 = set_w_sessions (<[l := g l s]>) w1) w1) →
  Q tt (set_w_sessions (upd_all (range (c_sessions cl)) g) w) →
  wp (iterSessions c f) Q w.
Proof.
  intros Hc Hm Hf HQ. unfold iterSessions. apply wp_bind. eapply wp_get_call; [done|].
  pose proof (members_wf_NoDup _ _ Hm) as Hnd.
  eapply wp_mono; [apply (wp_go_iter _ _ (λ pre w', w' = set_w_sessions (upd_all pre g) w))|].
  - unfold set_w_sessions. rewrite upd_all_nil. by destruct w.
  - intros pre l post w' Hl ->. destruct (elem_of_range (c_sessions cl) l) as [Hin _].
    destruct Hin as [id Hid]; [rewrite Hl; set_solver|].
    destruct (Hm id l Hid) as (s & Hs & _ & Hwf).
    assert (Hpre : l ∉ pre).
    { rewrite Hl in Hnd. apply NoDup_app in Hnd as (_ & Hnd & _). set_solver. }
    eapply wp_mono; [apply (Hf pre l s); [done|apply elem_of_range; eauto|done..|]|].
    + wsimpl. by rewrite lookup_upd_all, Hs, bool_decide_false.
    + intros [] w2 ->. unfold set_w_sessions. wsimpl. by rewrite <- (upd_all_snoc pre g _ l s).
  - intros [] w' ->. exact HQ.
Qed.

(** Looking a session up after such a loop. *)
Lemma upd_all_member cl g m l s :
  m !! l = Some s → l ∈ range (c_sessions cl) →
  upd_all (range (c_sessions cl)) g m !! l = Some (g l s).
Proof. intros Hs Hl. by rewrite lookup_upd_all, Hs, bool_decide_true. Qed.

(** What the other sessions of a call get. *)
Definition add_for (us_id : string) (t : track) (l : loc) (s : session) : session :=
  if bool_decide (SessionID (s_cfg s) = us_id) then s
  else set_tracksCh (push {| action := trackActionAdd; ctx_track := Some t |}) s.

Lemma send_add_all c cl id t Q w :
  w_calls w !! c = Some cl → members_wf w (c_sessions cl) →
  Q tt (set_w_sessions (upd_all (range (c_sessions cl)) (add_for id t)) w) →
  wp (iterSessions c (send_add id t)) Q w.
Proof.
  intros Hc Hm HQ. apply (wp_iter_exact c cl _ (add_for id t)); [done..| |done].
  intros pre l s _ _ Hs Hwf w1 Hs1. unfold send_add, add_for. apply wp_bind.
  eapply wp_get_session; [done|]. case_bool_decide.
  - apply wp_ret. unfold set_w_sessions. rewrite insert_id by done. by destruct w1.
  - apply wp_bind. eapply wp_send_track; [done|apply Hwf|]. intros b. by apply wp_ret.
Qed.

(** ** Audio *)
Lemma InitVAD_ok us s Q w :
  w_sessions w !! us = Some s →
  (∀ m, vad_wf m → voiceState m = false → Q (Ok tt) (put_session us (set_vadMonitor (λ _, Some m) s) w)) →
  wp (InitVAD us) Q w.
Proof.
  intros Hs HQ. unfold InitVAD.
  destruct (NewMonitor _ true) as [m|e] eqn:Hm; [|by vm_compute in Hm].
  pose proof (NewMonitor_wf _ _ _ Hm) as Hwf. apply NewMonitor_inv in Hm as Hinv.
  apply wp_bind. eapply wp_upd_session; [done|]. apply wp_ret, HQ; [done|].
  vm_compute in Hm. injection Hm as <-. done.
Qed.

(** The session that publishes. *)
Definition audio_published (ty : string) (t : track) (s : session) : session :=
  if bool_decide (ty = trackTypeVoice)
  then set_outVoiceTrackEnabled (λ _, true) (set_outVoiceTrack (λ _, Some t) s)
  else set_outScreenAudioTrack (λ _, Some t) s.

Lemma members_wf_put us s s' w m :
  w_sessions w !! us = Some s → s_cfg s' = s_cfg s → (session_wf s → session_wf s') →
  members_wf w m → members_wf (put_session us s' w) m.
Proof.
  intros Hs Hcfg Hwf Hm id l Hl. destruct (Hm id l Hl) as (s1 & H1 & H2 & H3).
  unfold put_session. wsimpl. destruct (decide (us = l)) as [->|Hne].
  - rewrite lookup_insert_eq. exists s'. assert (s1 = s) as -> by congruence.
    split_and!; [done|congruence|auto].
  - rewrite lookup_insert_ne by done. eauto.
Qed.

(** The sessions once an audio track is published and sent to the others. *)
Definition audio_sessions (cl : call) (us : loc) (s : session) (ty : string) (t : track)
    (m : gmap loc session) : gmap loc session :=
  upd_all (range (c_sessions cl)) (add_for (SessionID (s_cfg s)) t)
    (<[us := audio_published ty t s]> m).

Lemma audio_published_same ty t s :
  s_cfg (audio_published ty t s) = s_cfg s ∧ tracksCh (audio_published ty t s) = tracksCh s ∧
  (session_wf s → session_wf (audio_published ty t s)).
Proof. unfold audio_published. destruct s. case_bool_decide; split_and!; try done; intros []; by split. Qed.

Lemma audio_sessions_us cl us s ty t m :
  audio_sessions cl us s ty t m !! us = Some (audio_published ty t s).
Proof.
  unfold audio_sessions. rewrite lookup_upd_all, lookup_insert_eq. cbn.
  case_bool_decide; [|done]. unfold add_for. destruct (audio_published_same ty t s) as (-> & _).
  by rewrite bool_decide_true.
Qed.

Definition audio_type (rt : remote) (screenStreamID : string) : string :=
  if bool_decide (remote_StreamID rt = screenStreamID) then trackTypeScreenAudio else trackTypeVoice.

Lemma audio_start_spec us c rt rcv sid id1 id2 cl s tid t r' Q w :
  w_calls w !! c = Some cl → members_wf w (c_sessions cl) →
  w_sessions w !! us = Some s →
  genTrackID (audio_type rt sid) (SessionID (s_cfg s)) id1 = Some tid →
  NewTrackLocalStaticRTP (MimeType rtpAudioCodec) tid id2 str0 (w_rtc w) = (Ok t, r') →
  (let ty := audio_type rt sid in
   let a := {| trackType := ty; outAudioTrack := t; audioLevelExtensionID := find_extension rcv;
               hasVAD := (0 <? find_extension rcv)%Z |} in
   let w1 := set_w_sessions (audio_sessions cl us s ty t) (set_w_rtc (λ _, r') w) in
   if (0 <? find_extension rcv)%Z
   then ∀ m, vad_wf m → voiceState m = false →
     Q (Some a) (put_session us (set_vadMonitor (λ _, Some m) (audio_published ty t s)) w1)
   else Q (Some a) w1) →
  wp (audio_start us c rt rcv sid id1 id2) Q w.
Proof.
  intros Hc Hm Hs Hid Ht HQ. unfold audio_start. apply wp_bind. eapply wp_get_session; [done|].
  fold (audio_type rt sid). apply wp_bind. eapply wp_deref; [done|].
  apply wp_bind, wp_lib. intros x r Hx. rewrite Ht in Hx. injection Hx as <- <-.
  apply wp_bind. eapply wp_upd_session; [exact Hs|].
  destruct (audio_published_same (audio_type rt sid) t s) as (Hcfg & _ & Hwf).
  set (w1 := set_w_sessions _ _).
  assert (Hm1 : members_wf w1 (c_sessions cl)).
  { apply (members_wf_put us s (audio_published (audio_type rt sid) t s)
      (set_w_rtc (λ _, r') w) (c_sessions cl) Hs Hcfg Hwf Hm). }
  apply wp_bind. apply (send_add_all c cl); [exact Hc|exact Hm1|].
  cbv zeta in HQ. apply wp_bind. destruct (0 <? find_extension rcv)%Z.
  - apply wp_bind. eapply InitVAD_ok.
    { exact (audio_sessions_us cl us s (audio_type rt sid) t (w_sessions w)). }
    intros m Hmw Hst. apply wp_ret, wp_ret. by apply HQ.
  - apply wp_ret, wp_ret. exact HQ.
Qed.

(** The voice monitor's share of a packet only moves the monitor and its
    announcement. *)
Lemma push_level_spec arch now us a p s Q w :
  w_sessions w !! us = Some s → (hasVAD a = true → ∃ m, vadMonitor s = Some m ∧ vad_wf m) →
  ch_closed (receiveCh (w_server w)) = false →
  (∀ s' w', w_sessions w' !! us = Some s' → outVoiceTrackEnabled s' = outVoiceTrackEnabled s →
    s_cfg s' = s_cfg s → w_rtc w' = w_rtc w → w_metrics w' = w_metrics w → Q tt w') →
  wp (push_level arch now us a p) Q w.
Proof.
  intros Hs Hvad Ho HQ. unfold push_level. destruct (hasVAD a); [|by eapply wp_ret, HQ].
  destruct (Hvad eq_refl) as (m & Hm & Hwf).
  destruct (GetExtension p _) as [d|]; [|by eapply wp_ret, HQ].
  unfold vad_push. apply wp_bind. eapply wp_get_session; [done|]. apply wp_bind.
  eapply wp_deref; [exact Hm|].
  destruct (PushAudioLevel_wf arch (fst (audio_level d)) now m Hwf) as (m' & ev & He & _ & _).
  apply wp_bind. eapply wp_deref; [exact He|]. apply wp_bind. eapply wp_upd_session; [done|].
  unfold call_vad. destruct ev as [voice|].
  - unfold vad_callback. apply wp_bind. eapply wp_get_session; [wsimpl; apply lookup_insert_eq|].
    apply wp_bind, wp_send_receive; [done|]. intros _. apply wp_ret.
    eapply HQ; [wsimpl; apply lookup_insert_eq|done..].
  - apply wp_ret. eapply HQ; [wsimpl; apply lookup_insert_eq|done..].
Qed.

(** ** Video *)

(** The level a receiver is expected to be served at. *)
Definition expected_level (arch : float → Z) (r : rtc) (rt : remote) (ss : session) : string :=
  if bool_decide (remote_RID rt = str0) then SimulcastLevelDefault
  else match bwEstimator ss with
       | None => SimulcastLevelDefault
       | Some b => getSimulcastLevelForRate arch (GetTargetBitrate b r)
       end.

Definition screen_wanted (arch : float → Z) (r : rtc) (rt : remote) (us ss : session) : bool :=
  bool_decide (level_or_default (remote_RID rt) = expected_level arch r rt ss) &&
  wants_codec (supportsAV1 us) (supportsAV1 ss) (remote_MimeType rt).

Definition screen_for (arch : float → Z) (r : rtc) (draw : loc → nat) (us : session) (rt : remote)
    (tracks : list track) (l : loc) (s : session) : session :=
  if bool_decide (SessionID (s_cfg s) = SessionID (s_cfg us)) then s
  else if screen_wanted arch r rt us s
  then set_tracksCh (push {| action := trackActionAdd; ctx_track := pickRandom (draw l) tracks |}) s
  else s.

Lemma send_screen_all arch draw c cl us rt tracks Q w :
  w_calls w !! c = Some cl → members_wf w (c_sessions cl) →
  Q tt (set_w_sessions (upd_all (range (c_sessions cl))
    (screen_for arch (w_rtc w) draw us rt tracks)) w) →
  wp (iterSessions c (send_screen arch draw us rt (level_or_default (remote_RID rt)) tracks)) Q w.
Proof.
  intros Hc Hm HQ. apply (wp_iter_exact c cl _ (screen_for arch (w_rtc w) draw us rt tracks)); [done..| |done].
  intros pre l s _ _ Hs Hwf w1 Hs1.
  assert (Hsame : set_w_sessions (<[l := s]>) w1 = w1).
  { unfold set_w_sessions. rewrite insert_id by done. by destruct w1. }
  unfold send_screen, screen_for. apply wp_bind. eapply wp_get_session; [done|].
  case_bool_decide as Hid; [by apply wp_ret|].
  assert (Hlvl : wp (if bool_decide (remote_RID rt = str0) then mret SimulcastLevelDefault
    else getExpectedSimulcastLevel arch l)
    (λ lv w2, lv = expected_level arch (w_rtc w) rt s ∧ w2 = w1) w1).
  { unfold expected_level. case_bool_decide; [by apply wp_ret|]. unfold getExpectedSimulcastLevel.
    apply wp_bind. eapply wp_get_session; [done|]. destruct (bwEstimator s); [|by apply wp_ret].
    apply wp_bind, wp_lib_read. by apply wp_ret. }
  apply wp_bind. eapply wp_mono; [exact Hlvl|]. intros lv w2 [-> ->]. unfold screen_wanted.
  destruct (decide (level_or_default (remote_RID rt) = expected_level arch (w_rtc w) rt s)) as [He|He].
  2: { rewrite (bool_decide_true (_ ≠ _)), (bool_decide_false (_ = _)) by done. by apply wp_ret. }
  rewrite (bool_decide_false (_ ≠ _)), (bool_decide_true (_ = _)) by auto. cbn [andb].
  destruct (wants_codec _ _ _); [|by apply wp_ret].
  apply wp_bind. eapply wp_send_track; [done|apply Hwf|]. intros b. by apply wp_ret.
Qed.

Definition screen_published (idx : string) (rml : loc) (rt : remote) (tracks : list track)
    (s : session) : session :=
  set_screenRateMonitors (<[idx := rml]>) (set_remoteScreenTracks (<[idx := rt]>)
    (set_outScreenTracks (<[idx := tracks]>) s)).

Lemma screen_published_same idx rml rt tracks s :
  s_cfg (screen_published idx rml rt tracks s) = s_cfg s ∧
  (session_wf s → session_wf (screen_published idx rml rt tracks s)).
Proof. destruct s. split; [done|]. intros []. by split. Qed.

Lemma known_level_monitor rid :
  rid = SimulcastLevelHigh ∨ rid = SimulcastLevelLow →
  ∃ rm, NewRateMonitor (default 0%Z (simulcastRateMonitorSampleSizes !! rid)) = Ok rm.
Proof. intros [-> | ->]; eexists; vm_compute; reflexivity. Qed.

Lemma unknown_level_monitor rid :
  rid ≠ SimulcastLevelHigh → rid ≠ SimulcastLevelLow →
  ∃ e, NewRateMonitor (default 0%Z (simulcastRateMonitorSampleSizes !! rid)) = Err e.
Proof.
  intros Hh Hl. unfold simulcastRateMonitorSampleSizes.
  rewrite lookup_insert_ne, lookup_singleton_ne by done. eexists. reflexivity.
Qed.

Lemma video_start_spec arch NumCPU draw ids us c rt sid cl s tracks r1 Q w :
  w_calls w !! c = Some cl → members_wf w (c_sessions cl) → w_sessions w !! us = Some s →
  sid = str0 ∨ sid = remote_StreamID rt →
  createOutScreenTracks ids (SessionID (s_cfg s)) (remote_MimeType rt) (remote_RID rt) NumCPU w =
    Some (Ok tracks, set_w_rtc (λ _, r1) w) →
  level_or_default (remote_RID rt) = SimulcastLevelHigh ∨
    level_or_default (remote_RID rt) = SimulcastLevelLow →
  (let idx := getTrackIndex (remote_MimeType rt) (level_or_default (remote_RID rt)) in
   let s1 := screen_published idx (w_next w) rt tracks s in
   ∀ v w', outTracks v = tracks → writerChs v = replicate (length tracks) (make_chan writerQueueSize) →
     rate_monitor v = w_next w →
     w_sessions w' = upd_all (range (c_sessions cl)) (screen_for arch r1 draw s1 rt tracks)
       (<[us := s1]> (w_sessions w)) → w_metrics w' = w_metrics w → Q (Some v) w') →
  wp (video_start arch NumCPU draw ids us c rt sid) Q w.
Proof.
  intros Hc Hm Hs Hsid Hcreate Hlvl HQ. unfold video_start.
  assert (Hgo : bool_decide (sid ≠ str0) && bool_decide (sid ≠ remote_StreamID rt) = false).
  { destruct Hsid as [-> | ->]; [by rewrite bool_decide_false by auto|].
    rewrite (bool_decide_false (remote_StreamID rt ≠ remote_StreamID rt)) by auto. apply andb_false_r. }
  rewrite Hgo. apply wp_bind. eapply wp_get_session; [done|]. apply wp_bind.
  unfold wp at 1. rewrite Hcreate. destruct (known_level_monitor _ Hlvl) as [rm ->].
  apply wp_bind, wp_alloc_monitor. apply wp_bind. eapply wp_upd_session; [exact Hs|].
  set (s1 := set_screenRateMonitors _ _). apply wp_bind. eapply wp_get_session; [apply lookup_insert_eq|].
  set (w1 := set_w_sessions _ _).
  assert (Hm1 : members_wf w1 (c_sessions cl)).
  { destruct (screen_published_same (getTrackIndex (remote_MimeType rt) (level_or_default (remote_RID rt)))
      (w_next w) rt tracks s) as [Hcfg Hwf].
    exact (members_wf_put us s s1 w (c_sessions cl) Hs Hcfg Hwf Hm). }
  apply wp_bind. apply (send_screen_all arch draw c cl s1); [exact Hc|exact Hm1|].
  apply wp_ret. by apply HQ.
Qed.

(** ** Negotiation *)

(** A step that keeps the registry and the session's life, with the output
    channels open. *)
Record live_same (us : loc) (w w' : world) : Prop := {
  ls_reg : reg_same w w';
  ls_done : ∀ s, w_sessions w !! us = Some s →
    ∃ s', w_sessions w' !! us = Some s' ∧ s_cfg s' = s_cfg s ∧ doneCh s' = doneCh s;
  ls_recv : ch_closed (receiveCh (w_server w')) = ch_closed (receiveCh (w_server w));
}.

#[export] Instance live_same_preorder us : PreOrder (live_same us).
Proof.
  split.
  - intros w. split; [done| |done]. eauto.
  - intros w1 w2 w3 [] []. split; [by etrans| |congruence]. intros s Hs.
    destruct (ls_done0 s Hs) as (s2 & H2 & H3 & H4). destruct (ls_done1 s2 H2) as (s3 & H5 & H6 & H7).
    exists s3. split_and!; congruence.
Qed.

Lemma live_same_rtc us r w : live_same us w (set_w_rtc (λ _, r) w).
Proof. split; [by split|eauto|done]. Qed.

Lemma live_same_metrics us f w : live_same us w (set_w_metrics f w).
Proof. split; [by split|eauto|done]. Qed.

Lemma live_same_put us us' s s' w :
  w_sessions w !! us' = Some s → keeps s s' → doneCh s' = doneCh s →
  live_same us w (put_session us' s' w).
Proof.
  intros Hs Hk Hd. split; [by eapply reg_same_put| |done]. intros s1 Hs1. unfold put_session. wsimpl.
  destruct (decide (us' = us)) as [->|Hne].
  - rewrite lookup_insert_eq. exists s'. assert (s1 = s) as -> by congruence.
    split_and!; [done|apply Hk|done].
  - rewrite lookup_insert_ne by done. eauto.
Qed.

Lemma live_same_out us o m Q w :
  out_ready o w → (∀ b w', live_same us w w' → Q b w') → wp (send_out o m) Q w.
Proof.
  intros Ho HQ. destruct o as [|l].
  - apply wp_send_receive; [done|]. intros b. apply HQ. split; [apply reg_same_receive|eauto|].
    cbn. apply push_closed.
  - destruct Ho as (s & Hs & Hc). unfold send_out. apply wp_bind. eapply wp_get_session; [done|].
    eapply (wp_send_session _ _ _ dcSDPCh set_dcSDPCh); [done|done|by destruct s|]. intros b _.
    apply HQ. apply (live_same_put us l s (set_dcSDPCh (λ _, push m (dcSDPCh s)) s)); [done|keep|done].
Qed.

Lemma signaling_live us o ch s Q w :
  w_sessions w !! us = Some s → session_wf s → out_ready ch w →
  (∀ r w', live_same us w w' → Q r w') → wp (signaling us o ch) Q w.
Proof.
  intros Hs Hwf Ho HQ. unfold signaling. apply wp_bind. unfold hasSignalingConflict.
  apply wp_bind. eapply wp_get_session; [done|]. destruct (sw_conn _ Hwf) as [conn Hconn].
  rewrite Hconn. apply wp_bind, wp_lib_read, wp_ret.
  destruct (makingOffer s || _); [by apply wp_ret, HQ|].
  apply wp_bind. eapply wp_get_session; [done|]. apply wp_bind. eapply wp_deref; [done|].
  unfold bind_res. apply wp_bind, wp_lib. intros r1 x1 _. set (w1 := set_w_rtc _ w).
  assert (H1 : live_same us w w1) by apply live_same_rtc.
  destruct r1; [|by apply wp_ret, HQ]. apply wp_bind, wp_lib. intros r2 x2 _.
  set (w2 := set_w_rtc _ w1). assert (H2 : live_same us w w2) by (etrans; [exact H1|apply live_same_rtc]).
  destruct r2 as [answer|]; [|by apply wp_ret, HQ]. apply wp_bind, wp_lib. intros r3 x3 _.
  set (w3 := set_w_rtc _ w2). assert (H3 : live_same us w w3) by (etrans; [exact H2|apply live_same_rtc]).
  destruct r3; [|by apply wp_ret, HQ]. apply wp_bind, wp_lib_read. apply wp_bind, wp_ret.
  destruct (json_Marshal_sdp _) as [js|]; [|by apply wp_ret, HQ].
  apply wp_bind. eapply (live_same_out us); [by destruct ch|]. intros b w4 H4. apply wp_ret, HQ.
  by etrans.
Qed.

(** Giving up takes the session out and closes its channels. *)
Definition gone (us : loc) (cfg : SessionConfig) (w w' : world) : Prop :=
  (∃ s', w_sessions w' !! us = Some s' ∧ doneCh s' = true ∧ closeCh s' = true) ∧
  (∀ g c i, ¬ in_call w' g c i us) ∧
  srv_sessions (w_server w') = delete (SessionID cfg) (srv_sessions (w_server w)) ∧ reg_wf w'.

Lemma quit_spec `{!PionLaws env_pion} us cfg cb s Q w :
  reg_wf w → srv_sessions (w_server w) !! SessionID cfg = Some cfg →
  in_call w (GroupID cfg) (CallID cfg) (SessionID cfg) us →
  w_sessions w !! us = Some s → doneCh s = false →
  (∀ w', gone us cfg w w' → Q true w') → wp (quit_nego us (SessionID cfg) cb) Q w.
Proof.
  intros Hw He Hin Hs Hd HQ. unfold quit_nego, close_doneCh. apply wp_bind, wp_bind.
  eapply wp_get_session; [done|]. rewrite Hd. eapply wp_upd_session; [done|].
  set (s1 := set_doneCh (λ _, true) s). fold (put_session us s1 w). set (w1 := put_session us s1 w).
  assert (Hsame : reg_same w w1) by (eapply reg_same_put; [done|unfold s1; keep]).
  assert (Hw1 : reg_wf w1) by (by eapply reg_same_wf).
  apply wp_bind. unfold CloseSession. apply wp_bind.
  eapply CloseSession_run_spec; [exact Hw1|by rewrite (rs_entries _ _ Hsame)|].
  intros gl cl us' gr call s' w2 Hp Hm Hr.
  assert (us' = us) as ->.
  { eapply (in_call_fun w1 (GroupID cfg) (CallID cfg) (SessionID cfg)).
    - exists cl, call. split_and!; [by eapply placed_at_call|apply Hp|apply Hp].
    - by apply (reg_same_in_call w w1). }
  destruct (rm_us _ _ _ _ _ _ _ _ _ Hr) as (s2 & Hs2 & Hcl & _ & Hdone & _).
  assert (s' = s1) as ->.
  { pose proof (pl_s _ _ _ _ _ _ _ _ Hp) as H. unfold w1, put_session in H. wsimpl in *.
    rewrite lookup_insert_eq in H. congruence. }
  apply wp_bind, wp_ret. apply wp_bind. eapply wp_get_session; [done|]. apply wp_ret. rewrite Hdone. cbn [doneCh s1].
  apply wp_ret, HQ.
  split_and!; [by exists s2| | |by eapply removed_wf].
  - intros g c i Hi. apply (removed_in_call cfg gl cl us gr call s1 w1 w2) in Hi as [Hi Hk]; [|done..].
    by eapply (member_not_us cfg gl cl us gr call s1 w1); [exact Hw1|exact Hp|exact Hr|exact Hi|exact Hk|].
  - by rewrite (rm_entries _ _ _ _ _ _ _ _ _ Hr), (rs_entries _ _ Hsame).
Qed.

Lemma gone_same us cfg w w1 w2 : reg_same w w1 → gone us cfg w1 w2 → gone us cfg w w2.
Proof. intros Hs (H1 & H2 & H3 & H4). split_and!; [done..| |done]. by rewrite H3, (rs_entries _ _ Hs). Qed.

Lemma nego_select_offer pick timer s o ch :
  nego_select pick timer s = FirstOffer o ch →
  ∃ buf, ch_buf (sdpOfferInCh s) = o :: buf ∧
    ch = Chan (ch_cap (sdpOfferInCh s)) buf (ch_closed (sdpOfferInCh s)).
Proof.
  unfold nego_select. destruct (pickRandom pick _) as [ev|] eqn:Hp; [|done]. cbn. intros ->.
  apply pickRandom_elem in Hp. rewrite !elem_of_app in Hp. destruct Hp as [Hp|[Hp|Hp]].
  - unfold recv in Hp. destruct (ch_buf (sdpOfferInCh s)) as [|x buf].
    + destruct (ch_closed _); [apply list_elem_of_singleton in Hp; done|by apply not_elem_of_nil in Hp].
    + apply list_elem_of_singleton in Hp. injection Hp as -> ->. eauto.
  - destruct timer; [by apply list_elem_of_singleton in Hp|by apply not_elem_of_nil in Hp].
  - destruct (closeCh s); [by apply list_elem_of_singleton in Hp|by apply not_elem_of_nil in Hp].
Qed.

Lemma negotiate_quit us c pick timer cb draw choices s w :
  w_sessions w !! us = Some s → doneCh s = false →
  nego_select pick timer s = OffersClosed ∨ nego_select pick timer s = NegoClosed →
  handleNegotiations us c pick timer cb draw choices w =
    Some (true, put_session us (set_doneCh (λ _, true) s) w).
Proof.
  intros Hs Hd Hsel.
  assert (Hwp : wp (handleNegotiations us c pick timer cb draw choices)
    (λ b w', b = true ∧ w' = put_session us (set_doneCh (λ _, true) s) w) w).
  { unfold handleNegotiations, negotiate_first. apply wp_bind, wp_bind.
    eapply wp_get_session; [done|]. cbv zeta.
    destruct Hsel as [-> | ->]; apply wp_ret; apply wp_bind; unfold defer_doneCh; apply wp_bind;
      (eapply wp_get_session; [done|]); rewrite Hd; (eapply wp_upd_session; [done|]); by apply wp_ret. }
  by apply wp_inv in Hwp as (? & ? & ? & -> & ->).
Qed.

(** A failed negotiation, from any state the session's own steps lead to. *)
Lemma negotiation_failed `{!PionLaws env_pion} us cb cfg s w w1 :
  reg_wf w → srv_sessions (w_server w) !! SessionID cfg = Some cfg →
  in_call w (GroupID cfg) (CallID cfg) (SessionID cfg) us → s_cfg s = cfg →
  reg_same w w1 → (∃ s1, w_sessions w1 !! us = Some s1 ∧ doneCh s1 = false) →
  wp (emit (IncRTCErrors (GroupID (s_cfg s)) "signaling") ;;
      b ← quit_nego us (SessionID (s_cfg s)) cb; mret (quit_outcome b))
    (λ b w', b = Returns ∧ gone us cfg w w') w1.
Proof.
  intros Hw He Hin Hcfg Hsame (s1 & Hs1 & Hd1). rewrite Hcfg. apply wp_bind, wp_emit.
  set (w2 := set_w_metrics _ w1).
  assert (Hsame2 : reg_same w w2) by (etrans; [exact Hsame|by split]).
  apply wp_bind. eapply (quit_spec us cfg cb s1); [by eapply reg_same_wf| | |exact Hs1|exact Hd1|].
  - by rewrite (rs_entries _ _ Hsame2).
  - by apply (reg_same_in_call w w2).
  - intros w' Hg. apply wp_ret. split; [done|]. by eapply gone_same.
Qed.

Lemma gone_done us cfg w w1 :
  gone us cfg w w1 → wp (defer_doneCh us ;; mret true) (λ b w', b = true ∧ gone us cfg w w') w1.
Proof.
  intros Hg. pose proof Hg as ((s' & Hs' & Hd' & _) & _). apply wp_bind. unfold defer_doneCh.
  apply wp_bind. eapply wp_get_session; [done|]. rewrite Hd'. by apply wp_ret, wp_ret.
Qed.

(** ** Joining *)

Lemma put_put us s1 s2 w : put_session us s2 (put_session us s1 w) = put_session us s2 w.
Proof. unfold put_session, set_w_sessions. wsimpl. by rewrite insert_insert_eq. Qed.

(** The sessions whose tracks a joining session is sent. *)
Definition others (w : world) (id : string) (ls : list loc) : list (loc * session) :=
  filter (λ p, SessionID (s_cfg p.2) ≠ id) (omap (λ l, pair l <$> w_sessions w !! l) ls).

Lemma others_length w id ls : length (others w id ls) ≤ length ls.
Proof.
  unfold others. etrans; [apply length_filter|]. induction ls as [|l ls IH]; [done|]. cbn.
  destruct (pair l <$> w_sessions w !! l); cbn; lia.
Qed.

Definition add_action (t : track) : trackActionContext :=
  {| action := trackActionAdd; ctx_track := Some t |}.

Definition with_queue (buf : list trackActionContext) (s : session) : session :=
  set_tracksCh (λ ch, Chan (ch_cap ch) buf (ch_closed ch)) s.

Lemma with_queue_id s : with_queue (ch_buf (tracksCh s)) s = s.
Proof. unfold with_queue. destruct s as [? ? [] ]. done. Qed.

Lemma join_track_all us s g ts Q w buf :
  w_sessions w !! us = Some (with_queue buf s) → ch_closed (tracksCh s) = false →
  length buf + length ts ≤ ch_cap (tracksCh s) →
  Q tt (put_session us (with_queue (buf ++ (add_action <$> ts)) s) w) →
  wp (go_iter (join_track us g) ts) Q w.
Proof.
  revert buf w. induction ts as [|t ts IH]; intros buf w Hs Ho Hroom HQ.
  - apply wp_ret. cbn in HQ. rewrite app_nil_r in HQ. by rewrite put_session_id in HQ.
  - cbn [go_iter]. apply wp_bind. unfold join_track. apply wp_bind. unfold send_track, send_on.
    apply wp_bind. eapply wp_get_session; [done|].
    rewrite try_send_open; [|exact Ho|].
    2: { change (length buf < ch_cap (tracksCh s)). cbn in Hroom. lia. }
    assert (Hq : set_tracksCh (λ _, Chan (ch_cap (tracksCh (with_queue buf s)))
      (ch_buf (tracksCh (with_queue buf s)) ++ [add_action t]) false) (with_queue buf s) =
      with_queue (buf ++ [add_action t]) s) by (unfold with_queue, set_tracksCh; cbn; by rewrite Ho).
    apply wp_bind. eapply wp_upd_session; [done|]. fold (add_action t). rewrite Hq.
    apply wp_ret. unfold when, negb. apply wp_ret. eapply (IH (buf ++ [add_action t])); [|done| |].
    + wsimpl. by rewrite lookup_insert_eq.
    + rewrite length_app. cbn in *. lia.
    + unfold put_session, set_w_sessions in *. wsimpl. rewrite insert_insert_eq.
      rewrite <- app_assoc. exact HQ.
Qed.

Definition joined_with (draw : loc → nat) (s : session) (p : loc * session) : list track :=
  join_tracks (draw p.1) s p.2.

Lemma bind_concat {A B} (f : A → list B) l : l ≫= f = concat (f <$> l).
Proof. induction l as [|x l IH]; [done|]. cbn. by rewrite <- IH. Qed.

Lemma join_all draw us s ls Q w buf :
  let w1 := put_session us (with_queue buf s) w in
  w_sessions w !! us = Some s → ch_closed (tracksCh s) = false →
  (∀ l, l ∈ ls → ∃ s', w_sessions w !! l = Some s' ∧ (l ≠ us → SessionID (s_cfg s') ≠ SessionID (s_cfg s))) →
  length buf + length (others w (SessionID (s_cfg s)) ls ≫= joined_with draw s) ≤ ch_cap (tracksCh s) →
  Q tt (put_session us (with_queue
    (buf ++ (add_action <$> (others w (SessionID (s_cfg s)) ls ≫= joined_with draw s))) s) w) →
  wp (go_iter (join_session draw us) ls) Q w1.
Proof.
  cbv zeta. intros Hs Ho. revert buf. induction ls as [|l ls IH]; intros buf Hls Hroom HQ.
  - apply wp_ret. cbn in HQ. by rewrite app_nil_r in HQ.
  - destruct (Hls l ltac:(left)) as (s' & Hs' & Hid). unfold others in Hroom, HQ. cbn [omap list_omap] in Hroom, HQ.
    rewrite Hs' in Hroom, HQ. cbn [fmap option_fmap option_map] in Hroom, HQ. rewrite filter_cons in Hroom, HQ.
    cbn [snd] in Hroom, HQ.
    cbn [go_iter]. apply wp_bind. unfold join_session. apply wp_bind.
    eapply wp_get_session; [apply lookup_insert_eq|]. apply wp_bind.
    destruct (decide (l = us)) as [->|Hne].
    + eapply wp_get_session; [apply lookup_insert_eq|]. rewrite bool_decide_true by done.
      assert (s' = s) as -> by congruence. rewrite decide_False in Hroom, HQ by auto.
      apply wp_ret. apply IH; [intros x Hx; apply Hls; by right|done|done].
    + specialize (Hid Hne). rewrite decide_True in Hroom, HQ by done.
      eapply wp_get_session; [unfold put_session; wsimpl; by rewrite lookup_insert_ne|].
      rewrite bool_decide_false by (by destruct s).
      cbn [mbind list_bind] in Hroom, HQ. rewrite length_app in Hroom. rewrite fmap_app, app_assoc in HQ.
      assert (Hj : join_tracks (draw l) (with_queue buf s) s' = joined_with draw s (l, s')) by (by destruct s).
      rewrite Hj. eapply join_track_all; [apply lookup_insert_eq|done|lia|].
      rewrite put_put.
      apply IH; [intros x Hx; apply Hls; by right| |exact HQ].
      rewrite length_app, length_fmap. unfold others. lia.
Qed.

(** ** What a session is sent of another *)

(** A presenter that supports AV1 publishes both codecs, one that does not
    publishes VP8 alone. *)
Definition publishes (presenter : session) (mime : string) : Prop :=
  mime = MimeTypeVP8 ∨ mime = MimeTypeAV1 ∧ supportsAV1 presenter = true.

Definition screen_copies (presenter : session) (mime : string) : list track :=
  default [] (outScreenTracks presenter !! getTrackIndex mime SimulcastLevelLow).

(** The requests for the tracks of [presenter] that [viewer] finds in its queue
    when it joins: its voice, one copy of its screen, at the low level and in
    the codec [viewer] takes of those [presenter] publishes, and its screen's
    audio; what there is of them, in this order. *)
Definition sent_on_join (viewer presenter : session) (ts : list track) : Prop :=
  ∃ screen,
    ts = match outVoiceTrack presenter with Some t => [t] | None => [] end ++ screen ++
         match outScreenAudioTrack presenter with Some t => [t] | None => [] end ∧
    ∀ mime, publishes presenter mime →
      wants_codec (supportsAV1 presenter) (supportsAV1 viewer) mime = true →
      if bool_decide (screen_copies presenter mime = []) then screen = []
      else ∃ t, screen = [t] ∧ t ∈ screen_copies presenter mime.

Lemma wants_VP8 `{!PionLaws env_pion} a b : wants_codec a b MimeTypeVP8 = negb (a && b).
Proof.
  pose proof mime_distinct as Hd. apply NoDup_cons in Hd as [_ [Hd _]%NoDup_cons].
  assert (Hne : MimeTypeVP8 ≠ MimeTypeAV1) by set_solver.
  unfold wants_codec, ScreenTrackMimeTypeDefault.
  rewrite bool_decide_true, (bool_decide_false (MimeTypeVP8 = MimeTypeAV1)) by done. by destruct a, b.
Qed.

Lemma wants_AV1 `{!PionLaws env_pion} a b : wants_codec a b MimeTypeAV1 = b.
Proof.
  pose proof mime_distinct as Hd. apply NoDup_cons in Hd as [_ [Hd _]%NoDup_cons].
  assert (Hne : MimeTypeVP8 ≠ MimeTypeAV1) by set_solver.
  unfold wants_codec, ScreenTrackMimeTypeDefault.
  rewrite (bool_decide_false (MimeTypeAV1 = MimeTypeVP8)), bool_decide_true by done. by destruct b.
Qed.

(** Exactly one of the codecs that are published is taken. *)
Lemma codec_taken `{!PionLaws env_pion} viewer presenter mime :
  publishes presenter mime → wants_codec (supportsAV1 presenter) (supportsAV1 viewer) mime = true →
  mime = if supportsAV1 presenter && supportsAV1 viewer then MimeTypeAV1 else MimeTypeVP8.
Proof.
  intros [-> |[-> Hp]]; [rewrite wants_VP8|rewrite wants_AV1, Hp]; [|by intros ->].
  by destruct (_ && _).
Qed.

(** Three tracks at most for each presenter. *)
Lemma sent_on_join_length `{!PionLaws env_pion} viewer presenter ts :
  sent_on_join viewer presenter ts → length ts ≤ 3.
Proof.
  intros (screen & -> & Hs).
  set (mime := if supportsAV1 presenter && supportsAV1 viewer then MimeTypeAV1 else MimeTypeVP8).
  assert (length screen ≤ 1) as Hl.
  { assert (publishes presenter mime) as Hp.
    { unfold publishes, mime. destruct (supportsAV1 presenter), (supportsAV1 viewer); auto. }
    assert (wants_codec (supportsAV1 presenter) (supportsAV1 viewer) mime = true) as Hw.
    { unfold mime. destruct (supportsAV1 presenter), (supportsAV1 viewer); cbn; by rewrite ?wants_AV1, ?wants_VP8. }
    specialize (Hs mime Hp Hw). case_bool_decide; [subst; cbn; lia|]. by destruct Hs as (t & -> & _). }
  rewrite !length_app. repeat case_match; cbn; lia.
Qed.

Lemma catch_up_length `{!PionLaws env_pion} viewer (ps : list (loc * session)) tss :
  Forall2 (λ p, sent_on_join viewer p.2) ps tss → length (concat tss) ≤ 3 * length ps.
Proof.
  induction 1 as [|p ts ps tss H%sent_on_join_length _ IH]; cbn; [lia|]. rewrite length_app. lia.
Qed.

Lemma join_tracks_sent `{!PionLaws env_pion} n viewer presenter :
  sent_on_join viewer presenter (join_tracks n viewer presenter).
Proof.
  unfold join_tracks. exists (option_list (pickRandom n (screen_copies presenter
    (if supportsAV1 presenter && supportsAV1 viewer then MimeTypeAV1 else MimeTypeVP8)))).
  split; [by destruct (outVoiceTrack presenter), (outScreenAudioTrack presenter)|].
  intros mime Hp Hw. rewrite (codec_taken viewer presenter mime Hp Hw). case_bool_decide as He; [by rewrite He|].
  destruct (pickRandom n _) as [t|] eqn:Ht.
  - exists t. split; [done|]. by eapply pickRandom_elem.
  - by apply pickRandom_none in Ht.
Qed.

End sfu.

(** ** A concrete peer: a voice and a screen track of session a of
    [ToyWorld.toy_world]. *)
Module ToyPeer.
Import Toy.
Definition voice_in : @remote (@env_pion toy_env) := TR KindAudio "audio/opus" "mic" "" 1.
Definition screen_in : @remote (@env_pion toy_env) := TR KindVideo "video/VP8" "screen" "h" 2.
Definition voice_out : @track (@env_pion toy_env) := TT "voice_a_xxxxxxxx" KindAudio "" "audio/opus" 0.
Definition screen_out : @track (@env_pion toy_env) := TT "screen_a_xxxxxxxx" KindVideo "h" "video/VP8" 0.
Definition packet : rtp_packet (@rtp_header (@env_pion toy_env)) := {|
  Padding := true; PaddingSize := 3; Extension := false; Extensions := []; Payload := "";
  rtp_rest := tt |}.
Definition audio : audio_vars (E := toy_env) := {|
  trackType := trackTypeVoice; outAudioTrack := voice_out; audioLevelExtensionID := 0;
  hasVAD := false |}.
Definition video : video_vars (E := toy_env) := {|
  outTracks := [screen_out]; rate_monitor := 10; writerChs := [make_chan writerQueueSize; make_chan 0];
  vid_limiter := (0%Z : @limiter (@env_pion toy_env)) |}.
Definition monitor : RateMonitor :=
  {| samples := []; samplesPtr := 0; samplingSize := 2 * second; filled := false |}.
Definition watched : world (E := toy_env) :=
  set_w_monitors (E := toy_env) (λ _, {[10%positive := monitor]}) ToyWorld.toy_world.
End ToyPeer.

(** ** Properties *)

(** C3: a new audio track reaches everybody else in the call and nobody twice.
    When the library accepts the local track, the publisher's session records
    it (as its voice, enabled, or as its screen's audio, depending on the
    stream it belongs to), every other session of the call gets exactly one
    request to add it (unless its queue is full), and the publisher's own queue
    is left alone. *)
Theorem audio_fanout {E : Env} us c rt rcv sid id1 id2 cl s tid t r' w :
  w_calls w !! c = Some cl → members_wf w (c_sessions cl) →
  w_sessions w !! us = Some s → us ∈ range (c_sessions cl) →
  genTrackID (audio_type rt sid) (SessionID (s_cfg s)) id1 = Some tid →
  NewTrackLocalStaticRTP (MimeType rtpAudioCodec) tid id2 str0 (w_rtc w) = (Ok t, r') →
  ∃ a w', audio_start us c rt rcv sid id1 id2 w = Some (Some a, w') ∧ outAudioTrack a = t ∧
    (∀ l s', l ≠ us → l ∈ range (c_sessions cl) → w_sessions w !! l = Some s' →
      w_sessions w' !! l =
        Some (set_tracksCh (push {| action := trackActionAdd; ctx_track := Some t |}) s')) ∧
    (∀ l, l ∉ range (c_sessions cl) → w_sessions w' !! l = w_sessions w !! l) ∧
    ∃ s', w_sessions w' !! us = Some s' ∧ tracksCh s' = tracksCh s ∧
      if bool_decide (remote_StreamID rt = sid)
      then outScreenAudioTrack s' = Some t ∧ outVoiceTrack s' = outVoiceTrack s ∧
           outVoiceTrackEnabled s' = outVoiceTrackEnabled s
      else outVoiceTrack s' = Some t ∧ outVoiceTrackEnabled s' = true ∧
           outScreenAudioTrack s' = outScreenAudioTrack s.
Proof.
  intros Hc Hm Hs Hin Hid Ht. set (ty := audio_type rt sid) in *.
  assert (Hother : ∀ l s', l ≠ us → l ∈ range (c_sessions cl) → w_sessions w !! l = Some s' →
    audio_sessions cl us s ty t (w_sessions w) !! l =
      Some (set_tracksCh (push {| action := trackActionAdd; ctx_track := Some t |}) s')).
  { intros l s' Hl Hlin Hs'. unfold audio_sessions. rewrite lookup_upd_all, lookup_insert_ne, Hs' by done.
    cbn. rewrite bool_decide_true by done. unfold add_for. rewrite bool_decide_false; [done|].
    apply elem_of_range in Hin as [i Hi], Hlin as [j Hj].
    destruct (Hm i us Hi) as (s1 & E1 & E2 & _), (Hm j l Hj) as (s2 & F1 & F2 & _). intros Heq.
    apply Hl. assert (i = j) as -> by congruence. congruence. }
  assert (Hout : ∀ l, l ∉ range (c_sessions cl) →
    audio_sessions cl us s ty t (w_sessions w) !! l = w_sessions w !! l).
  { intros l Hl. unfold audio_sessions. rewrite lookup_upd_all, lookup_insert_ne by (by intros ->).
    destruct (w_sessions w !! l); [|done]. cbn. by rewrite bool_decide_false. }
  set (done_with := λ (a : option audio_vars) w', ∃ av x, a = Some av ∧ outAudioTrack av = t ∧
    w_sessions w' = <[us := set_vadMonitor (λ _, x) (audio_published ty t s)]>
      (audio_sessions cl us s ty t (w_sessions w))).
  assert (Hwp : wp (audio_start us c rt rcv sid id1 id2) done_with w).
  { eapply audio_start_spec; [done..|]. cbv zeta. fold ty. destruct (0 <? find_extension rcv)%Z.
    - intros m _ _. eexists _, (Some m). split_and!; [done|done|done].
    - eexists _, (vadMonitor (audio_published ty t s)). split_and!; [done|done|]. wsimpl.
      rewrite insert_id; [done|]. rewrite audio_sessions_us. f_equal. by destruct (audio_published ty t s). }
  apply wp_inv in Hwp as (a & w' & Hrun & av & x & -> & Hav & Hw'). exists av, w'.
  split_and!; [done|done| | |].
  - intros l s' Hl Hlin Hs'. rewrite Hw', lookup_insert_ne by done. by apply Hother.
  - intros l Hl. rewrite Hw', lookup_insert_ne by (by intros ->). by apply Hout.
  - eexists. rewrite Hw', lookup_insert_eq. split; [done|].
    unfold audio_published, ty, audio_type. destruct s.
    destruct (decide (remote_StreamID rt = sid)) as [He|He].
    + rewrite !(bool_decide_true _ He), (bool_decide_false (trackTypeScreenAudio = _)) by done. done.
    + rewrite !(bool_decide_false _ He), (bool_decide_true (trackTypeVoice = _)) by done. done.
Qed.

Lemma audio_fanout_witness :
  ∃ a w', audio_start (E := toy_env) 3 2 ToyPeer.voice_in [] "" "xxxxxxxx" "y" ToyWorld.toy_world =
      Some (Some a, w') ∧ outAudioTrack a = ToyPeer.voice_out.
Proof.
  destruct (audio_fanout (E := toy_env) 3 2 ToyPeer.voice_in [] "" "xxxxxxxx" "y" ToyWorld.toy_call
    (ToyWorld.toy_session "a" 0) "voice_a_xxxxxxxx" ToyPeer.voice_out Toy.toy_empty ToyWorld.toy_world)
    as (a & w' & Hrun & Ha & _).
  - reflexivity.
  - exact toy_members_wf.
  - reflexivity.
  - apply elem_of_range. exists "a"%string. reflexivity.
  - reflexivity.
  - reflexivity.
  - exists a, w'. auto.
Defined.

(** A voice track is forwarded exactly while it is enabled.  A packet that
    was read is written to the local track, its padding flag cleared when the
    payload is empty, and one write is recorded (or one error, which ends the
    handler); while the voice is disabled the packet reaches neither the track
    nor the metrics, and the handler goes on reading. *)
Theorem voice_forwarded_iff_enabled {E : Env} arch now dur us a p s w :
  w_sessions w !! us = Some s → trackType a = trackTypeVoice →
  (hasVAD a = true → ∃ m, vadMonitor s = Some m ∧ vad_wf m) →
  ch_closed (receiveCh (w_server w)) = false →
  if outVoiceTrackEnabled s then
    let '(r, r') := WriteRTP (outAudioTrack a) (strip_padding p) (w_rtc w) in
    ∃ w', audio_packet arch now dur us a (Ok p) w = Some (write_ok r, w') ∧ w_rtc w' = r' ∧
      w_metrics w' = w_metrics w ++
        [if write_ok r then ObserveRTPTracksWrite (GroupID (s_cfg s)) trackTypeVoice dur
         else IncRTCErrors (GroupID (s_cfg s)) "rtp"]
  else
    ∃ w', audio_packet arch now dur us a (Ok p) w = Some (true, w') ∧ w_rtc w' = w_rtc w ∧
      w_metrics w' = w_metrics w.
Proof.
  intros Hs Hty Hvad Ho. destruct (WriteRTP _ _ _) as [r r'] eqn:Hw.
  assert (Hwp : wp (audio_packet arch now dur us a (Ok p)) (λ b w',
    if outVoiceTrackEnabled s then b = write_ok r ∧ w_rtc w' = r' ∧
      w_metrics w' = w_metrics w ++
        [if write_ok r then ObserveRTPTracksWrite (GroupID (s_cfg s)) trackTypeVoice dur
         else IncRTCErrors (GroupID (s_cfg s)) "rtp"]
    else b = true ∧ w_rtc w' = w_rtc w ∧ w_metrics w' = w_metrics w) w).
  { unfold audio_packet. apply wp_bind. eapply wp_get_session; [done|]. apply wp_bind.
    eapply push_level_spec; [done..|]. intros s' w' Hs' Hen Hcfg Hr Hmet.
    apply wp_bind. eapply wp_get_session; [done|].
    rewrite Hty, bool_decide_true, Hen by done. cbn [andb].
    destruct (outVoiceTrackEnabled s); cbn [negb]; [|by apply wp_ret].
    apply wp_bind, wp_lib. intros x y Hxy. rewrite Hr, Hw in Hxy. injection Hxy as <- <-.
    destruct (write_ok r); apply wp_bind, wp_emit, wp_ret; wsimpl; by rewrite Hmet. }
  destruct (outVoiceTrackEnabled s);
    apply wp_inv in Hwp as (b & w' & Hrun & -> & H1 & H2); eauto.
Qed.

Lemma voice_forwarded_iff_enabled_witness :
  ∃ w', audio_packet (E := toy_env) (λ _, 0%Z) 0 7 3 ToyPeer.audio (Ok ToyPeer.packet) ToyWorld.toy_world =
    Some (true, w') ∧ w_metrics w' = [].
Proof.
  destruct (voice_forwarded_iff_enabled (E := toy_env) (λ _, 0%Z) 0 7 3 ToyPeer.audio ToyPeer.packet
    (ToyWorld.toy_session "a" 0) ToyWorld.toy_world) as (w' & Hrun & _ & Hm).
  - reflexivity.
  - reflexivity.
  - intros [=].
  - reflexivity.
  - exists w'. auto.
Defined.

(** C4: a screen track is offered to the receivers that expect its level and
    to no others.  When a track of a known level is accepted, every other
    session of the call whose expected level is the track's, and which takes
    its codec, gets exactly one request to add one of the local copies (unless
    its queue is full); every other session is left as it is; and the
    publisher records the copies under the track's codec and level.  A track
    of a level that is neither high nor low is dropped after the copies were
    made, and a track of a stream other than the announced one before that. *)
Theorem screen_distribution {E : Env} arch NumCPU draw ids us c rt sid cl s tracks r1 w :
  w_calls w !! c = Some cl → members_wf w (c_sessions cl) → w_sessions w !! us = Some s →
  us ∈ range (c_sessions cl) →
  createOutScreenTracks ids (SessionID (s_cfg s)) (remote_MimeType rt) (remote_RID rt) NumCPU w =
    Some (Ok tracks, set_w_rtc (λ _, r1) w) →
  let level := level_or_default (remote_RID rt) in
  let idx := getTrackIndex (remote_MimeType rt) level in
  if bool_decide (sid ≠ str0) && bool_decide (sid ≠ remote_StreamID rt)
  then video_start arch NumCPU draw ids us c rt sid w = Some (None, w)
  else if bool_decide (level = SimulcastLevelHigh) || bool_decide (level = SimulcastLevelLow) then
    ∃ v w', video_start arch NumCPU draw ids us c rt sid w = Some (Some v, w') ∧
      outTracks v = tracks ∧ length (writerChs v) = length tracks ∧
      (∀ l s', l ≠ us → l ∈ range (c_sessions cl) → w_sessions w !! l = Some s' →
        w_sessions w' !! l = Some
          (if screen_wanted arch r1 rt s s'
           then set_tracksCh (push {| action := trackActionAdd; ctx_track := pickRandom (draw l) tracks |}) s'
           else s')) ∧
      ∃ s', w_sessions w' !! us = Some s' ∧ outScreenTracks s' !! idx = Some tracks ∧
        remoteScreenTracks s' !! idx = Some rt ∧ tracksCh s' = tracksCh s
  else video_start arch NumCPU draw ids us c rt sid w = Some (None, set_w_rtc (λ _, r1) w).
Proof.
  intros Hc Hm Hs Hin Hcreate level idx.
  destruct (bool_decide (sid ≠ str0) && bool_decide (sid ≠ remote_StreamID rt)) eqn:Hsid.
  { unfold video_start. by rewrite Hsid. }
  destruct (bool_decide (level = SimulcastLevelHigh) || bool_decide (level = SimulcastLevelLow)) eqn:Hl.
  2: { apply orb_false_iff in Hl as [H1%bool_decide_eq_false H2%bool_decide_eq_false].
       destruct (unknown_level_monitor level H1 H2) as [e He].
       assert (Hwp : wp (video_start arch NumCPU draw ids us c rt sid)
         (λ r w', r = None ∧ w' = set_w_rtc (λ _, r1) w) w).
       { unfold video_start. rewrite Hsid. apply wp_bind. eapply wp_get_session; [done|].
         apply wp_bind. unfold wp at 1. rewrite Hcreate. fold level. rewrite He. by apply wp_ret. }
       by apply wp_inv in Hwp as (? & ? & ? & -> & ->). }
  assert (Hlvl : level = SimulcastLevelHigh ∨ level = SimulcastLevelLow).
  { by apply orb_true_iff in Hl as [H%bool_decide_eq_true|H%bool_decide_eq_true]; auto. }
  assert (Hsid' : sid = str0 ∨ sid = remote_StreamID rt).
  { apply andb_false_iff in Hsid as [H|H]; apply bool_decide_eq_false in H;
      [left|right]; by apply dec_stable. }
  set (s1 := screen_published idx (w_next w) rt tracks s).
  assert (Hwp : wp (video_start arch NumCPU draw ids us c rt sid) (λ o w', ∃ v, o = Some v ∧
    outTracks v = tracks ∧ writerChs v = replicate (length tracks) (make_chan writerQueueSize) ∧
    w_sessions w' = upd_all (range (c_sessions cl)) (screen_for arch r1 draw s1 rt tracks)
       (<[us := s1]> (w_sessions w))) w).
  { eapply video_start_spec; [done..|]. intros ?? v w' H1 H2 _ H3 _. exists v. split_and!; done. }
  apply wp_inv in Hwp as (o & w' & Hrun & v & -> & H1 & H2 & H3). exists v, w'.
  split_and!; [done|done|by rewrite H2, length_replicate| |].
  - intros l s' Hne Hlin Hs'. rewrite H3, lookup_upd_all, lookup_insert_ne, Hs' by done. cbn.
    rewrite bool_decide_true by done. unfold screen_for. rewrite bool_decide_false; [done|].
    apply elem_of_range in Hin as [i Hi], Hlin as [j Hj].
    destruct (Hm i us Hi) as (x1 & E1 & E2 & _), (Hm j l Hj) as (x2 & F1 & F2 & _). intros Heq.
    destruct (screen_published_same idx (w_next w) rt tracks s) as [Hcfg _]. fold s1 in Hcfg.
    rewrite Hcfg in Heq. apply Hne. assert (i = j) as -> by congruence. congruence.
  - exists s1. rewrite H3, lookup_upd_all, lookup_insert_eq. cbn. rewrite bool_decide_true by done.
    unfold screen_for. rewrite bool_decide_true by done. split_and!; [done| | |by destruct s].
    + apply lookup_insert_eq.
    + apply lookup_insert_eq.
Qed.

Lemma screen_distribution_witness :
  ∃ v w', video_start (E := toy_env) (λ _, 0%Z) 1 (λ _, 0) (λ _, ("xxxxxxxx", "y")%string) 3 2 ToyPeer.screen_in "screen"
      ToyWorld.toy_world = Some (Some v, w') ∧ outTracks v = [ToyPeer.screen_out].
Proof.
  destruct (screen_distribution (E := toy_env) (λ _, 0%Z) 1 (λ _, 0) (λ _, ("xxxxxxxx", "y")%string) 3 2
    ToyPeer.screen_in "screen" ToyWorld.toy_call (ToyWorld.toy_session "a" 0) [ToyPeer.screen_out]
    Toy.toy_empty ToyWorld.toy_world) as (v & w' & Hrun & Hv & _).
  - reflexivity.
  - exact toy_members_wf.
  - reflexivity.
  - apply elem_of_range. exists "a"%string. reflexivity.
  - reflexivity.
  - exists v, w'. auto.
Defined.

(** C18: sender and receiver agree on one codec.  When the presenter supports
    AV1 (and so publishes both codecs), every receiver takes exactly one of
    the two tracks of a level, AV1 when it supports it and VP8 when it does
    not; when the presenter does not, every receiver takes the VP8 track.  A
    session that joins later is sent exactly one copy of the track it would
    have taken when it was published, between the presenter's voice and its
    screen's audio, and no other track of the screen; when that track has not
    been published, it is sent none. *)
Theorem one_codec_per_receiver {E : Env} `{!PionLaws env_pion} (presenter viewer : session) :
  let wants := wants_codec (supportsAV1 presenter) (supportsAV1 viewer) in
  let first := match outVoiceTrack presenter with Some t => [t] | None => [] end in
  let last := match outScreenAudioTrack presenter with Some t => [t] | None => [] end in
  (supportsAV1 presenter = true →
     wants MimeTypeAV1 = supportsAV1 viewer ∧ wants MimeTypeVP8 = negb (supportsAV1 viewer)) ∧
  (supportsAV1 presenter = false → wants MimeTypeVP8 = true) ∧
  ∀ n mime, publishes presenter mime → wants mime = true →
    if bool_decide (screen_copies presenter mime = []) then join_tracks n viewer presenter = first ++ last
    else ∃ t, t ∈ screen_copies presenter mime ∧ join_tracks n viewer presenter = first ++ [t] ++ last.
Proof.
  cbv zeta. split_and!.
  - intros ->. by rewrite wants_VP8, wants_AV1.
  - intros ->. by rewrite wants_VP8.
  - intros n mime Hp Hw. destruct (join_tracks_sent n viewer presenter) as (screen & -> & Hs).
    specialize (Hs mime Hp Hw). case_bool_decide; [by subst|]. destruct Hs as (t & -> & Ht). by exists t.
Qed.

Lemma one_codec_per_receiver_witness :
  wants_codec (E := toy_env) (supportsAV1 (ToyWorld.toy_session "a" 0))
    (supportsAV1 (ToyWorld.toy_session "b" 1)) "video/VP8" = true.
Proof.
  apply (one_codec_per_receiver (E := toy_env) (PionLaws0 := Toy.toy_laws)
    (ToyWorld.toy_session "a" 0) (ToyWorld.toy_session "b" 1)). reflexivity.
Defined.

(** Every writer gets every packet.  A packet read from a screen track is
    appended, without its header extensions, to the queue of each writer that
    has room; a full queue drops it, which is counted as one error each, and
    holds up nobody else; the rate monitor takes one sample of the packet's
    size, and no queue is reordered. *)
Theorem video_fanout {E : Env} arch now us v p s m m' w :
  w_sessions w !! us = Some s → w_monitors w !! rate_monitor v = Some m →
  Forall (λ ch, ch_closed ch = false) (writerChs v) →
  PushSample (MarshalSize (strip_padding p)) now m = Some m' → is_Some (GetRate arch now m') →
  ∃ v' w', video_packet arch now us v (Ok p) w = Some (Some v', w') ∧
    writerChs v' = push (without_extensions (strip_padding p)) <$> writerChs v ∧
    w_monitors w' = <[rate_monitor v := m']> (w_monitors w) ∧
    w_metrics w' = w_metrics w ++
      replicate (length (filter (λ ch, ch_cap ch ≤ length (ch_buf ch)) (writerChs v)))
        (IncRTCErrors (GroupID (s_cfg s)) "rtp") ∧
    w_sessions w' = w_sessions w ∧ w_rtc w' = w_rtc w.
Proof.
  intros Hs Hm Hopen Hpush Hrate. set (q := without_extensions (strip_padding p)).
  set (g := GroupID (s_cfg s)).
  assert (Hfan : ∀ chs w1, Forall (λ ch, ch_closed ch = false) chs →
    fan_out g q chs w1 = Some (push q <$> chs,
      set_w_metrics (λ l, l ++ replicate (length (filter (λ ch, ch_cap ch ≤ length (ch_buf ch)) chs))
        (IncRTCErrors g "rtp")) w1)).
  { induction chs as [|ch chs IH]; intros w1 Hc.
    { cbn. unfold set_w_metrics. cbn. rewrite app_nil_r. by destruct w1. }
    apply Forall_cons in Hc as [Hch Hc].
    assert (Hwp : wp (fan_out g q (ch :: chs)) (λ r w', r = push q <$> (ch :: chs) ∧
      w' = set_w_metrics (λ l, l ++ replicate
        (length (filter (λ ch, ch_cap ch ≤ length (ch_buf ch)) (ch :: chs))) (IncRTCErrors g "rtp")) w1) w1).
    { cbn [fan_out]. apply wp_bind. rewrite filter_cons.
      destruct (decide (ch_cap ch ≤ length (ch_buf ch))) as [Hfull|Hroom].
      - rewrite try_send_full by done. apply wp_bind, wp_emit, wp_ret. apply wp_bind.
        unfold wp at 1. rewrite IH by done. apply wp_ret. cbn [length replicate fmap list_fmap].
        split; [|unfold set_w_metrics; wsimpl; by rewrite <- app_assoc].
        unfold push at 2. by rewrite try_send_full.
      - rewrite try_send_open by (done || lia). apply wp_ret. apply wp_bind.
        unfold wp at 1. rewrite IH by done. apply wp_ret. split; [|done]. cbn [fmap list_fmap].
        unfold push at 2. by rewrite try_send_open by (done || lia). }
    by apply wp_inv in Hwp as (? & ? & ? & -> & ->). }
  set (w1 := set_w_monitors (<[rate_monitor v := m']>) w).
  assert (Hwp : wp (video_packet arch now us v (Ok p)) (λ o w', ∃ v', o = Some v' ∧
    writerChs v' = push q <$> writerChs v ∧ w' = set_w_metrics (λ l, l ++ replicate
      (length (filter (λ ch, ch_cap ch ≤ length (ch_buf ch)) (writerChs v))) (IncRTCErrors g "rtp")) w1) w).
  { unfold video_packet. apply wp_bind. eapply wp_get_session; [done|]. fold g. fold q.
    apply wp_bind. unfold wp at 1, monitor_push. rewrite Hm. cbn. rewrite Hpush. cbn. fold w1.
    destruct (Allow now (vid_limiter v)) as [ok lim]. apply wp_bind.
    assert (Hlog : wp (when ok (monitor_rate arch (rate_monitor v) now)) (λ _ w2, w2 = w1) w1).
    { destruct ok; [|by apply wp_ret]. unfold when, monitor_rate. apply wp_bind, wp_gets.
      unfold w1. wsimpl. rewrite lookup_insert_eq. cbn. destruct Hrate as [x ->].
      apply wp_bind. by eapply wp_deref; [done|]. }
    eapply wp_mono; [exact Hlog|]. intros _ w2 ->. apply wp_bind. unfold wp at 1.
    rewrite Hfan by done. apply wp_ret. eexists. split; [done|]. done. }
  apply wp_inv in Hwp as (o & w' & Hrun & v' & -> & Hchs & ->). exists v'. eexists.
  split; [exact Hrun|]. by split_and!.
Qed.

Lemma video_fanout_witness :
  ∃ v' w', video_packet (E := toy_env) (λ _, 0%Z) 0 3 ToyPeer.video (Ok ToyPeer.packet) ToyPeer.watched =
      Some (Some v', w') ∧ w_metrics w' = [IncRTCErrors "group" "rtp"].
Proof.
  destruct (video_fanout (E := toy_env) (λ _, 0%Z) 0 3 ToyPeer.video ToyPeer.packet
    (ToyWorld.toy_session "a" 0) ToyPeer.monitor
    (default ToyPeer.monitor (PushSample 0 0 ToyPeer.monitor)) ToyPeer.watched)
    as (v' & w' & Hrun & _ & _ & Hm & _).
  - reflexivity.
  - reflexivity.
  - repeat constructor.
  - reflexivity.
  - eexists. vm_compute. reflexivity.
  - exists v', w'. auto.
Defined.

(** Only the library's state changes while a connection is made. *)
Lemma wp_new_peer {E : Env} `{!PionLaws env_pion} arch mac now lookup_ip skip_env cfg Q w :
  (∀ x r, Q x (set_w_rtc (λ _, r) w)) → wp (new_peer arch mac now lookup_ip skip_env cfg) Q w.
Proof.
  intros HQ. assert (Hid : set_w_rtc (λ _, w_rtc w) w = w) by by destruct w.
  assert (Hsame : ∀ x, Q x w) by (intros x; rewrite <- Hid; apply HQ).
  unfold new_peer. apply wp_bind, wp_gets. destruct initMediaEngine as [m|]; [|by apply wp_ret].
  destruct (initInterceptors arch m) as [[m' i]|]; [|by apply wp_ret].
  destruct (initSettingEngine _ _ _); [|by apply wp_ret].
  apply wp_bind, wp_lib. intros x r _. by apply wp_ret.
Qed.

(** Joining: the gauge goes up; then it fails with the registry as it was, or
    the session is there. *)
Lemma InitSession_spec {E : Env} `{!PionLaws env_pion} arch mac now lookup_ip skip_env cfg cb Q w :
  reg_wf w → SessionConfig_IsValid cfg = Ok tt →
  (∀ e r, Q (Err e) (set_w_rtc (λ _, r) (set_w_metrics (λ l, l ++ [IncRTCSessions (GroupID cfg)]) w))) →
  (∀ us c vars conn est r gl cl gr call w2,
     reg_wf (set_w_rtc (λ _, r) (set_w_metrics (λ l, l ++ [IncRTCSessions (GroupID cfg)]) w)) → reg_wf w2 →
     added cfg conn cb gl cl us gr call
       (set_w_rtc (λ _, r) (set_w_metrics (λ l, l ++ [IncRTCSessions (GroupID cfg)]) w)) w2 →
     Q (Ok (us, c, vars)) (put_session us (set_bwEstimator (λ _, Some est) (new_session cfg conn cb cl)) w2)) →
  wp (InitSession arch mac now lookup_ip skip_env cfg cb) Q w.
Proof.
  intros Hw Hv HE HO. unfold InitSession. rewrite Hv. apply wp_bind, wp_emit. set (w1 := set_w_metrics _ w) in *.
  apply wp_bind, wp_new_peer. intros p r. destruct p as [[conn est]|e']; [|by apply wp_ret].
  assert (Hw2 : reg_wf (set_w_rtc (λ _, r) w1)) by (destruct Hw; by split).
  apply wp_bind. eapply addSession_spec; [exact Hw2|exact Hv|by eexists|intros _; by apply wp_ret|].
  intros Hin gl cl us gr call w3 Htg Htc Had. assert (Hw3 : reg_wf w3) by (by eapply added_wf).
  destruct (rw_entry _ Hw3 (SessionID cfg) cfg) as (_ & l & s & (cl' & call' & (gl' & gr' & G1 & G2 & G3) & C1 & C2) & Hs & _).
  { rewrite (ad_entries _ _ _ _ _ _ _ _ _ _ Had). apply lookup_insert_eq. }
  apply wp_bind. unfold getGroup. apply wp_gets. rewrite G1. apply wp_bind. unfold getCall.
  apply wp_bind. eapply wp_deref; [done|]. apply wp_bind. eapply wp_get_group; [exact G2|].
  apply wp_ret. apply wp_bind. unfold initBWEstimator. apply wp_bind.
  eapply wp_upd_session; [rewrite (ad_session _ _ _ _ _ _ _ _ _ _ Had); apply lookup_insert_eq|].
  apply wp_ret, wp_ret. eapply HO; [exact Hw2|exact Hw3|exact Had].
Qed.

(** Joining reports a session even when it fails.  The gauge of sessions
    goes up before anything that can fail, and no error path takes it back:
    when the connection cannot be made, or the session exists already, the
    gauge has grown by one for a session that is not registered and that no
    close will ever count. *)
Theorem failed_join_leaks_gauge {E : Env} `{!PionLaws env_pion} arch mac now lookup_ip skip_env cfg cb e w w' :
  reg_wf w → SessionConfig_IsValid cfg = Ok tt →
  InitSession arch mac now lookup_ip skip_env cfg cb w = Some (Err e, w') →
  sessions_gauge (GroupID cfg) (w_metrics w') = (sessions_gauge (GroupID cfg) (w_metrics w) + 1)%Z ∧
  srv_sessions (w_server w') = srv_sessions (w_server w).
Proof.
  intros Hw Hv Hrun. set (w1 := set_w_metrics (λ l, l ++ [IncRTCSessions (GroupID cfg)]) w).
  assert (Hg : sessions_gauge (GroupID cfg) (w_metrics w1) =
    (sessions_gauge (GroupID cfg) (w_metrics w) + 1)%Z).
  { unfold w1. wsimpl. rewrite sessions_gauge_app. unfold sessions_gauge at 2.
    rewrite !count_metric_1, bool_decide_true, bool_decide_false by done. done. }
  assert (Hwp : wp (InitSession arch mac now lookup_ip skip_env cfg cb) (λ x w2, ∀ e, x = Err e →
    sessions_gauge (GroupID cfg) (w_metrics w2) = sessions_gauge (GroupID cfg) (w_metrics w1) ∧
    srv_sessions (w_server w2) = srv_sessions (w_server w)) w).
  { apply InitSession_spec; [done..| |done]. by intros e1 r e2 _. }
  apply wp_inv in Hwp as (x & w2 & Hrun2 & HQ). rewrite Hrun in Hrun2. injection Hrun2 as <- <-.
  destruct (HQ e eq_refl) as [H1 H2]. by rewrite H1, Hg.
Qed.

Lemma failed_join_leaks_gauge_witness :
  ∃ e w', InitSession (E := toy_env) (λ _, 0%Z) (λ _ _, str0) 0 (λ _ _, Ok []) false
      (ToyWorld.toy_cfg "a") true ToyWorld.toy_world = Some (Err e, w') ∧
    sessions_gauge "group" (w_metrics w') = 1%Z.
Proof.
  do 2 eexists. split.
  - reflexivity.
  - apply (failed_join_leaks_gauge (E := toy_env) (PionLaws0 := Toy.toy_laws) (λ _, 0%Z) (λ _ _, str0) 0
      (λ _ _, Ok []) false (ToyWorld.toy_cfg "a") true
      (EWrap "failed to add session" (EText "user session already exists")) ToyWorld.toy_world _ toy_world_wf);
      reflexivity.
Defined.

(** The first offer leaves the session in its call, whatever becomes of it. *)
Lemma first_offer_live {E : Env} `{!PionLaws env_pion} us cfg pick timer s w o ch e w1 :
  reg_wf w → in_call w (GroupID cfg) (CallID cfg) (SessionID cfg) us →
  w_sessions w !! us = Some s → s_cfg s = cfg → doneCh s = false →
  nego_select pick timer s = FirstOffer o ch → out_ready (o_answerCh o) w →
  signaling us (o_sdp o) (o_answerCh o) (put_session us (set_sdpOfferInCh (λ _, ch) s) w) = Some (Err e, w1) →
  live_same us w w1.
Proof.
  intros Hw Hin Hs Hcfg Hd Hsel Ho Hsig.
  assert (Hmem : session_wf s).
  { destruct Hin as (cl & call & Ha & H1 & H2).
    destruct (rw_member _ Hw _ _ _ _ _ _ Ha H1 H2) as (s' & Hs' & []). congruence. }
  set (s1 := set_sdpOfferInCh (λ _, ch) s) in *.
  destruct (nego_select_offer _ _ _ _ _ Hsel) as (buf & _ & Hch).
  assert (Hk : keeps s s1) by (unfold s1; rewrite Hch; keep).
  set (w0 := put_session us s1 w) in *.
  assert (H0 : live_same us w w0) by (eapply live_same_put; [done|exact Hk|done]).
  assert (Ho0 : out_ready (o_answerCh o) w0).
  { destruct (o_answerCh o) as [|l]; [exact Ho|]. destruct Ho as (x & Hx & Hxc). cbn.
    destruct (decide (us = l)) as [->|Hne].
    - rewrite lookup_insert_eq. exists s1. split; [done|]. assert (x = s) as -> by congruence. done.
    - rewrite lookup_insert_ne by done. eauto. }
  assert (Hwp : wp (signaling us (o_sdp o) (o_answerCh o)) (λ _ w', live_same us w0 w') w0).
  { eapply (signaling_live us _ _ s1); [apply lookup_insert_eq|by apply Hk|done|auto]. }
  apply wp_inv in Hwp as (? & ? & Hr & Hl). rewrite Hsig in Hr. simplify_eq. by etrans.
Qed.

(** C11: a session whose negotiation does not start is taken out, and nobody
    waits for it forever.  When the first offer does not come in time, or
    cannot be answered, the goroutine closes [doneCh] exactly once, before
    closing the session, so that the close does not wait for the goroutine
    that runs it: it ends with the session in no call, its entry gone and both
    its channels closed.  When the session was closed first, it only closes
    [doneCh]. *)
Theorem negotiation_gives_up {E : Env} `{!PionLaws env_pion} us c pick timer cb draw choices cfg s w :
  reg_wf w → srv_sessions (w_server w) !! SessionID cfg = Some cfg →
  in_call w (GroupID cfg) (CallID cfg) (SessionID cfg) us →
  w_sessions w !! us = Some s → s_cfg s = cfg → doneCh s = false →
  match nego_select pick timer s with
  | NegoTimedOut => ∃ w', handleNegotiations us c pick timer cb draw choices w = Some (true, w') ∧
      gone us cfg w w'
  | FirstOffer o ch => out_ready (o_answerCh o) w →
      ∀ e w1, signaling us (o_sdp o) (o_answerCh o)
        (put_session us (set_sdpOfferInCh (λ _, ch) s) w) = Some (Err e, w1) →
      ∃ w', handleNegotiations us c pick timer cb draw choices w = Some (true, w') ∧ gone us cfg w w'
  | OffersClosed | NegoClosed =>
      handleNegotiations us c pick timer cb draw choices w =
        Some (true, put_session us (set_doneCh (λ _, true) s) w)
  end.
Proof.
  intros Hw He Hin Hs Hcfg Hd.
  pose proof (negotiation_failed us cb cfg s w) as Hstop.
  destruct (nego_select pick timer s) as [o ch| | |] eqn:Hsel.
  - intros Ho e w1 Hsig.
    assert (Hall : live_same us w w1) by exact (first_offer_live _ _ _ _ _ _ _ _ _ _ Hw Hin Hs Hcfg Hd Hsel Ho Hsig).
    set (s1 := set_sdpOfferInCh (λ _, ch) s) in *. set (w0 := put_session us s1 w) in *.
    assert (Hwp : wp (handleNegotiations us c pick timer cb draw choices) (λ b w', b = true ∧ gone us cfg w w') w).
    { unfold handleNegotiations, negotiate_first. apply wp_bind, wp_bind.
      eapply wp_get_session; [done|]. cbv zeta. rewrite Hsel. apply wp_bind.
      eapply wp_upd_session; [done|]. fold s1. fold (put_session us s1 w). fold w0.
      apply wp_bind. unfold wp at 1. rewrite Hsig.
      eapply wp_mono; [eapply Hstop; [done..|apply Hall|]|].
      + destruct (ls_done _ _ _ Hall s Hs) as (s2 & ? & ? & ?). exists s2. split; [done|congruence].
      + intros b w2 [-> Hg]. by apply gone_done. }
    apply wp_inv in Hwp as (? & w' & ? & -> & ?). eauto.
  - apply (negotiate_quit us c pick timer cb draw choices s w); auto.
  - assert (Hwp : wp (handleNegotiations us c pick timer cb draw choices) (λ b w', b = true ∧ gone us cfg w w') w).
    { unfold handleNegotiations, negotiate_first. apply wp_bind, wp_bind.
      eapply wp_get_session; [done|]. cbv zeta. rewrite Hsel.
      eapply wp_mono; [eapply Hstop; [done..|eauto]|].
      intros b w2 [-> Hg]. by apply gone_done. }
    apply wp_inv in Hwp as (? & w' & ? & -> & ?). eauto.
  - apply (negotiate_quit us c pick timer cb draw choices s w); auto.
Qed.

Lemma negotiation_gives_up_witness :
  ∃ w', handleNegotiations (E := toy_env) 3 (Some 2%positive) 0 true (Ok tt) (λ _, 0) [] ToyWorld.toy_world =
    Some (true, w') ∧ gone 3 (ToyWorld.toy_cfg "a") ToyWorld.toy_world w'.
Proof.
  apply (negotiation_gives_up (E := toy_env) (PionLaws0 := Toy.toy_laws) 3 (Some 2%positive) 0 true
    (Ok tt) (λ _, 0) [] (ToyWorld.toy_cfg "a") (ToyWorld.toy_session "a" 0) ToyWorld.toy_world toy_world_wf).
  - reflexivity.
  - exists 2%positive, ToyWorld.toy_call. split_and!; [do 2 eexists; by split_and!|reflexivity|reflexivity].
  - reflexivity.
  - reflexivity.
  - reflexivity.
Defined.

(** C17: a session that joins is sent what the others already publish.
    Joining appends to its queue, for each other session of the call in turn,
    requests for its voice, for one copy of its screen at the low level in the
    codec the joining session takes, and for its screen's audio, whatever of
    them there is; nothing else changes.  This is when the queue has room for
    them all. *)
Theorem join_catches_up {E : Env} `{!PionLaws env_pion} draw c us cl s w :
  w_calls w !! c = Some cl → members_wf w (c_sessions cl) → us ∈ range (c_sessions cl) →
  w_sessions w !! us = Some s →
  ∃ tss, Forall2 (λ p, sent_on_join s p.2) (others w (SessionID (s_cfg s)) (range (c_sessions cl))) tss ∧
    (length (ch_buf (tracksCh s)) + length (concat tss) ≤ ch_cap (tracksCh s) →
     handleTracks_join draw c us w =
       Some (tt, put_session us (with_queue (ch_buf (tracksCh s) ++ (add_action <$> concat tss)) s) w)).
Proof.
  intros Hc Hm Hin Hs. set (os := others w (SessionID (s_cfg s)) (range (c_sessions cl))).
  exists (joined_with draw s <$> os). split.
  { apply Forall2_fmap_r, Forall_Forall2_diag, Forall_true. intros p. apply join_tracks_sent. }
  replace (concat (joined_with draw s <$> os)) with (os ≫= joined_with draw s) by apply bind_concat.
  intros Hroom. apply elem_of_range in Hin as [i Hi].
  destruct (Hm i us Hi) as (s0 & Hs0 & Hid0 & Hwf). assert (s0 = s) as -> by congruence.
  set (w2 := put_session us _ w).
  assert (Hwp : wp (handleTracks_join draw c us) (λ _ w', w' = w2) w).
  { unfold handleTracks_join, iterSessions. apply wp_bind. eapply wp_get_call; [done|].
    assert (Hgo : wp (go_iter (join_session draw us) (range (c_sessions cl))) (λ _ w', w' = w2)
      (put_session us (with_queue (ch_buf (tracksCh s)) s) w)).
    { eapply join_all; [done|apply Hwf| |exact Hroom|done]. intros l [j Hj]%elem_of_range.
      destruct (Hm j l Hj) as (s' & Hs' & Hid & _). exists s'. split; [done|]. intros Hne Heq.
      apply Hne. assert (i = j) as -> by congruence. congruence. }
    rewrite with_queue_id in Hgo. rewrite (put_session_id us s w Hs) in Hgo. exact Hgo. }
  by apply wp_inv in Hwp as ([] & ? & ? & ->).
Qed.

Lemma join_catches_up_witness :
  ∃ w', handleTracks_join (E := toy_env) (λ _, 0) 2 4 toy_speaking = Some (tt, w').
Proof.
  destruct (join_catches_up (E := toy_env) (PionLaws0 := Toy.toy_laws) (λ _, 0) 2 4 ToyWorld.toy_call
    (ToyWorld.toy_session "b" 1) toy_speaking) as (tss & H1 & H2).
  - reflexivity.
  - exact toy_speaking_members.
  - apply elem_of_range. exists "b"%string. reflexivity.
  - reflexivity.
  - eexists. apply H2. pose proof (catch_up_length (E := toy_env) (PionLaws0 := Toy.toy_laws) _ _ _ H1) as H3.
    pose proof (others_length (E := toy_env) toy_speaking (SessionID (s_cfg (E := toy_env) (ToyWorld.toy_session "b" 1)))
      (@range toy_env _ (c_sessions (E := toy_env) ToyWorld.toy_call))) as H4.
    transitivity 6; [|vm_compute; lia].
    assert (length (@range toy_env _ (c_sessions (E := toy_env) ToyWorld.toy_call)) = 2) as H5 by reflexivity.
    cbn [ch_buf tracksCh ToyWorld.toy_session new_session make_chan length]. lia.
Defined.

(** A local candidate is announced once, with its port overridden only
    where it should be.  While the session is open one message with the
    encoded candidate is queued for the client (unless the channel is full),
    and once it is closed nothing is sent.  The override changes nothing but
    the port, and that only for a host candidate at one of the server's
    external addresses when an override is set, to the low 16 bits of the
    configured number. *)
Theorem candidate_announced {E : Env} us s cand js w :
  w_sessions w !! us = Some s → ch_closed (receiveCh (w_server w)) = false →
  json_Marshal_candidate (override_port (w_server w) cand) = Ok js →
  (onICECandidate us (Some cand) w = Some (tt, if closeCh s then w
     else set_w_server (set_receiveCh (push (newMessage (s_cfg s) ICEMessage js))) w)) ∧
  let port := SinglePort (Some (ICEHostPortOverride (srv_cfg (w_server w)))) in
  let c := override_port (w_server w) cand in
  Address c = Address cand ∧ Typ_host c = Typ_host cand ∧ ice_rest c = ice_rest cand ∧
  (Port c ≠ Port cand → Port c = (port `mod` 65536)%Z ∧ port ≠ 0%Z ∧ Typ_host cand = true ∧
     Address cand ∈ getExternalAddrMapFromHostOverride (ICEHostOverride (srv_cfg (w_server w)))
       (publicAddrsMap (w_server w))).
Proof.
  intros Hs Ho Hjs. split.
  - assert (Hwp : wp (onICECandidate us (Some cand)) (λ _ w', w' = if closeCh s then w
      else set_w_server (set_receiveCh (push (newMessage (s_cfg s) ICEMessage js))) w) w).
    { unfold onICECandidate. apply wp_bind, wp_gets. apply wp_bind. eapply wp_get_session; [done|].
      rewrite Hjs. destruct (closeCh s); [by apply wp_ret|]. apply wp_bind, wp_send_receive; [done|].
      intros b. by apply wp_ret. }
    by apply wp_inv in Hwp as ([] & ? & ? & ->).
  - cbv zeta. unfold override_port. destruct (_ && _) eqn:Hb; [|done].
    apply andb_true_iff in Hb as [[H1%bool_decide_eq_true H2]%andb_true_iff H3%bool_decide_eq_true].
    by split_and!.
Qed.

Lemma candidate_announced_witness :
  ∃ w', onICECandidate (E := toy_env) 3
    (Some {| Typ_host := true; Address := "10.0.0.1"; Port := 8443; ice_rest := tt |})
    ToyWorld.toy_world = Some (tt, w').
Proof.
  eexists. apply (candidate_announced (E := toy_env) 3 (ToyWorld.toy_session "a" 0)
    {| Typ_host := true; Address := "10.0.0.1"; Port := 8443; ice_rest := tt |} "10.0.0.1"
    ToyWorld.toy_world); reflexivity.
Defined.

(** The ICE servers a session is given.  Every server that is not a TURN
    server is passed on as configured; a TURN server is passed on only when the
    shared secret is set, with its own credentials if it has any, and otherwise
    with short-lived ones made for the session.  In particular, without a
    secret a TURN server is left out even when it is configured with a user
    name and a credential. *)
Theorem turn_servers_need_secret mac now id (c : ServerConfig) :
  let out := ice_servers mac now id c in
  let t := cfgTURNConfig c in
  (∀ s, s ∈ cfgICEServers c → IsTURN s = false → s ∈ out) ∧
  (StaticAuthSecret t = str0 → ∀ s, s ∈ out → IsTURN s = false) ∧
  (StaticAuthSecret t ≠ str0 → ∀ s, s ∈ cfgICEServers c → IsTURN s = true →
     Username s ≠ str0 ∨ Credential s ≠ str0 → s ∈ out) ∧
  (∀ s, s ∈ out → s ∈ cfgICEServers c ∨
     ∃ s0 ts u p, s0 ∈ cfgICEServers c ∧ IsTURN s0 = true ∧ Username s0 = str0 ∧ Credential s0 = str0 ∧
       genTURNCredentials mac now id (StaticAuthSecret t) ts = Ok (u, p) ∧
       s = {| URLs := URLs s0; Username := u; Credential := p |}).
Proof.
  cbv zeta. set (t := cfgTURNConfig c). unfold ice_servers. fold t.
  assert (Hout : ∀ s, s ∈ omap (ice_server mac now id t) (cfgICEServers c) ↔
    ∃ s0, s0 ∈ cfgICEServers c ∧ ice_server mac now id t s0 = Some s) by (intros; apply list_elem_of_omap).
  split_and!.
  - intros s Hs Ht. apply Hout. exists s. split; [done|]. unfold ice_server. by rewrite Ht.
  - intros Hsec s (s0 & Hs0 & Hs)%Hout. unfold ice_server in Hs.
    rewrite Hsec, (bool_decide_true (str0 = str0)) in Hs by done.
    destruct (IsTURN s0) eqn:Ht; [done|]. cbn in Hs. by injection Hs as <-.
  - intros Hsec s Hs Ht Hcred. apply Hout. exists s. split; [done|]. unfold ice_server.
    rewrite Ht, bool_decide_false by done. cbn [andb].
    destruct (bool_decide (Username s = str0) && bool_decide (Credential s = str0)) eqn:Hb; [|done].
    apply andb_true_iff in Hb as [H1%bool_decide_eq_true H2%bool_decide_eq_true]. naive_solver.
  - intros s (s0 & Hs0 & Hs)%Hout. unfold ice_server in Hs.
    destruct (IsTURN s0 && bool_decide (StaticAuthSecret t = str0)); [done|].
    destruct (IsTURN s0) eqn:Ht; [|injection Hs as <-; by left]. cbn [andb] in Hs.
    destruct (bool_decide (Username s0 = str0) && bool_decide (Credential s0 = str0)) eqn:Hb;
      [|injection Hs as <-; by left].
    apply andb_true_iff in Hb as [H1%bool_decide_eq_true H2%bool_decide_eq_true].
    destruct (genTURNCredentials _ _ _ _ _) as [[u p]|] eqn:Hg; [|done]. injection Hs as <-.
    right. do 4 eexists. by split_and!.
Qed.
