(* ===== verification/Base64.v ===== *)
(** * Base64: encoding/base64's standard encoding

    [base64.StdEncoding], with padding, as the clients use it to write HTTP
    credentials and the server to read them.  Decoding skips line ends and
    ignores the unused low bits of the last character, as the library does. *)
From Stdlib Require Import Ascii.
From S2P Require Import Prelude GoText.

Definition std_table : string :=
  "ABCDEFGHIJKLMNOPQRSTUVWXYZabcdefghijklmnopqrstuvwxyz0123456789+/".

Definition std_char (v : N) : ascii := default zero (String.get (N.to_nat v) std_table).

(** The index of a character of the table. *)
Definition sextet (a : ascii) : option N :=
  let n := N_of_ascii a in
  if (65 <=? n)%N && (n <=? 90)%N then Some (n - 65)%N
  else if (97 <=? n)%N && (n <=? 122)%N then Some (n - 71)%N
  else if (48 <=? n)%N && (n <=? 57)%N then Some (n + 4)%N
  else if (n =? 43)%N then Some 62%N
  else if (n =? 47)%N then Some 63%N
  else None.

Definition pad : ascii := "=".

(** The characters of up to three bytes. *)
Fixpoint encode_bytes (l : list ascii) : list ascii :=
  let chars a b c :=
    let n := (N_of_ascii a * 65536 + N_of_ascii b * 256 + N_of_ascii c)%N in
    (std_char (n / 262144), std_char ((n / 4096) `mod` 64), std_char ((n / 64) `mod` 64),
     std_char (n `mod` 64))%N in
  match l with
  | [] => []
  | [a] => let '(w, x, _, _) := chars a zero zero in [w; x; pad; pad]
  | [a; b] => let '(w, x, y, _) := chars a b zero in [w; x; y; pad]
  | a :: b :: c :: l => let '(w, x, y, z) := chars a b c in w :: x :: y :: z :: encode_bytes l
  end.

Definition EncodeToString (s : string) : string :=
  String.string_of_list_ascii (encode_bytes (String.list_ascii_of_string s)).

Definition quantum (w x y z : N) : N := (w * 262144 + x * 4096 + y * 64 + z)%N.
Definition byte_at (n shift : N) : ascii := ascii_of_N ((n / shift) `mod` 256)%N.

Fixpoint decode_chars (l : list ascii) : option (list ascii) :=
  match l with
  | [] => Some []
  | a :: b :: c :: d :: l =>
      w ← sextet a; x ← sextet b;
      if bool_decide (c = pad) then
        if bool_decide (d = pad) && bool_decide (l = []) then Some [byte_at (quantum w x 0 0) 65536]
        else None
      else
        y ← sextet c;
        if bool_decide (d = pad) then
          if bool_decide (l = []) then
            Some [byte_at (quantum w x y 0) 65536; byte_at (quantum w x y 0) 256]
          else None
        else
          z ← sextet d; rest ← decode_chars l;
          let n := quantum w x y z in
          Some (byte_at n 65536 :: byte_at n 256 :: byte_at n 1 :: rest)
  | _ => None
  end.

Definition line_end (a : ascii) : bool := bool_decide (N_of_ascii a = 13%N) || bool_decide (N_of_ascii a = 10%N).

Definition DecodeString (s : string) : option string :=
  String.string_of_list_ascii <$>
    decode_chars (List.filter (λ a, negb (line_end a)) (String.list_ascii_of_string s)).

(** ** Decoding what was encoded *)
Lemma std_char_ok v :
  (v < 64)%N → sextet (std_char v) = Some v ∧ std_char v ≠ pad ∧ line_end (std_char v) = false.
Proof.
  intros Hv.
  assert (Hall : Forall (λ v, sextet (std_char v) = Some v ∧ std_char v ≠ pad ∧ line_end (std_char v) = false)
    (N.of_nat <$> seq 0 64)) by (apply (bool_decide_unpack _); vm_compute; exact I).
  rewrite Forall_forall in Hall. apply Hall, list_elem_of_fmap. exists (N.to_nat v).
  split; [by rewrite N2Nat.id|]. apply elem_of_seq. lia.
Qed.

Lemma byte_lt a : (N_of_ascii a < 256)%N.
Proof. apply N_ascii_bounded. Qed.

(** The four indices of three bytes, and back. *)
Lemma quantum_bytes a b c :
  (a < 256 → b < 256 → c < 256 →
   let n := a * 65536 + b * 256 + c in
   n / 262144 < 64 ∧ (n / 4096) `mod` 64 < 64 ∧ (n / 64) `mod` 64 < 64 ∧ n `mod` 64 < 64 ∧
   quantum (n / 262144) ((n / 4096) `mod` 64) ((n / 64) `mod` 64) (n `mod` 64) = n ∧
   (n / 65536) `mod` 256 = a ∧ (n / 256) `mod` 256 = b ∧ (n / 1) `mod` 256 = c)%N.
Proof.
  intros Ha Hb Hc n. unfold quantum.
  assert (E1 : (n / 4096 = n / 262144 * 64 + (n / 4096) `mod` 64)%N).
  { replace (n / 262144)%N with (n / 4096 / 64)%N by (rewrite N.Div0.div_div; done).
    pose proof (N.div_mod (n / 4096) 64). lia. }
  assert (E2 : (n / 64 = n / 4096 * 64 + (n / 64) `mod` 64)%N).
  { replace (n / 4096)%N with (n / 64 / 64)%N by (rewrite N.Div0.div_div; done).
    pose proof (N.div_mod (n / 64) 64). lia. }
  assert (E3 : (n = n / 64 * 64 + n `mod` 64)%N) by (pose proof (N.div_mod n 64); lia).
  split_and!.
  - apply N.Div0.div_lt_upper_bound. unfold n. lia.
  - by apply N.mod_lt.
  - by apply N.mod_lt.
  - by apply N.mod_lt.
  - lia.
  - replace (n / 65536)%N with a; [by apply N.mod_small|].
    apply (N.div_unique _ _ _ (b * 256 + c)); unfold n; lia.
  - replace (n / 256)%N with (a * 256 + b)%N;
      [|apply (N.div_unique _ _ _ c); unfold n; lia].
    rewrite N.add_comm, N.Div0.mod_add. by apply N.mod_small.
  - rewrite N.div_1_r. unfold n. replace (a * 65536 + b * 256 + c)%N with (c + (a * 256 + b) * 256)%N by lia.
    rewrite N.Div0.mod_add. by apply N.mod_small.
Qed.

Lemma quantum_byte (a b c : ascii) :
  let n := (N_of_ascii a * 65536 + N_of_ascii b * 256 + N_of_ascii c)%N in
  byte_at n 65536 = a ∧ byte_at n 256 = b ∧ byte_at n 1 = c.
Proof.
  intros n. destruct (quantum_bytes _ _ _ (byte_lt a) (byte_lt b) (byte_lt c)) as (_ & _ & _ & _ & _ & H1 & H2 & H3).
  unfold byte_at, n. by rewrite H1, H2, H3, !ascii_N_embedding.
Qed.

(** Induction by threes. *)
Lemma list_ind3 {A} (P : list A → Prop) :
  P [] → (∀ a, P [a]) → (∀ a b, P [a; b]) → (∀ a b c l, P l → P (a :: b :: c :: l)) → ∀ l, P l.
Proof.
  intros H0 H1 H2 H3 l. enough (∀ n l, length l ≤ n → P l) by eauto.
  clear l. induction n as [|n IH]; intros l Hl; [by destruct l; [|cbn in Hl; lia]|].
  destruct l as [|a [|b [|c l]]]; [done..|]. apply H3, IH. cbn in Hl. lia.
Qed.

Lemma decode_encode_bytes l : decode_chars (encode_bytes l) = Some l.
Proof.
  induction l as [|a|a b|a b c l IH] using list_ind3; [done|..]; cbn [encode_bytes].
  - destruct (quantum_bytes _ 0 0 (byte_lt a)) as (L1 & L2 & L3 & L4 & Q & _); [done..|].
    destruct (quantum_byte a zero zero) as (B1 & _). change (N_of_ascii zero) with 0%N in *.
    set (n := (N_of_ascii a * 65536 + 0 * 256 + 0)%N) in *. cbn [decode_chars].
    rewrite (proj1 (std_char_ok _ L1)). cbn [mbind option_bind]. rewrite (proj1 (std_char_ok _ L2)). cbn [mbind option_bind].
    assert (E : quantum (n / 262144) ((n / 4096) `mod` 64) 0 0 = n).
    { rewrite <- Q at 3. f_equal; unfold n.
      - replace (N_of_ascii a * 65536 + 0 * 256 + 0)%N with (N_of_ascii a * 16 * 64 * 64)%N by lia.
        by rewrite N.div_mul, N.Div0.mod_mul by done.
      - replace (N_of_ascii a * 65536 + 0 * 256 + 0)%N with (N_of_ascii a * 1024 * 64)%N by lia.
        by rewrite N.Div0.mod_mul. }
    by rewrite E, B1.
  - destruct (quantum_bytes _ _ 0 (byte_lt a) (byte_lt b)) as (L1 & L2 & L3 & L4 & Q & _); [done|].
    destruct (quantum_byte a b zero) as (B1 & B2 & _). change (N_of_ascii zero) with 0%N in *.
    set (n := (N_of_ascii a * 65536 + N_of_ascii b * 256 + 0)%N) in *. cbn [decode_chars].
    destruct (std_char_ok _ L3) as (S3 & P3 & _).
    rewrite (proj1 (std_char_ok _ L1)). cbn [mbind option_bind]. rewrite (proj1 (std_char_ok _ L2)). cbn [mbind option_bind].
    rewrite bool_decide_false, S3 by done. cbn [mbind option_bind].
    assert (E : quantum (n / 262144) ((n / 4096) `mod` 64) ((n / 64) `mod` 64) 0 = n).
    { rewrite <- Q at 4. f_equal; unfold n.
      replace (N_of_ascii a * 65536 + N_of_ascii b * 256 + 0)%N with
        ((N_of_ascii a * 1024 + N_of_ascii b * 4) * 64)%N by lia. by rewrite N.Div0.mod_mul. }
    by rewrite E, B1, B2.
  - destruct (quantum_bytes _ _ _ (byte_lt a) (byte_lt b) (byte_lt c)) as (L1 & L2 & L3 & L4 & Q & _).
    destruct (quantum_byte a b c) as (B1 & B2 & B3).
    set (n := (N_of_ascii a * 65536 + N_of_ascii b * 256 + N_of_ascii c)%N) in *. cbn [decode_chars].
    destruct (std_char_ok _ L3) as (S3 & P3 & _), (std_char_ok _ L4) as (S4 & P4 & _).
    rewrite (proj1 (std_char_ok _ L1)). cbn [mbind option_bind]. rewrite (proj1 (std_char_ok _ L2)). cbn [mbind option_bind].
    rewrite bool_decide_false, S3 by done. cbn [mbind option_bind]. rewrite bool_decide_false, S4 by done. cbn [mbind option_bind].
    rewrite IH. cbn [mbind option_bind]. by rewrite Q, B1, B2, B3.
Qed.

Lemma encode_no_line_end l :
  List.filter (λ a, negb (line_end a)) (encode_bytes l) = encode_bytes l.
Proof.
  assert (Hf : ∀ v l, (v < 64)%N → List.filter (λ a, negb (line_end a)) (std_char v :: l) =
    std_char v :: List.filter (λ a, negb (line_end a)) l).
  { intros v l' Hv. cbn [List.filter]. destruct (std_char_ok v Hv) as (_ & _ & E). by rewrite E. }
  induction l as [|a|a b|a b c l IH] using list_ind3; [done|..]; cbn [encode_bytes];
    [destruct (quantum_bytes _ _ _ (byte_lt a) (byte_lt zero) (byte_lt zero)) as (? & ? & ? & ? & _)
    |destruct (quantum_bytes _ _ _ (byte_lt a) (byte_lt b) (byte_lt zero)) as (? & ? & ? & ? & _)
    |destruct (quantum_bytes _ _ _ (byte_lt a) (byte_lt b) (byte_lt c)) as (? & ? & ? & ? & _)];
    rewrite !Hf by done; [done..|]. by rewrite IH.
Qed.

Lemma DecodeString_EncodeToString s : DecodeString (EncodeToString s) = Some s.
Proof.
  unfold DecodeString, EncodeToString. rewrite String.list_ascii_of_string_of_list_ascii.
  rewrite encode_no_line_end, decode_encode_bytes. cbn. by rewrite String.string_of_list_ascii_of_string.
Qed.
