(* ===== verification/Store.v ===== *)
(** * Store: the persistent key-value store (service/store)

    [Store] is the interface of store.go; [bitcask_store] is its
    implementation in bitcask.go, over the library given by the class
    [Bitcask].  Each method runs under the store's lock, so it is atomic.  A
    write that fails may or may not have reached the database. *)
From S2P Require Import Prelude.

Definition ErrNotFound : error := EText "error: not found".
Definition ErrEmptyKey : error := EText "error: empty key".
Definition ErrConflict : error := EText "error: conflict".

(** [store.Store]. *)
Class Store := {
  store : Type;
  store_Put : string → string → go store (result unit);
  store_Set : string → string → go store (result unit);
  store_Get : string → go store (result string);
  store_Delete : string → go store (result unit);
  store_Close : go store (result unit);
}.

(** ** What a store promises

    Its contents are a map.  A write under an empty key is refused; a write
    that reports success took place, and one that reports another failure took
    place or not. *)
Abbreviation contents := (gmap string string).

Definition write_spec (k : string) (m1 m : contents) (r : result unit) (m' : contents) : Prop :=
  if bool_decide (k = str0) then r = Err ErrEmptyKey ∧ m' = m
  else match r with
       | Ok _ => m' = m1
       | Err e => (m' = m ∨ m' = m1) ∧ error_is e ErrConflict = false
       end.

Definition set_spec (k v : string) (m : contents) := write_spec k (<[k := v]> m) m.
Definition delete_spec (k : string) (m : contents) := write_spec k (delete k m) m.

(** [Put] refuses a key that is there. *)
Definition put_spec (k v : string) (m : contents) (r : result unit) (m' : contents) : Prop :=
  if bool_decide (k ≠ str0 ∧ is_Some (m !! k)) then r = Err ErrConflict ∧ m' = m
  else set_spec k v m r m'.

Definition get_spec (k : string) (m : contents) (r : result string) : Prop :=
  if bool_decide (k = str0) then r = Err ErrEmptyKey
  else match r with
       | Ok v => m !! k = Some v
       | Err e => error_is e ErrNotFound = true ↔ m !! k = None
       end.

Class StoreLaws (S : Store) := {
  store_rep : store → contents → Prop;
  store_Put_ok k v s m : store_rep s m →
    wp (store_Put k v) (λ r s', ∃ m', store_rep s' m' ∧ put_spec k v m r m') s;
  store_Set_ok k v s m : store_rep s m →
    wp (store_Set k v) (λ r s', ∃ m', store_rep s' m' ∧ set_spec k v m r m') s;
  store_Get_ok k s m : store_rep s m →
    wp (store_Get k) (λ r s', store_rep s' m ∧ get_spec k m r) s;
  store_Delete_ok k s m : store_rep s m →
    wp (store_Delete k) (λ r s', ∃ m', store_rep s' m' ∧ delete_spec k m r m') s;
}.

(** ** The library *)
Class Bitcask := {
  db : Type;
  ErrKeyNotFound : error;
  db_Put : string → string → db → result unit * db;
  db_Get : string → db → result string;
  db_Has : string → db → bool;
  db_Delete : string → db → result unit * db;
  db_Sync : db → result unit * db;
  db_Close : db → result unit * db;
}.

(** Its documented behaviour: lookups are those of a map, and a write that
    fails leaves the map as it was or as it was to become.  Its errors are not
    the store's. *)
Class BitcaskLaws (B : Bitcask) := {
  db_rep : db → contents → Prop;
  db_Has_ok k d m : db_rep d m → db_Has k d = bool_decide (is_Some (m !! k));
  db_Get_ok k d m : db_rep d m →
    match db_Get k d with
    | Ok v => m !! k = Some v
    | Err e => (error_is e ErrKeyNotFound = true ↔ m !! k = None) ∧ error_is e ErrNotFound = false
    end;
  db_Put_ok k v d m r d' : db_rep d m → db_Put k v d = (r, d') →
    ∃ m', db_rep d' m' ∧ match r with
      | Ok _ => m' = <[k := v]> m
      | Err e => (m' = m ∨ m' = <[k := v]> m) ∧ error_is e ErrConflict = false end;
  db_Delete_ok k d m r d' : db_rep d m → db_Delete k d = (r, d') →
    ∃ m', db_rep d' m' ∧ match r with
      | Ok _ => m' = delete k m
      | Err e => (m' = m ∨ m' = delete k m) ∧ error_is e ErrConflict = false end;
  db_Sync_ok d m r d' : db_rep d m → db_Sync d = (r, d') →
    db_rep d' m ∧ match r with Ok _ => True | Err e => error_is e ErrConflict = false end;
}.

(** ** The implementation *)
Section bitcask.
  Context {B : Bitcask}.

Definition on_db {A} (f : db → A * db) : go db A := λ d, Some (f d).

(** The end of every write. *)
Definition sync_db : go db (result unit) :=
  r ← on_db db_Sync; mret (wrap_err "failed to sync db" r).

Definition bitcask_Set (key value : string) : go db (result unit) :=
  if bool_decide (key = str0) then mret (Err ErrEmptyKey)
  else
    r ← on_db (db_Put key value);
    match r with
    | Err e => mret (Err (EWrap "failed to set key" e))
    | Ok _ => sync_db
    end.

Definition bitcask_Put (key value : string) : go db (result unit) :=
  if bool_decide (key = str0) then mret (Err ErrEmptyKey)
  else
    has ← gets (db_Has key);
    if has : bool then mret (Err ErrConflict)
    else
      r ← on_db (db_Put key value);
      match r with
      | Err e => mret (Err (EWrap "failed to set key" e))
      | Ok _ => sync_db
      end.

Definition bitcask_Get (key : string) : go db (result string) :=
  if bool_decide (key = str0) then mret (Err ErrEmptyKey)
  else
    r ← gets (db_Get key);
    mret (match r with
          | Ok v => Ok v
          | Err e => if error_is e ErrKeyNotFound then Err ErrNotFound
                     else Err (EWrap "failed to get key" e)
          end).

Definition bitcask_Delete (key : string) : go db (result unit) :=
  if bool_decide (key = str0) then mret (Err ErrEmptyKey)
  else
    r ← on_db (db_Delete key);
    match r with
    | Err e => mret (Err (EWrap "failed to delete key" e))
    | Ok _ => sync_db
    end.

Definition bitcask_Close : go db (result unit) :=
  r ← on_db db_Close; mret (wrap_err "failed to close store" r).

Definition bitcask_store : Store := {|
  store := db;
  store_Put := bitcask_Put;
  store_Set := bitcask_Set;
  store_Get := bitcask_Get;
  store_Delete := bitcask_Delete;
  store_Close := bitcask_Close;
|}.

(** ** The implementation keeps the promise *)
Context {L : BitcaskLaws B}.

Lemma wp_on_db {A} (f : db → A * db) Q d :
  (∀ a d', f d = (a, d') → Q a d') → wp (on_db f) Q d.
Proof. intros HQ. unfold wp, on_db. destruct (f d) eqn:Hf. by apply HQ. Qed.

Lemma sync_db_ok k m m1 d :
  k ≠ str0 → db_rep d m1 →
  wp sync_db (λ r d', ∃ m', db_rep d' m' ∧ write_spec k m1 m r m') d.
Proof.
  intros Hk Hd. unfold sync_db, write_spec. rewrite bool_decide_false by done.
  apply wp_bind, wp_on_db. intros r d' Hs. destruct (db_Sync_ok _ _ _ _ Hd Hs) as [Hd' Hr].
  apply wp_ret. exists m1. split; [done|].
  destruct r as [|e]; cbn [wrap_err]; [done|]. unfold ErrConflict in *. rewrite error_is_wrap. auto.
Qed.

(** A write followed by the synchronisation. *)
Lemma write_db_ok k m m1 (f : db → result unit * db) msg d :
  k ≠ str0 → db_rep d m →
  (∀ r d', f d = (r, d') → ∃ m', db_rep d' m' ∧ match r with
    | Ok _ => m' = m1 | Err e => (m' = m ∨ m' = m1) ∧ error_is e ErrConflict = false end) →
  wp (r ← on_db f; match r with Err e => mret (Err (EWrap msg e)) | Ok _ => sync_db end)
    (λ r d', ∃ m', db_rep d' m' ∧ write_spec k m1 m r m') d.
Proof.
  intros Hk Hd Hf. apply wp_bind, wp_on_db. intros r d' Hr. destruct (Hf _ _ Hr) as (m' & Hd' & Hm).
  destruct r as [u|e]; [subst; by apply sync_db_ok|]. apply wp_ret. exists m'. split; [done|].
  unfold write_spec, ErrConflict in *. by rewrite bool_decide_false, error_is_wrap.
Qed.

(** A refused empty key. *)
Lemma empty_key_ok m m1 d :
  db_rep d m →
  wp (mret (Err ErrEmptyKey)) (λ r d', ∃ m', db_rep d' m' ∧ write_spec str0 m1 m r m') d.
Proof. intros Hd. apply wp_ret. exists m. split; [done|]. done. Qed.

#[export] Instance bitcask_store_laws : StoreLaws bitcask_store.
Proof.
  refine (Build_StoreLaws bitcask_store db_rep _ _ _ _).
  - intros k v d m Hd. cbn. unfold bitcask_Put, put_spec, set_spec.
    destruct (decide (k = str0)) as [->|Hk].
    + rewrite bool_decide_true, bool_decide_false by naive_solver. by apply empty_key_ok.
    + rewrite bool_decide_false by done. apply wp_bind, wp_gets. rewrite (db_Has_ok _ _ _ Hd).
      destruct (decide (is_Some (m !! k))) as [Hs|Hs].
      * rewrite !bool_decide_true by done. apply wp_ret. eauto.
      * rewrite !bool_decide_false by naive_solver. apply write_db_ok; [done..|]. intros. by eapply db_Put_ok.
  - intros k v d m Hd. cbn. unfold bitcask_Set, set_spec. case_bool_decide as Hk.
    + subst. by apply empty_key_ok.
    + apply write_db_ok; [done..|]. intros. by eapply db_Put_ok.
  - intros k d m Hd. cbn. unfold bitcask_Get, get_spec. case_bool_decide; [by apply wp_ret|].
    apply wp_bind, wp_gets, wp_ret. split; [done|]. pose proof (db_Get_ok k _ _ Hd) as Hg.
    destruct (db_Get k d) as [v|e]; [done|]. destruct Hg as [Hg Hn].
    destruct (error_is e ErrKeyNotFound); rewrite <- Hg; [done|].
    unfold ErrNotFound in *. by rewrite error_is_wrap, Hn.
  - intros k d m Hd. cbn. unfold bitcask_Delete, delete_spec. case_bool_decide as Hk.
    + subst. by apply empty_key_ok.
    + apply write_db_ok; [done..|]. intros. by eapply db_Delete_ok.
Defined.

End bitcask.

(** ** Sequences of operations *)
Inductive store_op :=
  | OpPut (k v : string)
  | OpSet (k v : string)
  | OpGet (k : string)
  | OpDelete (k : string).

(** What an operation may answer, and what becomes of the map. *)
Definition op_spec (op : store_op) (m : contents) (r : result string) (m' : contents) : Prop :=
  match op with
  | OpPut k v => ∃ r', put_spec k v m r' m' ∧ r = (_ ← r'; Ok str0)
  | OpSet k v => ∃ r', set_spec k v m r' m' ∧ r = (_ ← r'; Ok str0)
  | OpGet k => get_spec k m r ∧ m' = m
  | OpDelete k => ∃ r', delete_spec k m r' m' ∧ r = (_ ← r'; Ok str0)
  end.

Inductive ops_spec : list store_op → contents → list (result string) → contents → Prop :=
  | ops_nil m : ops_spec [] m [] m
  | ops_cons op ops m r m1 rs m2 :
      op_spec op m r m1 → ops_spec ops m1 rs m2 → ops_spec (op :: ops) m (r :: rs) m2.

Section ops.
  Context {S : Store}.

Definition store_step (op : store_op) : go store (result string) :=
  match op with
  | OpPut k v => r ← store_Put k v; mret (_ ← r; Ok str0)
  | OpSet k v => r ← store_Set k v; mret (_ ← r; Ok str0)
  | OpGet k => store_Get k
  | OpDelete k => r ← store_Delete k; mret (_ ← r; Ok str0)
  end.

Fixpoint store_run (ops : list store_op) : go store (list (result string)) :=
  match ops with
  | [] => mret []
  | op :: ops => r ← store_step op; rs ← store_run ops; mret (r :: rs)
  end.

Context {L : StoreLaws S}.

Lemma store_step_ok op s m :
  store_rep s m → wp (store_step op) (λ r s', ∃ m', store_rep s' m' ∧ op_spec op m r m') s.
Proof.
  intros Hs.
  destruct op as [k v|k v|k|k]; cbn;
    try (apply wp_bind; eapply wp_mono; [first [by apply store_Put_ok|by apply store_Set_ok|by apply store_Delete_ok]|];
         intros r s' (m' & Hs' & Hm); apply wp_ret; by eauto 6).
  eapply wp_mono; [by apply store_Get_ok|]. intros r s' [Hs' Hg]. eauto.
Qed.

Lemma store_run_ok ops s m :
  store_rep s m → wp (store_run ops) (λ rs s', ∃ m', store_rep s' m' ∧ ops_spec ops m rs m') s.
Proof.
  revert s m. induction ops as [|op ops IH]; intros s m Hs.
  - apply wp_ret. exists m. split; [done|constructor].
  - cbn [store_run]. apply wp_bind. eapply wp_mono; [by apply store_step_ok|].
    intros r s1 (m1 & Hs1 & Hop). apply wp_bind. eapply wp_mono; [by apply IH|].
    intros rs s2 (m2 & Hs2 & Hops). apply wp_ret. exists m2. split; [done|by econstructor].
Qed.

End ops.

(** In the abstract store the first [Put] of a key wins: while the key is not
    set or deleted its value stays, and another [Put] is refused. *)
Definition touches (k : string) (op : store_op) : Prop :=
  match op with OpSet k' _ | OpDelete k' => k' = k | OpPut _ _ | OpGet _ => False end.

Lemma write_other k k' m1 m r m' v :
  write_spec k' m1 m r m' → m !! k = Some v → m1 !! k = Some v → m' !! k = Some v.
Proof.
  unfold write_spec. intros Hw Hm Hm1. case_bool_decide.
  - by destruct Hw as [_ ->].
  - destruct r; [by subst|]. destruct Hw as [[-> | ->] _]; done.
Qed.

Lemma op_keeps k v op m r m' :
  k ≠ str0 → m !! k = Some v → ¬ touches k op → op_spec op m r m' → m' !! k = Some v.
Proof.
  intros Hk Hm Ht Hop. destruct op as [k' v'|k' v'|k'|k']; cbn in *.
  - destruct Hop as (r' & Hp & _). unfold put_spec in Hp. case_bool_decide as Hc.
    + by destruct Hp as [_ ->].
    + apply (write_other _ _ _ _ _ _ _ Hp Hm). rewrite lookup_insert_ne; [done|].
      intros ->. apply Hc. split; [done|]. eauto.
  - destruct Hop as (r' & Hp & _). apply (write_other _ _ _ _ _ _ _ Hp Hm).
    by rewrite lookup_insert_ne.
  - by destruct Hop as [_ ->].
  - destruct Hop as (r' & Hp & _). apply (write_other _ _ _ _ _ _ _ Hp Hm).
    by rewrite lookup_delete_ne.
Qed.

Lemma ops_keep k v ops m rs m' :
  k ≠ str0 → m !! k = Some v → Forall (λ op, ¬ touches k op) ops → ops_spec ops m rs m' →
  m' !! k = Some v.
Proof.
  intros Hk Hm Hf Hops. induction Hops as [|op ops m r m1 rs m2 Hop _ IH]; [done|].
  apply Forall_cons in Hf as [Hop' Hf]. apply IH; [|done]. by eapply op_keeps.
Qed.

(** ** A concrete database *)
Module ToyStore.

(** Keys are at most eight characters long. *)
Definition toy_put (k v : string) (m : contents) : result unit * contents :=
  if bool_decide (String.length k ≤ 8) then (Ok tt, <[k := v]> m) else (Err (EText "key too large"), m).

Definition toy_bitcask : Bitcask := {|
  db := contents;
  ErrKeyNotFound := EText "key not found";
  db_Put := toy_put;
  db_Get := λ k m, match m !! k with Some v => Ok v | None => Err (EText "key not found") end;
  db_Has := λ k m, bool_decide (is_Some (m !! k));
  db_Delete := λ k m, (Ok tt, delete k m);
  db_Sync := λ m, (Ok tt, m);
  db_Close := λ m, (Ok tt, m);
|}.

Definition toy_bitcask_laws : BitcaskLaws toy_bitcask.
Proof.
  refine (Build_BitcaskLaws toy_bitcask eq _ _ _ _ _); cbn.
  - by intros k d m <-.
  - intros k d m <-. by destruct (d !! k).
  - intros k v d m r d' <-. unfold toy_put. case_bool_decide; intros [= <- <-]; eauto.
  - intros k d m r d' <- [= <- <-]. eauto.
  - by intros d m r d' <- [= <- <-].
Defined.

Definition toy_store : Store := bitcask_store (B := toy_bitcask).
Definition toy_store_laws : StoreLaws toy_store := bitcask_store_laws (L := toy_bitcask_laws).

End ToyStore.

(** ** Properties *)

(** C16: the store is a map that keeps the first value put under a key.  Over a
    database that behaves as documented, whatever sequence of operations is
    run, each answer and each change is one the abstract map allows (an empty
    key is refused, [Put] of a present key is a conflict that changes nothing,
    a successful write took place, a failed one took place or not, a lookup
    answers the map, "not found" exactly when the key is not there); and after
    a successful [Put] the key keeps its value until it is set or deleted. *)
Theorem bitcask_refines_map {B : Bitcask} {L : BitcaskLaws B} ops d m :
  db_rep d m →
  ∃ rs d' m', store_run (S := bitcask_store) ops d = Some (rs, d') ∧ db_rep d' m' ∧
    ops_spec ops m rs m' ∧
    ∀ k v ops', ops = OpPut k v :: ops' → rs !! 0 = Some (Ok str0) →
      Forall (λ op, ¬ touches k op) ops' → m' !! k = Some v.
Proof.
  intros Hd. destruct (proj1 (wp_inv _ _ _) (store_run_ok (S := bitcask_store) (L := bitcask_store_laws) ops d m Hd))
    as (rs & d' & Hrun & m' & Hd' & Hops).
  exists rs, d', m'. split_and!; [done..|]. intros k v ops' -> Hr Hf.
  inversion Hops as [|? ? ? r m1 rs' ? Hop Hops']; subst. injection Hr as ->.
  destruct Hop as (r' & Hp & Hr'). destruct r' as [[]|]; [|done]. unfold put_spec in Hp.
  case_bool_decide; [by destruct Hp|]. unfold set_spec, write_spec in Hp.
  case_bool_decide as Hk; [by destruct Hp|]. subst m1.
  eapply ops_keep; [done| |done..]. apply lookup_insert_eq.
Qed.

Lemma bitcask_refines_map_witness :
  ∃ rs d', store_run (S := ToyStore.toy_store) [OpPut "a" "1"; OpPut "a" "2"; OpGet "a"] ∅ = Some (rs, d') ∧
    (∅ : contents) !! "a"%string = None.
Proof.
  destruct (bitcask_refines_map (B := ToyStore.toy_bitcask) (L := ToyStore.toy_bitcask_laws)
    [OpPut "a" "1"; OpPut "a" "2"; OpGet "a"] (∅ : contents) ∅) as (rs & d' & _ & Hrun & _).
  - reflexivity.
  - exists rs, d'. split; [exact Hrun|reflexivity].
Defined.
