(* ===== verification/Auth.v ===== *)
(** * Auth: clients, their keys and their bearer tokens (service/auth)

    crypto.go, session_cache.go and service.go.  A section under the cache's
    lock and a call of the store are atomic; what other goroutines do while a
    method waits for the limiter, or between two of its sections, is the
    argument [between].  bcrypt, the limiter and the random source are not
    part of the program. *)
From S2P Require Import Prelude Random Store.

Definition MinKeyLen : nat := 32.

(** golang.org/x/crypto/bcrypt, with the salt as an argument. *)
Class Bcrypt := {
  GenerateFromPassword : list Z → string → result string;
  CompareHashAndPassword : string → string → result unit;
}.
Class BcryptLaws (B : Bcrypt) := {
  compare_generated salt key h : GenerateFromPassword salt key = Ok h →
    h ≠ str0 ∧ CompareHashAndPassword h key = Ok tt;
}.

(** ** The session cache *)
Record CachedSession := { ClientID : string; ExpirationDate : Z }.

Record SessionCache := {
  ExpirationMinutes : Z;
  sessionMap : gmap string CachedSession;
}.

Definition SessionCacheConfig_IsValid (minutes : Z) : result unit :=
  guard_err (minutes <=? 0)%Z "invalid ExpirationMinutes value: should be a positive number".

Definition NewSessionCache (minutes : Z) : result SessionCache :=
  _ ← SessionCacheConfig_IsValid minutes; Ok {| ExpirationMinutes := minutes; sessionMap := ∅ |}.

Definition set_sessionMap (f : gmap string CachedSession → gmap string CachedSession)
    (c : SessionCache) : SessionCache :=
  {| ExpirationMinutes := ExpirationMinutes c; sessionMap := f (sessionMap c) |}.

(** [time.Duration(t.cfg.ExpirationMinutes) * time.Minute]. *)
Definition session_lifetime (c : SessionCache) : Z := wrap_int 64 (ExpirationMinutes c * minute).

(** The loop of [delete], which stops at the first token of the client. *)
Fixpoint client_token (clientID : string) (l : list (string * CachedSession)) : option string :=
  match l with
  | [] => None
  | (token, session) :: l =>
      if bool_decide (ClientID session = clientID) then Some token else client_token clientID l
  end.

(** What the cache stands for: the token of each client and when it expires. *)
Abbreviation tokens := (gmap string (string * Z)).

(** ** The service *)
Record auth {S : Store} := { au_store : store; au_cache : SessionCache }.
Arguments auth : clear implicits.

Section auth.
  Context {O : MapOrder} {S : Store} {B : Bcrypt}.

Definition set_au_cache (f : SessionCache → SessionCache) (a : auth S) : auth S :=
  {| au_store := au_store a; au_cache := f (au_cache a) |}.

Definition on_store {A} (m : go store A) : go (auth S) A := λ a,
  '(r, s) ← m (au_store a); Some (r, {| au_store := s; au_cache := au_cache a |}).

Definition delete_client (clientID : string) (c : SessionCache) : SessionCache :=
  match client_token clientID (range_kv (sessionMap c)) with
  | Some token => set_sessionMap (delete token) c
  | None => c
  end.

Definition cache_Delete (clientID : string) : go (auth S) unit :=
  modify (set_au_cache (delete_client clientID)).

Definition cache_Get (token : string) (now : Z) (between : go (auth S) unit) :
    go (auth S) (result CachedSession) :=
  c ← gets au_cache;
  match sessionMap c !! token with
  | None => mret (Err (EText "token is invalid"))
  | Some session =>
      if (ExpirationDate session <? now)%Z then
        between ;;
        modify (set_au_cache (set_sessionMap (delete token))) ;;
        mret (Err (EText "session is expired"))
      else mret (Ok session)
  end.

Definition cache_Put (clientID token : string) (now : Z) : go (auth S) (result unit) :=
  if bool_decide (clientID = str0) then mret (Err (EText "can not cache: invalid client id"))
  else if bool_decide (token = str0) then mret (Err (EText "can not cache: invalid token"))
  else
    c ← gets au_cache;
    if bool_decide (is_Some (sessionMap c !! token)) then
      mret (Err (EText "can not cache: token in use"))
    else
      modify (set_au_cache (delete_client clientID)) ;;
      modify (set_au_cache (set_sessionMap (<[token :=
        {| ClientID := clientID; ExpirationDate := now + session_lifetime c |}]>))) ;;
      mret (Ok tt).

(** crypto.go. *)
Definition newRandomString (read : nat → result (list Z)) (length : nat) : option (result string) :=
  match read (1 + (length * 4) / 3) with
  | Err e => Some (Err e)
  | Ok data =>
      if bool_decide (List.length data ≠ 1 + (length * 4) / 3) then
        Some (Err (EText "failed to read enough data"))
      else (λ l, Ok (String.string_of_list_ascii l)) <$> prefix_of length (encode url_alphabet 6 data)
  end.

Definition newRandomToken (read : nat → result (list Z)) : go (auth S) (result string) := λ a,
  (λ r, (r, a)) <$> newRandomString read MinKeyLen.

Definition hashKey (salt : list Z) (key : string) : result string :=
  if bool_decide (key = str0) then Err (EText "invalid empty key")
  else GenerateFromPassword salt key.

Definition compareKeyHash (hash key : string) : result unit :=
  if bool_decide (hash = str0) then Err (EText "invalid empty hash")
  else if bool_decide (key = str0) then Err (EText "invalid empty key")
  else CompareHashAndPassword hash key.

(** [wait] is the answer of the limiter. *)
Definition Authenticate (id authToken : string) (between : go (auth S) unit) (wait : result unit) :
    go (auth S) (result unit) :=
  r ← on_store (store_Get id);
  match r with
  | Err e => mret (Err (EWrap "authentication failed" e))
  | Ok hash =>
      between ;;
      match wait with
      | Err e => mret (Err (EWrap "authentication failed" e))
      | Ok _ =>
          mret (match compareKeyHash hash authToken with
                | Ok _ => Ok tt
                | Err _ => Err (EText "authentication failed")
                end)
      end
  end.

Definition Register (id key : string) (between : go (auth S) unit) (wait : result unit) (salt : list Z) :
    go (auth S) (result unit) :=
  if bool_decide (String.length key < MinKeyLen) then
    mret (Err (EText "registration failed: key not long enough"))
  else
    r ← on_store (store_Get id);
    match r with
    | Ok _ => mret (Err (EText "registration failed: already registered"))
    | Err e =>
        if negb (error_is e ErrNotFound) then mret (Err (EWrap "registration failed" e))
        else
          between ;;
          match wait with
          | Err e => mret (Err (EWrap "registration failed" e))
          | Ok _ =>
              match hashKey salt key with
              | Err e => mret (Err (EWrap "registration failed" e))
              | Ok hash =>
                  r ← on_store (store_Put id hash);
                  mret (match r with
                        | Ok _ => Ok tt
                        | Err e =>
                            if error_is e ErrConflict
                            then Err (EText "registration failed: already registered")
                            else Err (EWrap "registration failed" e)
                        end)
              end
          end
    end.

Definition Unregister (id : string) (between : go (auth S) unit) : go (auth S) (result unit) :=
  r ← on_store (store_Get id);
  match r with
  | Err e => mret (Err (EWrap "unregister failed" e))
  | Ok _ =>
      between ;;
      r ← on_store (store_Delete id);
      match r with
      | Err e => mret (Err (EWrap "unregister failed" e))
      | Ok _ => cache_Delete id ;; mret (Ok tt)
      end
  end.

(** [waiting] runs while [Authenticate] waits, [between] between the
    authentication and the caching of the token. *)
Definition Login (id key : string) (waiting : go (auth S) unit) (wait : result unit)
    (between : go (auth S) unit) (read : nat → result (list Z)) (now : Z) :
    go (auth S) (result string) :=
  r ← Authenticate id key waiting wait;
  match r with
  | Err e => mret (Err (EWrap "login failed" e))
  | Ok _ =>
      between ;;
      t ← newRandomToken read;
      match t with
      | Err e => mret (Err (EWrap "login failed" e))
      | Ok bearerToken =>
          r ← cache_Put id bearerToken now;
          mret (match r with
                | Err e => Err (EWrap "login failed" e)
                | Ok _ => Ok bearerToken
                end)
      end
  end.

(** ** The cache as a map from clients to their token

    Whatever the order in which [delete] visits the tokens. *)
Record cache_rep (c : SessionCache) (a : tokens) : Prop := {
  cr_session token s : sessionMap c !! token = Some s ↔
    a !! ClientID s = Some (token, ExpirationDate s);
  cr_named client token e : a !! client = Some (token, e) → client ≠ str0 ∧ token ≠ str0;
}.

(** The client a token belongs to. *)
Definition owner (token : string) (a : tokens) : option (string * Z) :=
  p ← List.find (λ p : string * (string * Z), bool_decide ((snd p).1 = token)) (map_to_list a);
  Some (fst p, (snd p).2).

Lemma client_token_spec client l :
  match client_token client l with
  | Some token => ∃ s, (token, s) ∈ l ∧ ClientID s = client
  | None => ∀ token s, (token, s) ∈ l → ClientID s ≠ client
  end.
Proof.
  induction l as [|[token s] l IH]; cbn; [by intros ?? ?%not_elem_of_nil|].
  case_bool_decide as Hc.
  - exists s. split; [by left|done].
  - destruct (client_token client l) as [token'|].
    + destruct IH as (s' & Hin & Hs'). exists s'. split; [by right|done].
    + intros token' s' [[= -> ->]|Hin]%elem_of_cons; [done|by eapply IH].
Qed.

Lemma client_token_rep c a client :
  cache_rep c a → client_token client (range_kv (sessionMap c)) = fst <$> a !! client.
Proof.
  intros Hr. pose proof (client_token_spec client (range_kv (sessionMap c))) as H.
  destruct (client_token client _) as [token|].
  - destruct H as (s & Hin%elem_of_range_kv & <-). apply (cr_session _ _ Hr) in Hin. by rewrite Hin.
  - destruct (a !! client) as [[token e]|] eqn:Ha; [|done].
    destruct (H token {| ClientID := client; ExpirationDate := e |}); [|done].
    apply elem_of_range_kv. by apply (cr_session _ _ Hr).
Qed.

Lemma owner_rep c a token :
  cache_rep c a → owner token a = (λ s, (ClientID s, ExpirationDate s)) <$> sessionMap c !! token.
Proof.
  intros Hr. unfold owner. destruct (List.find _ _) as [[client [token' e]]|] eqn:Hf; cbn.
  - apply find_some in Hf as [Hin Ht%bool_decide_eq_true]. cbn in Ht. subst token'.
    apply list_elem_of_In, elem_of_map_to_list in Hin.
    apply (cr_session _ _ Hr token {| ClientID := client; ExpirationDate := e |}) in Hin.
    by rewrite Hin.
  - destruct (sessionMap c !! token) as [s|] eqn:Hs; [|done]. apply (cr_session _ _ Hr) in Hs.
    apply elem_of_map_to_list, list_elem_of_In in Hs.
    pose proof (find_none _ _ Hf _ Hs) as Hn. cbn in Hn. by rewrite bool_decide_true in Hn.
Qed.

Lemma delete_token_rep c a token s :
  cache_rep c a → sessionMap c !! token = Some s →
  cache_rep (set_sessionMap (delete token) c) (delete (ClientID s) a).
Proof.
  intros Hr Hs. apply (cr_session _ _ Hr) in Hs as Ha. split.
  - intros token' s'. cbn. rewrite !lookup_delete_Some, (cr_session _ _ Hr). split.
    + intros [Hne Ha']. split; [|done]. intros Heq. congruence.
    + intros [Hne Ha']. split; [|done]. intros ->. apply (cr_session _ _ Hr) in Ha'. congruence.
  - intros client token' e [_ Ha']%lookup_delete_Some. by eapply cr_named.
Qed.

Lemma delete_client_rep c a client :
  cache_rep c a → cache_rep (delete_client client c) (delete client a).
Proof.
  intros Hr. unfold delete_client. rewrite (client_token_rep _ _ _ Hr).
  destruct (a !! client) as [[token e]|] eqn:Ha; cbn.
  - apply (delete_token_rep c a token {| ClientID := client; ExpirationDate := e |} Hr).
    by apply (cr_session _ _ Hr).
  - by rewrite delete_id.
Qed.

Lemma put_rep c a client token e :
  cache_rep c a → client ≠ str0 → token ≠ str0 → sessionMap c !! token = None →
  cache_rep (set_sessionMap (<[token := {| ClientID := client; ExpirationDate := e |}]>)
      (delete_client client c)) (<[client := (token, e)]> a).
Proof.
  intros Hr Hc Ht Hn. pose proof (delete_client_rep c a client Hr) as Hr'. split.
  - intros token' s'. cbn. rewrite lookup_insert_Some.
    assert (Hn' : sessionMap (delete_client client c) !! token = None).
    { destruct (sessionMap (delete_client client c) !! token) as [s|] eqn:Hs; [|done].
      apply (cr_session _ _ Hr'), lookup_delete_Some in Hs as [_ Hs].
      apply (cr_session _ _ Hr) in Hs. congruence. }
    destruct (decide (ClientID s' = client)) as [<-|Hne].
    + rewrite lookup_insert_eq. split.
      * intros [[-> <-]|[_ Hs]]; [done|]. by apply (cr_session _ _ Hr'), lookup_delete_Some in Hs as [].
      * intros [= -> ->]. left. split; [done|]. by destruct s'.
    + rewrite lookup_insert_ne by done. split.
      * intros [[_ <-]|[_ Hs]]; [by destruct Hne|]. by apply (cr_session _ _ Hr'), lookup_delete_Some in Hs as [].
      * intros Hs. right. apply (cr_session _ _ Hr) in Hs as Hs1. split; [congruence|].
        apply (cr_session _ _ Hr'). by rewrite lookup_delete_ne.
  - intros client' token' e' [[-> [= -> ->]]|[_ Ha]]%lookup_insert_Some; [done|by eapply (cr_named _ _ Hr)].
Qed.

Lemma set_sessionMap_lifetime f c : session_lifetime (set_sessionMap f c) = session_lifetime c.
Proof. done. Qed.

Lemma delete_client_lifetime client c : session_lifetime (delete_client client c) = session_lifetime c.
Proof. unfold delete_client. by destruct (client_token _ _). Qed.

(** *** Operations of the cache *)
Inductive cache_op :=
  | CachePut (client token : string) (now : Z)
  | CacheGet (token : string) (now : Z)
  | CacheDelete (client : string).

(** The answers of a cache with [lifetime], and what becomes of the map. *)
Definition cache_spec (lifetime : Z) (op : cache_op) (a : tokens) : result (option CachedSession) * tokens :=
  match op with
  | CachePut client token now =>
      if bool_decide (client = str0) then (Err (EText "can not cache: invalid client id"), a)
      else if bool_decide (token = str0) then (Err (EText "can not cache: invalid token"), a)
      else match owner token a with
           | Some _ => (Err (EText "can not cache: token in use"), a)
           | None => (Ok None, <[client := (token, now + lifetime)%Z]> a)
           end
  | CacheGet token now =>
      match owner token a with
      | None => (Err (EText "token is invalid"), a)
      | Some (client, e) =>
          if (e <? now)%Z then (Err (EText "session is expired"), delete client a)
          else (Ok (Some {| ClientID := client; ExpirationDate := e |}), a)
      end
  | CacheDelete client => (Ok None, delete client a)
  end.

Definition cache_step (op : cache_op) : go (auth S) (result (option CachedSession)) :=
  match op with
  | CachePut client token now => r ← cache_Put client token now; mret (_ ← r; Ok None)
  | CacheGet token now => r ← cache_Get token now (mret tt); mret (s ← r; Ok (Some s))
  | CacheDelete client => cache_Delete client ;; mret (Ok None)
  end.

Lemma cache_step_spec op x a :
  cache_rep (au_cache x) a →
  let life := session_lifetime (au_cache x) in
  wp (cache_step op) (λ r x', r = fst (cache_spec life op a) ∧
    cache_rep (au_cache x') (snd (cache_spec life op a)) ∧ au_store x' = au_store x ∧
    session_lifetime (au_cache x') = life) x.
Proof.
  intros Hr life. destruct op as [client token now|token now|client]; cbn [cache_step cache_spec].
  - apply wp_bind. unfold cache_Put. case_bool_decide; [by apply wp_ret, wp_ret|].
    case_bool_decide; [by apply wp_ret, wp_ret|]. apply wp_bind, wp_gets.
    rewrite (owner_rep _ _ token Hr). destruct (sessionMap (au_cache x) !! token) as [s|] eqn:Hs; cbn.
    + by apply wp_ret, wp_ret.
    + apply wp_bind, wp_modify, wp_bind, wp_modify, wp_ret, wp_ret.
      split_and!; [done|by apply put_rep|done|]. cbn. by rewrite set_sessionMap_lifetime, delete_client_lifetime.
  - apply wp_bind. unfold cache_Get. apply wp_bind, wp_gets. rewrite (owner_rep _ _ token Hr).
    destruct (sessionMap (au_cache x) !! token) as [s|] eqn:Hs; cbn; [|by apply wp_ret, wp_ret].
    destruct (ExpirationDate s <? now)%Z.
    + apply wp_bind, wp_ret, wp_bind, wp_modify, wp_ret, wp_ret.
      split_and!; [done|by apply delete_token_rep|done..].
    + apply wp_ret, wp_ret. split_and!; try done. by destruct s.
  - apply wp_bind, wp_modify, wp_ret. split_and!; [done|by apply delete_client_rep|done|].
    cbn. by rewrite delete_client_lifetime.
Qed.

Fixpoint cache_run (ops : list cache_op) : go (auth S) (list (result (option CachedSession))) :=
  match ops with
  | [] => mret []
  | op :: ops => r ← cache_step op; rs ← cache_run ops; mret (r :: rs)
  end.

Fixpoint cache_specs (lifetime : Z) (ops : list cache_op) (a : tokens) :
    list (result (option CachedSession)) * tokens :=
  match ops with
  | [] => ([], a)
  | op :: ops =>
      let '(r, a) := cache_spec lifetime op a in
      let '(rs, a) := cache_specs lifetime ops a in (r :: rs, a)
  end.

Lemma cache_run_spec ops x a :
  cache_rep (au_cache x) a →
  let spec := cache_specs (session_lifetime (au_cache x)) ops a in
  wp (cache_run ops) (λ rs x', rs = fst spec ∧ cache_rep (au_cache x') (snd spec) ∧
    au_store x' = au_store x) x.
Proof.
  revert x a. induction ops as [|op ops IH]; intros x a Hr; [by apply wp_ret|].
  cbn [cache_run cache_specs]. apply wp_bind. eapply wp_mono; [by apply cache_step_spec|].
  intros r x1 (-> & Hr1 & Hs1 & Hl1). destruct (cache_spec _ op a) as [r a1]. cbn [fst snd] in *.
  apply wp_bind. eapply wp_mono; [by apply IH|]. rewrite Hl1. intros rs x2 (-> & Hr2 & Hs2).
  destruct (cache_specs _ ops a1) as [rs a2]. apply wp_ret. split_and!; [done..|congruence].
Qed.

(** ** The service over a store *)
Context {L : StoreLaws S} (life : Z).

(** The store holds [m], the cache holds [a] and gives sessions [life]. *)
Record auth_rep (x : auth S) (m : contents) (a : tokens) : Prop := {
  ar_store : store_rep (au_store x) m;
  ar_cache : cache_rep (au_cache x) a;
  ar_life : session_lifetime (au_cache x) = life;
}.

Lemma wp_on_store {A} (m : go store A) Q (x : auth S) :
  wp m (λ r s, Q r {| au_store := s; au_cache := au_cache x |}) (au_store x) → wp (on_store m) Q x.
Proof. unfold wp, on_store. destruct (m (au_store x)) as [[r s]|] eqn:Hm; cbn; by rewrite ?Hm. Qed.

Lemma wp_Get id x m a Q :
  auth_rep x m a →
  (∀ r x', auth_rep x' m a → get_spec id m r → au_cache x' = au_cache x → Q r x') →
  wp (on_store (store_Get id)) Q x.
Proof.
  intros [Hs Hc Hl] HQ. apply wp_on_store. eapply wp_mono; [by apply store_Get_ok|].
  intros r s' [Hs' Hg]. by apply HQ.
Qed.

Lemma wp_token (read : nat → result (list Z)) (Q : result string → auth S → Prop) x :
  (∀ r, (∀ t, r = Ok t → String.length t = MinKeyLen) → Q r x) → wp (newRandomToken read) Q x.
Proof.
  intros HQ. unfold wp, newRandomToken, newRandomString. destruct (read _) as [data|e]; cbn [fmap option_fmap option_map].
  - case_bool_decide as Hd; [by apply HQ|].
    destruct (secure_prefix MinKeyLen data) as (l & Hl & Hlen).
    { exact Hd. }
    rewrite Hl. cbn. apply HQ. intros t Ht. by injection Ht as <-.
  - by apply HQ.
Qed.

(** When a key is accepted. *)
Definition accepts (m : contents) (id key : string) : Prop :=
  id ≠ str0 ∧ ∃ h, m !! id = Some h ∧ compareKeyHash h key = Ok tt.

(** A store failure that is not a missing key. *)
Definition store_fault (e : error) : Prop := ∃ msg e', e = EWrap msg e' ∧ error_is e' ErrNotFound = false.

Lemma Authenticate_spec id key between wait x m a m1 a1 :
  auth_rep x m a → (∀ x', auth_rep x' m a → wp between (λ _ x1, auth_rep x1 m1 a1) x') →
  wp (Authenticate id key between wait) (λ r x',
    (auth_rep x' m a ∨ auth_rep x' m1 a1) ∧
    match r with
    | Ok _ => wait = Ok tt ∧ accepts m id key ∧ auth_rep x' m1 a1
    | Err e => ¬ (wait = Ok tt ∧ accepts m id key) ∨ store_fault e
    end) x.
Proof.
  intros Hx Hbet. unfold Authenticate. apply wp_bind. eapply wp_Get; [done|]. intros r x1 Hx1 Hg _.
  unfold get_spec in Hg. case_bool_decide as Hid.
  - subst r. apply wp_ret. split; [by left|]. left. by intros [_ [? _]].
  - destruct r as [h|e].
    + apply wp_bind. eapply wp_mono; [by apply Hbet|]. intros [] x2 Hx2. destruct wait as [[]|e].
      * apply wp_ret. destruct (compareKeyHash h key) as [[]|e] eqn:Hcmp.
        -- split; [by right|]. split_and!; [done| |done]. split; [done|]. eauto.
        -- split; [by right|]. left. intros [_ (_ & h' & Hh' & Hc')]. congruence.
      * apply wp_ret. split; [by right|]. left. by intros [? _].
    + apply wp_ret. split; [by left|]. destruct (error_is e ErrNotFound) eqn:He.
      * left. intros [_ (_ & h & Hh & _)]. rewrite (proj1 Hg eq_refl) in Hh. done.
      * right. do 2 eexists. split; [done|done].
Qed.

(** [Put] under an unused token replaces the client's token. *)
Lemma wp_cache_Put id token now x m a Q :
  auth_rep x m a → id ≠ str0 → token ≠ str0 →
  (∀ r x', match r with
    | Ok _ => owner token a = None ∧
        auth_rep x' m (<[id := (token, now + life)%Z]> a)
    | Err _ => auth_rep x' m a end → Q r x') →
  wp (cache_Put id token now) Q x.
Proof.
  intros Hx Hid Ht HQ. pose proof (ar_cache _ _ _ Hx) as Hc. unfold cache_Put. rewrite !bool_decide_false by done.
  apply wp_bind, wp_gets. case_bool_decide as Hu; [by apply wp_ret, HQ|].
  apply wp_bind, wp_modify, wp_bind, wp_modify, wp_ret, HQ.
  assert (Hn : sessionMap (au_cache x) !! token = None).
  { destruct (sessionMap (au_cache x) !! token) eqn:E; [|done]. destruct Hu. eauto. }
  split; [by rewrite (owner_rep _ _ _ Hc), Hn|]. destruct Hx as [Hs _ Hl].
  split; [done|by rewrite Hl; apply put_rep|cbn]. by rewrite set_sessionMap_lifetime, delete_client_lifetime.
Qed.

(** [Login], with nobody in between. *)
Lemma Login_spec id key wait read now x m a :
  auth_rep x m a →
  wp (Login id key (mret tt) wait (mret tt) read now) (λ r x',
    match r with
    | Ok token => wait = Ok tt ∧ accepts m id key ∧ String.length token = MinKeyLen ∧
        owner token a = None ∧ auth_rep x' m (<[id := (token, now + life)%Z]> a)
    | Err _ => auth_rep x' m a
    end) x.
Proof.
  intros Hx. unfold Login. apply wp_bind.
  eapply wp_mono; [apply (Authenticate_spec id key (mret tt) wait x m a m a Hx); intros; by apply wp_ret|].
  intros r x1 [Hx1 Hr]. assert (Hx1' : auth_rep x1 m a) by (by destruct Hx1).
  destruct r as [[]|e]; [|by apply wp_ret]. destruct Hr as (Hw & Hk & _).
  apply wp_bind, wp_ret, wp_bind, wp_token. intros [token|e] Hlen; [|by apply wp_ret].
  specialize (Hlen token eq_refl).
  apply wp_bind. eapply wp_cache_Put; [done|apply Hk|by intros ->|].
  intros [[]|e] x2 Hp; apply wp_ret; [|done]. destruct Hp as [Ho Hp]. by split_and!.
Qed.

Lemma Unregister_spec id x m a :
  auth_rep x m a →
  wp (Unregister id (mret tt)) (λ r x',
    match r with
    | Ok _ => auth_rep x' (delete id m) (delete id a) ∧ is_Some (m !! id)
    | Err _ => auth_rep x' m a ∨ auth_rep x' (delete id m) a
    end) x.
Proof.
  intros Hx. unfold Unregister. apply wp_bind. eapply wp_Get; [done|]. intros r x1 [Hs1 Hc1 Hl1] Hg Heq.
  destruct r as [h|e]; [|by apply wp_ret; left]. apply wp_bind, wp_ret, wp_bind, wp_on_store.
  eapply wp_mono; [by apply store_Delete_ok|]. intros r s' (m' & Hs' & Hd).
  unfold get_spec in Hg. unfold delete_spec, write_spec in Hd. case_bool_decide as Hid; [done|].
  destruct r as [[]|e].
  - subst m'. apply wp_bind, wp_modify, wp_ret. split; [|by eexists].
    split; [done|by apply delete_client_rep|cbn; by rewrite delete_client_lifetime].
  - apply wp_ret. destruct Hd as [[-> | ->] _]; [by left|by right].
Qed.

(** A token while nobody uses the cache. *)
Lemma cache_Get_spec token now x m a :
  auth_rep x m a →
  wp (cache_Get token now (mret tt)) (λ r x',
    match owner token a with
    | None => r = Err (EText "token is invalid") ∧ x' = x
    | Some (client, e) =>
        if (e <? now)%Z then r = Err (EText "session is expired") ∧ auth_rep x' m (delete client a)
        else r = Ok {| ClientID := client; ExpirationDate := e |} ∧ x' = x
    end) x.
Proof.
  intros [Hs Hc Hl]. unfold cache_Get. apply wp_bind, wp_gets. rewrite (owner_rep _ _ _ Hc).
  destruct (sessionMap (au_cache x) !! token) as [s|] eqn:Hses; cbn; [|by apply wp_ret].
  destruct (ExpirationDate s <? now)%Z.
  - apply wp_bind, wp_ret, wp_bind, wp_modify, wp_ret. split; [done|]. split; [done|by apply delete_token_rep|done].
  - apply wp_ret. split; [by destruct s|done].
Qed.

Lemma cache_Get_run token now x m a :
  auth_rep x m a → ∃ r x', cache_Get token now (mret tt) x = Some (r, x') ∧
    match owner token a with
    | None => r = Err (EText "token is invalid") ∧ x' = x
    | Some (client, e) =>
        if (e <? now)%Z then r = Err (EText "session is expired") ∧ auth_rep x' m (delete client a)
        else r = Ok {| ClientID := client; ExpirationDate := e |} ∧ x' = x
    end.
Proof. intros Hx. apply wp_inv, (cache_Get_spec token now x m a Hx). Qed.

Lemma cache_Get_none token now x m a :
  auth_rep x m a → owner token a = None →
  cache_Get token now (mret tt) x = Some (Err (EText "token is invalid"), x).
Proof.
  intros Hx Hn. destruct (cache_Get_run token now x m a Hx) as (r & x' & Hg & Hr).
  rewrite Hn in Hr. by destruct Hr as [-> ->].
Qed.

Lemma hash_accepted `{!BcryptLaws B} salt key h :
  hashKey salt key = Ok h → compareKeyHash h key = Ok tt.
Proof.
  unfold hashKey, compareKeyHash. case_bool_decide; [done|]. intros Hg.
  destruct (compare_generated _ _ _ Hg) as [Hh Hc]. by rewrite !bool_decide_false.
Qed.

Lemma Register_spec `{!BcryptLaws B} id key between wait salt x m a m1 a1 :
  auth_rep x m a → (∀ x', auth_rep x' m a → wp between (λ _ x1, auth_rep x1 m1 a1) x') →
  wp (Register id key between wait salt) (λ r x', ∃ m' a', auth_rep x' m' a' ∧
    match r with
    | Ok _ => MinKeyLen ≤ String.length key ∧ wait = Ok tt ∧ m !! id = None ∧ m1 !! id = None ∧
        a' = a1 ∧ ∃ h, m' = <[id := h]> m1 ∧ accepts m' id key
    | Err _ => (m' = m ∧ a' = a) ∨
        (a' = a1 ∧ (m' = m1 ∨ m1 !! id = None ∧ ∃ h, m' = <[id := h]> m1))
    end) x.
Proof.
  intros Hx Hbet. unfold Register. case_bool_decide as Hlen; [apply wp_ret; eauto 6|].
  apply wp_bind. eapply wp_Get; [done|]. intros r x1 Hx1 Hg _. destruct r as [h|e]; [apply wp_ret; eauto 6|].
  destruct (error_is e ErrNotFound) eqn:He; cbn [negb]; [|apply wp_ret; by eauto 6].
  unfold get_spec in Hg. case_bool_decide as Hid; [injection Hg as ->; done|]. apply proj1 in Hg.
  specialize (Hg He). apply wp_bind. eapply wp_mono; [by apply Hbet|]. intros [] x2 Hx2.
  destruct wait as [[]|e2]; [|apply wp_ret; by eauto 8].
  destruct (hashKey salt key) as [h|e2] eqn:Hh; [|apply wp_ret; by eauto 8].
  apply wp_bind, wp_on_store. destruct Hx2 as [Hs2 Hc2 Hl2]. eapply wp_mono; [by apply store_Put_ok|].
  intros r s' (m' & Hs' & Hp). apply wp_ret. exists m', a1. split; [by split|].
  unfold put_spec in Hp. case_bool_decide as Hsome; [by destruct Hp as [-> ->]; right; auto|].
  assert (Hn : m1 !! id = None).
  { destruct (m1 !! id) eqn:E; [|done]. destruct Hsome. split; [done|eauto]. }
  unfold set_spec, write_spec in Hp. rewrite bool_decide_false in Hp by done.
  destruct r as [[]|e2].
  - subst m'. split_and!; [lia|done..|]. exists h. split; [done|]. split; [done|]. exists h.
    rewrite lookup_insert_eq. split; [done|by eapply hash_accepted].
  - destruct Hp as [Hp Hconf]. rewrite Hconf. right. split; [done|]. destruct Hp as [->| ->]; eauto.
Qed.

(** [Login] while the client is unregistered. *)
Lemma Login_race_spec id key wait read now x m a :
  auth_rep x m a →
  (∀ x1, auth_rep x1 m a → ∃ x2, Unregister id (mret tt) x1 = Some (Ok tt, x2)) →
  wp (Login id key (mret tt) wait (_ ← Unregister id (mret tt); mret tt) read now) (λ r x',
    ∀ token, r = Ok token →
      auth_rep x' (delete id m) (<[id := (token, now + life)%Z]> (delete id a))) x.
Proof.
  intros Hx Hun. unfold Login. apply wp_bind.
  eapply wp_mono; [apply (Authenticate_spec id key (mret tt) wait x m a m a Hx); intros; by apply wp_ret|].
  intros r x1 [Hx1 Hr]. assert (Hx1' : auth_rep x1 m a) by (by destruct Hx1).
  destruct r as [[]|e]; [|by apply wp_ret]. destruct Hr as (_ & [Hid _] & _).
  destruct (Hun x1 Hx1') as (x2 & Hx2).
  pose proof (Unregister_spec id x1 m a Hx1') as Hspec. unfold wp in Hspec at 1. rewrite Hx2 in Hspec.
  destruct Hspec as [Hrep _]. apply wp_bind, wp_bind. unfold wp at 1. rewrite Hx2. apply wp_ret, wp_bind, wp_token.
  intros [token|e] Hlen; [|by apply wp_ret]. specialize (Hlen token eq_refl). apply wp_bind.
  eapply wp_cache_Put; [done..|by intros ->|]. intros [[]|e] x3 Hp; apply wp_ret; [|done].
  intros t' [= <-]. by destruct Hp as [_ Hp].
Qed.

(** A token that nobody has, or that was replaced or deleted. *)
Lemma owner_none x m a token :
  auth_rep x m a → (∀ id e, a !! id ≠ Some (token, e)) → owner token a = None.
Proof.
  intros [_ Hc _] Hn. rewrite (owner_rep _ _ _ Hc).
  destruct (sessionMap (au_cache x) !! token) as [s|] eqn:Hs; [|done].
  apply (cr_session _ _ Hc) in Hs. by destruct (Hn _ _ Hs).
Qed.

Lemma owner_unique x m a token id id' e e' :
  auth_rep x m a → a !! id = Some (token, e) → a !! id' = Some (token, e') → id = id'.
Proof.
  intros [_ Hc _] H1 H2.
  apply (cr_session _ _ Hc token {| ClientID := id; ExpirationDate := e |}) in H1.
  apply (cr_session _ _ Hc token {| ClientID := id'; ExpirationDate := e' |}) in H2. congruence.
Qed.

Lemma owner_replaced x x' m m' a id token token' e e' :
  auth_rep x m a → auth_rep x' m' (<[id := (token, e)]> a) → owner token a = None →
  a !! id = Some (token', e') → owner token' (<[id := (token, e)]> a) = None.
Proof.
  intros Hx Hx' Hn Ha. eapply owner_none; [done|].
  intros id2 e2 [[<- [= -> ->]]|[Hne H2]]%lookup_insert_Some.
  - destruct Hx as [_ Hc _]. rewrite (owner_rep _ _ _ Hc) in Hn.
    apply (cr_session _ _ Hc token' {| ClientID := id; ExpirationDate := e' |}) in Ha. by rewrite Ha in Hn.
  - apply Hne. by eapply (owner_unique x m a token').
Qed.

Lemma owner_deleted x x' m m' a id token :
  auth_rep x m a → auth_rep x' m' (delete id a) → owner token a = None → owner token (delete id a) = None.
Proof.
  intros Hx Hx' Hn. eapply owner_none; [done|]. intros id2 e2 [_ H2]%lookup_delete_Some.
  destruct Hx as [_ Hc _]. rewrite (owner_rep _ _ _ Hc) in Hn.
  apply (cr_session _ _ Hc token {| ClientID := id2; ExpirationDate := e2 |}) in H2. by rewrite H2 in Hn.
Qed.

(** Who a fresh token stands for. *)
Lemma owner_new x m a id token e :
  auth_rep x m (<[id := (token, e)]> a) → owner token (<[id := (token, e)]> a) = Some (id, e).
Proof.
  intros [_ Hc _]. rewrite (owner_rep _ _ _ Hc).
  rewrite (proj2 (cr_session _ _ Hc token {| ClientID := id; ExpirationDate := e |}));
    [done|apply lookup_insert_eq].
Qed.

End auth.

(** ** A concrete service *)
Module ToyAuth.

(** The hash of a key is the key after a letter. *)
Definition toy_bcrypt : Bcrypt := {|
  GenerateFromPassword := λ _ key, Ok ("h" +:+ key);
  CompareHashAndPassword := λ h key,
    if bool_decide (h = ("h" +:+ key)) then Ok tt else Err (EText "hashedPassword is not the hash");
|}.

Lemma toy_bcrypt_laws : BcryptLaws toy_bcrypt.
Proof. split; intros salt key h [= <-]; (split; [done|]); cbn; by rewrite bool_decide_true. Qed.

Definition key : string := "0123456789abcdef0123456789abcdef".
Definition read (n : nat) : result (list Z) := Ok (replicate n 0%Z).
Definition token : string := "AAAAAAAAAAAAAAAAAAAAAAAAAAAAAAAA".
Definition new_auth : auth ToyStore.toy_store :=
  {| au_store := ((∅ : contents) : @store ToyStore.toy_store); au_cache := {| ExpirationMinutes := 1440; sessionMap := ∅ |} |}.
Definition one_client : auth ToyStore.toy_store :=
  {| au_store := (({["a"%string := ("h" +:+ key)%string]} : contents) : @store ToyStore.toy_store);
     au_cache := {| ExpirationMinutes := 1440; sessionMap := ∅ |} |}.

Lemma empty_cache_rep minutes : cache_rep {| ExpirationMinutes := minutes; sessionMap := ∅ |} ∅.
Proof. split; [intros token s; by rewrite !lookup_empty|intros client token e; by rewrite lookup_empty]. Qed.

Definition day : Z := 86400000000000.

Lemma new_auth_rep : auth_rep (L := ToyStore.toy_store_laws) day new_auth ∅ ∅.
Proof. split; [reflexivity|apply empty_cache_rep|reflexivity]. Qed.

Lemma one_client_rep : auth_rep (L := ToyStore.toy_store_laws) day one_client {["a"%string := ("h" +:+ key)]} ∅.
Proof. split; [reflexivity|apply empty_cache_rep|reflexivity]. Qed.

End ToyAuth.

(** ** Properties *)

(** The session cache is a map from clients to one token each.  Whatever
    the order in which its loop visits the tokens, every sequence of puts,
    gets and deletes answers as that map does: a put replaces the client's
    token and refuses empty names and tokens in use by anybody, a get answers
    the owner of a token until it expires and then forgets it, a delete
    forgets the client; the store is not touched. *)
Theorem cache_refines {O : MapOrder} {S : Store} ops (x : auth S) a :
  cache_rep (au_cache x) a →
  ∃ rs x' a', cache_run ops x = Some (rs, x') ∧
    (rs, a') = cache_specs (session_lifetime (au_cache x)) ops a ∧
    cache_rep (au_cache x') a' ∧ au_store x' = au_store x.
Proof.
  intros Hr. destruct (proj1 (wp_inv _ _ _) (cache_run_spec ops x a Hr)) as (rs & x' & Hrun & -> & Hr' & Hs).
  do 3 eexists. split; [exact Hrun|]. split; [by rewrite <- surjective_pairing|done].
Qed.

Lemma cache_refines_witness :
  ∃ rs x', cache_run (O := sorted_order) [CachePut "a" "t" 5; CachePut "a" "u" 6; CacheGet "t" 7]
    ToyAuth.new_auth = Some (rs, x').
Proof.
  destruct (cache_refines (O := sorted_order) [CachePut "a" "t" 5; CachePut "a" "u" 6; CacheGet "t" 7]
    ToyAuth.new_auth ∅ (ToyAuth.empty_cache_rep 1440)) as (rs & x' & _ & Hrun & _). eauto.
Defined.

(** A client is registered once, and its key is then accepted.
    Whatever other goroutines do to the store while the registration waits
    for the limiter, it succeeds only for a key of at least 32 characters and
    an identifier that is registered neither before nor after the wait, and
    then the only change is the new entry, which accepts the key; when it
    fails no entry of another registration is changed. *)
Theorem register_once {O : MapOrder} {S : Store} {L : StoreLaws S} {B : Bcrypt} `{!BcryptLaws B}
    life id key between wait salt x m a m1 a1 :
  auth_rep life x m a → (∀ x', auth_rep life x' m a → wp between (λ _ x1, auth_rep life x1 m1 a1) x') →
  ∃ r x' m' a', Register id key between wait salt x = Some (r, x') ∧ auth_rep life x' m' a' ∧
    match r with
    | Ok _ => 32 ≤ String.length key ∧ m !! id = None ∧ m1 !! id = None ∧
        ∃ h, m' = <[id := h]> m1 ∧ accepts m' id key
    | Err _ => (m' = m ∧ a' = a) ∨
        (a' = a1 ∧ (m' = m1 ∨ m1 !! id = None ∧ ∃ h, m' = <[id := h]> m1))
    end.
Proof.
  intros Hx Hbet. destruct (proj1 (wp_inv _ _ _) (Register_spec life id key between wait salt x m a m1 a1 Hx Hbet))
    as (r & x' & Hrun & m' & a' & Hx' & Hr).
  exists r, x', m', a'. split_and!; [done..|]. destruct r as [[]|e]; [|exact Hr].
  destruct Hr as (? & _ & ? & ? & _ & ?). by split_and!.
Qed.

Lemma register_once_witness :
  ∃ r x', Register (B := ToyAuth.toy_bcrypt) "a" ToyAuth.key (mret tt) (Ok tt) []
    ToyAuth.new_auth = Some (r, x').
Proof.
  destruct (register_once (O := sorted_order) (L := ToyStore.toy_store_laws) (BcryptLaws0 := ToyAuth.toy_bcrypt_laws)
    ToyAuth.day "a" ToyAuth.key (mret tt) (Ok tt) [] ToyAuth.new_auth ∅ ∅ ∅ ∅ ToyAuth.new_auth_rep) as (r & x' & _ & _ & Hrun & _).
  - intros x Hx. exact Hx.
  - eauto.
Defined.

(** C13: the life of a bearer token.  A login that succeeds was made with the
    key of a registered client and issues a token of 32 characters nobody
    has; from then on the token stands for that client until it expires, the
    client's previous token is invalid, and once the client is unregistered
    the token is invalid and its key is refused.  A login that fails changes
    no session. *)
Theorem bearer_token_lifecycle {O : MapOrder} {S : Store} {L : StoreLaws S} {B : Bcrypt}
    life id key wait read now x m a :
  auth_rep life x m a →
  ∃ r x', Login id key (mret tt) wait (mret tt) read now x = Some (r, x') ∧
    match r with
    | Err _ => auth_rep life x' m a
    | Ok token =>
        let expires := (now + life)%Z in
        accepts m id key ∧ String.length token = 32 ∧
        auth_rep life x' m (<[id := (token, expires)]> a) ∧
        (∀ t, (t ≤ expires)%Z → cache_Get token t (mret tt) x' =
           Some (Ok {| ClientID := id; ExpirationDate := expires |}, x')) ∧
        (∀ t, (expires < t)%Z → fst <$> cache_Get token t (mret tt) x' =
           Some (Err (EText "session is expired"))) ∧
        (∀ token' e t, a !! id = Some (token', e) →
           cache_Get token' t (mret tt) x' = Some (Err (EText "token is invalid"), x')) ∧
        ∀ x2, Unregister id (mret tt) x' = Some (Ok tt, x2) →
          (∀ t, cache_Get token t (mret tt) x2 = Some (Err (EText "token is invalid"), x2)) ∧
          ∀ key' wait', ∃ e x3, Authenticate id key' (mret tt) wait' x2 = Some (Err e, x3)
    end.
Proof.
  intros Hx. destruct (proj1 (wp_inv _ _ _) (Login_spec life id key wait read now x m a Hx)) as (r & x' & Hrun & Hr).
  exists r, x'. split; [done|]. destruct r as [token|e]; [|done].
  destruct Hr as (_ & Hacc & Hlen & Hown & Hx').
  pose proof (owner_new _ _ _ _ _ _ _ Hx') as Hmine. cbv zeta. split_and!; [done..| | | |].
  - intros t Ht. destruct (cache_Get_run life token t x' m _ Hx') as (r & x2 & Hg & Hr).
    rewrite Hmine in Hr. destruct (Z.ltb_spec (now + life) t); [lia|]. by destruct Hr as [-> ->].
  - intros t Ht. destruct (cache_Get_run life token t x' m _ Hx') as (r & x2 & Hg & Hr).
    rewrite Hmine in Hr. destruct (Z.ltb_spec (now + life) t); [|lia]. destruct Hr as [-> _]. by rewrite Hg.
  - intros token' e t Ha. apply (cache_Get_none life _ _ _ _ _ Hx').
    by eapply owner_replaced.
  - intros x2 Hun. pose proof (Unregister_spec life id x' m _ Hx') as Hspec. unfold wp in Hspec. rewrite Hun in Hspec.
    destruct Hspec as [Hx2 _]. rewrite delete_insert_eq in Hx2. split.
    + intros t. apply (cache_Get_none life _ _ _ _ _ Hx2). by eapply owner_deleted.
    + intros key' wait'. destruct (proj1 (wp_inv _ _ _) (Authenticate_spec life id key' (mret tt) wait' x2 _ _ _ _ Hx2
        ltac:(intros; by apply wp_ret))) as (r & x3 & Ha & _ & Hr).
      destruct r as [[]|e]; [|eauto]. destruct Hr as (_ & (_ & h & Hh & _) & _). by rewrite lookup_delete_eq in Hh.
Qed.

Lemma bearer_token_lifecycle_witness :
  ∃ r x', Login (O := sorted_order) (B := ToyAuth.toy_bcrypt) "a" ToyAuth.key (mret tt) (Ok tt) (mret tt)
    ToyAuth.read 0 ToyAuth.one_client = Some (r, x').
Proof.
  destruct (bearer_token_lifecycle (O := sorted_order) (L := ToyStore.toy_store_laws) (B := ToyAuth.toy_bcrypt)
    ToyAuth.day "a" ToyAuth.key (Ok tt) ToyAuth.read 0 ToyAuth.one_client _ _ ToyAuth.one_client_rep)
    as (r & x' & Hrun & _).
  eauto.
Defined.

(** A token can outlive its client.  When a client is unregistered
    while it logs in, after its key was checked and before its token is
    cached, the login still succeeds: the client is no longer in the store,
    and its new token stands for it for the whole life of a session. *)
Theorem login_outlives_unregister {O : MapOrder} {S : Store} {L : StoreLaws S} {B : Bcrypt}
    life id key wait read now x m a token x' :
  auth_rep life x m a →
  (∀ x1, auth_rep life x1 m a → ∃ x2, Unregister id (mret tt) x1 = Some (Ok tt, x2)) →
  Login id key (mret tt) wait (_ ← Unregister id (mret tt); mret tt) read now x = Some (Ok token, x') →
  auth_rep life x' (delete id m) (<[id := (token, now + life)%Z]> (delete id a)) ∧
  ∀ t, (t ≤ now + life)%Z → cache_Get token t (mret tt) x' =
      Some (Ok {| ClientID := id; ExpirationDate := now + life |}, x').
Proof.
  intros Hx Hun Hrun. pose proof (Login_race_spec life id key wait read now x m a Hx Hun) as Hspec.
  unfold wp in Hspec. rewrite Hrun in Hspec. pose proof (Hspec token eq_refl) as Hx'.
  split; [done|]. intros t Ht. destruct (cache_Get_run life token t x' _ _ Hx') as (r & x2 & Hg & Hr).
  rewrite (owner_new _ _ _ _ _ _ _ Hx') in Hr. destruct (Z.ltb_spec (now + life) t); [lia|].
  by destruct Hr as [-> ->].
Qed.

Definition toy_race : go (auth ToyStore.toy_store) (result string) :=
  Login (O := sorted_order) (B := ToyAuth.toy_bcrypt) "a" ToyAuth.key (mret tt) (Ok tt)
    (_ ← Unregister (O := sorted_order) "a" (mret tt); mret tt) ToyAuth.read 0.

Lemma login_outlives_unregister_witness :
  ∃ x', toy_race ToyAuth.one_client = Some (Ok ToyAuth.token, x') ∧
    cache_Get ToyAuth.token 1 (mret tt) x' =
      Some (Ok {| ClientID := "a"; ExpirationDate := 0 + ToyAuth.day |}, x').
Proof.
  assert (Ht : fst <$> toy_race ToyAuth.one_client = Some (Ok ToyAuth.token)) by (vm_compute; reflexivity).
  destruct (toy_race ToyAuth.one_client) as [[r x']|] eqn:Hrun; [|discriminate].
  injection Ht as ->. exists x'. split; [reflexivity|].
  apply (login_outlives_unregister (O := sorted_order) (L := ToyStore.toy_store_laws)
    (B := ToyAuth.toy_bcrypt) ToyAuth.day "a" ToyAuth.key (Ok tt) ToyAuth.read 0 ToyAuth.one_client _ _
    ToyAuth.token x' ToyAuth.one_client_rep); [|exact Hrun|vm_compute; discriminate].
  intros [s c] [Hs _ _]. cbn in Hs. subst s. eexists. reflexivity.
Defined.
