(* ===== verification/HttpAuth.v ===== *)
(** * HttpAuth: the HTTP endpoints of authentication (service/auth.go)

    [authHandler], which the WebSocket server calls too, and the handlers of
    /register, /unregister and /login with the answer [httpAudit] writes
    (service/audit.go).  The decoded JSON body is part of the request; what
    the run takes from outside (the clock, the limiter, the random source,
    other goroutines) is an argument.  Logging is left out. *)
From Stdlib Require Import Ascii.
From S2P Require Import Prelude GoText Base64 Random Store Auth.

(** [service.SecurityConfig] less the session cache's part. *)
Record SecurityConfig := {
  EnableAdmin : bool;
  AdminSecretKey : string;
  AllowSelfRegistration : bool;
}.

Definition SecurityConfig_IsValid (c : SecurityConfig) : result unit :=
  if negb (EnableAdmin c) then Ok tt
  else guard_err (bool_decide (AdminSecretKey c = str0)) "invalid AdminSecretKey value: should not be empty".

(** ** Requests and answers *)
Record http_request := {
  req_Method : string;
  req_Authorization : string;
  req_Body : result (gmap string string);
}.

Inductive http_response :=
  | NotFound
  | Answer (code : Z) (resData : gmap string string).

Definition StatusOK : Z := 200.
Definition StatusCreated : Z := 201.
Definition StatusBadRequest : Z := 400.
Definition StatusUnauthorized : Z := 401.
Definition StatusForbidden : Z := 403.

Record httpData := {
  hd_err : string;
  hd_code : Z;
  hd_resData : gmap string string;
}.

(** [httpAudit] with a writer. *)
Definition httpAudit (d : httpData) : http_response :=
  let res := if bool_decide (hd_err d = str0) then hd_resData d
             else <["error"%string := hd_err d]> (hd_resData d) in
  Answer (hd_code d) (<["code"%string := Itoa (hd_code d)]> res).

Definition failure (code : Z) (e : error) : http_response :=
  httpAudit {| hd_err := error_text e; hd_code := code; hd_resData := ∅ |}.
Definition success (code : Z) (res : gmap string string) : http_response :=
  httpAudit {| hd_err := str0; hd_code := code; hd_resData := res |}.

(** ** Reading credentials (net/http) *)

(** ASCII case folding, and comparison up to it. *)
Definition lower (a : ascii) : ascii :=
  let n := N_of_ascii a in
  if (65 <=? n)%N && (n <=? 90)%N then ascii_of_N (n + 32) else a.

Fixpoint EqualFold (s t : string) : bool :=
  match s, t with
  | EmptyString, EmptyString => true
  | String a s, String b t => bool_decide (lower a = lower b) && EqualFold s t
  | _, _ => false
  end.

(** [s[:n]] and [s[n:]]. *)
Fixpoint split_at (n : nat) (s : string) : string * string :=
  match n, s with
  | O, _ => (str0, s)
  | _, EmptyString => (str0, str0)
  | S n, String a s => let '(x, y) := split_at n s in (String a x, y)
  end.

(** [strings.Cut(s, ":")]. *)
Fixpoint Cut (c : ascii) (s : string) : option (string * string) :=
  match s with
  | EmptyString => None
  | String a s =>
      if bool_decide (a = c) then Some (str0, s)
      else '(x, y) ← Cut c s; Some (String a x, y)
  end.

Definition basicPrefix : string := "Basic ".
Definition bearerPrefix : string := "Bearer ".

(** A prefix, whatever its case, and what follows it. *)
Definition after_prefix (prefix auth : string) : option string :=
  let '(x, y) := split_at (String.length prefix) auth in
  if (String.length auth <? String.length prefix)%nat || negb (EqualFold x prefix) then None else Some y.

(** [r.BasicAuth()]. *)
Definition BasicAuth (r : http_request) : option (string * string) :=
  if bool_decide (req_Authorization r = str0) then None
  else enc ← after_prefix basicPrefix (req_Authorization r); cs ← DecodeString enc; Cut ":" cs.

Definition parseBearerAuth (auth : string) : option string := after_prefix bearerPrefix auth.

(** What the handlers take from outside: the time, the limiter's answer and
    the other goroutines at each wait, the random source. *)
Record outside {S : Store} := {
  out_now : Z;
  out_wait : nat → result unit;
  out_others : nat → go (auth S) unit;
  out_salt : list Z;
  out_read : nat → result (list Z);
}.
Arguments outside : clear implicits.

Section http.
  Context {O : MapOrder} {S : Store} {B : Bcrypt} (cfg : SecurityConfig).

(** The client, the status and the error of an authentication. *)
Record auth_answer := { aa_client : string; aa_code : Z; aa_err : option error }.

Definition unauthorized (e : error) : auth_answer :=
  {| aa_client := str0; aa_code := StatusUnauthorized; aa_err := Some e |}.
Definition authorized (client : string) : auth_answer :=
  {| aa_client := client; aa_code := StatusOK; aa_err := None |}.

Definition basicAuthHandler (r : http_request) (o : outside S) : go (auth S) auth_answer :=
  match BasicAuth r with
  | None => mret (unauthorized (EText "authentication failed: invalid auth header"))
  | Some (clientID, authKey) =>
      if EnableAdmin cfg && bool_decide (authKey = AdminSecretKey cfg) then mret (authorized str0)
      else if bool_decide (clientID = str0) then
        mret (unauthorized (EText "authentication failed: unauthorized"))
      else
        a ← Authenticate clientID authKey (out_others o 0) (out_wait o 0);
        mret (match a with
              | Err _ => unauthorized (EText "authentication failed")
              | Ok _ => authorized clientID
              end)
  end.

Definition bearerAuthHandler (r : http_request) (o : outside S) : go (auth S) auth_answer :=
  match parseBearerAuth (req_Authorization r) with
  | None => mret (unauthorized (EText "authentication failed: invalid auth header"))
  | Some bearerToken =>
      s ← cache_Get bearerToken (out_now o) (out_others o 0);
      mret (match s with
            | Err e => unauthorized (EWrap "authentication failed" e)
            | Ok session =>
                if bool_decide (ClientID session = str0)
                then unauthorized (EText "authentication failed: unauthorized")
                else authorized (ClientID session)
            end)
  end.

Definition authHandler (r : http_request) (o : outside S) : go (auth S) auth_answer :=
  if HasPrefix (req_Authorization r) bearerPrefix then bearerAuthHandler r o else basicAuthHandler r o.

(** [data.reqData[key]]. *)
Definition field (key : string) (m : gmap string string) : string := default str0 (m !! key).

(** The part of [registerClient] after the authentication. *)
Definition register_body (r : http_request) (o : outside S) : go (auth S) http_response :=
  match req_Body r with
  | Err e => mret (failure StatusBadRequest e)
  | Ok m =>
      let clientID := field "clientID" m in
      a ← Register clientID (field "authKey" m) (out_others o 1) (out_wait o 1) (out_salt o);
      mret (match a with
            | Err e => failure StatusBadRequest e
            | Ok _ => success StatusCreated {["clientID"%string := clientID]}
            end)
  end.

Definition registerClient (r : http_request) (o : outside S) : go (auth S) http_response :=
  if bool_decide (req_Method r ≠ "POST"%string) then mret NotFound
  else if AllowSelfRegistration cfg then register_body r o
  else
    a ← authHandler r o;
    match aa_err a with
    | Some e => mret (failure (aa_code a) e)
    | None => register_body r o
    end.

Definition unregisterClient (r : http_request) (o : outside S) : go (auth S) http_response :=
  if bool_decide (req_Method r ≠ "POST"%string) then mret NotFound
  else if negb (EnableAdmin cfg) && negb (AllowSelfRegistration cfg) then
    mret (failure StatusForbidden (EText "unregister not enabled"))
  else
    a ← authHandler r o;
    match aa_err a with
    | Some e => mret (failure (aa_code a) e)
    | None =>
        match req_Body r with
        | Err e => mret (failure StatusBadRequest e)
        | Ok m =>
            let clientID := field "clientID" m in
            if bool_decide (clientID = str0) then
              mret (failure StatusBadRequest (EText "client id should not be empty"))
            else if bool_decide (aa_client a ≠ str0) && bool_decide (aa_client a ≠ clientID) then
              mret (failure StatusForbidden (EText "client id not valid"))
            else
              u ← Unregister clientID (out_others o 1);
              mret (match u with
                    | Err e => failure StatusBadRequest e
                    | Ok _ => success StatusOK ∅
                    end)
        end
    end.

Definition loginClient (r : http_request) (o : outside S) : go (auth S) http_response :=
  if bool_decide (req_Method r ≠ "POST"%string) then mret NotFound
  else
    match req_Body r with
    | Err e => mret (failure StatusBadRequest e)
    | Ok m =>
        l ← Login (field "clientID" m) (field "authKey" m) (out_others o 0) (out_wait o 0)
              (out_others o 1) (out_read o) (out_now o);
        mret (match l with
              | Err e => failure StatusBadRequest e
              | Ok bearerToken => success StatusOK {["bearerToken"%string := bearerToken]}
              end)
    end.

(** ** Who a request speaks for *)
Context {L : StoreLaws S} (life : Z).

(** The administrator is the empty client. *)
Definition authenticates (m : contents) (a : tokens) (now : Z) (r : http_request) (client : string) : Prop :=
  if HasPrefix (req_Authorization r) bearerPrefix then
    client ≠ str0 ∧ ∃ token e, parseBearerAuth (req_Authorization r) = Some token ∧
      owner token a = Some (client, e) ∧ (now ≤ e)%Z
  else ∃ id key, BasicAuth r = Some (id, key) ∧
    ((client = str0 ∧ EnableAdmin cfg = true ∧ key = AdminSecretKey cfg) ∨
     (client = id ∧ accepts m id key)).

(** The other goroutines leave clients and tokens alone. *)
Definition quiet_outside (m : contents) (a : tokens) (o : outside S) : Prop :=
  ∀ n x, auth_rep life x m a → wp (out_others o n) (λ _ x', auth_rep life x' m a) x.

Lemma authHandler_spec r o x m a :
  auth_rep life x m a → quiet_outside m a o →
  wp (authHandler r o) (λ ans x',
    match aa_err ans with
    | None => authenticates m a (out_now o) r (aa_client ans) ∧ auth_rep life x' m a
    | Some _ => aa_code ans = StatusUnauthorized ∧ ∃ a', auth_rep life x' m a' ∧ a' ⊆ a
    end) x.
Proof.
  intros Hx Hq.
  assert (Hbad : ∀ e x', auth_rep life x' m a →
    aa_code (unauthorized e) = StatusUnauthorized ∧ ∃ a', auth_rep life x' m a' ∧ a' ⊆ a) by eauto.
  unfold authHandler, authenticates. destruct (HasPrefix _ _).
  - unfold bearerAuthHandler. destruct (parseBearerAuth _) as [token|]; [|by apply wp_ret, Hbad].
    apply wp_bind. unfold cache_Get. apply wp_bind, wp_gets.
    pose proof (owner_rep _ _ token (ar_cache _ _ _ _ Hx)) as Hown.
    destruct (sessionMap (au_cache x) !! token) as [s|] eqn:Hs; cbn in Hown; [|by apply wp_ret, wp_ret, Hbad].
    destruct (Z.ltb_spec (ExpirationDate s) (out_now o)).
    + apply wp_bind. eapply wp_mono; [by apply Hq|]. intros [] x1 [Hs1 Hc1 Hl1].
      apply wp_bind, wp_modify, wp_ret, wp_ret. split; [done|]. exists (delete (ClientID s) a).
      split; [|by apply delete_subseteq]. split; [done| |done]. cbn.
      apply (owner_rep _ _ token) in Hc1 as Hown1. rewrite Hown in Hown1.
      destruct (sessionMap (au_cache x1) !! token) as [s1|] eqn:Hs1'; [|done]. cbn in Hown1.
      injection Hown1 as Hc _. rewrite Hc. by apply delete_token_rep.
    + apply wp_ret, wp_ret. case_bool_decide as Hc; [by apply Hbad|]. cbn.
      split; [|done]. split; [done|]. eauto.
  - unfold basicAuthHandler. destruct (BasicAuth r) as [[id key]|]; [|by apply wp_ret, Hbad].
    destruct (EnableAdmin cfg && bool_decide (key = AdminSecretKey cfg)) eqn:Hadm.
    { apply andb_true_iff in Hadm as [He Hk%bool_decide_eq_true]. apply wp_ret. split; [|done]. cbn. eauto 8. }
    destruct (decide (id = str0)) as [Hid|Hid];
      [rewrite (bool_decide_true (id = _)) by done; by apply wp_ret, Hbad|].
    rewrite (bool_decide_false (id = _)) by done. apply wp_bind.
    eapply wp_mono; [apply (Authenticate_spec life id key _ _ x m a m a Hx); intros; by apply Hq|].
    intros ans x1 [Hx1 Hr]. assert (Hx1' : auth_rep life x1 m a) by (by destruct Hx1).
    destruct ans as [[]|e]; apply wp_ret; [|by apply Hbad]. destruct Hr as (_ & Hacc & _).
    split; [|done]. cbn. eauto 8.
Qed.

(** The target of an unregistration that is allowed. *)
Definition may_unregister (m : contents) (a : tokens) (now : Z) (r : http_request) (target : string) : Prop :=
  req_Method r = "POST"%string ∧ (EnableAdmin cfg = true ∨ AllowSelfRegistration cfg = true) ∧
  (∃ body, req_Body r = Ok body ∧ field "clientID" body = target) ∧ target ≠ str0 ∧
  (authenticates m a now r str0 ∨ authenticates m a now r target).

Definition may_register (m : contents) (a : tokens) (now : Z) (r : http_request) (target : string) : Prop :=
  req_Method r = "POST"%string ∧
  (AllowSelfRegistration cfg = true ∨ ∃ who, authenticates m a now r who) ∧
  ∃ body, req_Body r = Ok body ∧ field "clientID" body = target.

Lemma Unregister_quiet id o x m a :
  auth_rep life x m a → quiet_outside m a o →
  wp (Unregister id (out_others o 1)) (λ r x',
    match r with
    | Ok _ => auth_rep life x' (delete id m) (delete id a)
    | Err _ => auth_rep life x' m a ∨ auth_rep life x' (delete id m) a
    end) x.
Proof.
  intros Hx Hq. unfold Unregister. apply wp_bind. eapply wp_Get; [done|]. intros r x1 Hx1 Hg _.
  destruct r as [h|e]; [|by apply wp_ret; left]. apply wp_bind. eapply wp_mono; [by apply Hq|].
  intros [] x2 [Hs2 Hc2 Hl2]. apply wp_bind, wp_on_store.
  eapply wp_mono; [by apply store_Delete_ok|]. intros r s' (m' & Hs' & Hd).
  unfold get_spec in Hg. unfold delete_spec, write_spec in Hd. case_bool_decide as Hid; [done|].
  destruct r as [[]|e].
  - subst m'. apply wp_bind, wp_modify, wp_ret.
    split; [done|by apply delete_client_rep|cbn; by rewrite delete_client_lifetime].
  - apply wp_ret. destruct Hd as [[-> | ->] _]; [by left|by right].
Qed.

Lemma failure_not_success code e code' res : code ≠ code' → failure code e ≠ success code' res.
Proof. intros Hc H. unfold failure, success, httpAudit in H. by injection H. Qed.

Lemma unregisterClient_spec r o x m a :
  auth_rep life x m a → quiet_outside m a o →
  wp (unregisterClient r o) (λ resp x', ∃ m' a', auth_rep life x' m' a' ∧ a' ⊆ a ∧
    (m' ≠ m → ∃ target, may_unregister m a (out_now o) r target ∧ m' = delete target m) ∧
    (resp = success StatusOK ∅ → ∃ target, may_unregister m a (out_now o) r target ∧
       m' = delete target m ∧ a' = delete target a)) x.
Proof.
  intros Hx Hq.
  assert (Hno : ∀ resp a' x', auth_rep life x' m a' → a' ⊆ a → resp ≠ success StatusOK ∅ →
    ∃ m' a', auth_rep life x' m' a' ∧ a' ⊆ a ∧
    (m' ≠ m → ∃ target, may_unregister m a (out_now o) r target ∧ m' = delete target m) ∧
    (resp = success StatusOK ∅ → ∃ target, may_unregister m a (out_now o) r target ∧
       m' = delete target m ∧ a' = delete target a)) by (intros; by eexists m, _).
  unfold unregisterClient. case_bool_decide as Hm; [by apply wp_ret, (Hno _ a)|].
  destruct (negb (EnableAdmin cfg) && negb (AllowSelfRegistration cfg)) eqn:Hen.
  { apply wp_ret, (Hno _ a); [done..|by apply failure_not_success]. }
  assert (Hen' : EnableAdmin cfg = true ∨ AllowSelfRegistration cfg = true).
  { destruct (EnableAdmin cfg), (AllowSelfRegistration cfg); auto. }
  apply wp_bind. eapply wp_mono; [by apply authHandler_spec|]. intros [who code [e|]] x1 Hans;
    cbn [aa_err aa_code aa_client] in *.
  { destruct Hans as (-> & a' & Hx1 & Ha'). apply wp_ret, (Hno _ a'); [done..|by apply failure_not_success]. }
  destruct Hans as [Hauth Hx1].
  destruct (req_Body r) as [body|e] eqn:Hb; [|apply wp_ret, (Hno _ a); [done..|by apply failure_not_success]].
  cbv zeta. case_bool_decide as Ht; [apply wp_ret, (Hno _ a); [done..|by apply failure_not_success]|].
  destruct (bool_decide (who ≠ str0) && bool_decide (who ≠ field "clientID" body)) eqn:Hc.
  { apply wp_ret, (Hno _ a); [done..|by apply failure_not_success]. }
  assert (Hmay : may_unregister m a (out_now o) r (field "clientID" body)).
  { split_and!; [done|done|eauto|done|].
    apply andb_false_iff in Hc as [Hc%bool_decide_eq_false%dec_stable|Hc%bool_decide_eq_false%dec_stable];
      rewrite Hc in Hauth; auto. }
  apply wp_bind. eapply wp_mono; [by apply Unregister_quiet|]. intros u x2 Hu. apply wp_ret.
  destruct u as [[]|e].
  - exists (delete (field "clientID" body) m), (delete (field "clientID" body) a). split_and!; eauto.
    apply delete_subseteq.
  - destruct Hu as [Hu|Hu]; [apply (Hno _ a); [done..|by apply failure_not_success]|].
    exists (delete (field "clientID" body) m), a. split_and!; eauto.
    intros Hs. by apply failure_not_success in Hs.
Qed.

Lemma registerClient_spec `{!BcryptLaws B} r o x m a :
  auth_rep life x m a → quiet_outside m a o →
  wp (registerClient r o) (λ resp x', ∃ m' a', auth_rep life x' m' a' ∧ a' ⊆ a ∧
    (m' ≠ m → ∃ target h, may_register m a (out_now o) r target ∧ m !! target = None ∧
       m' = <[target := h]> m) ∧
    (∀ res, resp = success StatusCreated res → ∃ target h body, req_Body r = Ok body ∧
       field "clientID" body = target ∧ 32 ≤ String.length (field "authKey" body) ∧
       m !! target = None ∧ m' = <[target := h]> m ∧ a' = a ∧ accepts m' target (field "authKey" body))) x.
Proof.
  intros Hx Hq.
  set (Q := λ resp x', ∃ m' a', auth_rep life x' m' a' ∧ a' ⊆ a ∧
    (m' ≠ m → ∃ target h, may_register m a (out_now o) r target ∧ m !! target = None ∧
       m' = <[target := h]> m) ∧
    (∀ res, resp = success StatusCreated res → ∃ target h body, req_Body r = Ok body ∧
       field "clientID" body = target ∧ 32 ≤ String.length (field "authKey" body) ∧
       m !! target = None ∧ m' = <[target := h]> m ∧ a' = a ∧ accepts m' target (field "authKey" body))).
  assert (Hno : ∀ resp a' x', auth_rep life x' m a' → a' ⊆ a → (∀ res, resp ≠ success StatusCreated res) →
    Q resp x').
  { intros resp a' x' H1 H2 H3. exists m, a'. split_and!; [done..|]. intros res Hr. by destruct (H3 res). }
  assert (Hbody : ∀ x', auth_rep life x' m a → req_Method r = "POST"%string →
    AllowSelfRegistration cfg = true ∨ (∃ who, authenticates m a (out_now o) r who) → wp (register_body r o) Q x').
  { intros x' Hx' Hm Hwho. unfold register_body.
    destruct (req_Body r) as [body|e] eqn:Hb.
    2: { apply wp_ret, (Hno _ a); [done..|]. intros res. by apply failure_not_success. }
    apply wp_bind. eapply wp_mono.
    { apply (Register_spec life (field "clientID" body) (field "authKey" body) _ _ _ x' m a m a Hx'). intros; by apply Hq. }
    intros ans x2 (m' & a' & Hx2 & Hr). apply wp_ret. destruct ans as [[]|e].
    - destruct Hr as (Hlen & _ & Hn & _ & -> & h & -> & Hacc).
      exists (<[field "clientID" body := h]> m), a. split_and!; [done..| |].
      + intros _. exists (field "clientID" body), h. split_and!; [|done..]. split_and!; eauto.
      + intros res _. exists (field "clientID" body), h, body. by split_and!.
    - assert (Hf : ∀ res, failure StatusBadRequest e ≠ success StatusCreated res)
        by (intros; by apply failure_not_success).
      destruct Hr as [[-> ->]|[-> [->|(Hn & h & ->)]]]; [by apply (Hno _ a)..|].
      eexists _, a. split_and!; [done..| |intros res Hres; by destruct (Hf res)].
      intros _. exists (field "clientID" body), h. split_and!; [|done..]. split_and!; eauto. }
  fold Q. unfold registerClient. case_bool_decide as Hm; [by apply wp_ret, (Hno _ a)|].
  destruct (AllowSelfRegistration cfg) eqn:Hself; [by apply Hbody; auto|].
  apply wp_bind. eapply wp_mono; [by apply authHandler_spec|]. intros [who code [e|]] x1 Hans;
    cbn [aa_err aa_code aa_client] in *.
  - destruct Hans as (-> & a' & Hx1 & Ha'). apply wp_ret, (Hno _ a'); [done..|].
    intros res. by apply failure_not_success.
  - destruct Hans as [Hauth Hx1]. apply Hbody; eauto.
Qed.

End http.

(** ** Reading back credentials *)
Lemma split_at_app p s : split_at (String.length p) (p +:+ s) = (p, s).
Proof. induction p as [|a p IH]; sapp; [by destruct s|]. by rewrite IH. Qed.

Lemma EqualFold_refl s : EqualFold s s = true.
Proof. induction s as [|a s IH]; [done|]. cbn. by rewrite bool_decide_true. Qed.

Lemma length_sapp s t : String.length (s +:+ t) = String.length s + String.length t.
Proof. induction s as [|a s IH]; sapp; [done|]. by rewrite IH. Qed.

Lemma after_prefix_app p s : after_prefix p (p +:+ s) = Some s.
Proof.
  unfold after_prefix. rewrite split_at_app, EqualFold_refl, length_sapp.
  destruct (Nat.ltb_spec (String.length p + String.length s) (String.length p)); [lia|done].
Qed.

Lemma Cut_app c s t : Contains c s = false → Cut c (s +:+ String c t) = Some (s, t).
Proof.
  induction s as [|a s IH]; sapp; [by rewrite bool_decide_true|].
  intros [Ha Hs]%orb_false_iff. rewrite Ha. apply IH in Hs. by rewrite Hs.
Qed.

Lemma Cut_user c s x y : Cut c s = Some (x, y) → Contains c x = false.
Proof.
  revert x. induction s as [|a s IH]; intros x; cbn; [done|].
  case_bool_decide as Ha; [by intros [= <- <-]|].
  destruct (Cut c s) as [[x' y']|]; cbn; [|done]. intros [= <- <-]. cbn.
  by rewrite bool_decide_false, (IH x').
Qed.

(** ** Properties *)

(** Only the administrator and the client itself can unregister a client.
    Whatever the request, the handler ends with an answer, and if the store
    changed, then by the removal of the client the request names, the request
    is a POST, the endpoint is enabled, and the credentials are those of the
    administrator or of that very client (its key, or its token before it
    expires).  An answer of success means the client was removed together
    with its token. *)
Theorem unregister_authorized {O : MapOrder} {S : Store} {L : StoreLaws S} {B : Bcrypt}
    cfg life (r : http_request) (o : outside S) x m a :
  auth_rep life x m a → quiet_outside life m a o →
  ∃ resp x' m' a', unregisterClient cfg r o x = Some (resp, x') ∧ auth_rep life x' m' a' ∧ a' ⊆ a ∧
    (m' ≠ m → ∃ target, may_unregister cfg m a (out_now o) r target ∧ m' = delete target m) ∧
    (resp = success StatusOK ∅ → ∃ target, may_unregister cfg m a (out_now o) r target ∧
       m' = delete target m ∧ a' = delete target a).
Proof.
  intros Hx Hq. destruct (proj1 (wp_inv _ _ _) (unregisterClient_spec cfg life r o x m a Hx Hq))
    as (resp & x' & Hrun & m' & a' & H). by exists resp, x', m', a'.
Qed.

(** A client is registered only by a POST that is authenticated or when
    self-registration is allowed, only under an identifier that was free, and
    nothing else of the store changes; an answer of "created" means that the
    key of the request, of at least 32 characters, is accepted from then on. *)
Theorem register_authorized {O : MapOrder} {S : Store} {L : StoreLaws S} {B : Bcrypt} `{!BcryptLaws B}
    cfg life (r : http_request) (o : outside S) x m a :
  auth_rep life x m a → quiet_outside life m a o →
  ∃ resp x' m' a', registerClient cfg r o x = Some (resp, x') ∧ auth_rep life x' m' a' ∧ a' ⊆ a ∧
    (m' ≠ m → ∃ target h, may_register cfg m a (out_now o) r target ∧ m !! target = None ∧
       m' = <[target := h]> m) ∧
    (∀ res, resp = success StatusCreated res → ∃ target h body, req_Body r = Ok body ∧
       field "clientID" body = target ∧ 32 ≤ String.length (field "authKey" body) ∧
       m !! target = None ∧ m' = <[target := h]> m ∧ a' = a ∧ accepts m' target (field "authKey" body)).
Proof.
  intros Hx Hq. destruct (proj1 (wp_inv _ _ _) (registerClient_spec cfg life r o x m a Hx Hq))
    as (resp & x' & Hrun & m' & a' & H). by exists resp, x', m', a'.
Qed.

(** Nobody is the administrator without the secret.  With a valid
    configuration, a request that is authenticated as the administrator (the
    empty client) carries Basic credentials whose password is the configured
    secret, which is not empty, and the administrator is enabled; whatever the
    state of the store and of the cache, and whatever runs meanwhile. *)
Theorem admin_needs_secret {S : Store} {B : Bcrypt} cfg (r : http_request) (o : outside S) x ans x' :
  SecurityConfig_IsValid cfg = Ok tt →
  authHandler cfg r o x = Some (ans, x') → aa_err ans = None → aa_client ans = str0 →
  EnableAdmin cfg = true ∧ AdminSecretKey cfg ≠ str0 ∧
  ∃ user, BasicAuth r = Some (user, AdminSecretKey cfg).
Proof.
  intros Hv Hrun He Hc. unfold authHandler in Hrun. destruct (HasPrefix _ _).
  - unfold bearerAuthHandler in Hrun. destruct (parseBearerAuth _) as [token|]; [|by injection Hrun as <- _].
    unfold mbind, go_bind in Hrun.
    destruct (cache_Get token (out_now o) (out_others o 0) x) as [[[s|e] x1]|]; [|by injection Hrun as <- _|done].
    injection Hrun as <- _. destruct (decide (ClientID s = str0)) as [Hs|Hs].
    + by rewrite bool_decide_true in He.
    + by rewrite bool_decide_false in Hc.
  - unfold basicAuthHandler in Hrun. destruct (BasicAuth r) as [[id key]|]; [|by injection Hrun as <- _].
    destruct (EnableAdmin cfg && bool_decide (key = AdminSecretKey cfg)) eqn:Hadm.
    + apply andb_true_iff in Hadm as [Hen ->%bool_decide_eq_true]. split; [done|].
      unfold SecurityConfig_IsValid in Hv. rewrite Hen in Hv. cbn [negb] in Hv.
      apply guard_err_ok, bool_decide_eq_false in Hv. eauto.
    + destruct (decide (id = str0)) as [Hid|Hid].
      * rewrite (bool_decide_true (id = _)) in Hrun by done. by injection Hrun as <- _.
      * rewrite (bool_decide_false (id = _)) in Hrun by done. unfold mbind, go_bind in Hrun.
        destruct (Authenticate id key _ _ x) as [[[u|e] x1]|]; [| |done]; injection Hrun as <- _; done.
Qed.

(** Basic credentials arrive as they were written, for an identifier
    without a colon; an identifier with one is never read back, so such a
    client cannot authenticate this way. *)
Theorem basic_credentials_roundtrip id key method body :
  let r := {| req_Method := method; req_Body := body;
    req_Authorization := "Basic " +:+ EncodeToString (id +:+ ":" +:+ key) |} in
  if Contains ":" id then ∀ key', BasicAuth r ≠ Some (id, key') else BasicAuth r = Some (id, key).
Proof.
  intros r. assert (Hr : BasicAuth r = Cut ":" (id +:+ ":" +:+ key)).
  { unfold BasicAuth, r. cbn [req_Authorization]. rewrite bool_decide_false by done.
    change "Basic "%string with basicPrefix. rewrite after_prefix_app. cbn [mbind option_bind].
    by rewrite DecodeString_EncodeToString. }
  rewrite Hr. destruct (Contains ":" id) eqn:Hc.
  - intros key' Hk. apply Cut_user in Hk. congruence.
  - by apply Cut_app.
Qed.

(** ** A concrete endpoint *)
Module ToyHttp.
Import ToyAuth.

Definition cfg : SecurityConfig :=
  {| EnableAdmin := true; AdminSecretKey := "secret"; AllowSelfRegistration := false |}.
Definition calm : outside ToyStore.toy_store := {|
  out_now := 0; out_wait := λ _, Ok tt; out_others := λ _, mret tt; out_salt := []; out_read := read |}.
Definition request (auth : string) (body : gmap string string) : http_request :=
  {| req_Method := "POST"; req_Authorization := auth; req_Body := Ok body |}.
(** [base64(":secret")]. *)
Definition admin_request : http_request :=
  request "Basic OnNlY3JldA==" (<["clientID"%string := "a"%string]> {["authKey"%string := key]}).

Lemma calm_quiet m a : quiet_outside (L := ToyStore.toy_store_laws) day m a calm.
Proof. intros n x Hx. exact Hx. Qed.

End ToyHttp.

Lemma unregister_authorized_witness :
  ∃ resp x', unregisterClient (O := sorted_order) (B := ToyAuth.toy_bcrypt) ToyHttp.cfg ToyHttp.admin_request
    ToyHttp.calm ToyAuth.one_client = Some (resp, x').
Proof.
  destruct (unregister_authorized (O := sorted_order) (L := ToyStore.toy_store_laws) (B := ToyAuth.toy_bcrypt)
    ToyHttp.cfg ToyAuth.day ToyHttp.admin_request ToyHttp.calm ToyAuth.one_client _ _
    ToyAuth.one_client_rep (ToyHttp.calm_quiet _ _)) as (resp & x' & _ & _ & Hrun & _).
  eauto.
Defined.

Lemma register_authorized_witness :
  ∃ resp x', registerClient (B := ToyAuth.toy_bcrypt) ToyHttp.cfg ToyHttp.admin_request
    ToyHttp.calm ToyAuth.new_auth = Some (resp, x').
Proof.
  destruct (register_authorized (O := sorted_order) (L := ToyStore.toy_store_laws) (B := ToyAuth.toy_bcrypt)
    (BcryptLaws0 := ToyAuth.toy_bcrypt_laws) ToyHttp.cfg ToyAuth.day ToyHttp.admin_request ToyHttp.calm
    ToyAuth.new_auth _ _ ToyAuth.new_auth_rep (ToyHttp.calm_quiet _ _)) as (resp & x' & _ & _ & Hrun & _).
  eauto.
Defined.

Lemma admin_needs_secret_witness :
  ∃ user, BasicAuth ToyHttp.admin_request = Some (user, "secret"%string).
Proof.
  apply (admin_needs_secret (B := ToyAuth.toy_bcrypt) ToyHttp.cfg ToyHttp.admin_request ToyHttp.calm
    ToyAuth.one_client (authorized str0) ToyAuth.one_client); vm_compute; reflexivity.
Defined.
