(* ===== verification/WsServer.v ===== *)
(** * WsServer: the WebSocket server (service/ws/server.go, conn.go, msg.go, config.go)

    The server is a transition system: any number of [ServeHTTP] handlers and
    of [Close] calls, [connWriter], senders and the consumer of [receiveCh],
    scheduled in any order.  A step is one section under the server's lock or
    one operation on a channel; a handler whose send has to wait stays where
    it is.  What the WebSocket library and the authentication answer is part
    of the schedule.  Logging, the read limit and the pong handler, which only
    moves a deadline, are left out. *)
From S2P Require Import Prelude.

Definition ReceiveChSize : nat := 5000.
Definition sendChSize : nat := ReceiveChSize.

Record ServerConfig := { ReadBufferSize : Z; WriteBufferSize : Z; PingInterval : Z }.

Definition ServerConfig_IsValid (c : ServerConfig) : result unit :=
  guard_err (ReadBufferSize c <=? 0)%Z "invalid ReadBufferSize value: should be greater than zero" ;;
  guard_err (WriteBufferSize c <=? 0)%Z "invalid WriteBufferSize value: should be greater than zero" ;;
  guard_err (PingInterval c <? second)%Z "invalid PingInterval value: should be at least 1 second".

(** ** Messages *)
Definition TextMessage : Z := 1.
Definition BinaryMessage : Z := 2.
Definition OpenMessage : Z := 3.
Definition CloseMessage : Z := 4.

Record ws_Message := { wm_ClientID : string; wm_ConnID : string; wm_Type : Z; wm_Data : string }.

Definition newOpenMessage (connID clientID : string) : ws_Message :=
  {| wm_ClientID := clientID; wm_ConnID := connID; wm_Type := OpenMessage; wm_Data := str0 |}.
Definition newCloseMessage (connID clientID : string) : ws_Message :=
  {| wm_ClientID := clientID; wm_ConnID := connID; wm_Type := CloseMessage; wm_Data := str0 |}.

(** The library's message types. *)
Inductive opcode := OpText | OpBinary | OpClose | OpPing | OpOther.
#[export] Instance opcode_eq_dec : EqDecision opcode.
Proof. solve_decision. Defined.

(** ** State

    A connection is known by the handler that made it.  [ws_queued] is every
    message ever put on [receiveCh], [ws_written] every message given to the
    library. *)
Record conn := { cn_id : string; cn_clientID : string; cn_closeCh : bool; cn_open : bool }.

Record ws_server := {
  ws_conns : gmap string nat;
  ws_sendCh : chan ws_Message;
  ws_receiveCh : chan ws_Message;
  ws_closed : bool;
  ws_heap : gmap nat conn;
  ws_queued : list ws_Message;
  ws_written : list (nat * opcode * string);
}.

Definition new_ws_server : ws_server := {|
  ws_conns := ∅; ws_sendCh := make_chan sendChSize; ws_receiveCh := make_chan ReceiveChSize;
  ws_closed := false; ws_heap := ∅; ws_queued := []; ws_written := [] |}.

Definition NewServer (cfg : ServerConfig) (options : list (result unit)) : result ws_server :=
  wrap_err "failed to validate config" (ServerConfig_IsValid cfg) ;;
  wrap_err "failed to apply option" (foldr (λ o r, o ;; r) (Ok tt) options) ;;
  Ok new_ws_server.

Definition set_conns (f : gmap string nat → gmap string nat) (w : ws_server) : ws_server := {|
  ws_conns := f (ws_conns w); ws_sendCh := ws_sendCh w; ws_receiveCh := ws_receiveCh w;
  ws_closed := ws_closed w; ws_heap := ws_heap w; ws_queued := ws_queued w; ws_written := ws_written w |}.
Definition set_send (ch : chan ws_Message) (w : ws_server) : ws_server := {|
  ws_conns := ws_conns w; ws_sendCh := ch; ws_receiveCh := ws_receiveCh w;
  ws_closed := ws_closed w; ws_heap := ws_heap w; ws_queued := ws_queued w; ws_written := ws_written w |}.
Definition set_receive (ch : chan ws_Message) (w : ws_server) : ws_server := {|
  ws_conns := ws_conns w; ws_sendCh := ws_sendCh w; ws_receiveCh := ch;
  ws_closed := ws_closed w; ws_heap := ws_heap w; ws_queued := ws_queued w; ws_written := ws_written w |}.
Definition set_closed (w : ws_server) : ws_server := {|
  ws_conns := ws_conns w; ws_sendCh := ws_sendCh w; ws_receiveCh := ws_receiveCh w;
  ws_closed := true; ws_heap := ws_heap w; ws_queued := ws_queued w; ws_written := ws_written w |}.
Definition set_heap (f : gmap nat conn → gmap nat conn) (w : ws_server) : ws_server := {|
  ws_conns := ws_conns w; ws_sendCh := ws_sendCh w; ws_receiveCh := ws_receiveCh w;
  ws_closed := ws_closed w; ws_heap := f (ws_heap w); ws_queued := ws_queued w; ws_written := ws_written w |}.
Definition add_queued (m : ws_Message) (w : ws_server) : ws_server := {|
  ws_conns := ws_conns w; ws_sendCh := ws_sendCh w; ws_receiveCh := ws_receiveCh w;
  ws_closed := ws_closed w; ws_heap := ws_heap w; ws_queued := ws_queued w ++ [m];
  ws_written := ws_written w |}.
Definition add_written (l : list (nat * opcode * string)) (w : ws_server) : ws_server := {|
  ws_conns := ws_conns w; ws_sendCh := ws_sendCh w; ws_receiveCh := ws_receiveCh w;
  ws_closed := ws_closed w; ws_heap := ws_heap w; ws_queued := ws_queued w;
  ws_written := ws_written w ++ l |}.

(** ** Connections (conn.go) *)
Definition newConn (id clientID : string) : conn :=
  {| cn_id := id; cn_clientID := clientID; cn_closeCh := false; cn_open := true |}.

Definition close_ws (c : conn) : conn :=
  {| cn_id := cn_id c; cn_clientID := cn_clientID c; cn_closeCh := cn_closeCh c; cn_open := false |}.
Definition close_done (c : conn) : conn :=
  {| cn_id := cn_id c; cn_clientID := cn_clientID c; cn_closeCh := true; cn_open := cn_open c |}.

(** [c.id] of a pointer. *)
Definition get_conn_at (c : nat) : go ws_server conn := λ w, x ← ws_heap w !! c; Some (x, w).

Definition addConn (c : nat) : go ws_server bool :=
  x ← get_conn_at c;
  w ← gets (λ w, w);
  if bool_decide (is_Some (ws_conns w !! cn_id x)) then mret false
  else modify (set_conns (<[cn_id x := c]>)) ;; mret true.

Definition removeConn (connID : string) : go ws_server bool :=
  w ← gets (λ w, w);
  if bool_decide (ws_conns w !! connID = None) then mret false
  else modify (set_conns (delete connID)) ;; mret true.

Definition getConn (connID : string) : go ws_server (option nat) :=
  gets (λ w, if bool_decide (connID ≠ str0) then ws_conns w !! connID else None).

Definition getConns `{MapOrder} : go ws_server (list nat) := gets (λ w, snd <$> range_kv (ws_conns w)).

(** [conn.close()], and [close(conn.closeCh)], which panics the second time. *)
Definition conn_close (c : nat) : go ws_server unit := modify (set_heap (alter close_ws c)).
Definition close_conn_ch (c : nat) : go ws_server unit :=
  x ← get_conn_at c;
  if cn_closeCh x then panic else modify (set_heap (alter close_done c)).

Definition isClosed : go ws_server bool := gets ws_closed.

Definition Send (msg : ws_Message) : go ws_server (result unit) :=
  w ← gets (λ w, w);
  if ws_closed w then mret (Err (EText "server is closed"))
  else match try_send msg (ws_sendCh w) with
       | SendPanic => panic
       | Full => mret (Err (EText "failed to send ws message, channel is full"))
       | Sent ch => modify (set_send ch) ;; mret (Ok tt)
       end.

(** ** [ServeHTTP] *)

(** Where a handler is; the client is known once it is authenticated. *)
Inductive handler :=
  | HStart
  | HUpgrade (client : string)
  | HRefused (client : string)
  | HAdd (client : string)
  | HCheck (client : string)
  | HOpen (client : string)
  | HDeadline (client : string)
  | HRead (client : string)
  | HForward (client : string) (m : ws_Message)
  | HLeave (client : string)
  | HRemove
  | HCloseCh
  | HWsClose
  | HDone.

(** What the outside answers when it is asked. *)
Record answers := {
  an_auth : option (result string);
  an_upgrade : result unit;
  an_deadline : result unit;
  an_read : result (opcode * string);
}.

(** [s.receiveCh <- m]: waits while the channel is full. *)
Definition send_receive (m : ws_Message) (wait next : handler) : go ws_server handler :=
  w ← gets (λ w, w);
  match try_send m (ws_receiveCh w) with
  | SendPanic => panic
  | Full => mret wait
  | Sent ch => modify (λ w, add_queued m (set_receive ch w)) ;; mret next
  end.

Definition handler_step (h : nat) (connID : string) (a : answers) (st : handler) : go ws_server handler :=
  match st with
  | HStart =>
      mret (match an_auth a with
            | None => HUpgrade str0
            | Some (Ok client) => HUpgrade client
            | Some (Err _) => HDone
            end)
  | HUpgrade client =>
      match an_upgrade a with
      | Err _ => mret (HRefused client)
      | Ok _ => modify (set_heap (<[h := newConn connID client]>)) ;; mret (HAdd client)
      end
  | HRefused client => send_receive (newCloseMessage connID client) (HRefused client) HDone
  | HAdd client => _ ← addConn h; mret (HCheck client)
  | HCheck client => b ← isClosed; mret (if b : bool then HCloseCh else HOpen client)
  | HOpen client => send_receive (newOpenMessage connID client) (HOpen client) (HDeadline client)
  | HDeadline client => mret (match an_deadline a with Err _ => HLeave client | Ok _ => HRead client end)
  | HRead client =>
      mret (match an_read a with
            | Err _ => HLeave client
            | Ok (op, data) =>
                let forward t := HForward client
                  {| wm_ConnID := connID; wm_ClientID := client; wm_Type := t; wm_Data := data |} in
                match op with
                | OpText => forward TextMessage
                | OpBinary => forward BinaryMessage
                | _ => HRead client
                end
            end)
  | HForward client m => send_receive m (HForward client m) (HRead client)
  | HLeave client => send_receive (newCloseMessage connID client) (HLeave client) HRemove
  | HRemove => _ ← removeConn connID; mret HCloseCh
  | HCloseCh => close_conn_ch h ;; mret HWsClose
  | HWsClose => conn_close h ;; mret HDone
  | HDone => mret HDone
  end.

(** ** [Close] *)
Inductive closer :=
  | CStart
  | CReturned
  | CConns
  | CClosing (l : list nat)
  | CWaiting (c : nat) (l : list nat)
  | CReceiveClosed
  | CFinished.

Definition closer_step `{MapOrder} (st : closer) : go ws_server closer :=
  match st with
  | CStart => b ← isClosed; if b : bool then mret CReturned else modify set_closed ;; mret CConns
  | CConns => l ← getConns; mret (CClosing l)
  | CClosing (c :: l) => conn_close c ;; mret (CWaiting c l)
  | CWaiting c l => x ← get_conn_at c; mret (if cn_closeCh x then CClosing l else CWaiting c l)
  | CClosing [] => λ w, ch ← close_chan (ws_receiveCh w); Some (CReceiveClosed, set_receive ch w)
  | CReceiveClosed => λ w, ch ← close_chan (ws_sendCh w); Some (CFinished, set_send ch w)
  | CReturned => mret CReturned
  | CFinished => mret CFinished
  end.

(** ** [connWriter] *)
Definition write_opcode (t : Z) : option opcode :=
  if bool_decide (t = TextMessage) then Some OpText
  else if bool_decide (t = BinaryMessage) then Some OpBinary
  else if bool_decide (t = CloseMessage) then Some OpClose
  else None.

(** One message: to the connection it names, if it is there. *)
Definition write_msg (msg : ws_Message) : go ws_server unit :=
  c ← getConn (wm_ConnID msg);
  match c with
  | None => mret tt
  | Some c =>
      match write_opcode (wm_Type msg) with
      | None => mret tt
      | Some op => modify (add_written [(c, op, wm_Data msg)])
      end
  end.

Definition ping_all `{MapOrder} : go ws_server unit :=
  l ← getConns; modify (add_written ((λ c, (c, OpPing, str0)) <$> l)).

(** One iteration, at a tick or not. *)
Definition connWriter_step `{MapOrder} (tick : bool) : go ws_server unit :=
  if tick then ping_all
  else
    w ← gets (λ w, w);
    match recv (ws_sendCh w) with
    | inl (msg, ch) => modify (set_send ch) ;; write_msg msg
    | inr _ => mret tt
    end.

(** ** The system *)
Record system := {
  sy_server : ws_server;
  sy_handlers : gmap nat (string * handler);
  sy_closers : gmap nat closer;
}.

Inductive ws_event :=
  | EvHandler (h : nat) (a : answers)
  | EvCloser (k : nat)
  | EvSend (m : ws_Message)
  | EvReceive
  | EvWriter (tick : bool).

Definition ws_step `{MapOrder} (ev : ws_event) (s : system) : option system :=
  match ev with
  | EvHandler h a =>
      match sy_handlers s !! h with
      | None => Some s
      | Some (id, st) =>
          '(st', w) ← handler_step h id a st (sy_server s);
          Some {| sy_server := w; sy_handlers := <[h := (id, st')]> (sy_handlers s);
                  sy_closers := sy_closers s |}
      end
  | EvCloser k =>
      match sy_closers s !! k with
      | None => Some s
      | Some st =>
          '(st', w) ← closer_step st (sy_server s);
          Some {| sy_server := w; sy_handlers := sy_handlers s; sy_closers := <[k := st']> (sy_closers s) |}
      end
  | EvSend m => '(_, w) ← Send m (sy_server s);
      Some {| sy_server := w; sy_handlers := sy_handlers s; sy_closers := sy_closers s |}
  | EvReceive =>
      match recv (ws_receiveCh (sy_server s)) with
      | inl (_, ch) => Some {| sy_server := set_receive ch (sy_server s);
                               sy_handlers := sy_handlers s; sy_closers := sy_closers s |}
      | inr _ => Some s
      end
  | EvWriter tick => '(_, w) ← connWriter_step tick (sy_server s);
      Some {| sy_server := w; sy_handlers := sy_handlers s; sy_closers := sy_closers s |}
  end.

Fixpoint ws_run `{MapOrder} (evs : list ws_event) (s : system) : option system :=
  match evs with
  | [] => Some s
  | ev :: evs => s ← ws_step ev s; ws_run evs s
  end.

(** Requests and [Close] calls that have not started, with distinct
    connection identifiers ([random.NewID]). *)
Definition initial (ids : list string) (closes : nat) : system := {|
  sy_server := new_ws_server;
  sy_handlers := list_to_map (imap (λ h id, (h, (id, HStart))) ids);
  sy_closers := list_to_map ((λ k, (k, CStart)) <$> seq 0 closes) |}.

(** ** What a step of a handler leaves alone *)

(** The handler will still put messages on [receiveCh]. *)
Definition sends (st : handler) : bool :=
  match st with HOpen _ | HDeadline _ | HRead _ | HForward _ _ | HLeave _ => true | _ => false end.

Definition for_conn (id : string) (l : list ws_Message) : list ws_Message :=
  filter (λ m, wm_ConnID m = id) l.

Record frame (h : nat) (id : string) (w w' : ws_server) : Prop := {
  fr_closed : ws_closed w' = ws_closed w;
  fr_send : ws_sendCh w' = ws_sendCh w;
  fr_cap : ch_cap (ws_receiveCh w') = ch_cap (ws_receiveCh w);
  fr_open : ch_closed (ws_receiveCh w') = ch_closed (ws_receiveCh w);
  fr_made : is_Some (ws_heap w !! h) → is_Some (ws_heap w' !! h);
  fr_heap : ∀ k, k ≠ h → ws_heap w' !! k = ws_heap w !! k;
  fr_conns : ∀ k, k ≠ id → ws_conns w' !! k = ws_conns w !! k;
  fr_queued : ∃ l, ws_queued w' = ws_queued w ++ l ∧ Forall (λ m, wm_ConnID m = id) l
                   ∧ (ws_queued w' = ws_queued w → ch_buf (ws_receiveCh w') = ch_buf (ws_receiveCh w))
                   ∧ ∀ taken, ws_queued w = taken ++ ch_buf (ws_receiveCh w) →
                              ws_queued w' = taken ++ ch_buf (ws_receiveCh w');
}.

(** What the server knows of a handler's connection: its entry on the heap
    and the entry of [conns] under its identifier. *)
Definition handler_ok (h : nat) (id : string) (st : handler) (o : option conn) (m : option nat) : Prop :=
  let made (done : bool) := ∃ c, o = Some c ∧ cn_id c = id ∧ cn_closeCh c = done in
  (m = None ∨ m = Some h) ∧
  match st with
  | HStart | HUpgrade _ => o = None ∧ m = None
  | HRefused _ => False
  | HAdd _ => made false ∧ m = None
  | HCheck _ | HOpen _ | HDeadline _ | HRead _ | HLeave _ | HRemove => made false ∧ m = Some h
  | HForward _ msg => wm_ConnID msg = id ∧ made false ∧ m = Some h
  | HCloseCh => made false
  | HWsClose => made true
  | HDone => (o = None ∧ m = None) ∨ made true
  end.

Lemma frame_refl h id w : frame h id w w.
Proof. split; try done. exists []. rewrite app_nil_r. repeat split; [constructor|done]. Qed.

Lemma frame_same h id w w' :
  ws_closed w' = ws_closed w → ws_sendCh w' = ws_sendCh w → ws_receiveCh w' = ws_receiveCh w →
  ws_queued w' = ws_queued w → (is_Some (ws_heap w !! h) → is_Some (ws_heap w' !! h)) →
  (∀ k, k ≠ h → ws_heap w' !! k = ws_heap w !! k) →
  (∀ k, k ≠ id → ws_conns w' !! k = ws_conns w !! k) → frame h id w w'.
Proof.
  intros Hc Hs Hr Hq Hm Hh Hn. split; rewrite ?Hr; try done. exists []. rewrite Hq, app_nil_r.
  repeat split; [constructor|done].
Qed.

Lemma frame_queue h id m w ch :
  wm_ConnID m = id → try_send m (ws_receiveCh w) = Sent ch → frame h id w (add_queued m (set_receive ch w)).
Proof.
  unfold try_send. destruct (ch_closed _) eqn:Ho; [done|]. case_bool_decide; [|done]. intros Hm [= <-].
  split; cbn; try done. exists [m]. split; [done|]. split; [by constructor|]. split.
  - intros E%(f_equal length). rewrite length_app in E. cbn in E. lia.
  - intros taken ->. by rewrite app_assoc.
Qed.

(** A handler's message is queued, or the handler waits. *)
Lemma send_receive_spec h m wait next w :
  ch_closed (ws_receiveCh w) = false →
  wp (send_receive m wait next)
     (λ st' w', (st' = wait ∧ w' = w ∨ st' = next ∧ ws_heap w' = ws_heap w ∧ ws_conns w' = ws_conns w)
                ∧ frame h (wm_ConnID m) w w') w.
Proof.
  intros Ho. unfold send_receive. apply wp_bind, wp_gets.
  destruct (try_send m (ws_receiveCh w)) as [ch| |] eqn:E.
  - apply wp_bind, wp_modify, wp_ret. split; [by right|by apply frame_queue].
  - apply wp_ret. split; [by left|apply frame_refl].
  - unfold try_send in E. rewrite Ho in E. by case_bool_decide.
Qed.

Definition upgrades (a : answers) : bool := match an_upgrade a with Ok _ => true | Err _ => false end.

(** A step of a handler whose upgrade, if it comes to it, succeeds: it does
    not panic as long as [receiveCh] is open while it has something to send,
    and it stays consistent with the server. *)
Lemma handler_step_ok h id a st w :
  upgrades a = true → handler_ok h id st (ws_heap w !! h) (ws_conns w !! id) →
  (sends st = true → ch_closed (ws_receiveCh w) = false) →
  wp (handler_step h id a st)
     (λ st' w', handler_ok h id st' (ws_heap w' !! h) (ws_conns w' !! id) ∧ frame h id w w'
                ∧ (ws_closed w = true → sends st' = true → sends st = true)) w.
Proof.
  intros Hup [Hm Hst] Hopen. unfold upgrades in Hup.
  destruct st as [|cl|cl|cl|cl|cl|cl|cl|cl m|cl| | | |]; unfold handler_ok; cbn [handler_step handler_ok sends] in *.
  - apply wp_ret. destruct Hst as [Ho Hn]. rewrite Ho, Hn.
    destruct (an_auth a) as [[]|]; (split; [|by split; [apply frame_refl|]]); unfold handler_ok; auto 6.
  - destruct (an_upgrade a); [|done]. apply wp_bind, wp_modify, wp_ret. cbn. rewrite lookup_insert.
    rewrite decide_True by done. destruct Hst as [_ Hn]. split; [|split; [|done]].
    + split; [done|]. split; [by eexists|done].
    + apply frame_same; cbn; try done; try (by rewrite ?lookup_insert_eq, ?lookup_alter_eq, ?Hc). intros k Hk. by rewrite lookup_insert_ne.
  - done.
  - destruct Hst as [(c & Hc & Hid & Hcl) Hn]. apply wp_bind. unfold addConn. apply wp_bind.
    unfold get_conn_at, wp at 1. rewrite Hc. cbn. apply wp_bind, wp_gets. rewrite Hid, Hn.
    rewrite bool_decide_false by (by intros []). apply wp_bind, wp_modify, wp_ret, wp_ret. cbn.
    rewrite lookup_insert, decide_True by done. split; [|split; [|done]].
    + split; [by right|]. split; [by exists c|done].
    + apply frame_same; cbn; try done; try (by rewrite ?lookup_insert_eq, ?lookup_alter_eq, ?Hc). intros k Hk. by rewrite lookup_insert_ne.
  - apply wp_bind, wp_gets, wp_ret. destruct Hst as [Hc Hn]. rewrite Hn in *.
    destruct (ws_closed w); (split; [|by split; [apply frame_refl|]]); unfold handler_ok; auto 6.
  - eapply wp_mono; [apply (send_receive_spec h); auto|].
    intros st' w' [[[-> ->]|(-> & -> & ->)] Hfr]; unfold handler_ok; auto 6.
  - apply wp_ret. destruct (an_deadline a); auto using frame_refl.
  - apply wp_ret. destruct (an_read a) as [[[] ?]|]; auto using frame_refl.
  - destruct Hst as (Hid & Hst). eapply wp_mono; [apply (send_receive_spec h); auto|]. rewrite Hid.
    intros st' w' [[[-> ->]|(-> & -> & ->)] Hfr]; unfold handler_ok; auto 6.
  - eapply wp_mono; [apply (send_receive_spec h); auto|].
    intros st' w' [[[-> ->]|(-> & -> & ->)] Hfr]; unfold handler_ok; auto 6.
  - destruct Hst as [Hc Hn]. apply wp_bind. unfold removeConn. apply wp_bind, wp_gets. rewrite Hn.
    rewrite bool_decide_false by done. apply wp_bind, wp_modify, wp_ret, wp_ret. cbn.
    rewrite lookup_delete_eq. split; [by auto|split; [|done]].
    apply frame_same; cbn; try done. intros k Hk. by rewrite lookup_delete_ne.
  - destruct Hst as (c & Hc & Hid & Hcl). apply wp_bind. unfold close_conn_ch. apply wp_bind.
    unfold get_conn_at, wp at 1. rewrite Hc. cbn. rewrite Hcl. apply wp_modify, wp_ret. cbn.
    rewrite lookup_alter_eq, Hc. split; [|split; [|done]].
    + split; [done|]. by eexists.
    + apply frame_same; cbn; try done; try (by rewrite ?lookup_insert_eq, ?lookup_alter_eq, ?Hc). intros k Hk. by rewrite lookup_alter_ne.
  - destruct Hst as (c & Hc & Hid & Hcl). apply wp_bind, wp_modify, wp_ret. cbn.
    rewrite lookup_alter_eq, Hc. split; [|split; [|done]].
    + split; [done|]. right. by eexists.
    + apply frame_same; cbn; try done; try (by rewrite ?lookup_insert_eq, ?lookup_alter_eq, ?Hc). intros k Hk. by rewrite lookup_alter_ne.
  - apply wp_ret. cbn; auto using frame_refl.
Qed.

(** ** The invariant of the system *)

(** Every handler that may still send is one [Close] has yet to wait for. *)
Definition covered (s : system) (l : list nat) : Prop :=
  (∀ h id st, sy_handlers s !! h = Some (id, st) → sends st = true → h ∈ l)
  ∧ ∀ h, h ∈ l → is_Some (ws_heap (sy_server s) !! h).

Definition chans_closed (s : system) (r q : bool) : Prop :=
  ch_closed (ws_receiveCh (sy_server s)) = r ∧ ch_closed (ws_sendCh (sy_server s)) = q.

Definition closer_ok (s : system) (st : closer) : Prop :=
  match st with
  | CStart | CReturned => False
  | CConns => chans_closed s false false
  | CClosing l => chans_closed s false false ∧ covered s l
  | CWaiting c l => chans_closed s false false ∧ covered s (c :: l)
  | CReceiveClosed => chans_closed s true false ∧ covered s []
  | CFinished => chans_closed s true true ∧ covered s []
  end.

(** One [Close] call at most does the closing. *)
Definition closing_ok (s : system) : Prop :=
  if ws_closed (sy_server s) then
    ∃ k st, sy_closers s !! k = Some st ∧ closer_ok s st
            ∧ ∀ k' st', sy_closers s !! k' = Some st' → k' ≠ k → st' = CStart ∨ st' = CReturned
  else chans_closed s false false ∧ ∀ k st, sy_closers s !! k = Some st → st = CStart.

Record system_ok (s : system) : Prop := {
  so_ids : ∀ h h' id st st', sy_handlers s !! h = Some (id, st) → sy_handlers s !! h' = Some (id, st') → h = h';
  so_handlers : ∀ h id st, sy_handlers s !! h = Some (id, st) →
    handler_ok h id st (ws_heap (sy_server s) !! h) (ws_conns (sy_server s) !! id);
  so_conns : ∀ id h, ws_conns (sy_server s) !! id = Some h → ∃ st, sy_handlers s !! h = Some (id, st);
  so_heap : ∀ h, is_Some (ws_heap (sy_server s) !! h) → is_Some (sy_handlers s !! h);
  so_closing : closing_ok s;
  so_cap : ch_cap (ws_receiveCh (sy_server s)) = ReceiveChSize;
  so_fifo : ∃ taken, ws_queued (sy_server s) = taken ++ ch_buf (ws_receiveCh (sy_server s));
}.

Lemma sends_open s h id st :
  system_ok s → sy_handlers s !! h = Some (id, st) → sends st = true →
  ch_closed (ws_receiveCh (sy_server s)) = false.
Proof.
  intros Hs Hh Hst. pose proof (so_closing s Hs) as H. unfold closing_ok in H.
  destruct (ws_closed _); [|apply H]. destruct H as (k & c & _ & Hc & _).
  destruct c; cbn in Hc; try apply Hc; try done.
  all: destruct Hc as [_ [Hcov _]]; by apply Hcov, not_elem_of_nil in Hh.
Qed.

(** A sending handler has an entry in [conns], hence on the heap. *)
Lemma sends_conns s h id st :
  system_ok s → sy_handlers s !! h = Some (id, st) → sends st = true →
  ws_conns (sy_server s) !! id = Some h
  ∧ ∃ c, ws_heap (sy_server s) !! h = Some c ∧ cn_closeCh c = false.
Proof.
  intros Hs Hh Hst. pose proof (so_handlers s Hs h id st Hh) as [_ H].
  destruct st; try done; naive_solver.
Qed.

(** The closing side is not touched by a step of a handler. *)
Lemma closing_ok_frame s h id st st' w' :
  system_ok s → sy_handlers s !! h = Some (id, st) → frame h id (sy_server s) w' →
  (ws_closed (sy_server s) = true → sends st' = true → sends st = true) →
  closing_ok {| sy_server := w'; sy_handlers := <[h := (id, st')]> (sy_handlers s); sy_closers := sy_closers s |}.
Proof.
  intros Hs Hh Hfr Hsends. pose proof (so_closing s Hs) as H. unfold closing_ok in *. cbn.
  set (s' := {| sy_server := w'; sy_handlers := _; sy_closers := _ |}).
  assert (∀ a b, chans_closed s a b → chans_closed s' a b) as Hch.
  { intros a b [<- <-]. split; cbn; [apply Hfr|]. by rewrite (fr_send _ _ _ _ Hfr). }
  rewrite (fr_closed _ _ _ _ Hfr). destruct (ws_closed (sy_server s)); [|by destruct H; auto].
  assert (∀ l, covered s l → covered s' l) as Hcov.
  { intros l [H1 H2]. split; cbn.
    - intros h' id' st1. destruct (decide (h' = h)) as [->|Hne].
      + rewrite lookup_insert, decide_True by done. intros [= <- <-] Hst. by eapply H1, Hsends.
      + rewrite lookup_insert_ne by done. apply H1.
    - intros h' Hin%H2. destruct (decide (h' = h)) as [->|Hne]; [by apply Hfr|].
      by rewrite (fr_heap _ _ _ _ Hfr). }
  destruct H as (k & c & Hk & Hc & Hothers). exists k, c. split; [done|]. split; [|done].
  destruct c; cbn in *; naive_solver.
Qed.

Lemma handler_ok_heap h id st o m : handler_ok h id st o m → is_Some o ∨ o = None ∧ m = None.
Proof. unfold handler_ok. destruct st; try naive_solver; by destruct 1. Qed.

Lemma system_ok_handler s h id st st' w' :
  system_ok s → sy_handlers s !! h = Some (id, st) →
  handler_ok h id st' (ws_heap w' !! h) (ws_conns w' !! id) → frame h id (sy_server s) w' →
  (ws_closed (sy_server s) = true → sends st' = true → sends st = true) →
  system_ok {| sy_server := w'; sy_handlers := <[h := (id, st')]> (sy_handlers s); sy_closers := sy_closers s |}.
Proof.
  intros Hs Hh Hok Hfr Hsends.
  assert (∀ h1 id1 st1, <[h := (id, st')]> (sy_handlers s) !! h1 = Some (id1, st1) →
            (h1 = h ∧ id1 = id ∧ st1 = st') ∨ (h1 ≠ h ∧ id1 ≠ id ∧ sy_handlers s !! h1 = Some (id1, st1))) as Hl.
  { intros h1 id1 st1. destruct (decide (h1 = h)) as [->|Hne].
    - rewrite lookup_insert, decide_True by done. intros [= <- <-]. by left.
    - rewrite lookup_insert_ne by done. intros E. right. split_and!; try done. intros ->.
      by pose proof (so_ids s Hs _ _ _ _ _ E Hh). }
  split; cbn.
  - intros h1 h2 id1 st1 st2 [(-> & -> & ->)|(Hn1 & Hi1 & E1)]%Hl [(-> & Hid & ->)|(Hn2 & Hi2 & E2)]%Hl; try done.
    by eapply so_ids.
  - intros h1 id1 st1 [(-> & -> & ->)|(Hn1 & Hi1 & E1)]%Hl; [done|].
    rewrite (fr_heap _ _ _ _ Hfr), (fr_conns _ _ _ _ Hfr) by done. by apply Hs.
  - intros id1 h1. destruct (decide (id1 = id)) as [->|Hne].
    + destruct Hok as [Hor _]. intros E. rewrite E in Hor. destruct Hor as [|[= ->]]; [done|].
      exists st'. by rewrite lookup_insert, decide_True.
    + rewrite (fr_conns _ _ _ _ Hfr) by done. intros E%(so_conns s Hs). destruct E as [st1 E].
      exists st1. rewrite lookup_insert_ne; [done|]. intros <-. by rewrite Hh in E; simplify_eq.
  - intros h1. destruct (decide (h1 = h)) as [->|Hne]; [by rewrite lookup_insert, decide_True|].
    rewrite (fr_heap _ _ _ _ Hfr), lookup_insert_ne by done. apply Hs.
  - by eapply closing_ok_frame.
  - rewrite (fr_cap _ _ _ _ Hfr). apply Hs.
  - destruct (so_fifo s Hs) as [t Ht]. destruct (fr_queued _ _ _ _ Hfr) as (_ & _ & _ & _ & H). eauto.
Qed.

(** A step that only moves messages through [sendCh] and out of [receiveCh]. *)
Lemma system_ok_server s w' :
  system_ok s → ws_conns w' = ws_conns (sy_server s) → ws_heap w' = ws_heap (sy_server s) →
  ws_closed w' = ws_closed (sy_server s) → ws_queued w' = ws_queued (sy_server s) →
  ch_cap (ws_receiveCh w') = ch_cap (ws_receiveCh (sy_server s)) →
  ch_closed (ws_receiveCh w') = ch_closed (ws_receiveCh (sy_server s)) →
  ch_closed (ws_sendCh w') = ch_closed (ws_sendCh (sy_server s)) →
  (∃ l, ch_buf (ws_receiveCh (sy_server s)) = l ++ ch_buf (ws_receiveCh w')) →
  system_ok {| sy_server := w'; sy_handlers := sy_handlers s; sy_closers := sy_closers s |}.
Proof.
  intros Hs Hn Hh Hc Hq Hcap Hr Hse [l Hl]. split; cbn; rewrite ?Hn, ?Hh, ?Hcap, ?Hq; try apply Hs.
  - pose proof (so_closing s Hs) as H. unfold closing_ok in *. cbn. rewrite Hc.
    assert (∀ a b, chans_closed s a b →
      chans_closed {| sy_server := w'; sy_handlers := sy_handlers s; sy_closers := sy_closers s |} a b) as Hch.
    { intros a b [<- <-]. by split. }
    destruct (ws_closed (sy_server s)); [|by destruct H; auto].
    destruct H as (k & c & Hk & Hok & Ho). exists k, c. split; [done|]. split; [|done].
    destruct c; cbn in *; unfold covered in *; cbn; rewrite ?Hh; naive_solver.
  - destruct (so_fifo s Hs) as [t ->]. exists (t ++ l). by rewrite Hl, app_assoc.
Qed.

Lemma system_ok_send s m :
  system_ok s →
  wp (Send m) (λ _ w, system_ok {| sy_server := w; sy_handlers := sy_handlers s; sy_closers := sy_closers s |})
     (sy_server s).
Proof.
  intros Hs. unfold Send. apply wp_bind, wp_gets.
  assert (ws_closed (sy_server s) = false → ch_closed (ws_sendCh (sy_server s)) = false) as Hopen.
  { intros E. pose proof (so_closing s Hs) as H. unfold closing_ok in H. rewrite E in H. apply H. }
  destruct (ws_closed (sy_server s)); [apply wp_ret; by destruct s|]. unfold try_send.
  rewrite (Hopen eq_refl). case_bool_decide; [|apply wp_ret; by destruct s].
  apply wp_bind, wp_modify, wp_ret. apply system_ok_server; cbn; try done; [by rewrite Hopen|]. by exists [].
Qed.

Lemma system_ok_writer `{MapOrder} s tick :
  system_ok s →
  wp (connWriter_step tick)
     (λ _ w, system_ok {| sy_server := w; sy_handlers := sy_handlers s; sy_closers := sy_closers s |})
     (sy_server s).
Proof.
  intros Hs. unfold connWriter_step. destruct tick.
  - apply wp_bind, wp_gets, wp_modify. apply system_ok_server; try done. by exists [].
  - apply wp_bind, wp_gets. unfold recv. destruct (ch_buf (ws_sendCh (sy_server s))) as [|m buf] eqn:E;
      [apply wp_ret; by destruct s|].
    apply wp_bind, wp_modify. unfold write_msg. apply wp_bind, wp_gets.
    assert (∀ l, system_ok {| sy_server := add_written l (set_send (Chan (ch_cap (ws_sendCh (sy_server s))) buf
        (ch_closed (ws_sendCh (sy_server s)))) (sy_server s));
        sy_handlers := sy_handlers s; sy_closers := sy_closers s |}) as Hw.
    { intros l. apply system_ok_server; try done. by exists []. }
    assert (∀ w : ws_server, add_written [] w = w) as Hnil.
    { intros []. unfold add_written. cbn. by rewrite app_nil_r. }
    pose proof (Hw []) as Hw0. rewrite Hnil in Hw0.
    case_bool_decide; [|by apply wp_ret]. case_match; [|by apply wp_ret].
    case_match; [|by apply wp_ret]. apply wp_modify, Hw.
Qed.

Lemma system_ok_receive s ch m :
  system_ok s → recv (ws_receiveCh (sy_server s)) = inl (m, ch) →
  system_ok {| sy_server := set_receive ch (sy_server s); sy_handlers := sy_handlers s; sy_closers := sy_closers s |}.
Proof.
  intros Hs. unfold recv. destruct (ch_buf _) as [|m' buf] eqn:E; [done|]. intros [= -> <-].
  apply system_ok_server; try done. exists [m]. by rewrite E.
Qed.

(** ** Closing *)

Lemma handler_ok_close h id st o m : handler_ok h id st o m → handler_ok h id st (close_ws <$> o) m.
Proof.
  assert (∀ done, (∃ c, o = Some c ∧ cn_id c = id ∧ cn_closeCh c = done) →
    ∃ c, close_ws <$> o = Some c ∧ cn_id c = id ∧ cn_closeCh c = done) as Hm.
  { intros d (c & -> & <- & <-). by exists (close_ws c). }
  unfold handler_ok. intros [? H]. split; [done|].
  destruct st; naive_solver.
Qed.

(** The main closer moves from [st] to [st']. *)
Lemma closing_ok_main s k st st' w' :
  system_ok s → ws_closed (sy_server s) = true → sy_closers s !! k = Some st → closer_ok s st →
  ws_closed w' = true →
  closer_ok {| sy_server := w'; sy_handlers := sy_handlers s; sy_closers := <[k := st']> (sy_closers s) |} st' →
  closing_ok {| sy_server := w'; sy_handlers := sy_handlers s; sy_closers := <[k := st']> (sy_closers s) |}.
Proof.
  intros Hs Hcl Hk Hst Hcl' Hst'. unfold closing_ok. cbn. rewrite Hcl'. exists k, st'.
  rewrite lookup_insert, decide_True by done. split; [done|]. split; [done|].
  intros k' c Hc Hne. rewrite lookup_insert_ne in Hc by done.
  pose proof (so_closing s Hs) as H. unfold closing_ok in H. rewrite Hcl in H.
  destruct H as (k0 & c0 & Hk0 & Hc0 & Ho). destruct (decide (k = k0)) as [->|Hkk]; [by eapply Ho|].
  by destruct (Ho k st Hk Hkk) as [-> | ->].
Qed.

(** What a closer's step changes: nothing but the connections it closes, the
    flag and the channels. *)
Lemma system_ok_closer s k st' w' :
  system_ok s → ws_conns w' = ws_conns (sy_server s) →
  (∀ h, ws_heap w' !! h = ws_heap (sy_server s) !! h ∨ ws_heap w' !! h = close_ws <$> ws_heap (sy_server s) !! h) →
  ws_queued w' = ws_queued (sy_server s) → ch_cap (ws_receiveCh w') = ch_cap (ws_receiveCh (sy_server s)) →
  ch_buf (ws_receiveCh w') = ch_buf (ws_receiveCh (sy_server s)) →
  closing_ok {| sy_server := w'; sy_handlers := sy_handlers s; sy_closers := <[k := st']> (sy_closers s) |} →
  system_ok {| sy_server := w'; sy_handlers := sy_handlers s; sy_closers := <[k := st']> (sy_closers s) |}.
Proof.
  intros Hs Hn Hh Hq Hcap Hb Hc. split; cbn; rewrite ?Hn, ?Hq, ?Hcap, ?Hb; try apply Hs; [|intros h; destruct (Hh h) as [-> | ->]; rewrite ?fmap_is_Some; apply Hs|done].
  intros h id st E. pose proof (so_handlers s Hs h id st E) as H.
  destruct (Hh h) as [-> | ->]; [done|by apply handler_ok_close].
Qed.

(** The calls of [Close] that find the server open or closed. *)
Lemma close_started s k :
  system_ok s → sy_closers s !! k = Some CStart → ws_closed (sy_server s) = false →
  system_ok {| sy_server := set_closed (sy_server s); sy_handlers := sy_handlers s;
               sy_closers := <[k := CConns]> (sy_closers s) |}.
Proof.
  intros Hs Hk Hcl. pose proof (so_closing s Hs) as Hc. unfold closing_ok in Hc. rewrite Hcl in Hc.
  destruct Hc as [Hc Ho]. apply system_ok_closer; auto. unfold closing_ok. cbn.
  exists k, CConns. rewrite lookup_insert, decide_True by done. split; [done|]. split; [done|].
  intros k' c' E Hne. rewrite lookup_insert_ne in E by done. left. by eapply Ho.
Qed.

Lemma close_returned s k :
  system_ok s → sy_closers s !! k = Some CStart → ws_closed (sy_server s) = true →
  system_ok {| sy_server := sy_server s; sy_handlers := sy_handlers s;
               sy_closers := <[k := CReturned]> (sy_closers s) |}.
Proof.
  intros Hs Hk Hcl. pose proof (so_closing s Hs) as Hc. unfold closing_ok in Hc. rewrite Hcl in Hc.
  destruct Hc as (k0 & c0 & Hk0 & Hc0 & Ho). apply system_ok_closer; auto. unfold closing_ok. cbn.
  rewrite Hcl. exists k0, c0. destruct (decide (k0 = k)) as [->|Hkk]; [rewrite Hk in Hk0; by simplify_eq|].
  rewrite lookup_insert_ne by done. split; [done|]. split; [by destruct c0|].
  intros k' c'. destruct (decide (k' = k)) as [->|]; [|rewrite lookup_insert_ne by done; apply Ho].
  rewrite lookup_insert, decide_True by done. intros [= <-]. auto.
Qed.

(** The connections [Close] collects are those of every handler that may
    still send. *)
Lemma conns_covered `{MapOrder} s cs :
  system_ok s →
  covered {| sy_server := sy_server s; sy_handlers := sy_handlers s; sy_closers := cs |}
          (snd <$> range_kv (ws_conns (sy_server s))).
Proof.
  intros Hs. split; cbn.
  - intros h id st Hh Hst. destruct (sends_conns s h id st Hs Hh Hst) as [Hin _].
    apply list_elem_of_fmap. exists (id, h). split; [done|]. by apply elem_of_range_kv.
  - intros h ([id h'] & -> & Hin%elem_of_range_kv)%list_elem_of_fmap. cbn.
    destruct (so_conns s Hs id h' Hin) as [st Hst]. pose proof (so_handlers s Hs h' id st Hst) as Hok.
    rewrite Hin in Hok. by apply handler_ok_heap in Hok as [|[_ ?]].
Qed.

(** The one it has waited for does not send any more. *)
Lemma waited_covered s cs c x l :
  system_ok s → covered s (c :: l) → ws_heap (sy_server s) !! c = Some x → cn_closeCh x = true →
  covered {| sy_server := sy_server s; sy_handlers := sy_handlers s; sy_closers := cs |} l.
Proof.
  intros Hs [Hc1 Hc2] Hx Hd. split; cbn; [|intros h Hh; apply Hc2; by right].
  intros h id st Hh Hst. pose proof (Hc1 h id st Hh Hst) as [->|]%elem_of_cons; [|done].
  destruct (sends_conns s c id st Hs Hh Hst) as (_ & x' & Hx' & Hd'). congruence.
Qed.

Lemma system_ok_closer_step `{MapOrder} s k st :
  system_ok s → sy_closers s !! k = Some st →
  wp (closer_step st)
     (λ st' w, system_ok {| sy_server := w; sy_handlers := sy_handlers s; sy_closers := <[k := st']> (sy_closers s) |})
     (sy_server s).
Proof.
  intros Hs Hk.
  assert (st = CStart ∨ st = CReturned ∨ (ws_closed (sy_server s) = true ∧ closer_ok s st)) as Hcase.
  { pose proof (so_closing s Hs) as Hc. unfold closing_ok in Hc.
    destruct (ws_closed (sy_server s)); [|left; by eapply Hc].
    destruct Hc as (k0 & c0 & Hk0 & Hc0 & Ho). destruct (decide (k = k0)) as [->|Hkk]; [|destruct (Ho k st Hk Hkk); auto].
    rewrite Hk in Hk0. simplify_eq. auto. }
  destruct st as [| | |[|c l]|c l| |]; cbn [closer_step];
    [|apply wp_ret; rewrite insert_id by done; by destruct s| | | | | |
      apply wp_ret; rewrite insert_id by done; by destruct s];
    [|destruct Hcase as [|[|[Hcl Hc]]]; [done|done|]; cbn in Hc..].
  - apply wp_bind, wp_gets. destruct (ws_closed (sy_server s)) eqn:Hcl.
    + apply wp_ret. by apply close_returned.
    + apply wp_bind, wp_modify, wp_ret. by apply close_started.
  - apply wp_bind, wp_gets, wp_ret. apply system_ok_closer; auto. eapply closing_ok_main; eauto.
    split; [done|]. by apply conns_covered.
  - destruct Hc as [[Hr Hse] Hc]. unfold close_chan, wp. cbn. rewrite Hr. cbn.
    apply system_ok_closer; auto. eapply closing_ok_main; eauto; cbn; done.
  - apply wp_bind, wp_modify, wp_ret. apply system_ok_closer; auto; [|].
    + intros h. cbn. destruct (decide (h = c)) as [->|]; [rewrite lookup_alter_eq|rewrite lookup_alter_ne by done]; auto.
    + eapply closing_ok_main; eauto; cbn. destruct Hc as [? [Hc1 Hc2]]. split; [done|]. split; [done|].
      cbn. intros h Hh%Hc2. destruct (decide (h = c)) as [->|];
        [rewrite lookup_alter_eq|by rewrite lookup_alter_ne]. by apply fmap_is_Some.
  - destruct Hc as [Hch Hcov]. destruct (proj2 Hcov c) as [x Hx]; [by left|].
    apply wp_bind. unfold get_conn_at, wp at 1. rewrite Hx. cbn.
    destruct (cn_closeCh x) eqn:Hd; cbn; [|rewrite insert_id by done; by destruct s].
    apply system_ok_closer; auto. eapply closing_ok_main; eauto; (split; [done|]); [done|by eapply waited_covered].
  - destruct Hc as [[Hr Hse] Hc]. unfold close_chan, wp. cbn. rewrite Hse. cbn.
    apply system_ok_closer; auto. eapply closing_ok_main; eauto; cbn; done.
Qed.

(** ** Every step *)

Definition event_upgrades (ev : ws_event) : bool :=
  match ev with EvHandler _ a => upgrades a | _ => true end.

Lemma ws_step_ok `{MapOrder} ev s :
  system_ok s → event_upgrades ev = true → ∃ s', ws_step ev s = Some s' ∧ system_ok s'.
Proof.
  intros Hs Hup. destruct ev as [h a|k|m| |tick]; cbn in *.
  - destruct (sy_handlers s !! h) as [[id st]|] eqn:Hh; [|by eauto].
    destruct (proj1 (wp_inv _ _ _) (handler_step_ok h id a st _ Hup (so_handlers s Hs _ _ _ Hh)
      (sends_open s h id st Hs Hh))) as (st' & w' & -> & Hok & Hfr & Hse). cbn.
    eexists. split; [done|]. by eapply system_ok_handler.
  - destruct (sy_closers s !! k) as [st|] eqn:Hk; [|by eauto].
    destruct (proj1 (wp_inv _ _ _) (system_ok_closer_step s k st Hs Hk)) as (st' & w' & -> & Hok). cbn. eauto.
  - destruct (proj1 (wp_inv _ _ _) (system_ok_send s m Hs)) as (? & w' & -> & Hok). cbn. eauto.
  - destruct (recv _) as [[m ch]|] eqn:E; [|by eauto]. eexists. split; [done|]. by eapply system_ok_receive.
  - destruct (proj1 (wp_inv _ _ _) (system_ok_writer s tick Hs)) as (? & w' & -> & Hok). cbn. eauto.
Qed.

Lemma ws_run_ok `{MapOrder} evs s :
  system_ok s → forallb event_upgrades evs = true → ∃ s', ws_run evs s = Some s' ∧ system_ok s'.
Proof.
  revert s. induction evs as [|ev evs IH]; intros s Hs Hup; cbn in *; [eauto|].
  apply andb_true_iff in Hup as [H1 H2]. destruct (ws_step_ok ev s Hs H1) as (s1 & -> & Hs1). cbn. by apply IH.
Qed.

Lemma initial_handler ids n h id st :
  sy_handlers (initial ids n) !! h = Some (id, st) → ids !! h = Some id ∧ st = HStart.
Proof.
  cbn. intros E%elem_of_list_to_map_2. apply elem_of_lookup_imap in E as (i & x & [= -> -> ->] & Hx). done.
Qed.

Lemma initial_ok ids n : NoDup ids → system_ok (initial ids n).
Proof.
  intros Hnd. split.
  - intros h h' id st st' [H1 _]%initial_handler [H2 _]%initial_handler. by eapply NoDup_lookup.
  - intros h id st [_ ->]%initial_handler. cbn. rewrite !lookup_empty. split; auto.
  - intros id h. cbn. by rewrite lookup_empty.
  - intros h. cbn. rewrite lookup_empty. by intros [].
  - split; [done|]. intros k st E%elem_of_list_to_map_2. cbn in E.
    by apply list_elem_of_fmap in E as (? & [= -> ->] & _).
  - done.
  - by exists [].
Qed.

(** ** What one connection puts on [receiveCh] *)

Definition data_message (id client : string) (m : ws_Message) : Prop :=
  wm_ConnID m = id ∧ wm_ClientID m = client ∧ (wm_Type m = TextMessage ∨ wm_Type m = BinaryMessage).

(** Opened by the open message and followed by the peer's data. *)
Definition opened (id client : string) (l : list ws_Message) : Prop :=
  ∃ d, l = newOpenMessage id client :: d ∧ Forall (data_message id client) d.

Definition opened_closed (id : string) (l : list ws_Message) : Prop :=
  ∃ client d, l = d ++ [newCloseMessage id client] ∧ opened id client d.

Definition trace_ok (id : string) (st : handler) (l : list ws_Message) : Prop :=
  match st with
  | HStart | HUpgrade _ | HRefused _ | HAdd _ | HCheck _ | HOpen _ => l = []
  | HDeadline client | HRead client | HLeave client => opened id client l
  | HForward client m => opened id client l ∧ data_message id client m
  | HRemove => opened_closed id l
  | HCloseCh | HWsClose => l = [] ∨ opened_closed id l
  | HDone => l = [] ∨ (∃ client, l = [newCloseMessage id client]) ∨ opened_closed id l
  end.

Definition for_conn_server (id : string) (w : ws_server) : list ws_Message := for_conn id (ws_queued w).

Lemma for_conn_snoc id l m : wm_ConnID m = id → for_conn id (l ++ [m]) = for_conn id l ++ [m].
Proof. intros H. unfold for_conn. by rewrite filter_app, filter_cons_True. Qed.

Lemma for_conn_other id l m : wm_ConnID m ≠ id → for_conn id (l ++ [m]) = for_conn id l.
Proof. intros H. unfold for_conn. by rewrite filter_app, filter_cons_False, app_nil_r. Qed.

(** A send is queued, or it waits. *)
Lemma send_receive_inv m wait next w st' w' :
  send_receive m wait next w = Some (st', w') →
  st' = wait ∧ w' = w ∨ st' = next ∧ ws_queued w' = ws_queued w ++ [m].
Proof.
  unfold send_receive, gets, mbind, go_bind.
  destruct (try_send m (ws_receiveCh w)); cbn; intros [= <- <-]; auto.
Qed.

(** Outside of its sends a handler queues nothing. *)
Lemma handler_step_queued h id a st w st' w' :
  handler_step h id a st w = Some (st', w') →
  match st with HRefused _ | HOpen _ | HForward _ _ | HLeave _ => True | _ => ws_queued w' = ws_queued w end.
Proof.
  destruct st; try done; cbn; unfold addConn, removeConn, close_conn_ch, get_conn_at, conn_close, isClosed,
    gets, modify, panic, mbind, mret, go_bind, go_ret; cbn;
    destruct (ws_heap w !! h); cbn; intros H; repeat (case_match || simplify_option_eq); done.
Qed.

Lemma handler_step_trace h id a st w st' w' :
  handler_step h id a st w = Some (st', w') → trace_ok id st (for_conn_server id w) →
  trace_ok id st' (for_conn_server id w')
  ∧ (ws_queued w' = ws_queued w ∨ ∃ m, ws_queued w' = ws_queued w ++ [m] ∧ wm_ConnID m = id).
Proof.
  intros Hstep Ht. unfold for_conn_server in *. pose proof (handler_step_queued _ _ _ _ _ _ _ Hstep) as Hq.
  destruct st as [|cl|cl|cl|cl|cl|cl|cl|cl m|cl| | | |]; cbn [handler_step trace_ok] in *.
  all: try (destruct (send_receive_inv _ _ _ _ _ _ Hstep) as [[-> ->]|[-> Hq']];
            [by split; [done|left]|]; rewrite Hq', for_conn_snoc by (done || apply Ht)).
  all: try rewrite Hq.
  - injection Hstep as <- <-. split; [|by left]. destruct (an_auth a) as [[]|]; cbn; auto.
  - destruct (an_upgrade a); cbn in Hstep; injection Hstep as <- <-; split; cbn; auto.
  - rewrite Ht. split; [right; left; by eexists|]. right. by eexists.
  - unfold mbind, go_bind in Hstep. case_match; [|done]. case_match. injection Hstep as <- <-. by split; [|left].
  - injection Hstep as <- <-. split; [destruct (ws_closed w); cbn; auto|by left].
  - rewrite Ht. split; [|right; by eexists]. by exists [].
  - injection Hstep as <- <-. split; [|by left]. by destruct (an_deadline a).
  - injection Hstep as <- <-. split; [|by left].
    destruct (an_read a) as [[[] ?]|]; cbn; try done; split; try done; repeat split; auto.
  - destruct Ht as [(d & -> & Hd) Hm]. split; [|right; eexists; split; [done|apply Hm]].
    exists (d ++ [m]). split; [done|]. apply Forall_app. by split; [|constructor].
  - split; [|right; by eexists]. by exists cl, (for_conn id (ws_queued w)).
  - unfold mbind, go_bind in Hstep. case_match; [|done]. case_match. injection Hstep as <- <-. by split; [right|left].
  - unfold mbind, go_bind in Hstep. case_match; [|done]. case_match. injection Hstep as <- <-. by split; [|left].
  - injection Hstep as <- <-. split; [|by left]. cbn. tauto.
  - injection Hstep as <- <-. by split; [|left].
Qed.

Record traces_ok (s : system) : Prop := {
  tk_ids : ∀ h h' id st st', sy_handlers s !! h = Some (id, st) → sy_handlers s !! h' = Some (id, st') → h = h';
  tk_traces : ∀ h id st, sy_handlers s !! h = Some (id, st) → trace_ok id st (for_conn_server id (sy_server s));
}.

Lemma traces_ok_queued s w' cs :
  traces_ok s → ws_queued w' = ws_queued (sy_server s) →
  traces_ok {| sy_server := w'; sy_handlers := sy_handlers s; sy_closers := cs |}.
Proof. intros [H1 H2] Hq. split; [done|]. unfold for_conn_server in *. cbn. by rewrite Hq. Qed.

Lemma closer_step_queued `{MapOrder} st w st' w' :
  closer_step st w = Some (st', w') → ws_queued w' = ws_queued w.
Proof.
  destruct st as [| | |[|c l]|c l| |]; cbn; unfold isClosed, getConns, conn_close, get_conn_at, gets, modify, close_chan,
    mbind, mret, go_bind, go_ret; cbn; try (destruct (ws_heap w !! c); cbn);
    intros; repeat (case_match || simplify_option_eq); done.
Qed.

Lemma Send_queued m w r w' : Send m w = Some (r, w') → ws_queued w' = ws_queued w.
Proof.
  unfold Send, gets, modify, mbind, mret, go_bind, go_ret. cbn. repeat case_match; intros; by simplify_eq.
Qed.

Lemma connWriter_queued `{MapOrder} tick w r w' : connWriter_step tick w = Some (r, w') → ws_queued w' = ws_queued w.
Proof.
  unfold connWriter_step, ping_all, write_msg, getConns, getConn, gets, modify, mbind, mret, go_bind, go_ret. cbn.
  repeat case_match; intros; by simplify_eq.
Qed.

Lemma ws_step_traces `{MapOrder} ev s s' : ws_step ev s = Some s' → traces_ok s → traces_ok s'.
Proof.
  intros Hstep Hs. destruct ev as [h a|k|m| |tick]; cbn in Hstep.
  - destruct (sy_handlers s !! h) as [[id st]|] eqn:Hh; [|by simplify_eq].
    destruct (handler_step h id a st (sy_server s)) as [[st' w']|] eqn:E; [|done]. injection Hstep as <-.
    destruct (handler_step_trace _ _ _ _ _ _ _ E (tk_traces s Hs h id st Hh)) as [Ht Hq].
    split; cbn.
    + intros h1 h2 id1 st1 st2 H1 H2. destruct Hs as [Hids _].
      destruct (decide (h1 = h)) as [->|?], (decide (h2 = h)) as [->|?]; simplify_map_eq; eauto.
    + intros h1 id1 st1. destruct (decide (h1 = h)) as [->|Hne].
      { rewrite lookup_insert, decide_True by done. by intros [= <- <-]. }
      rewrite lookup_insert_ne by done. intros H1. pose proof (tk_traces s Hs h1 id1 st1 H1) as Ht1.
      unfold for_conn_server in *. destruct Hq as [-> |(m & -> & Hm)]; [done|].
      rewrite for_conn_other; [done|]. intros E1. apply Hne. rewrite <- E1, Hm in H1.
      by eapply (tk_ids s Hs).
  - destruct (sy_closers s !! k) as [st|]; [|by simplify_eq].
    destruct (closer_step st (sy_server s)) as [[st' w']|] eqn:E; [|done]. injection Hstep as <-.
    by eapply traces_ok_queued, closer_step_queued.
  - destruct (Send m (sy_server s)) as [[r w']|] eqn:E; [|done]. injection Hstep as <-.
    apply traces_ok_queued; [done|]. by eapply Send_queued.
  - destruct (recv _) as [[m ch]|]; injection Hstep as <-; [by apply traces_ok_queued|done].
  - destruct (connWriter_step tick (sy_server s)) as [[r w']|] eqn:E; [|done]. injection Hstep as <-.
    apply traces_ok_queued; [done|]. by eapply connWriter_queued.
Qed.

Lemma ws_run_traces `{MapOrder} evs s s' : ws_run evs s = Some s' → traces_ok s → traces_ok s'.
Proof.
  revert s. induction evs as [|ev evs IH]; intros s; cbn; [by intros [= ->]|].
  destruct (ws_step ev s) as [s1|] eqn:E; [|done]. cbn. intros Hrun Hs.
  by eapply IH, ws_step_traces.
Qed.

(** ** Close can always complete *)

(** What is left for a handler to do once reads fail. *)
Definition rank (st : handler) : nat :=
  match st with
  | HStart => 11 | HUpgrade _ => 10 | HAdd _ => 9 | HCheck _ => 8 | HOpen _ => 7 | HDeadline _ | HForward _ _ => 6
  | HRead _ => 5 | HLeave _ => 4 | HRemove => 3 | HCloseCh => 2 | HWsClose | HRefused _ => 1 | HDone => 0
  end.

Definition reads_fail : answers :=
  {| an_auth := None; an_upgrade := Ok tt; an_deadline := Ok tt; an_read := Err (EText "closed") |}.

Lemma send_receive_room m wait next w st' w' :
  send_receive m wait next w = Some (st', w') →
  ch_closed (ws_receiveCh w) = false → length (ch_buf (ws_receiveCh w)) < ch_cap (ws_receiveCh w) → st' = next.
Proof.
  intros H Ho Hl. unfold send_receive, gets, mbind, go_bind in H. rewrite (try_send_open m _ Ho Hl) in H.
  by injection H as <- <-.
Qed.

Lemma handler_step_rank h id st w st' w' :
  handler_step h id reads_fail st w = Some (st', w') →
  (sends st = true → ch_closed (ws_receiveCh w) = false) →
  length (ch_buf (ws_receiveCh w)) < ch_cap (ws_receiveCh w) → 1 < rank st → rank st' < rank st.
Proof.
  intros H Ho Hl Hr. destruct st; cbn in *; try lia;
    try (apply send_receive_room in H; [subst; cbn; lia|by apply Ho|done]);
    unfold modify, mbind, mret, go_bind, go_ret in H; repeat case_match; simplify_eq; cbn; lia.
Qed.

(** The consumer empties [receiveCh]. *)
Lemma drain_receive `{MapOrder} s :
  system_ok s → ∃ s', ws_run (replicate (length (ch_buf (ws_receiveCh (sy_server s)))) EvReceive) s = Some s'
    ∧ system_ok s' ∧ ch_buf (ws_receiveCh (sy_server s')) = [] ∧ sy_handlers s' = sy_handlers s
    ∧ sy_closers s' = sy_closers s ∧ ws_heap (sy_server s') = ws_heap (sy_server s).
Proof.
  remember (ch_buf (ws_receiveCh (sy_server s))) as buf eqn:E. revert s E.
  induction buf as [|m buf IH]; intros s E Hs; cbn; [by exists s|].
  unfold recv. rewrite <- E. cbn.
  destruct (IH {| sy_server := set_receive (Chan (ch_cap (ws_receiveCh (sy_server s))) buf
    (ch_closed (ws_receiveCh (sy_server s)))) (sy_server s); sy_handlers := sy_handlers s;
    sy_closers := sy_closers s |}) as (s' & H1 & H2 & H3 & H4 & H5 & H6); [done| |by exists s'].
  eapply system_ok_receive; [done|]. unfold recv. by rewrite <- E.
Qed.

Lemma ws_run_app `{MapOrder} evs evs' s : ws_run (evs ++ evs') s = s' ← ws_run evs s; ws_run evs' s'.
Proof. revert s. induction evs as [|ev evs IH]; intros s; cbn; [done|]. destruct (ws_step ev s); cbn; auto. Qed.

Lemma receives_upgrade n : forallb event_upgrades (replicate n EvReceive) = true.
Proof. by induction n. Qed.

(** A handler that nobody feeds any more runs to its end. *)
Lemma drain_handler `{MapOrder} n s h id st :
  system_ok s → sy_handlers s !! h = Some (id, st) → is_Some (ws_heap (sy_server s) !! h) → rank st ≤ n →
  ∃ evs s' x, forallb event_upgrades evs = true ∧ ws_run evs s = Some s' ∧ system_ok s'
    ∧ sy_closers s' = sy_closers s ∧ ws_heap (sy_server s') !! h = Some x ∧ cn_closeCh x = true.
Proof.
  revert s st. induction n as [n IH] using lt_wf_ind. intros s st Hs Hh Hx Hn.
  destruct (decide (1 < rank st)) as [Hr|Hr].
  - destruct (drain_receive s Hs) as (s1 & Hrun1 & Hs1 & Hb & Hhs & Hcs & Hheap).
    rewrite <- Hhs in Hh. rewrite <- Hheap in Hx.
    destruct (proj1 (wp_inv _ _ _) (handler_step_ok h id reads_fail st _ eq_refl (so_handlers s1 Hs1 _ _ _ Hh)
      (sends_open s1 h id st Hs1 Hh))) as (st' & w' & Hstep & Hok & Hfr & Hse).
    assert (rank st' < rank st) as Hlt.
    { eapply handler_step_rank; [done|by eapply sends_open| |done]. rewrite Hb, (so_cap s1 Hs1). vm_compute. lia. }
    destruct (IH (rank st') ltac:(lia) {| sy_server := w'; sy_handlers := <[h := (id, st')]> (sy_handlers s1);
      sy_closers := sy_closers s1 |} st') as (evs & s' & x & Hup & Hrun & Hs' & Hcs' & Hheap' & Hd); auto.
    { by eapply system_ok_handler. } { cbn. by rewrite lookup_insert, decide_True. } { cbn. by apply Hfr. }
    exists (replicate (length (ch_buf (ws_receiveCh (sy_server s)))) EvReceive ++ EvHandler h reads_fail :: evs), s', x.
    rewrite forallb_app, receives_upgrade. cbn in Hcs'. rewrite Hcs', Hcs. split; [done|]. split; [|done].
    rewrite ws_run_app, Hrun1. cbn. by rewrite Hh, Hstep.
  - exists [], s. destruct Hx as [x Hx]. exists x. do 5 (split; [done|]).
    destruct (so_handlers s Hs h id st Hh) as [_ Hok]. rewrite Hx in Hok.
    destruct st; cbn in Hr; try lia; try done; [by destruct Hok as (? & [= <-] & ? & ?)|].
    by destruct Hok as [[? _]|(? & [= <-] & ? & ?)].
Qed.

Definition finishes `{MapOrder} (k : nat) (s : system) : Prop :=
  ∃ evs s', forallb event_upgrades evs = true ∧ ws_run evs s = Some s'
    ∧ (sy_closers s' !! k = Some CFinished ∨ sy_closers s' !! k = Some CReturned).

Lemma finishes_after `{MapOrder} k s evs s1 :
  forallb event_upgrades evs = true → ws_run evs s = Some s1 → finishes k s1 → finishes k s.
Proof.
  intros Hup Hrun (evs' & s' & Hup' & Hrun' & Hk). exists (evs ++ evs'), s'.
  split; [by rewrite forallb_app, Hup|]. by rewrite ws_run_app, Hrun.
Qed.

(** The caller of [Close] goes on. *)
Lemma finishes_step `{MapOrder} k s st :
  system_ok s → sy_closers s !! k = Some st →
  (∀ s1 st' w', closer_step st (sy_server s) = Some (st', w') → system_ok s1 → sy_server s1 = w' →
                sy_closers s1 !! k = Some st' → finishes k s1) →
  finishes k s.
Proof.
  intros Hs Hk Hnext.
  destruct (proj1 (wp_inv _ _ _) (system_ok_closer_step s k st Hs Hk)) as (st' & w' & Hstep & Hok).
  eapply (finishes_after k s [EvCloser k]); [done| |eapply Hnext; [done|exact Hok|done|]].
  - cbn. by rewrite Hk, Hstep.
  - cbn. by rewrite lookup_insert, decide_True.
Qed.

(** [k] is the call that does the closing. *)
Lemma closer_ok_at s k st : system_ok s → sy_closers s !! k = Some st → st ≠ CStart → st ≠ CReturned → closer_ok s st.
Proof.
  intros Hs Hk H1 H2. pose proof (so_closing s Hs) as H. unfold closing_ok in H.
  destruct (ws_closed (sy_server s)); [|destruct H as [_ H]; by destruct (H1 (H k st Hk))].
  destruct H as (k0 & c0 & Hk0 & Hc0 & Ho). destruct (decide (k = k0)) as [->|Hkk]; [|by destruct (Ho k st Hk Hkk)].
  by simplify_eq.
Qed.

Lemma closing_finishes `{MapOrder} l s k : system_ok s → sy_closers s !! k = Some (CClosing l) → finishes k s.
Proof.
  revert s. induction l as [|c l IH]; intros s Hs Hk.
  - eapply finishes_step; [done..|]. cbn. intros s1 st' w' Hstep Hs1 Hw Hk1.
    unfold close_chan in Hstep. case_match; [done|]. injection Hstep as <- <-.
    eapply finishes_step; [done..|]. cbn. intros s2 st' w'. unfold close_chan. case_match; [done|].
    intros [= <- <-] _ _ Hk2. exists [], s2. cbn. auto.
  - eapply finishes_step; [done..|]. cbn. intros s1 st' w' [= <- <-] Hs1 _ Hk1.
    destruct (closer_ok_at s1 k _ Hs1 Hk1 ltac:(done) ltac:(done)) as [_ [_ Hheap]].
    specialize (Hheap c ltac:(by left)). destruct (so_heap s1 Hs1 c Hheap) as [[id st] Hh].
    destruct (drain_handler (rank st) s1 c id st) as (evs & s2 & x & Hup & Hrun & Hs2 & Hcs & Hx & Hd); [done..|].
    eapply finishes_after; [done..|]. rewrite <- Hcs in Hk1.
    eapply finishes_step; [done..|]. cbn. unfold get_conn_at. intros s3 st' w'. cbn. unfold mbind, go_bind.
    cbn. rewrite Hx. cbn. rewrite Hd. intros [= <- <-] Hs3 _ Hk3. by apply IH.
Qed.

Lemma close_finishes `{MapOrder} s k st : system_ok s → sy_closers s !! k = Some st → finishes k s.
Proof.
  intros Hs Hk.
  assert (∀ s1, system_ok s1 → sy_closers s1 !! k = Some CConns → finishes k s1) as Hconns.
  { intros s1 Hs1 Hk1. eapply finishes_step; [done..|]. cbn. unfold getConns, gets, mbind, go_bind, mret, go_ret.
    intros s2 st' w' [= <- <-] Hs2 _ Hk2. by eapply closing_finishes. }
  destruct st as [| | |l|c l| |]; try solve [by apply Hconns | by eapply closing_finishes].
  - eapply finishes_step; [done..|]. cbn. unfold isClosed, gets, modify, mbind, go_bind, mret, go_ret.
    intros s2 st' w'. destruct (ws_closed _); intros [= <- <-] Hs2 _ Hk2; [|by apply Hconns].
    exists [], s2. cbn. auto.
  - exists [], s. cbn. auto.
  - destruct (closer_ok_at s k _ Hs Hk ltac:(done) ltac:(done)) as [_ [_ Hheap]].
    specialize (Hheap c ltac:(by left)). destruct (so_heap s Hs c Hheap) as [[id st] Hh].
    destruct (drain_handler (rank st) s c id st) as (evs & s2 & x & Hup & Hrun & Hs2 & Hcs & Hx & Hd); [done..|].
    eapply finishes_after; [done..|]. rewrite <- Hcs in Hk.
    eapply finishes_step; [done..|]. cbn. unfold get_conn_at, mbind, go_bind. intros s3 st' w'. cbn.
    rewrite Hx. cbn. rewrite Hd. intros [= <- <-] Hs3 _ Hk3. by eapply closing_finishes.
  - eapply finishes_step; [done..|]. cbn. intros s2 st' w'. unfold close_chan. case_match; [done|].
    intros [= <- <-] _ _ Hk2. exists [], s2. cbn. auto.
  - exists [], s. cbn. auto.
Qed.

(** ** Properties *)

(** A run of one request: opened, one text message, reads that fail, and a
    [Close] in the middle. *)
Definition reads_text (data : string) : answers :=
  {| an_auth := Some (Ok "client"); an_upgrade := Ok tt; an_deadline := Ok tt; an_read := Ok (OpText, data) |}.

Definition toy_run : list ws_event :=
  replicate 8 (EvHandler 0 (reads_text "hello")) ++
  [EvSend {| wm_ClientID := "client"; wm_ConnID := "a"; wm_Type := TextMessage; wm_Data := "hi" |};
   EvWriter false; EvReceive; EvCloser 0; EvCloser 0; EvCloser 0].

Lemma toy_ids : NoDup ["a"; "b"].
Proof. apply (bool_decide_unpack _). by vm_compute. Qed.

(** C14: whatever the interleaving of requests, of [Close] calls, of senders,
    of the writer and of the consumer, as long as the upgrades succeed, the
    WebSocket server never sends on nor closes a closed channel and never
    dereferences a missing connection; once [Close] has returned no handler
    will send any more, and the consumer has received the queued messages in
    order, each once, but for those still in the channel. *)
Theorem ws_no_panic `{MapOrder} ids n evs :
  NoDup ids → forallb event_upgrades evs = true →
  ∃ s, ws_run evs (initial ids n) = Some s
    ∧ (∀ k, sy_closers s !! k = Some CFinished →
         ∀ h id st, sy_handlers s !! h = Some (id, st) → sends st = false)
    ∧ ∃ received, ws_queued (sy_server s) = received ++ ch_buf (ws_receiveCh (sy_server s)).
Proof.
  intros Hnd Hup. destruct (ws_run_ok evs (initial ids n) (initial_ok ids n Hnd) Hup) as (s & Hrun & Hs).
  exists s. split; [done|]. split; [|apply Hs]. intros k Hk h id st Hh.
  destruct (closer_ok_at s k _ Hs Hk ltac:(done) ltac:(done)) as [_ [Hc _]].
  destruct (sends st) eqn:E; [|done]. by apply (Hc h id st) in E; [apply not_elem_of_nil in E|].
Qed.

Lemma ws_no_panic_witness :
  ∃ s, @ws_run sorted_order toy_run (initial ["a"; "b"] 2) = Some s
    ∧ (∀ k, sy_closers s !! k = Some CFinished →
         ∀ h id st, sy_handlers s !! h = Some (id, st) → sends st = false)
    ∧ ∃ received, ws_queued (sy_server s) = received ++ ch_buf (ws_receiveCh (sy_server s)).
Proof. apply (@ws_no_panic sorted_order ["a"; "b"] 2 toy_run toy_ids). by vm_compute. Defined.

(** C10: what each connection puts on [receiveCh], in any run that does not
    panic: nothing, until the open message; then the peer's text and binary
    messages under the connection's and the client's identifiers; then, at the
    end, one close message, and nothing after it.  A handler that ends has
    queued nothing (not authenticated, or the server was closed), the whole
    sequence, or, when the upgrade was refused, a close message alone. *)
Theorem ws_lifecycle `{MapOrder} ids n evs s h id st :
  NoDup ids → ws_run evs (initial ids n) = Some s → sy_handlers s !! h = Some (id, st) →
  trace_ok id st (for_conn_server id (sy_server s)).
Proof.
  intros Hnd Hrun. apply (tk_traces s). eapply ws_run_traces; [done|]. split.
  - apply (so_ids _ (initial_ok ids n Hnd)).
  - intros h1 id1 st1 [_ ->]%initial_handler. done.
Qed.

Lemma ws_lifecycle_witness :
  ∃ s st, @ws_run sorted_order toy_run (initial ["a"; "b"] 2) = Some s ∧ sy_handlers s !! 0 = Some ("a", st)
    ∧ trace_ok "a" st (for_conn_server "a" (sy_server s)) ∧ length (for_conn_server "a" (sy_server s)) = 2.
Proof.
  assert (∃ s st, @ws_run sorted_order toy_run (initial ["a"; "b"] 2) = Some s
    ∧ sy_handlers s !! 0 = Some ("a", st) ∧ length (for_conn_server "a" (sy_server s)) = 2) as (s & st & H1 & H2 & H3).
  { vm_compute. do 2 eexists. split; [reflexivity|]. by split. }
  exists s, st. split; [exact H1|]. split; [exact H2|]. split; [|exact H3].
  exact (@ws_lifecycle sorted_order ["a"; "b"] 2 toy_run s 0 "a" st toy_ids H1 H2).
Defined.

(** [Close] never deadlocks: from every state the server can reach (with
    upgrades that succeed), every call of [Close] can be brought to its
    return, by letting the consumer drain [receiveCh] and the handlers see
    their reads fail. *)
Theorem close_completes `{MapOrder} ids n evs s k st :
  NoDup ids → forallb event_upgrades evs = true → ws_run evs (initial ids n) = Some s →
  sy_closers s !! k = Some st →
  ∃ evs' s', forallb event_upgrades evs' = true ∧ ws_run evs' s = Some s'
    ∧ (sy_closers s' !! k = Some CFinished ∨ sy_closers s' !! k = Some CReturned).
Proof.
  intros Hnd Hup Hrun Hk. destruct (ws_run_ok evs (initial ids n) (initial_ok ids n Hnd) Hup) as (s0 & H0 & Hs).
  rewrite Hrun in H0. injection H0 as <-. by eapply close_finishes.
Qed.

Lemma close_completes_witness :
  ∃ s evs' s', @ws_run sorted_order toy_run (initial ["a"; "b"] 2) = Some s
    ∧ sy_closers s !! 0 = Some (CWaiting 0 [])
    ∧ forallb event_upgrades evs' = true ∧ @ws_run sorted_order evs' s = Some s'
    ∧ (sy_closers s' !! 0 = Some CFinished ∨ sy_closers s' !! 0 = Some CReturned).
Proof.
  assert (∃ s, @ws_run sorted_order toy_run (initial ["a"; "b"] 2) = Some s
    ∧ sy_closers s !! 0 = Some (CWaiting 0 [])) as (s & H1 & H2).
  { vm_compute. eexists. by split. }
  destruct (@close_completes sorted_order ["a"; "b"] 2 toy_run s 0 _ toy_ids ltac:(by vm_compute) H1 H2)
    as (evs' & s' & H3).
  exists s, evs', s'. split; [exact H1|]. split; [exact H2|]. exact H3.
Defined.

(** The writer takes the messages of [sendCh] in order and writes each to
    the one connection it names: the connection of the handler that made that
    identifier, provided it is registered, with the opcode of its type; any
    other message (unknown connection, open message) is dropped, and nothing
    else changes. *)
Theorem ws_writes_routed `{MapOrder} ids n evs s m ch :
  NoDup ids → forallb event_upgrades evs = true → ws_run evs (initial ids n) = Some s →
  recv (ws_sendCh (sy_server s)) = inl (m, ch) → wm_ConnID m ≠ str0 →
  ∃ s', ws_step (EvWriter false) s = Some s' ∧ ws_sendCh (sy_server s') = ch
    ∧ ws_written (sy_server s') = ws_written (sy_server s) ++
        match ws_conns (sy_server s) !! wm_ConnID m, write_opcode (wm_Type m) with
        | Some c, Some op => [(c, op, wm_Data m)]
        | _, _ => []
        end
    ∧ ∀ c, ws_conns (sy_server s) !! wm_ConnID m = Some c → ∃ st, sy_handlers s !! c = Some (wm_ConnID m, st).
Proof.
  intros Hnd Hup Hrun Hm Hid. destruct (ws_run_ok evs (initial ids n) (initial_ok ids n Hnd) Hup) as (s0 & H0 & Hs).
  rewrite Hrun in H0. injection H0 as <-. cbn. unfold connWriter_step, write_msg, getConn, gets, modify, mbind, go_bind, mret, go_ret.
  rewrite Hm. cbn. rewrite bool_decide_true by done. pose proof (so_conns s Hs (wm_ConnID m)) as Hc.
  destruct (ws_conns (sy_server s) !! wm_ConnID m) as [c|]; cbn; [destruct (write_opcode _)|];
    eexists; (split; [done|]); cbn; rewrite ?app_nil_r; naive_solver.
Qed.

Lemma ws_writes_routed_witness :
  ∃ s s', @ws_run sorted_order (take 9 toy_run) (initial ["a"; "b"] 2) = Some s
    ∧ @ws_step sorted_order (EvWriter false) s = Some s' ∧ ws_written (sy_server s) = []
    ∧ ws_written (sy_server s') = [(0, OpText, "hi")].
Proof.
  assert (∃ s, @ws_run sorted_order (take 9 toy_run) (initial ["a"; "b"] 2) = Some s
    ∧ recv (ws_sendCh (sy_server s)) = inl ({| wm_ClientID := "client"; wm_ConnID := "a"; wm_Type := TextMessage; wm_Data := "hi" |},
                                            make_chan sendChSize)
    ∧ ws_written (sy_server s) = [] ∧ ws_conns (sy_server s) !! "a" = Some 0) as (s & H1 & H2 & H3 & H4).
  { vm_compute. eexists. by split_and!. }
  destruct (@ws_writes_routed sorted_order ["a"; "b"] 2 (take 9 toy_run) s _ _ toy_ids ltac:(by vm_compute) H1 H2
    ltac:(done)) as (s' & H5 & _ & H6 & _).
  exists s, s'. split; [exact H1|]. split; [exact H5|]. split; [exact H3|].
  cbn in H6; rewrite H6, H3, H4. reflexivity.
Defined.

(** The upgrade fails. *)
Definition refuses (e : error) : answers :=
  {| an_auth := None; an_upgrade := Err e; an_deadline := Ok tt; an_read := Err e |}.

(** A request whose upgrade is refused after [Close] has returned sends
    its close message on a closed channel: its handler panics, whatever the
    refusal; refused before, it queues a close message that no open message
    precedes. *)
Theorem refused_upgrade_after_close_panics e :
  @ws_run sorted_order [EvHandler 0 (refuses e); EvCloser 0; EvCloser 0; EvCloser 0; EvCloser 0;
    EvHandler 0 (refuses e); EvHandler 0 (refuses e)] (initial ["a"] 1) = None
  ∧ (λ s, ws_queued (sy_server s)) <$> @ws_run sorted_order (replicate 3 (EvHandler 0 (refuses e))) (initial ["a"] 1)
    = Some [newCloseMessage "a" str0].
Proof. by split; vm_compute. Qed.
