(* ===== verification/WsClient.v ===== *)
(** * WsClient: the WebSocket client (service/ws/client.go, config.go)

    [connReader], [connWriter], the end of [NewClient] and any number of
    [Send] and [Close] calls, scheduled in any order; a step is one operation
    on a channel, on the wait group, on the state or on the socket.  What the
    socket answers is part of the schedule.  The dialer, the ping handler and
    logging are left out. *)
From S2P Require Import Prelude WsServer.

(** ** Configuration *)
Definition BasicClientAuthType : Z := 1.
Definition BearerClientAuthType : Z := 2.

Record ClientConfig := { cf_URL : string; cf_ConnID : string; cf_AuthToken : string; cf_AuthType : Z }.

Definition ClientConfig_IsValid (c : ClientConfig) : result unit :=
  guard_err (bool_decide (cf_URL c = str0)) "invalid URL value: should not be empty" ;;
  guard_err (negb (String.prefix "ws://" (cf_URL c)) && negb (String.prefix "wss://" (cf_URL c)))
    "invalid URL value: should start with ws:// or wss://" ;;
  guard_err (bool_decide (cf_ConnID c ≠ str0) && bool_decide (String.length (cf_ConnID c) ≠ 26))
    "invalid ConnID value: should be 26 characters long" ;;
  guard_err (bool_decide (cf_AuthType c ≠ BasicClientAuthType) && bool_decide (cf_AuthType c ≠ BearerClientAuthType))
    "invalid AuthType value".

(** The header [NewClient] authenticates with, and the identifier it gives
    the connection; [fresh] is [random.NewID()]. *)
Definition auth_header (c : ClientConfig) : string :=
  if bool_decide (cf_AuthType c = BearerClientAuthType) then "Bearer " +:+ cf_AuthToken c
  else "Basic " +:+ cf_AuthToken c.
Definition client_conn_id (c : ClientConfig) (fresh : string) : string :=
  if bool_decide (cf_ConnID c = str0) then fresh else cf_ConnID c.

(** ** State *)
Inductive conn_state := WSConnClosed | WSConnOpen | WSConnClosing.
#[export] Instance conn_state_eq_dec : EqDecision conn_state.
Proof. solve_decision. Defined.

(** [wc_queued] is every message accepted by [Send], [wc_written] every one
    given to the socket. *)
Record ws_client := {
  wc_sendCh : chan ws_Message;
  wc_receiveCh : chan ws_Message;
  wc_errorCh : chan error;
  wc_flushCh : chan unit;
  wc_flushDone : bool;
  wc_closeCh : bool;
  wc_wg : Z;
  wc_state : conn_state;
  wc_queued : list ws_Message;
  wc_written : list ws_Message;
}.

Definition errorChSize : nat := 32.

(** [NewClient], once the socket is open. *)
Definition new_ws_client : ws_client := {|
  wc_sendCh := make_chan sendChSize; wc_receiveCh := make_chan ReceiveChSize; wc_errorCh := make_chan errorChSize;
  wc_flushCh := make_chan 1; wc_flushDone := false; wc_closeCh := false; wc_wg := 2;
  wc_state := WSConnClosed; wc_queued := []; wc_written := [] |}.

(** [NewClient]: the answers of the options and of the dialer, which is given
    the URL and the header; the connection's identifier and the client. *)
Definition ws_NewClient (cfg : ClientConfig) (options : list (result unit)) (dial : string → string → result unit)
    (fresh : string) : result (string * ws_client) :=
  _ ← wrap_err "failed to validate config" (ClientConfig_IsValid cfg);
  _ ← wrap_err "failed to apply option" (foldr (λ o r, _ ← o; r) (Ok tt) options);
  _ ← wrap_err "failed to dial" (dial (cf_URL cfg) (auth_header cfg));
  Ok (client_conn_id cfg fresh, new_ws_client).

Definition upd_client (sendCh receiveCh : chan ws_Message) (errorCh : chan error) (w : ws_client) : ws_client := {|
  wc_sendCh := sendCh; wc_receiveCh := receiveCh; wc_errorCh := errorCh; wc_flushCh := wc_flushCh w;
  wc_flushDone := wc_flushDone w; wc_closeCh := wc_closeCh w; wc_wg := wc_wg w; wc_state := wc_state w;
  wc_queued := wc_queued w; wc_written := wc_written w |}.
Definition put_sendCh ch w := upd_client ch (wc_receiveCh w) (wc_errorCh w) w.
Definition put_receiveCh ch w := upd_client (wc_sendCh w) ch (wc_errorCh w) w.
Definition put_errorCh ch w := upd_client (wc_sendCh w) (wc_receiveCh w) ch w.

Definition upd_control (flushCh : chan unit) (flushDone closeCh : bool) (wg : Z) (st : conn_state)
    (w : ws_client) : ws_client := {|
  wc_sendCh := wc_sendCh w; wc_receiveCh := wc_receiveCh w; wc_errorCh := wc_errorCh w; wc_flushCh := flushCh;
  wc_flushDone := flushDone; wc_closeCh := closeCh; wc_wg := wg; wc_state := st;
  wc_queued := wc_queued w; wc_written := wc_written w |}.
Definition put_flushCh ch w := upd_control ch (wc_flushDone w) (wc_closeCh w) (wc_wg w) (wc_state w) w.
Definition setConnState (st : conn_state) : go ws_client unit :=
  modify (λ w, upd_control (wc_flushCh w) (wc_flushDone w) (wc_closeCh w) (wc_wg w) st w).
Definition GetConnState : go ws_client conn_state := gets wc_state.

(** [wg.Done()] and the closes of [flushDoneCh] and [closeCh]. *)
Definition wg_done : go ws_client unit := λ w,
  if (wc_wg w <=? 0)%Z then None
  else modify (λ w, upd_control (wc_flushCh w) (wc_flushDone w) (wc_closeCh w) (wc_wg w - 1) (wc_state w) w) w.
Definition close_flushDone : go ws_client unit := λ w,
  if wc_flushDone w then None
  else modify (λ w, upd_control (wc_flushCh w) true (wc_closeCh w) (wc_wg w) (wc_state w) w) w.
Definition close_closeCh : go ws_client unit := λ w,
  if wc_closeCh w then None
  else modify (λ w, upd_control (wc_flushCh w) (wc_flushDone w) true (wc_wg w) (wc_state w) w) w.

Definition log_queued (m : ws_Message) (w : ws_client) : ws_client := {|
  wc_sendCh := wc_sendCh w; wc_receiveCh := wc_receiveCh w; wc_errorCh := wc_errorCh w; wc_flushCh := wc_flushCh w;
  wc_flushDone := wc_flushDone w; wc_closeCh := wc_closeCh w; wc_wg := wc_wg w; wc_state := wc_state w;
  wc_queued := wc_queued w ++ [m]; wc_written := wc_written w |}.
Definition log_written (m : ws_Message) (w : ws_client) : ws_client := {|
  wc_sendCh := wc_sendCh w; wc_receiveCh := wc_receiveCh w; wc_errorCh := wc_errorCh w; wc_flushCh := wc_flushCh w;
  wc_flushDone := wc_flushDone w; wc_closeCh := wc_closeCh w; wc_wg := wc_wg w; wc_state := wc_state w;
  wc_queued := wc_queued w; wc_written := wc_written w ++ [m] |}.

(** ** Operations *)
Definition sendError (e : error) : go ws_client unit :=
  st ← GetConnState;
  if bool_decide (st ≠ WSConnOpen) then mret tt
  else λ w, match try_send e (wc_errorCh w) with
            | SendPanic => None
            | Full => Some (tt, w)
            | Sent ch => Some (tt, put_errorCh ch w)
            end.

Definition sendErrorIf (text : string) (r : result unit) : go ws_client unit :=
  match r with Ok _ => mret tt | Err e => sendError (EWrap text e) end.

(** [sendMsg]: the deadline, then the write; the answers are given. *)
Definition sendMsg (deadline write : result unit) (m : ws_Message) : go ws_client unit :=
  sendErrorIf "failed to set write deadline" deadline ;;
  modify (log_written m) ;;
  sendErrorIf "failed to write message" write.

(** The opcode a message is written with. *)
Definition client_opcode (m : ws_Message) : opcode :=
  if bool_decide (wm_Type m = BinaryMessage) then OpBinary else OpText.

Inductive writer := WLoop | WFlush (i : nat) | WCloseFlush | WDone | WEnd.

(** The cases of the [select]. *)
Inductive pick := PickSend | PickFlush | PickClosed.

#[export] Instance writer_eq_dec : EqDecision writer.
Proof. solve_decision. Defined.

Definition take_send (next : writer) (wait : writer) (deadline write : result unit) : go ws_client writer := λ w,
  match recv (wc_sendCh w) with
  | inl (m, ch) => (modify (put_sendCh ch) ;; sendMsg deadline write m ;; mret next) w
  | inr _ => Some (wait, w)
  end.

Definition writer_step (p : pick) (deadline write : result unit) (st : writer) : go ws_client writer :=
  match st with
  | WLoop =>
      match p with
      | PickSend => take_send WLoop WLoop deadline write
      | PickFlush => λ w, match recv (wc_flushCh w) with
                          | inl (_, ch) => Some (WFlush 0, put_flushCh ch w)
                          | inr _ => Some (WLoop, w)
                          end
      | PickClosed => c ← gets wc_closeCh; mret (if c : bool then WCloseFlush else WLoop)
      end
  | WFlush i =>
      n ← gets (λ w, length (ch_buf (wc_sendCh w)));
      if bool_decide (i < n) then take_send (WFlush (S i)) (WFlush i) deadline write else mret WCloseFlush
  | WCloseFlush => close_flushDone ;; mret WDone
  | WDone => wg_done ;; mret WEnd
  | WEnd => mret WEnd
  end.

Inductive reader :=
  | RRead
  | RForward (m : ws_Message)
  | RCloseReceive
  | RDone
  | RCloseCh
  | RWait
  | RCloseErr
  | RSetClosed
  | REnd.

(** The message of [fmt.Errorf("unexpected message type: %d", msgType)]: at
    that point [msgType] still has its zero value. *)
Definition unexpected_type : error := EText "unexpected message type: 0".

Definition reader_step (answer : result (opcode * string)) (st : reader) : go ws_client reader :=
  match st with
  | RRead =>
      match answer with
      | Err e => sendError (EWrap "failed to read message" e) ;; mret RCloseReceive
      | Ok (op, data) =>
          let forward t := mret (RForward {| wm_ClientID := str0; wm_ConnID := str0; wm_Type := t; wm_Data := data |}) in
          match op with
          | OpText => forward TextMessage
          | OpBinary => forward BinaryMessage
          | _ => sendError unexpected_type ;; mret RRead
          end
      end
  | RForward m => λ w, match try_send m (wc_receiveCh w) with
                       | SendPanic => None
                       | Full => Some (RForward m, w)
                       | Sent ch => Some (RRead, put_receiveCh ch w)
                       end
  | RCloseReceive => λ w, ch ← close_chan (wc_receiveCh w); Some (RDone, put_receiveCh ch w)
  | RDone => wg_done ;; mret RCloseCh
  | RCloseCh => close_closeCh ;; mret RWait
  | RWait => n ← gets wc_wg; mret (if (n =? 0)%Z then RCloseErr else RWait)
  | RCloseErr => λ w, ch ← close_chan (wc_errorCh w); Some (RSetClosed, put_errorCh ch w)
  | RSetClosed => setConnState WSConnClosed ;; mret REnd
  | REnd => mret REnd
  end.

(** [Send]: the check, then the channel. *)
Inductive sender := SCheck (m : ws_Message) | SQueue (m : ws_Message) | SRet (r : result unit).

Definition sender_step (st : sender) : go ws_client sender :=
  match st with
  | SCheck m =>
      s ← GetConnState;
      mret (if bool_decide (s ≠ WSConnOpen) then SRet (Err (EText "failed to send message: connection is closed"))
            else SQueue m)
  | SQueue m => λ w, match try_send m (wc_sendCh w) with
                     | SendPanic => None
                     | Full => Some (SRet (Err (EText "failed to send message: channel is full")), w)
                     | Sent ch => Some (SRet (Ok tt), log_queued m (put_sendCh ch w))
                     end
  | SRet r => mret (SRet r)
  end.

(** [Close]. *)
Inductive ws_close := KStart | KFlush | KFlushWait | KConn | KWait (r : result unit) | KRet (r : result unit).

Definition close_step (closed : result unit) (st : ws_close) : go ws_client ws_close :=
  match st with
  | KStart => setConnState WSConnClosing ;; mret KFlush
  | KFlush => λ w, match try_send tt (wc_flushCh w) with
                   | SendPanic => None
                   | Full => Some (KRet (Err (EText "failed to send flush message")), w)
                   | Sent ch => Some (KFlushWait, put_flushCh ch w)
                   end
  | KFlushWait => d ← gets wc_flushDone; mret (if d : bool then KConn else KFlushWait)
  | KConn => mret (KWait closed)
  | KWait r => n ← gets wc_wg; mret (if (n =? 0)%Z then KRet r else KWait r)
  | KRet r => mret (KRet r)
  end.

(** A [Send] that is not interrupted. *)
Lemma sender_send m w :
  ch_closed (wc_sendCh w) = false →
  ∃ r w', (st ← sender_step (SCheck m); sender_step st) w = Some (SRet r, w') ∧ ch_closed (wc_sendCh w') = false.
Proof.
  intros Ho. unfold mbind, go_bind. cbn [sender_step]. unfold GetConnState, gets, mbind, go_bind. cbn -[try_send].
  destruct (bool_decide (wc_state w ≠ WSConnOpen)); cbn -[try_send]; [by do 2 eexists|].
  unfold try_send. rewrite Ho. destruct (bool_decide (length _ < _)); cbn; by do 2 eexists.
Qed.

(** ** The system: [cs_opened] is whether [NewClient] has got to its last
    statement. *)
Record client_sys := {
  cs_client : ws_client;
  cs_writer : writer;
  cs_reader : reader;
  cs_opened : bool;
  cs_senders : gmap nat sender;
  cs_closes : gmap nat ws_close;
}.

Inductive client_event :=
  | CvWriter (p : pick) (deadline write : result unit)
  | CvReader (answer : result (opcode * string))
  | CvOpened
  | CvSender (k : nat)
  | CvClose (k : nat) (closed : result unit)
  | CvReceive
  | CvError.

Definition with_client (w : ws_client) (s : client_sys) : client_sys := {|
  cs_client := w; cs_writer := cs_writer s; cs_reader := cs_reader s; cs_opened := cs_opened s;
  cs_senders := cs_senders s; cs_closes := cs_closes s |}.

Definition client_step (ev : client_event) (s : client_sys) : option client_sys :=
  let w := cs_client s in
  match ev with
  | CvWriter p d r => '(st, w) ← writer_step p d r (cs_writer s) w;
      Some {| cs_client := w; cs_writer := st; cs_reader := cs_reader s; cs_opened := cs_opened s;
              cs_senders := cs_senders s; cs_closes := cs_closes s |}
  | CvReader a => '(st, w) ← reader_step a (cs_reader s) w;
      Some {| cs_client := w; cs_writer := cs_writer s; cs_reader := st; cs_opened := cs_opened s;
              cs_senders := cs_senders s; cs_closes := cs_closes s |}
  | CvOpened =>
      if cs_opened s then Some s
      else '(_, w) ← setConnState WSConnOpen w;
           Some {| cs_client := w; cs_writer := cs_writer s; cs_reader := cs_reader s; cs_opened := true;
                   cs_senders := cs_senders s; cs_closes := cs_closes s |}
  | CvSender k =>
      if negb (cs_opened s) then Some s else
      match cs_senders s !! k with
      | None => Some s
      | Some st => '(st, w) ← sender_step st w;
          Some {| cs_client := w; cs_writer := cs_writer s; cs_reader := cs_reader s; cs_opened := cs_opened s;
                  cs_senders := <[k := st]> (cs_senders s); cs_closes := cs_closes s |}
      end
  | CvClose k r =>
      if negb (cs_opened s) then Some s else
      match cs_closes s !! k with
      | None => Some s
      | Some st => '(st, w) ← close_step r st w;
          Some {| cs_client := w; cs_writer := cs_writer s; cs_reader := cs_reader s; cs_opened := cs_opened s;
                  cs_senders := cs_senders s; cs_closes := <[k := st]> (cs_closes s) |}
      end
  | CvReceive => match recv (wc_receiveCh w) with
                 | inl (_, ch) => Some (with_client (put_receiveCh ch w) s)
                 | inr _ => Some s
                 end
  | CvError => match recv (wc_errorCh w) with
               | inl (_, ch) => Some (with_client (put_errorCh ch w) s)
               | inr _ => Some s
               end
  end.

Fixpoint client_run (evs : list client_event) (s : client_sys) : option client_sys :=
  match evs with
  | [] => Some s
  | ev :: evs => s ← client_step ev s; client_run evs s
  end.

(** A client that has just started its two routines, the [Send] and [Close]
    calls that will be made of it. *)
Definition client_initial (sends : list ws_Message) (closes : nat) : client_sys := {|
  cs_client := new_ws_client; cs_writer := WLoop; cs_reader := RRead; cs_opened := false;
  cs_senders := list_to_map (imap (λ k m, (k, SCheck m)) sends);
  cs_closes := list_to_map ((λ k, (k, KStart)) <$> seq 0 closes) |}.

(** ** The invariant *)

Definition writer_ended (st : writer) : bool := match st with WEnd => true | _ => false end.
Definition writer_flushed (st : writer) : bool := match st with WDone | WEnd => true | _ => false end.

(** How far the reader has got in its deferred calls. *)
Definition reader_stage (st : reader) : nat :=
  match st with
  | RRead | RForward _ | RCloseReceive => 0 | RDone => 1 | RCloseCh => 2 | RWait => 3 | RCloseErr => 4
  | RSetClosed => 5 | REnd => 6
  end.

Record client_ok (w : ws_client) (wr : writer) (rd : reader) : Prop := {
  co_wg : wc_wg w = ((if writer_ended wr then 0 else 1) + (if bool_decide (2 ≤ reader_stage rd)%nat then 0 else 1))%Z;
  co_flush : wc_flushDone w = writer_flushed wr;
  co_close : wc_closeCh w = bool_decide (3 ≤ reader_stage rd);
  co_receive : ch_closed (wc_receiveCh w) = bool_decide (1 ≤ reader_stage rd);
  co_error : ch_closed (wc_errorCh w) = bool_decide (5 ≤ reader_stage rd);
  co_order : 4 ≤ reader_stage rd → wr = WEnd;
  co_send : ch_closed (wc_sendCh w) = false;
  co_flushCh : ch_closed (wc_flushCh w) = false;
  co_fifo : wc_queued w = wc_written w ++ ch_buf (wc_sendCh w);
  co_cap : ch_cap (wc_receiveCh w) = ReceiveChSize;
}.

Lemma client_ok_put_error w ch wr rd :
  client_ok w wr rd → ch_closed ch = ch_closed (wc_errorCh w) → client_ok (put_errorCh ch w) wr rd.
Proof. intros [] H. by split; cbn; rewrite ?H. Qed.

Lemma sendError_ok e w (Q : unit → ws_client → Prop) :
  ch_closed (wc_errorCh w) = false →
  (∀ ch, ch_closed ch = false → Q tt (put_errorCh ch w)) → wp (sendError e) Q w.
Proof.
  intros Ho HQ. assert (put_errorCh (wc_errorCh w) w = w) as Hid by by destruct w.
  unfold sendError. apply wp_bind, wp_gets. case_bool_decide.
  { apply wp_ret. rewrite <- Hid. by apply HQ. }
  unfold wp, try_send. rewrite Ho. case_bool_decide; [by apply HQ|]. rewrite <- Hid. by apply HQ.
Qed.

Lemma sendErrorIf_ok text r w (Q : unit → ws_client → Prop) :
  ch_closed (wc_errorCh w) = false →
  (∀ ch, ch_closed ch = false → Q tt (put_errorCh ch w)) → wp (sendErrorIf text r) Q w.
Proof.
  intros Ho HQ. destruct r; [|by apply sendError_ok].
  apply wp_ret. replace w with (put_errorCh (wc_errorCh w) w) by by destruct w. by apply HQ.
Qed.

(** A writer that has not flushed moves within its loops. *)
Lemma client_ok_writer w wr wr' rd :
  client_ok w wr rd → writer_flushed wr = false → writer_flushed wr' = false →
  client_ok w wr' rd ∧ reader_stage rd < 4.
Proof.
  intros Hok Hwr Hwr'. assert (reader_stage rd < 4) as Hrd.
  { destruct (decide (4 ≤ reader_stage rd)%nat) as [H|]; [|lia]. by rewrite (co_order _ _ _ Hok H) in Hwr. }
  split; [|done]. destruct Hok as [H1 H2 H3 H4 H5 H6 H7 H8 H9 H10]. split; try done; [..|intros; lia].
  - rewrite H1. by destruct wr, wr'.
  - by rewrite H2, Hwr.
Qed.

(** The next message is taken and written, in order. *)
Lemma take_send_ok next wait d r w wr rd :
  client_ok w wr rd → writer_flushed wr = false → writer_flushed next = false → writer_flushed wait = false →
  wp (take_send next wait d r)
     (λ st w', (st = wait ∧ w' = w ∧ ch_buf (wc_sendCh w) = [] ∨
               st = next ∧ ch_buf (wc_sendCh w) ≠ [] ∧ ch_buf (wc_sendCh w') = tail (ch_buf (wc_sendCh w))
                 ∧ wc_written w' = wc_written w ++ take 1 (ch_buf (wc_sendCh w)))
               ∧ client_ok w' st rd) w.
Proof.
  intros Hok Hwr Hn Hw. pose proof (client_ok_writer w wr _ rd Hok Hwr Hw) as [Hwait Hrd].
  destruct (client_ok_writer w wr _ rd Hok Hwr Hn) as [Hnext _].
  unfold take_send, recv, wp at 1. destruct (ch_buf (wc_sendCh w)) as [|m buf] eqn:E; [by split; [left|]|].
  set (w1 := put_sendCh (Chan (ch_cap (wc_sendCh w)) buf (ch_closed (wc_sendCh w))) w).
  assert (ch_closed (wc_errorCh w) = false) as He.
  { rewrite (co_error _ _ _ Hok). apply bool_decide_false. lia. }
  enough (wp (sendMsg d r m ;; mret next) (λ st w', (st = wait ∧ w' = w ∧ m :: buf = [] ∨ st = next ∧ m :: buf ≠ [] ∧
    ch_buf (wc_sendCh w') = buf ∧ wc_written w' = wc_written w ++ [m]) ∧ client_ok w' st rd) w1) as H by exact H.
  apply wp_bind. unfold sendMsg. apply wp_bind, sendErrorIf_ok; [done|]. intros ch1 H1.
  apply wp_bind, wp_modify, sendErrorIf_ok; [done|]. intros ch2 H2. apply wp_ret. split; [by right|].
  destruct Hnext as [G1 G2 G3 G4 G5 G6 G7 G8 G9 G10]. split; cbn; try done.
  - by rewrite H2, <- He.
  - by rewrite G9, E, <- app_assoc.
Qed.

Lemma writer_step_ok p d r w wr rd :
  client_ok w wr rd → wp (writer_step p d r wr) (λ wr' w', client_ok w' wr' rd) w.
Proof.
  intros Hok. destruct wr as [|i| | |]; cbn [writer_step].
  - destruct p.
    + eapply wp_mono; [by apply (take_send_ok WLoop WLoop d r w WLoop rd)|]. by intros ? ? [_ ?].
    + unfold wp, recv. destruct (ch_buf (wc_flushCh w)); [done|].
      apply (client_ok_writer _ WLoop (WFlush 0)); [|done..]. by destruct Hok.
    + apply wp_bind, wp_gets, wp_ret. destruct (wc_closeCh w); [|done]. by apply (client_ok_writer w WLoop).
  - apply wp_bind, wp_gets. case_bool_decide; [|by apply wp_ret, (client_ok_writer w (WFlush i))].
    eapply wp_mono; [by apply (take_send_ok (WFlush (S i)) (WFlush i) d r w (WFlush i) rd)|]. by intros ? ? [_ ?].
  - apply wp_bind. unfold close_flushDone, wp at 1. destruct Hok as [H1 H2 H3 H4 H5 H6 H7 H8 H9 H10].
    rewrite H2. cbn. split; try done. by intros ?%H6.
  - apply wp_bind. unfold wg_done, wp at 1. destruct Hok as [H1 H2 H3 H4 H5 H6 H7 H8 H9 H10].
    assert ((wc_wg w <=? 0)%Z = false) as ->.
    { rewrite H1. by destruct (bool_decide _). }
    cbn. split; try done. cbn. rewrite H1. cbn. lia.
  - by apply wp_ret.
Qed.

(** The reader's next stage: the fields that speak of it are computed. *)
Ltac by_stage Hok := destruct Hok; split; cbn in *; try done; try lia; auto with lia.

Lemma client_ok_stage w wr rd rd' : reader_stage rd' = reader_stage rd → client_ok w wr rd → client_ok w wr rd'.
Proof. intros E []. by split; rewrite ?E. Qed.

Lemma reader_step_ok a w wr rd :
  client_ok w wr rd → wp (reader_step a rd) (λ rd' w', client_ok w' wr rd') w.
Proof.
  intros Hok. destruct rd as [|m| | | | | | |]; cbn [reader_step].
  - assert (ch_closed (wc_errorCh w) = false) as He by by rewrite (co_error _ _ _ Hok).
    assert (client_ok w wr RCloseReceive ∧ ∀ m, client_ok w wr (RForward m)) as [? ?]
      by by split; [|intros m]; apply (client_ok_stage _ _ RRead).
    destruct a as [[[] data]|e]; try by apply wp_ret.
    all: apply wp_bind, sendError_ok; [done|]; intros ch Hch; apply wp_ret, client_ok_put_error; by rewrite ?Hch, ?He.
  - unfold wp, try_send. rewrite (co_receive _ _ _ Hok). cbn. destruct (bool_decide (length _ < _)); [|done]. by_stage Hok.
  - assert (ch_closed (wc_receiveCh w) = false) as E by by rewrite (co_receive _ _ _ Hok).
    unfold wp, close_chan. rewrite E. cbn. by_stage Hok.
  - apply wp_bind. unfold wg_done, wp at 1. destruct Hok as [H1 H2 H3 H4 H5 H6 H7 H8 H9 H10]. cbn in *.
    assert ((wc_wg w <=? 0)%Z = false) as -> by (rewrite H1; destruct (writer_ended wr); done).
    cbn. split; try done; cbn; [|lia]. rewrite H1. by destruct (writer_ended wr).
  - assert (wc_closeCh w = false) as E by by rewrite (co_close _ _ _ Hok).
    apply wp_bind. unfold close_closeCh, wp at 1. rewrite E. cbn. by_stage Hok.
  - apply wp_bind, wp_gets, wp_ret. destruct (Z.eqb_spec (wc_wg w) 0) as [E|]; [|done].
    destruct Hok as [H1 H2 H3 H4 H5 H6 H7 H8 H9 H10]. split; try done. intros _. rewrite H1 in E. cbn in E.
    by destruct wr.
  - assert (ch_closed (wc_errorCh w) = false) as E by by rewrite (co_error _ _ _ Hok).
    unfold wp, close_chan. rewrite E. cbn. by_stage Hok.
  - apply wp_bind, wp_modify, wp_ret. by_stage Hok.
  - by apply wp_ret.
Qed.

Lemma sender_step_ok st w wr rd : client_ok w wr rd → wp (sender_step st) (λ _ w', client_ok w' wr rd) w.
Proof.
  intros Hok. destruct st as [m|m|]; cbn [sender_step]; [by apply wp_bind, wp_gets, wp_ret| |by apply wp_ret].
  unfold wp, try_send. rewrite (co_send _ _ _ Hok). destruct (bool_decide (length _ < _)); [|done].
  destruct Hok. split; cbn; try done. rewrite app_assoc. by f_equal.
Qed.

Lemma close_step_ok r st w wr rd : client_ok w wr rd → wp (close_step r st) (λ _ w', client_ok w' wr rd) w.
Proof.
  intros Hok. destruct st; cbn [close_step]; try by apply wp_ret.
  - apply wp_bind, wp_modify, wp_ret. by destruct Hok.
  - unfold wp, try_send. rewrite (co_flushCh _ _ _ Hok). destruct (bool_decide (length _ < _)); [|done].
    by destruct Hok.
Qed.

Definition sys_ok (s : client_sys) : Prop := client_ok (cs_client s) (cs_writer s) (cs_reader s).

Lemma recv_receive_ok w wr rd m ch :
  client_ok w wr rd → recv (wc_receiveCh w) = inl (m, ch) → client_ok (put_receiveCh ch w) wr rd.
Proof. intros []. unfold recv. destruct (ch_buf (wc_receiveCh w)); [done|]. intros [= -> <-]. by split. Qed.

Lemma client_step_ok ev s : sys_ok s → ∃ s', client_step ev s = Some s' ∧ sys_ok s'.
Proof.
  intros Hok. destruct ev as [p d r|a| |k|k r| |]; cbn.
  - destruct (proj1 (wp_inv _ _ _) (writer_step_ok p d r _ _ _ Hok)) as (st & w' & -> & H). cbn. eauto.
  - destruct (proj1 (wp_inv _ _ _) (reader_step_ok a _ _ _ Hok)) as (st & w' & -> & H). cbn. eauto.
  - destruct (cs_opened s); eexists; (split; [done|]); [done|]. by destruct Hok.
  - destruct (cs_opened s); [|by eexists]. cbn. destruct (cs_senders s !! k) as [st|]; [|by eexists].
    destruct (proj1 (wp_inv _ _ _) (sender_step_ok st _ _ _ Hok)) as (st' & w' & -> & H). cbn. eauto.
  - destruct (cs_opened s); [|by eexists]. cbn. destruct (cs_closes s !! k) as [st|]; [|by eexists].
    destruct (proj1 (wp_inv _ _ _) (close_step_ok r st _ _ _ Hok)) as (st' & w' & -> & H). cbn. eauto.
  - destruct (recv _) as [[m ch]|] eqn:E; [|by eexists]. eexists. split; [done|]. by eapply recv_receive_ok.
  - destruct (recv _) as [[m ch]|] eqn:E; [|by eexists]. eexists. split; [done|].
    apply client_ok_put_error; [done|]. unfold recv in E. destruct (ch_buf (wc_errorCh (cs_client s))); [done|]. by injection E as _ <-.
Qed.

Lemma client_run_ok evs s : sys_ok s → ∃ s', client_run evs s = Some s' ∧ sys_ok s'.
Proof.
  revert s. induction evs as [|ev evs IH]; intros s Hs; cbn; [eauto|].
  destruct (client_step_ok ev s Hs) as (s1 & -> & Hs1). cbn. by apply IH.
Qed.

Lemma client_initial_ok sends closes : sys_ok (client_initial sends closes).
Proof. split; try done. cbn. lia. Qed.

Lemma client_reachable evs sends closes s :
  client_run evs (client_initial sends closes) = Some s → sys_ok s.
Proof.
  intros Hrun. destruct (client_run_ok evs _ (client_initial_ok sends closes)) as (s' & H & Hs).
  rewrite Hrun in H. by injection H as <-.
Qed.

(** ** The flush *)

(** [n] iterations of the writer with nothing else running. *)
Fixpoint writer_steps (n : nat) (st : writer) : go ws_client writer :=
  match n with
  | 0 => mret st
  | S n => st ← writer_step PickFlush (Ok tt) (Ok tt) st; writer_steps n st
  end.

Lemma flush_loop n i w wr rd :
  client_ok w (WFlush i) rd → length (ch_buf (wc_sendCh w)) = wr → wr - i ≤ 2 * n → wr - i + 1 ≥ 2 * n →
  wp (writer_steps (S n) (WFlush i))
     (λ st w', st = WCloseFlush ∧ wc_written w' = wc_written w ++ take n (ch_buf (wc_sendCh w))
               ∧ ch_buf (wc_sendCh w') = drop n (ch_buf (wc_sendCh w)) ∧ client_ok w' st rd) w.
Proof.
  revert i w wr. induction n as [|n IH]; intros i w wr Hok Hl H1 H2.
  - apply wp_bind. cbn [writer_step]. apply wp_bind, wp_gets. rewrite Hl, bool_decide_false by lia.
    apply wp_ret, wp_ret. rewrite take_0, app_nil_r. split_and!; try done. by apply (client_ok_writer w (WFlush i)).
  - change (writer_steps (S (S n)) (WFlush i)) with
      (st ← writer_step PickFlush (Ok tt) (Ok tt) (WFlush i); writer_steps (S n) st).
    apply wp_bind. cbn [writer_step]. apply wp_bind, wp_gets. rewrite Hl, bool_decide_true by lia.
    eapply wp_mono; [by apply (take_send_ok (WFlush (S i)) (WFlush i) (Ok tt) (Ok tt) w (WFlush i) rd)|].
    intros st w' [[(_ & _ & Hnil)|(-> & Hne & Hb & Hw)] Hok']; [rewrite Hnil in Hl; cbn in Hl; lia|].
    destruct (ch_buf (wc_sendCh w)) as [|m buf] eqn:E; [done|]. cbn in *.
    eapply wp_mono; [apply (IH (S i) w' (length buf) Hok'); [by rewrite Hb|lia..]|].
    intros st w2 (-> & -> & -> & Hok2). rewrite Hw, Hb. cbn. by rewrite <- app_assoc.
Qed.

(** ** Close can return *)

Lemma client_run_app evs evs' s : client_run (evs ++ evs') s = s' ← client_run evs s; client_run evs' s'.
Proof. revert s. induction evs as [|ev evs IH]; intros s; cbn; [done|]. destruct (client_step ev s); cbn; auto. Qed.

(** [s'] can be reached from [s] without touching the calls in progress. *)
Definition leads (s s' : client_sys) : Prop :=
  (∃ evs, client_run evs s = Some s') ∧ sys_ok s' ∧ cs_opened s' = cs_opened s ∧ cs_closes s' = cs_closes s.

Lemma leads_trans s1 s2 s3 : leads s1 s2 → leads s2 s3 → leads s1 s3.
Proof.
  intros ([evs1 H1] & _ & Ho1 & Hc1) ([evs2 H2] & Hok & Ho2 & Hc2). split; [|by rewrite Ho2, Hc2].
  exists (evs1 ++ evs2). by rewrite client_run_app, H1.
Qed.

Lemma leads_refl s : sys_ok s → leads s s.
Proof. intros Hs. split; [by exists []|done]. Qed.

Lemma leads_drain s :
  sys_ok s → ∃ s', leads s s' ∧ ch_buf (wc_receiveCh (cs_client s')) = []
    ∧ cs_reader s' = cs_reader s ∧ cs_writer s' = cs_writer s.
Proof.
  remember (ch_buf (wc_receiveCh (cs_client s))) as buf eqn:E. revert s E.
  induction buf as [|m buf IH]; intros s E Hs; [exists s; auto using leads_refl|].
  set (ch := Chan (ch_cap (wc_receiveCh (cs_client s))) buf (ch_closed (wc_receiveCh (cs_client s)))).
  assert (recv (wc_receiveCh (cs_client s)) = inl (m, ch)) as Hr by (unfold recv; by rewrite <- E).
  assert (leads s (with_client (put_receiveCh ch (cs_client s)) s)) as Hl.
  { split; [exists [CvReceive]; cbn; by rewrite Hr|]. split; [|done]. by eapply recv_receive_ok. }
  destruct (IH (with_client (put_receiveCh ch (cs_client s)) s)) as (s' & H1 & H2); [done|apply Hl|].
  exists s'. split; [by eapply leads_trans|done].
Qed.

Definition reader_rank (st : reader) : nat :=
  match st with RForward _ => 5 | RRead => 4 | RCloseReceive => 3 | RDone => 2 | RCloseCh => 1 | _ => 0 end.

Lemma reader_step_rank st w st' w' e :
  reader_step (Err e) st w = Some (st', w') → 0 < reader_rank st → ch_closed (wc_receiveCh w) = bool_decide (1 ≤ reader_stage st) →
  length (ch_buf (wc_receiveCh w)) < ch_cap (wc_receiveCh w) → reader_rank st' < reader_rank st.
Proof.
  intros H Hr Hc Hl. destruct st; cbn in *; try lia.
  - unfold mbind, go_bind, mret, go_ret in H. repeat case_match; simplify_eq; cbn; lia.
  - rewrite (try_send_open m _ Hc Hl) in H. simplify_eq. cbn. lia.
  - destruct (close_chan _); simplify_eq/=. lia.
  - unfold mbind, go_bind, mret, go_ret in H. repeat case_match; simplify_eq; cbn; lia.
  - unfold mbind, go_bind, mret, go_ret in H. repeat case_match; simplify_eq; cbn; lia.
Qed.

Lemma leads_reader n s :
  sys_ok s → reader_rank (cs_reader s) ≤ n →
  ∃ s', leads s s' ∧ reader_rank (cs_reader s') = 0 ∧ cs_writer s' = cs_writer s.
Proof.
  revert s. induction n as [n IH] using lt_wf_ind. intros s Hs Hn.
  destruct (decide (reader_rank (cs_reader s) = 0)) as [|Hr]; [exists s; auto using leads_refl|].
  destruct (leads_drain s Hs) as (s1 & Hl1 & Hb & Hrd & Hwr). pose proof (proj1 (proj2 Hl1)) as Hs1.
  destruct (proj1 (wp_inv _ _ _) (reader_step_ok (Err (EText "closed")) _ _ _ Hs1)) as (st & w' & Hstep & Hok).
  assert (reader_rank st < reader_rank (cs_reader s1)) as Hlt.
  { eapply reader_step_rank; [done|rewrite Hrd; lia|apply Hs1|]. rewrite Hb, (co_cap _ _ _ Hs1). vm_compute. lia. }
  set (s2 := {| cs_client := w'; cs_writer := cs_writer s1; cs_reader := st; cs_opened := cs_opened s1;
                cs_senders := cs_senders s1; cs_closes := cs_closes s1 |}).
  assert (leads s1 s2) as Hl2.
  { split; [exists [CvReader (Err (EText "closed"))]; cbn; by rewrite Hstep|]. split; [exact Hok|done]. }
  destruct (IH (reader_rank st) ltac:(rewrite Hrd in Hlt; lia) s2 Hok (le_n _)) as (s' & Hl & H0 & Hw).
  exists s'. split; [by eapply leads_trans, leads_trans|]. split; [done|]. rewrite Hw. done.
Qed.

(** The writer, once [closeCh] is closed. *)
Definition writer_rank (s : client_sys) : nat :=
  match cs_writer s with
  | WLoop => 3
  | WFlush i => 3 + length (ch_buf (wc_sendCh (cs_client s)))
  | WCloseFlush => 2 | WDone => 1 | WEnd => 0
  end.

Lemma leads_writer n s :
  sys_ok s → 3 ≤ reader_stage (cs_reader s) → writer_rank s ≤ n → ∃ s', leads s s' ∧ cs_writer s' = WEnd.
Proof.
  revert s. induction n as [n IH] using lt_wf_ind. intros s Hs Hrd Hn.
  destruct (decide (cs_writer s = WEnd)) as [|Hne]; [exists s; auto using leads_refl|].
  destruct (proj1 (wp_inv _ _ _) (writer_step_ok PickClosed (Ok tt) (Ok tt) _ _ _ Hs)) as (st & w' & Hstep & Hok).
  set (s1 := {| cs_client := w'; cs_writer := st; cs_reader := cs_reader s; cs_opened := cs_opened s;
                cs_senders := cs_senders s; cs_closes := cs_closes s |}).
  assert (leads s s1) as Hl1.
  { split; [exists [CvWriter PickClosed (Ok tt) (Ok tt)]; cbn; by rewrite Hstep|]. split; [exact Hok|done]. }
  assert (writer_rank s1 < writer_rank s) as Hlt.
  { unfold writer_rank, s1. cbn. pose proof (co_close _ _ _ Hs) as Hc. rewrite bool_decide_true in Hc by lia.
    unfold sys_ok in Hs.
    destruct (cs_writer s) as [|i| | |] eqn:Ew; [| | | |done]; cbn in Hstep;
      unfold gets, mbind, go_bind, mret, go_ret in Hstep.
    - rewrite Hc in Hstep. injection Hstep as <- <-. lia.
    - case_bool_decide as Hi; [|injection Hstep as <- <-; lia].
      pose proof (take_send_ok (WFlush (S i)) (WFlush i) (Ok tt) (Ok tt) _ _ _ Hs eq_refl eq_refl eq_refl) as H.
      unfold wp in H. rewrite Hstep in H. destruct H as [[(_ & _ & E)|(-> & Hb & -> & _)] _].
      { by rewrite E in Hi; cbn in Hi; lia. }
      destruct (ch_buf (wc_sendCh (cs_client s))); [done|]. cbn. lia.
    - repeat case_match; simplify_eq; lia.
    - repeat case_match; simplify_eq; lia. }
  destruct (IH (writer_rank s1) ltac:(lia) s1 Hok Hrd (le_n _)) as (s' & Hl & Hw).
  exists s'. split; [by eapply leads_trans|done].
Qed.

(** The caller of [Close], once both routines have come to an end. *)
Definition close_returns (k : nat) (s : client_sys) : Prop :=
  ∃ evs s' r, client_run evs s = Some s' ∧ cs_closes s' !! k = Some (KRet r).

Lemma close_returns_step k s st st' w' :
  cs_opened s = true → cs_closes s !! k = Some st → close_step (Ok tt) st (cs_client s) = Some (st', w') →
  (close_returns k {| cs_client := w'; cs_writer := cs_writer s; cs_reader := cs_reader s; cs_opened := true;
                      cs_senders := cs_senders s; cs_closes := <[k := st']> (cs_closes s) |}) →
  close_returns k s.
Proof.
  intros Ho Hk Hst (evs & s' & r & Hrun & Hr). exists (CvClose k (Ok tt) :: evs), s', r. split; [|done].
  cbn. rewrite Ho, Hk. cbn. by rewrite Hst.
Qed.

Definition close_left (st : ws_close) : nat :=
  match st with KStart => 5 | KFlush => 4 | KFlushWait => 3 | KConn => 2 | KWait _ => 1 | KRet _ => 0 end.

Lemma ended_close_returns n s k st :
  sys_ok s → cs_opened s = true → cs_writer s = WEnd → 3 ≤ reader_stage (cs_reader s) →
  cs_closes s !! k = Some st → close_left st ≤ n → close_returns k s.
Proof.
  revert s st. induction n as [n IH] using lt_wf_ind. intros s st Hs Ho Hw Hrd Hk Hn.
  destruct (decide (close_left st = 0)) as [H0|H0].
  { destruct st; try done. eexists [], s, _. by split. }
  destruct (proj1 (wp_inv _ _ _) (close_step_ok (Ok tt) st _ _ _ Hs)) as (st' & w' & Hst & Hok).
  eapply close_returns_step; [done..|]. eapply (IH (close_left st')); [|exact Hok|done..| |done].
  - pose proof (co_flush _ _ _ Hs) as Hf. pose proof (co_wg _ _ _ Hs) as Hg. rewrite Hw in Hf, Hg.
    rewrite bool_decide_true in Hg by lia.
    destruct st; cbn in Hst; unfold gets, mbind, go_bind, mret, go_ret in Hst; cbn in Hst, Hf, Hg;
      rewrite ?Hf, ?Hg in Hst; repeat case_match; simplify_eq/=; lia.
  - cbn. by rewrite lookup_insert, decide_True.
Qed.

(** ** Properties *)

Definition text_message (data : string) : ws_Message :=
  {| wm_ClientID := str0; wm_ConnID := str0; wm_Type := TextMessage; wm_Data := data |}.

(** The writer finds the flush with three messages queued. *)
Definition flush_run : list client_event :=
  [CvOpened; CvSender 0; CvSender 0; CvSender 1; CvSender 1; CvSender 2; CvSender 2;
   CvClose 0 (Ok tt); CvClose 0 (Ok tt); CvWriter PickFlush (Ok tt) (Ok tt)].

Definition three_messages : list ws_Message := [text_message "a"; text_message "b"; text_message "c"].

(** Whatever the interleaving of the reader, the writer, [NewClient],
    [Send] and [Close] calls and the consumers, and whatever the socket
    answers, the client never panics: no channel is closed twice or sent on
    once closed, the wait group does not go negative.  Messages are written in
    the order [Send] accepted them, each at most once, and those not written
    are still in [sendCh]. *)
Theorem client_never_panics sends closes evs :
  ∃ s, client_run evs (client_initial sends closes) = Some s
    ∧ wc_queued (cs_client s) = wc_written (cs_client s) ++ ch_buf (wc_sendCh (cs_client s))
    ∧ (ch_closed (wc_errorCh (cs_client s)) = true → cs_writer s = WEnd ∧ ch_closed (wc_receiveCh (cs_client s)) = true).
Proof.
  destruct (client_run_ok evs _ (client_initial_ok sends closes)) as (s & Hrun & Hs).
  exists s. split; [done|]. split; [apply Hs|]. rewrite (co_error _ _ _ Hs), (co_receive _ _ _ Hs).
  intros H%bool_decide_eq_true. split; [apply Hs; lia|]. apply bool_decide_true. lia.
Qed.

(** The flush of [Close] writes only half of what is queued.  The loop
    [for i := 0; i < len(c.sendCh); i++] compares a growing index with a
    shrinking queue: of [n] queued messages the first [(n + 1) / 2] are
    written, in order, and the others are left in the channel for good. *)
Theorem flush_writes_half w rd :
  client_ok w (WFlush 0) rd →
  ∃ k w', let queued := ch_buf (wc_sendCh w) in
    let half := Nat.div2 (S (length queued)) in
    writer_steps k (WFlush 0) w = Some (WCloseFlush, w')
    ∧ wc_written w' = wc_written w ++ take half queued ∧ ch_buf (wc_sendCh w') = drop half queued.
Proof.
  intros Hok. set (n := length (ch_buf (wc_sendCh w))).
  destruct (proj1 (wp_inv _ _ _) (flush_loop (Nat.div2 (S n)) 0 w n rd Hok eq_refl
    ltac:(pose proof (Nat.div2_odd (S n)) as E; unfold Nat.b2n in E; destruct (Nat.odd (S n)); lia)
    ltac:(pose proof (Nat.div2_odd (S n)) as E; unfold Nat.b2n in E; destruct (Nat.odd (S n)); lia)))
    as (st & w' & Hrun & -> & H1 & H2 & _).
  exists (S (Nat.div2 (S n))), w'. by split_and!.
Qed.

Lemma flush_writes_half_witness :
  ∃ s k w', client_run flush_run (client_initial three_messages 1) = Some s ∧ cs_writer s = WFlush 0
    ∧ writer_steps k (WFlush 0) (cs_client s) = Some (WCloseFlush, w')
    ∧ wc_written w' = [text_message "a"; text_message "b"] ∧ ch_buf (wc_sendCh w') = [text_message "c"].
Proof.
  assert (∃ s, client_run flush_run (client_initial three_messages 1) = Some s ∧ cs_writer s = WFlush 0
    ∧ cs_reader s = RRead ∧ ch_buf (wc_sendCh (cs_client s)) = three_messages ∧ wc_written (cs_client s) = [])
    as (s & H1 & H2 & H3 & H4 & H5).
  { vm_compute. eexists. by split_and!. }
  assert (client_ok (cs_client s) (WFlush 0) RRead) as Hok.
  { rewrite <- H2, <- H3. exact (client_reachable _ _ _ _ H1). }
  destruct (flush_writes_half (cs_client s) RRead Hok) as (k & w' & Hrun & Hw & Hb).
  exists s, k, w'. rewrite H4, H5 in Hw. rewrite H4 in Hb. split_and!; assumption.
Defined.

(** C24: [Close] never deadlocks: from every reachable state every [Close] in
    progress can be brought to its return, once the socket's reads fail and
    the consumer drains [receiveCh]. *)
Theorem client_close_returns sends closes evs s k st :
  client_run evs (client_initial sends closes) = Some s → cs_opened s = true → cs_closes s !! k = Some st →
  ∃ evs' s' r, client_run evs' s = Some s' ∧ cs_closes s' !! k = Some (KRet r).
Proof.
  intros Hrun Ho Hk. pose proof (client_reachable _ _ _ _ Hrun) as Hs.
  destruct (leads_reader _ s Hs (le_n _)) as (s1 & Hl1 & Hrank & Hw1).
  assert (3 ≤ reader_stage (cs_reader s1)) as Hrd by (destruct (cs_reader s1); cbn in *; lia).
  destruct (leads_writer _ s1 (proj1 (proj2 Hl1)) Hrd (le_n _)) as (s2 & Hl2 & Hw2).
  destruct (leads_reader _ s2 (proj1 (proj2 Hl2)) (le_n _)) as (s3 & Hl3 & Hrank3 & Hw3).
  pose proof (leads_trans _ _ _ (leads_trans _ _ _ Hl1 Hl2) Hl3) as ([evs3 Hrun3] & Hs3 & Ho3 & Hc3).
  destruct (ended_close_returns (close_left st) s3 k st Hs3) as (evs4 & s4 & r & Hrun4 & Hr4);
    [by rewrite Ho3|by rewrite Hw3| |by rewrite Hc3|done|].
  { destruct (cs_reader s3); cbn in *; lia. }
  exists (evs3 ++ evs4), s4, r. by rewrite client_run_app, Hrun3.
Qed.

Lemma client_close_returns_witness :
  ∃ s evs' s' r, client_run flush_run (client_initial three_messages 1) = Some s
    ∧ cs_closes s !! 0 = Some KFlushWait ∧ client_run evs' s = Some s' ∧ cs_closes s' !! 0 = Some (KRet r).
Proof.
  assert (∃ s, client_run flush_run (client_initial three_messages 1) = Some s ∧ cs_opened s = true
    ∧ cs_closes s !! 0 = Some KFlushWait) as (s & H1 & H2 & H3).
  { vm_compute. eexists. by split_and!. }
  destruct (client_close_returns three_messages 1 flush_run s 0 _ H1 H2 H3) as (evs' & s' & r & H4 & H5).
  exists s, evs', s', r. split_and!; assumption.
Defined.

(** [NewClient] marks the connection open after it has started the
    reader: when the first read fails before that, the client is open for
    good although both routines have ended, the read error is not reported,
    and [Send] accepts messages nobody will write. *)
Theorem open_after_the_end e :
  ∃ s, client_run (replicate 3 (CvReader (Err e)) ++ [CvReader (Err e)] ++
         replicate 3 (CvWriter PickClosed (Ok tt) (Ok tt)) ++ replicate 3 (CvReader (Err e)) ++
         [CvOpened; CvSender 0; CvSender 0]) (client_initial [text_message "a"] 0) = Some s
    ∧ cs_writer s = WEnd ∧ cs_reader s = REnd ∧ wc_state (cs_client s) = WSConnOpen
    ∧ ch_buf (wc_errorCh (cs_client s)) = [] ∧ cs_senders s !! 0 = Some (SRet (Ok tt))
    ∧ wc_written (cs_client s) = [].
Proof. vm_compute. eexists. by split_and!. Qed.
