(* ===== verification/MultiConn.v ===== *)
(** * MultiConn: one packet connection over several (service/rtc/multi_conn.go)

    [newMultiConn] starts a reader per connection; the readers, any number of
    calls of [ReadFrom] and one of [Close] are threads, scheduled in any order
    with calls of [WriteTo].  Buffers have an
    identity: the pool hands them out and takes them back, and what a
    connection reads is written to the buffer its reader holds.  The
    connections' answers are part of the schedule. *)
From S2P Require Import Prelude.

Definition receiveMTU : nat := 1460.
Definition new_buffer : list Z := replicate receiveMTU 0%Z.
Arguments receiveMTU : simpl never.
Arguments new_buffer : simpl never.

Lemma length_new_buffer : length new_buffer = receiveMTU.
Proof. apply length_replicate. Qed.

(** An error of a connection, and [os.IsTimeout] of it. *)
Record net_error := { ne_err : error; ne_timeout : bool }.

(** What [conn.ReadFrom] answers: the bytes it has put in the buffer, the
    peer and the error. *)
Record packet := { pk_data : list Z; pk_addr : option string; pk_err : option net_error }.

(** A [readResult]; [rr_sent] is the answer it was made from. *)
Record readResult := {
  rr_n : nat; rr_addr : option string; rr_err : option net_error; rr_buf : nat; rr_sent : packet;
}.

Inductive mc_reader :=
  | MGet
  | MRead (buf : nat)
  | MDeliver (res : readResult)
  | MExit
  | MEnded.

Inductive mc_closer :=
  | XStart
  | XConns (i : nat) (err : option error)
  | XWait (err : option error)
  | XRet (err : option error).

(** What a call of [ReadFrom] returned and left in its argument; [rt_from] is
    the answer it was given, if there was one. *)
Record read_return := { rt_len : nat; rt_n : nat; rt_addr : option string; rt_err : option net_error; rt_data : list Z;
                        rt_from : option packet }.

(** A call of [ReadFrom(p)] with a [p] of length [len]: the receive, the copy,
    the return of the buffer.  Without a result it holds the zero
    [readResult] of the closed channel, whose buffer is nil. *)
Inductive mc_call :=
  | FWait (len : nat)
  | FCopy (len : nat) (res : option readResult)
  | FPut (len : nat) (res : option readResult) (data : list Z)
  | FRet (r : read_return).

(** [mc_delivered] is every answer put on the channel, [mc_received] every one
    taken from it. *)
Record multi_conn := {
  mc_conns : nat;
  mc_results : chan readResult;
  mc_closeCh : bool;
  mc_heap : gmap nat (list Z);
  mc_pool : list nat;
  mc_next : nat;
  mc_counter : Z;
  mc_wg : Z;
  mc_readers : list mc_reader;
  mc_calls : list mc_call;
  mc_received : list packet;
  mc_delivered : list packet;
}.

(** [conns] as pointers: an entry is nil or not. *)
Definition newMultiConn (conns : list bool) : result multi_conn :=
  guard_err (bool_decide (conns = [])) "conns should not be empty" ;;
  guard_err (existsb negb conns) "invalid nil conn" ;;
  Ok {| mc_conns := length conns; mc_results := make_chan (length conns * 2); mc_closeCh := false;
        mc_heap := ∅; mc_pool := []; mc_next := 0; mc_counter := 0; mc_wg := Z.of_nat (length conns);
        mc_readers := replicate (length conns) MGet; mc_calls := []; mc_received := []; mc_delivered := [] |}.

Definition mc_set (results : chan readResult) (heap : gmap nat (list Z)) (pool : list nat) (next : nat)
    (m : multi_conn) : multi_conn := {|
  mc_conns := mc_conns m; mc_results := results; mc_closeCh := mc_closeCh m; mc_heap := heap; mc_pool := pool;
  mc_next := next; mc_counter := mc_counter m; mc_wg := mc_wg m; mc_readers := mc_readers m;
  mc_calls := mc_calls m; mc_received := mc_received m; mc_delivered := mc_delivered m |}.
Definition mc_control (closeCh : bool) (counter wg : Z) (readers : list mc_reader) (m : multi_conn) : multi_conn := {|
  mc_conns := mc_conns m; mc_results := mc_results m; mc_closeCh := closeCh; mc_heap := mc_heap m;
  mc_pool := mc_pool m; mc_next := mc_next m; mc_counter := counter; mc_wg := wg; mc_readers := readers;
  mc_calls := mc_calls m; mc_received := mc_received m; mc_delivered := mc_delivered m |}.
Definition mc_log (received delivered : list packet) (m : multi_conn) : multi_conn := {|
  mc_conns := mc_conns m; mc_results := mc_results m; mc_closeCh := mc_closeCh m; mc_heap := mc_heap m;
  mc_pool := mc_pool m; mc_next := mc_next m; mc_counter := mc_counter m; mc_wg := mc_wg m;
  mc_readers := mc_readers m; mc_calls := mc_calls m; mc_received := mc_received m ++ received;
  mc_delivered := mc_delivered m ++ delivered |}.
Definition put_calls (calls : list mc_call) (m : multi_conn) : multi_conn := {|
  mc_conns := mc_conns m; mc_results := mc_results m; mc_closeCh := mc_closeCh m; mc_heap := mc_heap m;
  mc_pool := mc_pool m; mc_next := mc_next m; mc_counter := mc_counter m; mc_wg := mc_wg m;
  mc_readers := mc_readers m; mc_calls := calls; mc_received := mc_received m; mc_delivered := mc_delivered m |}.

(** [bufPool.Get()]: some buffer of the pool, or a new one. *)
Definition pool_get (choice : option nat) : go multi_conn nat := λ m,
  match c ← choice; mc_pool m !! c with
  | Some b => Some (b, mc_set (mc_results m) (mc_heap m) (delete (default 0 choice) (mc_pool m)) (mc_next m) m)
  | None => Some (mc_next m, mc_set (mc_results m) (<[mc_next m := new_buffer]> (mc_heap m))
                                    (mc_pool m) (S (mc_next m)) m)
  end.

(** [conn.ReadFrom(buf)] writes the packet at the start of the buffer. *)
Definition fill (b : nat) (data : list Z) (heap : gmap nat (list Z)) : gmap nat (list Z) :=
  alter (λ old, data ++ drop (length data) old) b heap.

(** The choices a reader's step leaves open. *)
Record reader_choice := { rc_buf : option nat; rc_packet : packet; rc_close : bool }.

Definition mc_reader_step (c : reader_choice) (st : mc_reader) : go multi_conn mc_reader :=
  match st with
  | MGet => b ← pool_get (rc_buf c); mret (MRead b)
  | MRead b =>
      let p := rc_packet c in
      modify (λ m, mc_set (mc_results m) (fill b (pk_data p) (mc_heap m)) (mc_pool m) (mc_next m) m) ;;
      mret (MDeliver {| rr_n := length (pk_data p); rr_addr := pk_addr p; rr_err := pk_err p; rr_buf := b;
                        rr_sent := p |})
  | MDeliver res => λ m,
      if rc_close c then Some ((if mc_closeCh m then MExit else MDeliver res), m)
      else
        match try_send res (mc_results m) with
        | SendPanic => None
        | Full => Some (MDeliver res, m)
        | Sent ch =>
            Some (match rr_err res with
                  | None => MGet
                  | Some e => if ne_timeout e then MGet else MExit
                  end,
                  mc_log [] [rr_sent res] (mc_set ch (mc_heap m) (mc_pool m) (mc_next m) m))
        end
  | MExit => λ m, if (mc_wg m <=? 0)%Z then None
                  else Some (MEnded, mc_control (mc_closeCh m) (mc_counter m) (mc_wg m - 1) (mc_readers m) m)
  | MEnded => mret MEnded
  end.

Definition read_returned (len : nat) (res : option readResult) (data : list Z) : read_return :=
  match res with
  | Some res => {| rt_len := len; rt_n := rr_n res; rt_addr := rr_addr res; rt_err := rr_err res; rt_data := data;
                   rt_from := Some (rr_sent res) |}
  | None => {| rt_len := len; rt_n := 0; rt_addr := None; rt_err := None; rt_data := data; rt_from := None |}
  end.

(** A step of [ReadFrom]: it waits on an empty open channel; a slice beyond
    the buffer panics.  The nil buffer of the zero result is an empty one. *)
Definition mc_ReadFrom (st : mc_call) : go multi_conn mc_call :=
  match st with
  | FWait len => λ m,
      match recv (mc_results m) with
      | inl (res, ch) => Some (FCopy len (Some res), mc_log [rr_sent res] [] (mc_set ch (mc_heap m) (mc_pool m) (mc_next m) m))
      | inr true => Some (FCopy len None, m)
      | inr false => Some (FWait len, m)
      end
  | FCopy len (Some res) => λ m,
      buf ← mc_heap m !! rr_buf res;
      if bool_decide (length buf < rr_n res) then None
      else Some (FPut len (Some res) (take len (take (rr_n res) buf)), m)
  | FCopy len None => mret (FPut len None [])
  | FPut len (Some res) data => λ m,
      Some (FRet (read_returned len (Some res) data),
            mc_set (mc_results m) (mc_heap m) (mc_pool m ++ [rr_buf res]) (mc_next m) m)
  | FPut len None data => λ m,
      Some (FRet (read_returned len None data),
            mc_set (mc_results m) (<[mc_next m := []]> (mc_heap m)) (mc_pool m ++ [mc_next m]) (S (mc_next m)) m)
  | FRet r => mret (FRet r)
  end.

(** [WriteTo]: the connection a packet goes to. *)
Definition mc_WriteTo : go multi_conn nat := λ m,
  let counter := wrap_uint 64 (mc_counter m + 1) in
  let idx := (wrap_uint 64 (counter - 1) mod Z.of_nat (mc_conns m))%Z in
  if bool_decide (mc_conns m = 0) then None
  else Some (Z.to_nat idx, mc_control (mc_closeCh m) counter (mc_wg m) (mc_readers m) m).

(** The result of a call made of every connection in turn, [SetDeadline] and
    the like: the last one's. *)
Definition set_all (answers : list (option error)) : option error := foldl (λ _ e, e) None answers.

Definition mc_closer_step (answers : list (option error)) (st : mc_closer) : go multi_conn mc_closer :=
  match st with
  | XStart => λ m, if mc_closeCh m then None
                   else Some (XConns 0 None, mc_control true (mc_counter m) (mc_wg m) (mc_readers m) m)
  | XConns i err => λ m,
      if bool_decide (i < mc_conns m) then Some (XConns (S i) (default None (answers !! i)), m) else Some (XWait err, m)
  | XWait err => λ m,
      if (mc_wg m =? 0)%Z then
        ch ← close_chan (mc_results m);
        Some (XRet err, mc_set ch (mc_heap m) (mc_pool m) (mc_next m) m)
      else Some (XWait err, m)
  | XRet err => mret (XRet err)
  end.

Definition LocalAddr (addrs : list string) : option string := head addrs.

(** ** The system *)
Definition put_reader (i : nat) (st : mc_reader) (m : multi_conn) : multi_conn :=
  mc_control (mc_closeCh m) (mc_counter m) (mc_wg m) (<[i := st]> (mc_readers m)) m.

Record mc_sys := { ms_conn : multi_conn; ms_closer : mc_closer }.

Inductive mc_event :=
  | MvReader (i : nat) (c : reader_choice)
  | MvCall (len : nat)
  | MvRead (j : nat)
  | MvWrite
  | MvClose (answers : list (option error)).

Definition mc_step (ev : mc_event) (s : mc_sys) : option mc_sys :=
  let m := ms_conn s in
  match ev with
  | MvReader i c =>
      match mc_readers m !! i with
      | None => Some s
      | Some st =>
          '(st', m') ← mc_reader_step c st m;
          Some {| ms_conn := put_reader i st' m'; ms_closer := ms_closer s |}
      end
  | MvCall len => Some {| ms_conn := put_calls (mc_calls m ++ [FWait len]) m; ms_closer := ms_closer s |}
  | MvRead j =>
      match mc_calls m !! j with
      | None => Some s
      | Some st =>
          '(st', m') ← mc_ReadFrom st m;
          Some {| ms_conn := put_calls (<[j := st']> (mc_calls m')) m'; ms_closer := ms_closer s |}
      end
  | MvWrite => '(_, m') ← mc_WriteTo m; Some {| ms_conn := m'; ms_closer := ms_closer s |}
  | MvClose answers =>
      '(st, m') ← mc_closer_step answers (ms_closer s) m; Some {| ms_conn := m'; ms_closer := st |}
  end.

Fixpoint mc_run (evs : list mc_event) (s : mc_sys) : option mc_sys :=
  match evs with
  | [] => Some s
  | ev :: evs => s ← mc_step ev s; mc_run evs s
  end.

(** The contract of [net.PacketConn]: no more bytes than the buffer holds. *)
Definition packet_fits (ev : mc_event) : bool :=
  match ev with MvReader _ c => bool_decide (length (pk_data (rc_packet c)) ≤ receiveMTU) | _ => true end.

(** ** The invariant *)

Definition reader_buf (st : mc_reader) : option nat :=
  match st with MRead b => Some b | MDeliver res => Some (rr_buf res) | _ => None end.
Definition reader_live (st : mc_reader) : bool := match st with MEnded => false | _ => true end.
Definition closed_conn (st : mc_closer) : bool := match st with XRet _ => true | _ => false end.

Definition call_buf (st : mc_call) : option nat :=
  match st with FCopy _ (Some res) | FPut _ (Some res) _ => Some (rr_buf res) | _ => None end.
Definition call_packet (st : mc_call) : option packet :=
  match st with
  | FCopy _ (Some res) | FPut _ (Some res) _ => Some (rr_sent res)
  | FRet r => rt_from r
  | _ => None
  end.
Definition returned_by (st : mc_call) : option read_return := match st with FRet r => Some r | _ => None end.
(** The calls of [ReadFrom] that have returned. *)
Definition mc_returned (m : multi_conn) : list read_return := omap returned_by (mc_calls m).

(** Every buffer in somebody's hands. *)
Definition in_use (m : multi_conn) : list nat :=
  omap reader_buf (mc_readers m) ++ omap call_buf (mc_calls m) ++ (rr_buf <$> ch_buf (mc_results m)) ++ mc_pool m.

(** The result still says what the connection answered. *)
Definition intact (heap : gmap nat (list Z)) (res : readResult) : Prop :=
  rr_n res = length (pk_data (rr_sent res)) ∧ rr_addr res = pk_addr (rr_sent res) ∧ rr_err res = pk_err (rr_sent res)
  ∧ ∃ buf, heap !! rr_buf res = Some buf ∧ rr_n res ≤ length buf ∧ take (rr_n res) buf = pk_data (rr_sent res).

(** What a call of [ReadFrom] may return: an answer of a connection, or the
    zero values, and then the channel was [closed]. *)
Definition returned_ok (closed : bool) (r : read_return) : Prop :=
  match rt_from r with
  | None => closed = true ∧ rt_n r = 0 ∧ rt_addr r = None ∧ rt_err r = None ∧ rt_data r = []
  | Some p => rt_n r = length (pk_data p) ∧ rt_addr r = pk_addr p ∧ rt_err r = pk_err p
              ∧ rt_data r = take (rt_len r) (pk_data p)
  end.

Definition call_ok (heap : gmap nat (list Z)) (closed : bool) (st : mc_call) : Prop :=
  match st with
  | FWait _ => True
  | FCopy _ (Some res) => intact heap res
  | FCopy _ None => closed = true
  | FPut len res data => returned_ok closed (read_returned len res data)
  | FRet r => returned_ok closed r
  end.

Record mc_ok (m : multi_conn) (cl : mc_closer) : Prop := {
  ok_wg : mc_wg m = Z.of_nat (length (filter (λ st, reader_live st = true) (mc_readers m)));
  ok_len : length (mc_readers m) = mc_conns m;
  ok_closed : ch_closed (mc_results m) = closed_conn cl;
  ok_closeCh : mc_closeCh m = match cl with XStart => false | _ => true end;
  ok_ended : closed_conn cl = true → Forall (λ st, reader_live st = false) (mc_readers m);
  ok_nodup : NoDup (in_use m);
  ok_bound : Forall (λ b, b < mc_next m) (in_use m);
  ok_heap : ∀ b, b < mc_next m → ∃ buf, mc_heap m !! b = Some buf ∧ (length buf = receiveMTU ∨ closed_conn cl = true);
  ok_calls : Forall (call_ok (mc_heap m) (closed_conn cl)) (mc_calls m);
  ok_results : Forall (intact (mc_heap m)) (ch_buf (mc_results m));
  ok_readers : ∀ i res, mc_readers m !! i = Some (MDeliver res) → intact (mc_heap m) res;
  ok_log : mc_delivered m = mc_received m ++ (rr_sent <$> ch_buf (mc_results m));
  ok_received : mc_received m ≡ₚ omap call_packet (mc_calls m);
  ok_conns : mc_conns m ≠ 0;
}.

(** A reader is replaced. *)
Lemma readers_split (l : list mc_reader) i st st' :
  l !! i = Some st → ∃ pre post, l = pre ++ st :: post ∧ <[i := st']> l = pre ++ st' :: post ∧ length pre = i.
Proof.
  intros H. exists (take i l), (drop (S i) l). pose proof (lookup_lt_Some _ _ _ H) as Hlt.
  split; [by rewrite take_drop_middle|]. split; [|rewrite length_take; lia].
  rewrite insert_take_drop by done. done.
Qed.

Lemma intact_fill heap res b data : rr_buf res ≠ b → intact heap res → intact (fill b data heap) res.
Proof.
  intros Hne (H1 & H2 & H3 & buf & H4 & H5). unfold intact, fill. rewrite lookup_alter_ne by done. eauto 10.
Qed.

Lemma intact_insert heap res b buf : rr_buf res ≠ b → intact heap res → intact (<[b := buf]> heap) res.
Proof. intros Hne (H1 & H2 & H3 & buf' & H4 & H5). unfold intact. rewrite lookup_insert_ne by done. eauto 10. Qed.

Lemma omap_cons {A B} (f : A → option B) x l : omap f (x :: l) = option_list (f x) ++ omap f l.
Proof. cbn. by destruct (f x). Qed.

Definition opt_list (o : option nat) : list nat := match o with Some b => [b] | None => [] end.

Lemma omap_split (pre post : list mc_reader) st :
  omap reader_buf (pre ++ st :: post) ≡ₚ opt_list (reader_buf st) ++ omap reader_buf (pre ++ post).
Proof.
  rewrite !omap_app. cbn. destruct (reader_buf st) as [b|]; cbn; [|done]. by rewrite <- Permutation_middle.
Qed.

(** What the others hold. *)
Definition others (pre post : list mc_reader) (m : multi_conn) : list nat :=
  omap reader_buf (pre ++ post) ++ omap call_buf (mc_calls m) ++ (rr_buf <$> ch_buf (mc_results m)) ++ mc_pool m.

Lemma in_use_split m pre st post :
  mc_readers m = pre ++ st :: post → in_use m ≡ₚ opt_list (reader_buf st) ++ others pre post m.
Proof. intros E. unfold in_use, others. by rewrite E, omap_split, <- app_assoc. Qed.

Lemma live_split (pre post : list mc_reader) st :
  length (filter (λ st, reader_live st = true) (pre ++ st :: post))
  = (if reader_live st then 1 else 0) + length (filter (λ st, reader_live st = true) (pre ++ post)).
Proof.
  rewrite !filter_app. destruct (reader_live st) eqn:E.
  - rewrite filter_cons_True by done. rewrite !length_app. cbn. lia.
  - rewrite filter_cons_False by by rewrite E. done.
Qed.

Lemma forall_mono {A} (P Q : A → Prop) (l : list A) : Forall P l → (∀ x, x ∈ l → P x → Q x) → Forall Q l.
Proof. rewrite !Forall_forall. auto. Qed.

(** A live reader takes a step to a state [st'] of [m']: what has to be
    checked of the buffers, the results and the wait group. *)
Lemma mc_ok_replace m m' cl pre st st' post :
  mc_ok m cl → mc_readers m = pre ++ st :: post → mc_readers m' = pre ++ st' :: post → reader_live st = true →
  mc_conns m' = mc_conns m → mc_closeCh m' = mc_closeCh m →
  ch_closed (mc_results m') = ch_closed (mc_results m) →
  (mc_wg m' = mc_wg m + (if reader_live st' then 0 else -1))%Z →
  NoDup (opt_list (reader_buf st') ++ others pre post m') →
  Forall (λ b, b < mc_next m') (opt_list (reader_buf st') ++ others pre post m') →
  (∀ b, b < mc_next m' → ∃ buf, mc_heap m' !! b = Some buf ∧ (length buf = receiveMTU ∨ closed_conn cl = true)) →
  mc_calls m' = mc_calls m →
  Forall (intact (mc_heap m')) (ch_buf (mc_results m')) →
  (∀ res, st' = MDeliver res → intact (mc_heap m') res) →
  (∀ res, intact (mc_heap m) res → rr_buf res ∈ others pre post m → intact (mc_heap m') res) →
  mc_delivered m' = mc_received m' ++ (rr_sent <$> ch_buf (mc_results m')) →
  mc_received m' = mc_received m → mc_ok m' cl.
Proof.
  intros [] E E' Hl Hn Hcc Hc Hwg Hnd Hb Hh Hcalls Hres Hst Hint Hlog Hrec.
  split; try done.
  - rewrite Hwg, ok_wg0, E, E', !live_split, Hl. destruct (reader_live st'); lia.
  - rewrite Hn, <- ok_len0, E, E', !length_app. done.
  - by rewrite Hc.
  - by rewrite Hcc.
  - intros Hcl%ok_ended0. rewrite E in Hcl. apply Forall_app in Hcl as [_ Hcl%Forall_cons]. destruct Hcl as [H _].
    by rewrite H in Hl.
  - by rewrite (in_use_split m' pre st' post E').
  - by rewrite (in_use_split m' pre st' post E').
  - rewrite Hcalls. eapply forall_mono; [exact ok_calls0|]. intros c Hin Hok. destruct c as [|len [res|]| |]; try done.
    apply Hint; [done|]. unfold others. rewrite !elem_of_app. right. left. apply list_elem_of_omap.
    by exists (FCopy len (Some res)).
  - intros i res. rewrite E'. destruct (decide (i = length pre)) as [->|Hne].
    + rewrite list_lookup_middle by done. intros [= ->]. by apply Hst.
    + intros Hi. assert ((pre ++ post) !! (if decide (i < length pre) then i else pred i) = Some (MDeliver res)) as Ho.
      { case_decide; [by rewrite lookup_app_l in * by done|]. rewrite lookup_app_r in * by lia.
        replace (i - length pre) with (S (pred i - length pre)) in Hi by lia. done. }
      apply Hint; [|unfold others; apply elem_of_app; left; apply list_elem_of_omap; exists (MDeliver res);
        by split; [eapply list_elem_of_lookup_2|]].
      apply (ok_readers0 i). rewrite E. destruct (decide (i < length pre)); [by rewrite lookup_app_l in * by done|].
      rewrite lookup_app_r in * by lia. by replace (i - length pre) with (S (pred i - length pre)) in * by lia.
  - by rewrite Hrec, Hcalls.
  - by rewrite Hn.
Qed.

(** What [mc_ok] says of the buffers, seen from one reader. *)
Lemma mc_ok_split m cl pre st post :
  mc_ok m cl → mc_readers m = pre ++ st :: post →
  NoDup (opt_list (reader_buf st) ++ others pre post m) ∧
  Forall (λ b, b < mc_next m) (opt_list (reader_buf st) ++ others pre post m).
Proof. intros Hok E. rewrite <- (in_use_split m pre st post E). split; apply Hok. Qed.

(** While a reader lives the channel is open, and every buffer is whole. *)
Lemma live_reader_open m cl pre st post :
  mc_ok m cl → mc_readers m = pre ++ st :: post → reader_live st = true → closed_conn cl = false.
Proof.
  intros Hok E Hl. destruct (closed_conn cl) eqn:Hc; [|done]. pose proof (ok_ended _ _ Hok Hc) as H. rewrite E in H.
  apply Forall_app in H as [_ [H _]%Forall_cons]. by rewrite H in Hl.
Qed.

(** A result in the channel holds a buffer of the others'. *)
Lemma result_in_others pre post m res : res ∈ ch_buf (mc_results m) → rr_buf res ∈ others pre post m.
Proof.
  intros H. unfold others. rewrite !elem_of_app. right. right. left. apply list_elem_of_fmap. by exists res.
Qed.

Lemma put_readers m m' pre st post i st' :
  mc_readers m = pre ++ st :: post → length pre = i → mc_readers m' = mc_readers m →
  mc_readers (put_reader i st' m') = pre ++ st' :: post.
Proof. intros E <- E'. cbn. by rewrite E', E, <- (Nat.add_0_r (length pre)), insert_app_r. Qed.

Lemma get_ok m cl pre post i c :
  mc_ok m cl → mc_readers m = pre ++ MGet :: post → length pre = i →
  wp (mc_reader_step c MGet) (λ st' m', mc_ok (put_reader i st' m') cl) m.
Proof.
  intros Hok E Hi. destruct (mc_ok_split m cl pre MGet post Hok E) as [Hnd Hb]. cbn in Hnd, Hb.
  unfold mc_reader_step. apply wp_bind. unfold pool_get, wp at 1.
  destruct (rc_buf c ≫= λ c0, mc_pool m !! c0) as [b|] eqn:Eb.
  - destruct (rc_buf c) as [j|]; [|done]. cbn in Eb |- *. apply wp_ret.
    pose proof (delete_Permutation _ _ _ Eb) as Hp.
    assert (b :: others pre post (mc_set (mc_results m) (mc_heap m) (delete j (mc_pool m)) (mc_next m) m)
      ≡ₚ others pre post m) as Hp'.
    { unfold others. cbn. rewrite Hp at 2. by rewrite !(assoc_L (++)), <- Permutation_middle. }
    eapply (mc_ok_replace m _ cl pre _ _ post Hok E); [by eapply (put_readers m)|..]; try done; try apply Hok; cbn.
    + lia.
    + by rewrite <- Hp' in Hnd.
    + by rewrite <- Hp' in Hb.
  - apply wp_ret.
    assert (mc_next m ∉ others pre post m) as Hnew.
    { intros H. rewrite Forall_forall in Hb. specialize (Hb _ H). lia. }
    eapply (mc_ok_replace m _ cl pre _ _ post Hok E); [by eapply (put_readers m)|..]; try done; try apply Hok; cbn.
    + lia.
    + by apply NoDup_cons.
    + apply Forall_cons. split; [lia|]. eapply Forall_impl; [exact Hb|]. cbn. lia.
    + intros b Hlt. destruct (decide (b = mc_next m)) as [->|Hne].
      * rewrite lookup_insert, decide_True by done. eexists. split; [done|left; apply length_new_buffer].
      * rewrite lookup_insert_ne by done. apply Hok. lia.
    + eapply forall_mono; [apply Hok|]. intros res Hin. apply intact_insert. intros Eb'.
      apply Hnew. rewrite <- Eb'. by apply result_in_others.
    + intros res Hres Hin. apply intact_insert; [|done]. intros Eb'. by rewrite Eb' in Hin.
Qed.

Lemma read_ok m cl pre post i b c :
  mc_ok m cl → mc_readers m = pre ++ MRead b :: post → length pre = i → length (pk_data (rc_packet c)) ≤ receiveMTU →
  wp (mc_reader_step c (MRead b)) (λ st' m', mc_ok (put_reader i st' m') cl) m.
Proof.
  intros Hok E Hi Hfit. destruct (mc_ok_split m cl pre _ post Hok E) as [Hnd Hb].
  cbn. apply wp_bind, wp_modify, wp_ret. cbn in Hnd. apply NoDup_cons in Hnd as [Hnb Hnd'].
  assert (b < mc_next m) as Hlt by by inversion Hb.
  pose proof (live_reader_open _ _ _ _ _ Hok E eq_refl) as Hopen.
  destruct (ok_heap _ _ Hok b Hlt) as (buf & Hbuf & [Hlen|Hlen]); [|by rewrite Hlen in Hopen].
  eapply (mc_ok_replace m _ cl pre _ _ post Hok E); [by eapply (put_readers m)|..]; try done; try apply Hok; cbn.
  - lia.
  - by apply NoDup_cons.
  - intros b' Hb'. unfold fill. destruct (decide (b' = b)) as [->|]; [|rewrite lookup_alter_ne by done; by apply Hok].
    rewrite lookup_alter_eq, Hbuf. eexists. split; [done|]. left. rewrite length_app, length_drop. lia.
  - eapply forall_mono; [apply Hok|]. intros res Hin. apply intact_fill. intros <-. by apply Hnb, result_in_others.
  - intros res [= <-]. repeat split. cbn. unfold fill. rewrite lookup_alter_eq, Hbuf. eexists. split; [done|].
    rewrite length_app. split; [lia|]. by rewrite take_app_length.
  - intros res Hres Hin. apply intact_fill; [|done]. by intros <-.
Qed.

Lemma deliver_ok m cl pre post i res c :
  mc_ok m cl → mc_readers m = pre ++ MDeliver res :: post → length pre = i →
  wp (mc_reader_step c (MDeliver res)) (λ st' m', mc_ok (put_reader i st' m') cl) m.
Proof.
  intros Hok E Hi. destruct (mc_ok_split m cl pre _ post Hok E) as [Hnd Hb].
  assert (intact (mc_heap m) res) as Hres.
  { apply (ok_readers _ _ Hok i). by rewrite E, list_lookup_middle. }
  cbn. unfold wp. destruct (rc_close c).
  - destruct (mc_closeCh m); eapply (mc_ok_replace m _ cl pre _ _ post Hok E);
      try (by eapply (put_readers m)); try done; try apply Hok; cbn in *; try lia.
    + by apply NoDup_cons in Hnd as [_ ?].
    + by apply Forall_cons in Hb as [_ ?].
    + by intros ? [= <-].
  - unfold try_send. destruct (ch_closed (mc_results m)) eqn:Ec.
    { rewrite (ok_closed _ _ Hok) in Ec. pose proof (ok_ended _ _ Hok Ec) as H. rewrite E in H.
      by apply Forall_app in H as [_ [H _]%Forall_cons]. }
    case_bool_decide; [|eapply (mc_ok_replace m _ cl pre _ _ post Hok E); [by eapply (put_readers m)|..]; try done; try apply Hok; cbn; [lia|by intros ? [= <-]]].
    assert (∀ st', reader_buf st' = None → opt_list (reader_buf st') ++ others pre post
      (mc_log [] [rr_sent res] (mc_set (Chan (ch_cap (mc_results m)) (ch_buf (mc_results m) ++ [res]) false)
        (mc_heap m) (mc_pool m) (mc_next m) m)) ≡ₚ rr_buf res :: others pre post m) as Hp.
    { intros st' ->. unfold others. cbn. rewrite fmap_app. cbn. rewrite <- (assoc_L (++) (rr_buf <$> _)). cbn.
      by do 3 rewrite <- Permutation_middle. }
    set (next := match rr_err res with None => MGet | Some e => if ne_timeout e then MGet else MExit end).
    assert (reader_buf next = None ∧ reader_live next = true) as [Hn1 Hn2] by by unfold next; repeat case_match.
    assert (∀ r, next ≠ MDeliver r) as Hn3 by by unfold next; repeat case_match.
    eapply (mc_ok_replace m _ cl pre _ _ post Hok E); [by eapply (put_readers m)|..]; try done; try apply Hok; cbn -[next].
    + rewrite Hn2. lia.
    + by apply (NoDup_Permutation_proper _ _ (Hp next Hn1)).
    + rewrite (Hp next Hn1). exact Hb.
    + apply Forall_app. split; [apply Hok|by constructor].
    + intros r Hr. by destruct (Hn3 r).
    + rewrite (ok_log _ _ Hok), app_nil_r, fmap_app. by rewrite app_assoc.
    + by rewrite app_nil_r.
Qed.

Lemma exit_ok m cl pre post i c :
  mc_ok m cl → mc_readers m = pre ++ MExit :: post → length pre = i →
  wp (mc_reader_step c MExit) (λ st' m', mc_ok (put_reader i st' m') cl) m.
Proof.
  intros Hok E Hi. destruct (mc_ok_split m cl pre _ post Hok E) as [Hnd Hb].
  assert ((mc_wg m <=? 0)%Z = false) as Hwg.
  { rewrite (ok_wg _ _ Hok), E, live_split. cbn. apply Z.leb_gt. lia. }
  cbn. unfold wp. rewrite Hwg.
  eapply (mc_ok_replace m _ cl pre _ _ post Hok E); try (by eapply (put_readers m)); try done; try apply Hok.
Qed.

Lemma mc_reader_step_ok m cl i st c :
  mc_ok m cl → mc_readers m !! i = Some st → length (pk_data (rc_packet c)) ≤ receiveMTU →
  wp (mc_reader_step c st) (λ st' m', mc_ok (put_reader i st' m') cl) m.
Proof.
  intros Hok Hi Hfit. destruct (readers_split _ _ _ st Hi) as (pre & post & E & Hid & Hlen).
  destruct st.
  - by eapply get_ok.
  - by eapply read_ok.
  - by eapply deliver_ok.
  - by eapply exit_ok.
  - apply wp_ret. unfold put_reader. rewrite list_insert_id by done. by destruct m.
Qed.

(** A call of [ReadFrom] takes a step to a state [st'] of [m']. *)
Lemma mc_ok_call m m' cl pre st st' post :
  mc_ok m cl → mc_calls m = pre ++ st :: post → mc_calls m' = pre ++ st' :: post →
  mc_readers m' = mc_readers m → mc_conns m' = mc_conns m → mc_closeCh m' = mc_closeCh m → mc_wg m' = mc_wg m →
  ch_closed (mc_results m') = ch_closed (mc_results m) →
  NoDup (in_use m') → Forall (λ b, b < mc_next m') (in_use m') →
  (∀ b, b < mc_next m' → ∃ buf, mc_heap m' !! b = Some buf ∧ (length buf = receiveMTU ∨ closed_conn cl = true)) →
  (∀ res, intact (mc_heap m) res → rr_buf res ∈ in_use m → intact (mc_heap m') res) →
  call_ok (mc_heap m') (closed_conn cl) st' →
  (∃ taken, ch_buf (mc_results m) = taken ++ ch_buf (mc_results m') ∧
     mc_received m' = mc_received m ++ (rr_sent <$> taken) ∧ mc_delivered m' = mc_delivered m ∧
     option_list (call_packet st') ≡ₚ option_list (call_packet st) ++ (rr_sent <$> taken)) →
  mc_ok m' cl.
Proof.
  intros Hok E E' Hr Hn Hcc Hwg Hc Hnd Hb Hh Hint Hst (taken & Hbuf & Hrec & Hdel & Hpk).
  pose proof Hok as [].
  assert (∀ c, c ∈ mc_calls m → call_ok (mc_heap m) (closed_conn cl) c → call_ok (mc_heap m') (closed_conn cl) c) as Hmono.
  { intros c Hin Hcok. destruct c as [|len [res|]| |]; try done. apply Hint; [done|]. unfold in_use.
    rewrite !elem_of_app. right. left. apply list_elem_of_omap. by exists (FCopy len (Some res)). }
  split; rewrite ?Hr, ?Hn, ?Hcc, ?Hwg, ?Hc; try done.
  - pose proof (forall_mono _ _ _ ok_calls0 Hmono) as Hall. rewrite E' in *. rewrite E in Hall.
    apply Forall_app in Hall as [H1 [_ H2]%Forall_cons]. apply Forall_app. split; [done|by constructor].
  - rewrite Hbuf in ok_results0. apply Forall_app in ok_results0 as [_ H]. eapply forall_mono; [exact H|].
    intros res Hin Hi. apply Hint; [done|]. unfold in_use. rewrite Hbuf, fmap_app, !elem_of_app.
    right. right. left. right. apply list_elem_of_fmap. by exists res.
  - intros i res Hi. apply Hint; [by eapply ok_readers0|]. unfold in_use. rewrite elem_of_app. left.
    apply list_elem_of_omap. exists (MDeliver res). split; [by eapply list_elem_of_lookup_2|done].
  - rewrite Hdel, ok_log0, Hrec, Hbuf, fmap_app. by rewrite app_assoc.
  - rewrite Hrec, ok_received0, E, E', !omap_app, !omap_cons, Hpk, <- !app_assoc.
    do 2 apply Permutation_app_head. apply Permutation_app_comm.
Qed.

Definition put_call (j : nat) (st : mc_call) (m : multi_conn) : multi_conn := put_calls (<[j := st]> (mc_calls m)) m.

(** The buffers in use, from a call's side. *)
Lemma in_use_call m pre st post :
  mc_calls m = pre ++ st :: post →
  in_use m ≡ₚ option_list (call_buf st) ++
    (omap reader_buf (mc_readers m) ++ omap call_buf (pre ++ post) ++ (rr_buf <$> ch_buf (mc_results m)) ++ mc_pool m).
Proof.
  intros E. unfold in_use. rewrite E, !omap_app, omap_cons.
  destruct (call_buf st) as [b|]; cbn; [|done]. rewrite <- !app_assoc. cbn.
  by rewrite <- Permutation_middle, <- Permutation_middle.
Qed.

Lemma mc_ReadFrom_ok m cl j st :
  mc_ok m cl → mc_calls m !! j = Some st → wp (mc_ReadFrom st) (λ st' m', mc_ok (put_call j st' m') cl) m.
Proof.
  intros Hok Hj. pose proof (take_drop_middle _ _ _ Hj) as E. symmetry in E.
  assert (∀ m' st', mc_calls m' = mc_calls m →
    mc_calls (put_call j st' m') = take j (mc_calls m) ++ st' :: drop (S j) (mc_calls m)) as E'.
  { intros m' st' Hm. cbn. rewrite Hm. apply insert_take_drop. by eapply lookup_lt_Some. }
  set (pre := take j (mc_calls m)) in *. set (post := drop (S j) (mc_calls m)) in *.
  pose proof (in_use_call m pre st post E) as Hin. pose proof (ok_nodup _ _ Hok) as Hnd.
  pose proof (ok_bound _ _ Hok) as Hbd. pose proof (ok_calls _ _ Hok) as Hst. rewrite E in Hst.
  apply Forall_app in Hst as [_ [Hst _]%Forall_cons].
  assert (∀ m' st', mc_calls m' = mc_calls m → in_use (put_call j st' m') ≡ₚ option_list (call_buf st') ++
    (omap reader_buf (mc_readers m') ++ omap call_buf (pre ++ post) ++ (rr_buf <$> ch_buf (mc_results m')) ++ mc_pool m'))
    as Hin' by exact (λ m' st' Hm, in_use_call (put_call j st' m') pre st' post (E' m' st' Hm)).
  destruct st as [len|len [res|]|len [res|] data|r]; cbn [mc_ReadFrom].
  - unfold wp, recv. destruct (ch_buf (mc_results m)) as [|res buf] eqn:Eb.
    + assert (∀ st', st' = FWait len ∨ st' = FCopy len None ∧ ch_closed (mc_results m) = true →
        mc_ok (put_call j st' m) cl) as Hidle.
      { intros st' Hst'. assert (in_use (put_call j st' m) ≡ₚ in_use m) as Hp.
        { rewrite Hin', Hin, Eb by done. by destruct Hst' as [-> |[-> _]]. }
        eapply (mc_ok_call m _ cl _ _ _ _ Hok E); [by apply E'|..]; try done; try apply Hok; rewrite ?Hp; try done.
        - destruct Hst' as [-> |[-> Hc]]; [done|]. cbn. by rewrite <- (ok_closed _ _ Hok).
        - exists []. cbn. rewrite Eb, app_nil_r. by destruct Hst' as [-> |[-> _]]. }
      destruct (ch_closed (mc_results m)) eqn:Ec; apply Hidle; auto.
    + set (m1 := mc_log _ _ _). pose proof (ok_results _ _ Hok) as Hres. rewrite Eb in Hres.
      apply Forall_cons in Hres as [Hr _].
      assert (in_use (put_call j (FCopy len (Some res)) m1) ≡ₚ in_use m) as Hp.
      { rewrite Hin', Hin by done. cbn. by do 2 rewrite <- Permutation_middle. }
      eapply (mc_ok_call m _ cl _ _ _ _ Hok E); [by apply E'|..]; try done; try apply Hok; rewrite ?Hp; try done.
      exists [res]. cbn. by rewrite Eb, app_nil_r.
  - cbn in Hst. destruct Hst as (Hn & Ha & He & b & Hb & Hlen & Htake). unfold wp. rewrite Hb. cbn.
    rewrite bool_decide_false by lia. set (st' := FPut _ _ _).
    assert (in_use (put_call j st' m) ≡ₚ in_use m) as Hp by by rewrite Hin', Hin.
    eapply (mc_ok_call m _ cl _ _ _ _ Hok E); [by apply E'|..]; try done; try apply Hok; rewrite ?Hp; try done.
    + cbn. by rewrite Htake.
    + exists []. cbn. by rewrite app_nil_r.
  - apply wp_ret. set (st' := FPut _ _ _).
    assert (in_use (put_call j st' m) ≡ₚ in_use m) as Hp by by rewrite Hin', Hin.
    eapply (mc_ok_call m _ cl _ _ _ _ Hok E); [by apply E'|..]; try done; try apply Hok; rewrite ?Hp; try done.
    exists []. cbn. by rewrite app_nil_r.
  - unfold wp. set (m1 := mc_set _ _ _ _ _). set (st' := FRet _).
    assert (in_use (put_call j st' m1) ≡ₚ in_use m) as Hp.
    { rewrite Hin', Hin by done. cbn. rewrite !(assoc_L (++)). symmetry. apply Permutation_cons_append. }
    eapply (mc_ok_call m _ cl _ _ _ _ Hok E); [by apply E'|..]; try done; try apply Hok; rewrite ?Hp; try done.
    exists []. cbn. by rewrite app_nil_r.
  - unfold wp. set (m1 := mc_set _ _ _ _ _). set (st' := FRet _). cbn in Hst.
    assert (closed_conn cl = true) as Hcl by apply Hst.
    assert (in_use (put_call j st' m1) ≡ₚ mc_next m :: in_use m) as Hp.
    { rewrite Hin', Hin by done. cbn. rewrite !(assoc_L (++)). symmetry. apply Permutation_cons_append. }
    assert (mc_next m ∉ in_use m) as Hnew by (intros H; rewrite Forall_forall in Hbd; specialize (Hbd _ H); lia).
    eapply (mc_ok_call m _ cl _ _ _ _ Hok E); [by apply E'|..]; try done; try apply Hok; rewrite ?Hp; cbn; try done.
    + by apply NoDup_cons.
    + constructor; [lia|]. eapply Forall_impl; [exact Hbd|]. cbn. lia.
    + intros b Hlt. destruct (decide (b = mc_next m)) as [->|Hne].
      * rewrite lookup_insert_eq. eauto.
      * rewrite lookup_insert_ne by done. apply Hok. lia.
    + intros res Hres Hi. apply intact_insert; [|done]. by intros Eb'; rewrite Eb' in Hi.
    + exists []. cbn. by rewrite app_nil_r.
  - apply wp_ret. unfold put_call. rewrite list_insert_id by done. by destruct m.
Qed.

Lemma mc_WriteTo_ok m cl : mc_ok m cl → wp mc_WriteTo (λ i m', mc_ok m' cl ∧ i < mc_conns m) m.
Proof.
  intros Hok. pose proof (ok_conns _ _ Hok) as Hn. unfold wp, mc_WriteTo. rewrite bool_decide_false by done. split; [by destruct Hok|].
  set (c := wrap_uint 64 _). pose proof (Z.mod_pos_bound c (Z.of_nat (mc_conns m)) ltac:(lia)). lia.
Qed.

(** What holds of a call on the open channel holds when it is closed. *)
Lemma call_ok_closed heap closed st : call_ok heap closed st → call_ok heap true st.
Proof.
  destruct st as [| |len res data|r]; cbn; try (by destruct res); try done.
  - unfold returned_ok. destruct (rt_from _); [done|]. by intros (_ & H).
  - unfold returned_ok. destruct (rt_from _); [done|]. by intros (_ & H).
Qed.

(** A new call. *)
Lemma mc_ok_call_new m cl len : mc_ok m cl → mc_ok (put_calls (mc_calls m ++ [FWait len]) m) cl.
Proof.
  intros [].
  assert (in_use (put_calls (mc_calls m ++ [FWait len]) m) = in_use m) as Hin
    by (unfold in_use; cbn; by rewrite omap_app, app_nil_r).
  split; rewrite ?Hin; cbn; try done.
  - apply Forall_app. split; [done|by constructor].
  - by rewrite omap_app, app_nil_r.
Qed.

Lemma mc_closer_step_ok m st answers : mc_ok m st → wp (mc_closer_step answers st) (λ st' m', mc_ok m' st') m.
Proof.
  intros Hok. destruct st as [|i err|err|err]; cbn; unfold wp.
  - rewrite (ok_closeCh _ _ Hok). by destruct Hok.
  - case_bool_decide; by destruct Hok.
  - destruct (Z.eqb_spec (mc_wg m) 0) as [H0|]; [|done]. unfold close_chan. rewrite (ok_closed _ _ Hok). cbn.
    destruct Hok. split; try done.
    + intros _. rewrite H0 in ok_wg0. cbn. apply Forall_forall. intros st Hin.
      destruct (reader_live st) eqn:E; [|done].
      assert (st ∈ filter (λ st, reader_live st = true) (mc_readers m)) as H by by apply list_elem_of_filter.
      destruct (filter _ _); [by apply not_elem_of_nil in H|done].
    + intros b Hb. destruct (ok_heap0 b Hb) as (buf & Hbuf & _). eauto.
    + eapply Forall_impl; [exact ok_calls0|]. intros st. apply call_ok_closed.
  - done.
Qed.

Lemma mc_step_ok ev s :
  mc_ok (ms_conn s) (ms_closer s) → packet_fits ev = true →
  ∃ s', mc_step ev s = Some s' ∧ mc_ok (ms_conn s') (ms_closer s').
Proof.
  intros Hok Hfit. destruct ev as [i c|len|j| |answers]; cbn in *.
  - destruct (mc_readers (ms_conn s) !! i) as [st|] eqn:Hi; [|by eexists].
    apply bool_decide_eq_true in Hfit.
    destruct (proj1 (wp_inv _ _ _) (mc_reader_step_ok _ _ i st c Hok Hi Hfit)) as (st' & m' & -> & H). cbn. eauto.
  - eexists. split; [done|]. by apply mc_ok_call_new.
  - destruct (mc_calls (ms_conn s) !! j) as [st|] eqn:Hj; [|by eexists].
    destruct (proj1 (wp_inv _ _ _) (mc_ReadFrom_ok _ _ j st Hok Hj)) as (? & m' & -> & H). cbn. eauto.
  - destruct (proj1 (wp_inv _ _ _) (mc_WriteTo_ok _ _ Hok)) as (? & m' & -> & H & _). cbn. eauto.
  - destruct (proj1 (wp_inv _ _ _) (mc_closer_step_ok _ _ answers Hok)) as (st' & m' & -> & H). cbn. eauto.
Qed.

Lemma mc_run_ok evs s :
  mc_ok (ms_conn s) (ms_closer s) → forallb packet_fits evs = true →
  ∃ s', mc_run evs s = Some s' ∧ mc_ok (ms_conn s') (ms_closer s').
Proof.
  revert s. induction evs as [|ev evs IH]; intros s Hs Hf; cbn in *; [eauto|].
  apply andb_true_iff in Hf as [H1 H2]. destruct (mc_step_ok ev s Hs H1) as (s1 & -> & Hs1). cbn. by apply IH.
Qed.

Lemma live_replicate n : length (filter (λ st, reader_live st = true) (replicate n MGet)) = n.
Proof. induction n as [|n IH]; [done|]. cbn [replicate]. rewrite filter_cons_True by done. cbn. by rewrite IH. Qed.

Lemma newMultiConn_ok conns m : newMultiConn conns = Ok m → mc_ok m XStart.
Proof.
  unfold newMultiConn. rewrite bind_unit_ok, guard_err_ok, bind_unit_ok, guard_err_ok.
  intros (Hne & Hnil & [= <-]). apply bool_decide_eq_false in Hne.
  assert (omap reader_buf (replicate (length conns) MGet) = []) as Hnone by by induction (length conns).
  split; cbn; try done.
  - by rewrite live_replicate.
  - by rewrite length_replicate.
  - unfold in_use. cbn. rewrite Hnone. constructor.
  - unfold in_use. cbn. by rewrite Hnone.
  - lia.
  - intros i res Hi. apply lookup_replicate in Hi as [? _]. done.
  - by destruct conns.
Qed.

(** ** The distribution of writes *)

Fixpoint writes (k : nat) : go multi_conn (list nat) :=
  match k with
  | 0 => mret []
  | S k => i ← mc_WriteTo; l ← writes k; mret (i :: l)
  end.

Definition target (n : nat) (c : Z) (j : nat) : nat := Z.to_nat ((c + Z.of_nat j) mod Z.of_nat n).

Lemma mc_WriteTo_target m :
  mc_conns m ≠ 0 → (0 ≤ mc_counter m < 2 ^ 64)%Z →
  mc_WriteTo m = Some (target (mc_conns m) (mc_counter m) 0,
                       mc_control (mc_closeCh m) (wrap_uint 64 (mc_counter m + 1)) (mc_wg m) (mc_readers m) m).
Proof.
  intros Hn Hc. unfold mc_WriteTo. rewrite bool_decide_false by done. unfold target.
  replace (wrap_uint 64 (wrap_uint 64 (mc_counter m + 1) - 1)) with (mc_counter m); [by rewrite Z.add_0_r|].
  unfold wrap_uint. rewrite Zminus_mod_idemp_l, Z.mod_small; lia.
Qed.

Lemma writes_targets k m :
  mc_conns m ≠ 0 → (0 ≤ mc_counter m)%Z → (mc_counter m + Z.of_nat k ≤ 2 ^ 64)%Z →
  fst <$> writes k m = Some (target (mc_conns m) (mc_counter m) <$> seq 0 k).
Proof.
  revert m. induction k as [|k IH]; intros m Hn H0 Hk; [done|].
  cbn [writes]. unfold mbind, go_bind. rewrite mc_WriteTo_target by lia.
  set (m1 := mc_control _ _ _ _ _).
  destruct (decide (k = 0)) as [->|Hk0]; [done|].
  assert (mc_counter m1 = mc_counter m + 1)%Z as Hc.
  { cbn. unfold wrap_uint. rewrite Z.mod_small; lia. }
  specialize (IH m1 Hn ltac:(lia) ltac:(lia)).
  destruct (writes k m1) as [[l m2]|]; [|done]. cbn in IH |- *. injection IH as ->. f_equal. f_equal.
  rewrite <- seq_shift, <- list_fmap_compose. apply list_fmap_ext. intros j x _. unfold target, compose.
  cbn in Hc. rewrite Hc. do 2 f_equal. lia.
Qed.

Lemma target_perm n c : n ≠ 0 → target n c <$> seq 0 n ≡ₚ seq 0 n.
Proof.
  intros Hn. apply Permutation.NoDup_Permutation_bis.
  - apply NoDup_ListNoDup, NoDup_fmap_2_strong; [|apply NoDup_seq].
    intros i j Hi%elem_of_seq Hj%elem_of_seq E. unfold target in E.
    apply Z2Nat.inj in E; [|apply Z.mod_pos_bound; lia..].
    pose proof (Z.div_mod (c + Z.of_nat i) (Z.of_nat n) ltac:(lia)) as E1.
    pose proof (Z.div_mod (c + Z.of_nat j) (Z.of_nat n) ltac:(lia)) as E2. rewrite E in E1.
    set (a := ((c + Z.of_nat i) / Z.of_nat n)%Z) in *. set (b := ((c + Z.of_nat j) / Z.of_nat n)%Z) in *.
    assert (a = b) by nia. lia.
  - by rewrite length_fmap.
  - intros i Hi%list_elem_of_In. apply list_elem_of_In. apply list_elem_of_fmap in Hi as (j & -> & _).
    apply elem_of_seq. unfold target. pose proof (Z.mod_pos_bound (c + Z.of_nat j) (Z.of_nat n) ltac:(lia)). lia.
Qed.

(** ** Close *)

Definition closed_answer : reader_choice :=
  {| rc_buf := None; rc_close := true;
     rc_packet := {| pk_data := []; pk_addr := None;
                     pk_err := Some {| ne_err := EText "use of closed network connection"; ne_timeout := false |} |} |}.

Lemma mc_run_app evs evs' s : mc_run (evs ++ evs') s = s' ← mc_run evs s; mc_run evs' s'.
Proof. revert s. induction evs as [|ev evs IH]; intros s; cbn; [done|]. destruct (mc_step ev s); cbn; auto. Qed.

Definition reader_left (st : mc_reader) : nat :=
  match st with MGet => 4 | MRead _ => 3 | MDeliver _ => 2 | MExit => 1 | MEnded => 0 end.

Definition readers_left (l : list mc_reader) : nat := foldr (λ st n, reader_left st + n) 0 l.

Lemma readers_left_0 l : readers_left l = 0 → filter (λ st, reader_live st = true) l = [].
Proof.
  unfold readers_left. induction l as [|st l IH]; [done|]. intros H.
  destruct st; cbn in H; try lia. rewrite filter_cons_False by done. apply IH. lia.
Qed.

Lemma readers_left_pos l : 0 < readers_left l → ∃ i st, l !! i = Some st ∧ 0 < reader_left st.
Proof.
  unfold readers_left. induction l as [|st l IH]; cbn; [lia|]. intros H.
  destruct (decide (0 < reader_left st)) as [Hst|Hst]; [by exists 0, st|].
  destruct (IH ltac:(lia)) as (i & st' & Hi & Hst'). by exists (S i), st'.
Qed.

Lemma readers_left_insert l i st st' :
  l !! i = Some st → reader_left st' < reader_left st → readers_left (<[i := st']> l) < readers_left l.
Proof.
  unfold readers_left. revert i. induction l as [|x l IH]; intros i Hi Hlt; [done|].
  destruct i as [|i]; cbn in *; [simplify_eq; lia|]. by apply Nat.add_lt_mono_l, IH.
Qed.

(** The readers come to their end once [closeCh] is closed. *)
Lemma readers_finish n s :
  mc_ok (ms_conn s) (ms_closer s) → mc_closeCh (ms_conn s) = true → readers_left (mc_readers (ms_conn s)) ≤ n →
  ∃ evs s', forallb packet_fits evs = true ∧ mc_run evs s = Some s' ∧ mc_ok (ms_conn s') (ms_closer s')
    ∧ ms_closer s' = ms_closer s ∧ mc_wg (ms_conn s') = 0%Z.
Proof.
  revert s. induction n as [n IH] using lt_wf_ind. intros s Hok Hc Hn.
  destruct (decide (0 < readers_left (mc_readers (ms_conn s)))) as [Hpos|H0].
  - destruct (readers_left_pos _ Hpos) as (i & st & Hi & Hst).
    destruct (proj1 (wp_inv _ _ _) (mc_reader_step_ok _ _ i st closed_answer Hok Hi (Nat.le_0_l _)))
      as (st' & m' & Hstep & Hok').
    assert (reader_left st' < reader_left st ∧ mc_closeCh m' = true ∧ mc_readers m' = mc_readers (ms_conn s))
      as (Hlt & Hc' & Hr').
    { destruct st; cbn in Hst, Hstep; unfold mbind, go_bind, pool_get, mret, go_ret, modify in Hstep; cbn in Hstep;
        rewrite ?Hc in Hstep; repeat case_match; simplify_eq; cbn; (split; [lia|done]) || lia. }
    set (s1 := {| ms_conn := put_reader i st' m'; ms_closer := ms_closer s |}).
    destruct (IH (readers_left (mc_readers (ms_conn s1)))) with (s := s1) as (evs & s' & Hf & Hrun & H); auto.
    { eapply Nat.lt_le_trans; [|exact Hn]. cbn. rewrite Hr'. by eapply readers_left_insert. }
    exists (MvReader i closed_answer :: evs), s'. split; [by rewrite <- Hf|]. split; [|done].
    cbn. by rewrite Hi, Hstep.
  - exists [], s. do 4 (split; [done|]). rewrite (ok_wg _ _ Hok), readers_left_0; [done|lia].
Qed.

(** [n] iterations of the loop over the connections. *)
Lemma close_loop n s i err :
  mc_ok (ms_conn s) (ms_closer s) → ms_closer s = XConns i err → mc_conns (ms_conn s) - i ≤ n →
  ∃ evs s' err', forallb packet_fits evs = true ∧ mc_run evs s = Some s' ∧ ms_conn s' = ms_conn s
    ∧ ms_closer s' = XWait err'.
Proof.
  revert s i err. induction n as [|n IH]; intros [m cl] i err Hok Hcl Hn; cbn in *; subst cl.
  - exists [MvClose []], {| ms_conn := m; ms_closer := XWait err |}, err. cbn. rewrite bool_decide_false by lia. done.
  - destruct (decide (i < mc_conns m)) as [Hi|Hi].
    + destruct (proj1 (wp_inv _ _ _) (mc_closer_step_ok m (XConns i err) [] Hok)) as (st & m' & Hst & Hok').
      cbn in Hst. rewrite bool_decide_true in Hst by done. injection Hst as <- <-.
      destruct (IH {| ms_conn := m; ms_closer := XConns (S i) None |} (S i) None Hok' eq_refl ltac:(cbn; lia))
        as (evs & s' & e & Hf & Hrun & H).
      exists (MvClose [] :: evs), s', e. split; [done|]. split; [|done]. cbn. by rewrite bool_decide_true.
    + exists [MvClose []], {| ms_conn := m; ms_closer := XWait err |}, err. cbn. by rewrite bool_decide_false.
Qed.

Lemma wait_finishes s err :
  mc_ok (ms_conn s) (ms_closer s) → ms_closer s = XWait err →
  ∃ evs s', forallb packet_fits evs = true ∧ mc_run evs s = Some s' ∧ ms_closer s' = XRet err.
Proof.
  intros Hok Hcl.
  assert (mc_closeCh (ms_conn s) = true) as Hc by by rewrite (ok_closeCh _ _ Hok), Hcl.
  destruct (readers_finish _ s Hok Hc (le_n _)) as (evs & s1 & Hf & Hrun & Hok1 & Hcl1 & Hwg).
  destruct s1 as [m1 cl1]. cbn in *. rewrite Hcl in Hcl1. subst cl1.
  exists (evs ++ [MvClose []]). eexists. rewrite forallb_app, Hf, mc_run_app, Hrun. split; [done|]. cbn.
  rewrite Hwg. cbn. unfold close_chan. rewrite (ok_closed _ _ Hok1). cbn. done.
Qed.

(** ** Properties *)

Definition toy_packet (data : list Z) : reader_choice :=
  {| rc_buf := Some 0; rc_close := false;
     rc_packet := {| pk_data := data; pk_addr := Some "peer"; pk_err := None |} |}.

Definition toy_multi : multi_conn :=
  match newMultiConn [true; true] with Ok m => m | Err _ => mc_set (make_chan 0) ∅ [] 0
    {| mc_conns := 0; mc_results := make_chan 0; mc_closeCh := false; mc_heap := ∅; mc_pool := []; mc_next := 0;
       mc_counter := 0; mc_wg := 0; mc_readers := []; mc_calls := []; mc_received := []; mc_delivered := [] |} end.

Lemma toy_multi_new : newMultiConn [true; true] = Ok toy_multi.
Proof. reflexivity. Qed.

Lemma toy_multi_ok : mc_ok toy_multi XStart.
Proof. exact (newMultiConn_ok _ _ toy_multi_new). Qed.

(** Two packets on the two connections, read with a short and a long slice;
    the two calls of [ReadFrom] overlap. *)
Definition toy_events : list mc_event :=
  [MvCall 1; MvReader 0 (toy_packet [1; 2; 3]%Z); MvReader 1 (toy_packet [7; 8]%Z); MvReader 1 (toy_packet [7; 8]%Z);
   MvReader 0 (toy_packet [1; 2; 3]%Z); MvReader 1 (toy_packet [7; 8]%Z); MvReader 0 (toy_packet [1; 2; 3]%Z);
   MvCall 1500; MvRead 0; MvRead 1; MvRead 1; MvReader 1 (toy_packet [5]%Z); MvRead 1; MvReader 1 (toy_packet [5]%Z);
   MvRead 0; MvRead 0; MvWrite; MvWrite; MvWrite].

(** C23: whatever the interleaving of the readers, of any number of calls of
    [ReadFrom] (receiving, copying and giving the buffer back are steps of
    their own), of [WriteTo] and of one call of [Close], a multi connection
    does not panic: no send on the closed result channel, no slice out of its
    buffer, no negative wait group.  Although buffers are recycled, every call
    of [ReadFrom] that returns either returns exactly what one connection
    answered to one read (its length, its peer, its error and, up to the
    length of the argument, its bytes), or the zero values, and then only
    because [Close] has closed the result channel.  The answers are taken in
    the order the readers delivered them, and each is given to one call. *)
Theorem reads_are_intact conns m evs :
  newMultiConn conns = Ok m → forallb packet_fits evs = true →
  ∃ s, mc_run evs {| ms_conn := m; ms_closer := XStart |} = Some s
    ∧ Forall (returned_ok (closed_conn (ms_closer s))) (mc_returned (ms_conn s))
    ∧ mc_delivered (ms_conn s) = mc_received (ms_conn s) ++ (rr_sent <$> ch_buf (mc_results (ms_conn s)))
    ∧ mc_received (ms_conn s) ≡ₚ omap call_packet (mc_calls (ms_conn s)).
Proof.
  intros Hm Hf. destruct (mc_run_ok evs {| ms_conn := m; ms_closer := XStart |} (newMultiConn_ok _ _ Hm) Hf)
    as (s & Hrun & Hok).
  exists s. split; [done|]. split; [|split; apply Hok]. apply Forall_forall. intros r Hr.
  apply list_elem_of_omap in Hr as (st & Hin & Hst). pose proof (ok_calls _ _ Hok) as H. rewrite Forall_forall in H.
  specialize (H st Hin). destruct st; cbn in Hst; simplify_eq. exact H.
Qed.

Lemma reads_are_intact_witness :
  ∃ s, mc_run toy_events {| ms_conn := toy_multi; ms_closer := XStart |} = Some s
    ∧ Forall (returned_ok false) (mc_returned (ms_conn s))
    ∧ rt_data <$> mc_returned (ms_conn s) = [[7]; [1; 2; 3]]%Z ∧ rt_n <$> mc_returned (ms_conn s) = [2; 3].
Proof.
  destruct (reads_are_intact [true; true] toy_multi toy_events toy_multi_new ltac:(vm_compute; reflexivity)) as (s & Hrun & Hret & _).
  assert ((λ s, (closed_conn (ms_closer s), rt_data <$> mc_returned (ms_conn s), rt_n <$> mc_returned (ms_conn s))) <$>
    mc_run toy_events {| ms_conn := toy_multi; ms_closer := XStart |} = Some (false, [[7]; [1; 2; 3]]%Z, [2; 3])) as H
    by (vm_compute; reflexivity).
  rewrite Hrun in H. injection H as H0 H1 H2. rewrite H0 in Hret.
  exists s. split; [exact Hrun|]. split; [exact Hret|]. split; assumption.
Defined.

(** Writes are spread evenly: the [j]-th of a sequence of writes goes to
    connection [(counter + j) mod n], always an index of [conns], and any [n]
    successive writes use each of the [n] connections exactly once, until the
    64-bit counter comes to its end. *)
Theorem writes_round_robin m k :
  mc_conns m ≠ 0 → (0 ≤ mc_counter m)%Z → (mc_counter m + Z.of_nat k ≤ 2 ^ 64)%Z →
  fst <$> writes k m = Some (target (mc_conns m) (mc_counter m) <$> seq 0 k)
  ∧ (k = mc_conns m → ∃ l m', writes k m = Some (l, m') ∧ l ≡ₚ seq 0 (mc_conns m)).
Proof.
  intros Hn H0 Hk. pose proof (writes_targets k m Hn H0 Hk) as H. split; [done|]. intros E.
  destruct (writes k m) as [[l m']|]; [|done]. exists l, m'. split; [done|]. cbn in H. injection H as ->.
  rewrite E. by apply target_perm.
Qed.

Lemma writes_round_robin_witness :
  fst <$> writes 2 toy_multi = Some (target 2 0 <$> seq 0 2)
  ∧ ∃ l m', writes 2 toy_multi = Some (l, m') ∧ l ≡ₚ seq 0 2.
Proof.
  destruct (writes_round_robin toy_multi 2 ltac:(done) ltac:(by vm_compute) ltac:(by vm_compute)) as [H1 H2].
  split; [exact H1|exact (H2 eq_refl)].
Defined.

(** [Close] can always return: once it has closed [closeCh], whatever the
    readers are doing (waiting for a packet, or for room in the result
    channel nobody reads), they come to their end and the result channel is
    closed. *)
Theorem multi_close_returns conns m evs s :
  newMultiConn conns = Ok m → forallb packet_fits evs = true →
  mc_run evs {| ms_conn := m; ms_closer := XStart |} = Some s →
  ∃ evs' s' err, forallb packet_fits evs' = true ∧ mc_run evs' s = Some s' ∧ ms_closer s' = XRet err.
Proof.
  intros Hm Hf Hrun. destruct (mc_run_ok evs {| ms_conn := m; ms_closer := XStart |} (newMultiConn_ok _ _ Hm) Hf)
    as (s0 & H0 & Hok). rewrite Hrun in H0. injection H0 as <-.
  assert (∀ s i err, mc_ok (ms_conn s) (ms_closer s) → ms_closer s = XConns i err →
    ∃ evs' s' err, forallb packet_fits evs' = true ∧ mc_run evs' s = Some s' ∧ ms_closer s' = XRet err) as Hloop.
  { intros s1 i err Hok1 Hcl. destruct (close_loop _ s1 i err Hok1 Hcl (le_n _)) as (e1 & s2 & err2 & Hf1 & Hr1 & Hm2 & Hcl2).
    assert (mc_ok (ms_conn s2) (ms_closer s2)) as Hok2.
    { destruct (mc_run_ok e1 s1 Hok1 Hf1) as (s2' & Hr & Hok2). rewrite Hr1 in Hr. by injection Hr as <-. }
    destruct (wait_finishes s2 err2 Hok2 Hcl2) as (e2 & s3 & Hf2 & Hr2 & Hcl3).
    exists (e1 ++ e2), s3, err2. by rewrite forallb_app, Hf1, mc_run_app, Hr1. }
  destruct (ms_closer s) as [|i err|err|err] eqn:Hcl.
  - destruct (proj1 (wp_inv _ _ _) (mc_closer_step_ok (ms_conn s) XStart [] Hok)) as (st & m' & Hst & Hok').
    cbn in Hst. destruct (mc_closeCh (ms_conn s)) eqn:Hc; [done|]. injection Hst as <- <-.
    destruct (Hloop {| ms_conn := _; ms_closer := XConns 0 None |} 0 None Hok' eq_refl) as (e & s' & err & Hf' & Hr & H).
    exists (MvClose [] :: e), s', err. split; [done|]. split; [|done]. cbn. by rewrite Hcl; cbn; rewrite Hc.
  - apply (Hloop s i err); [by rewrite Hcl|done].
  - rewrite <- Hcl in Hok. destruct (wait_finishes s err Hok Hcl) as (e & s' & H). by exists e, s', err.
  - exists [], s, err. done.
Qed.

Lemma multi_close_returns_witness :
  ∃ s evs' s' err, mc_run toy_events {| ms_conn := toy_multi; ms_closer := XStart |} = Some s
    ∧ forallb packet_fits evs' = true ∧ mc_run evs' s = Some s' ∧ ms_closer s' = XRet err.
Proof.
  destruct (mc_run_ok toy_events {| ms_conn := toy_multi; ms_closer := XStart |} toy_multi_ok
    ltac:(vm_compute; reflexivity)) as (s & Hs & _).
  destruct (multi_close_returns [true; true] toy_multi toy_events s toy_multi_new ltac:(vm_compute; reflexivity) Hs)
    as (evs' & s' & err & H).
  exists s, evs', s', err. split; [exact Hs|exact H].
Defined.

(** A [ReadFrom] once [Close] has returned and the results are drained does
    not fail: it returns no bytes, no peer and no error. *)
Theorem read_after_close_is_silent m err len :
  mc_ok m (XRet err) → ch_buf (mc_results m) = [] →
  ∃ m', (st ← mc_ReadFrom (FWait len); st ← mc_ReadFrom st; mc_ReadFrom st) m
        = Some (FRet {| rt_len := len; rt_n := 0; rt_addr := None; rt_err := None; rt_data := []; rt_from := None |}, m').
Proof.
  intros Hok Hb. eexists. cbn [mc_ReadFrom]. unfold mbind at 1, go_bind at 1, recv. by rewrite Hb, (ok_closed _ _ Hok).
Qed.

(** A second [Close], concurrent with the first or after it, panics: the
    close channel is closed without a check. *)
Theorem second_multi_close_panics m st answers :
  mc_ok m st → st ≠ XStart → mc_closer_step answers XStart m = None.
Proof. intros Hok Hst. cbn. rewrite (ok_closeCh _ _ Hok). by destruct st. Qed.

(** [SetDeadline] and [Close] report the error of the last connection
    only: any failure of an earlier one is lost. *)
Theorem set_all_last answers last : set_all (answers ++ [last]) = last.
Proof. unfold set_all. by rewrite foldl_app. Qed.
