(* ===== verification/Service.v ===== *)
(** * Service: the message hub between clients and the RTC server
    (service/service.go, service/client_msg.go)

    [RtcServer] is what the service needs of the RTC server; ServiceRtc.v
    shows that the detailed model provides it.  [MsgCodec] names what the code
    calls of msgpack.  A session's close callback is a closure over the
    session, the connection and the client of its join message: the service
    keeps it with the session object it was given to.  The closing of a session
    is in two parts, [begin_close] and [closeCb], since no lock is held between
    them; the callbacks still to run are [sv_closing], and [sv_reused] is a
    ghost: the names joined while such a callback was still to run.  Logging, the profiling
    endpoints and the creation of the parts in [New] are left out. *)
From Stdlib Require Import Ascii.
From S2P Require Import Prelude GoText WsServer RtcConfig World.

(** ** Client messages *)
Definition ClientMessageJoin := "join"%string.
Definition ClientMessageLeave := "leave"%string.
Definition ClientMessageRTC := "rtc"%string.
Definition ClientMessageHello := "hello"%string.
Definition ClientMessageReconnect := "reconnect"%string.
Definition ClientMessageClose := "close"%string.
Definition ClientMessageVAD := "vad"%string.

(** The dynamic types of [cm.Data]; any other comes with the name [%T] gives
    it. *)
Inductive cm_data :=
  | DNil
  | DMap (m : option (gmap string any))
  | DStrings (m : gmap string string)
  | DRtc (m : Message)
  | DOther (type_name : string) (v : any).

Definition go_type (d : cm_data) : string :=
  match d with
  | DNil => "<nil>"
  | DMap _ => "map[string]interface {}"
  | DStrings _ => "map[string]string"
  | DRtc _ => "rtc.Message"
  | DOther n _ => n
  end.

Record ClientMessage := { cm_Type : string; cm_Data : cm_data }.

Class MsgCodec := {
  EncodeString : string → result string;
  EncodeData : cm_data → result string;
  DecodeString : string → result (string * string);
  DecodeMap : string → result (option (gmap string any));
  DecodeTypedMap : string → result cm_data;
  DecodeRtcMessage : string → result Message;
  DecodeInterface : string → result cm_data;
}.

(** Map values that msgpack reads back with the same dynamic type (an integer
    comes back in the narrowest one). *)
Definition plain (v : any) : bool := match v with ANil | AString _ | ABool _ => true | _ => false end.

Class MsgLaws (C : MsgCodec) := {
  string_law t e rest : EncodeString t = Ok e → DecodeString (e +:+ rest) = Ok (t, rest);
  map_law m e : map_Forall (λ _ v, plain v = true) m → EncodeData (DMap (Some m)) = Ok e → DecodeMap e = Ok (Some m);
  typed_map_law m e : m ≠ ∅ → EncodeData (DStrings m) = Ok e → DecodeTypedMap e = Ok (DStrings m);
  rtc_law m e : EncodeData (DRtc m) = Ok e → DecodeRtcMessage e = Ok m;
}.

Section codec.
  Context {C : MsgCodec}.

(** [EncodeMsgpack], [enc.EncodeMulti(cm.Type, cm.Data)]. *)
Definition Pack (cm : ClientMessage) : result string :=
  t ← EncodeString (cm_Type cm); d ← EncodeData (cm_Data cm); Ok (t +:+ d).

Definition of_typed (t : string) : bool :=
  bool_decide (t = ClientMessageLeave) || bool_decide (t = ClientMessageHello) ||
  bool_decide (t = ClientMessageReconnect) || bool_decide (t = ClientMessageClose).
Definition of_rtc (t : string) : bool :=
  bool_decide (t = ClientMessageRTC) || bool_decide (t = ClientMessageVAD).

(** [DecodeMsgpack]. *)
Definition Unpack (data : string) : result ClientMessage :=
  '(t, rest) ← wrap_err "failed to decode msg.Type" (DecodeString data);
  d ← (if bool_decide (t = ClientMessageJoin) then
         m ← wrap_err "failed to decode msg.Data" (DecodeMap rest); Ok (DMap m)
       else if of_typed t then wrap_err "failed to decode msg.Data" (DecodeTypedMap rest)
       else if of_rtc t then
         m ← wrap_err "failed to decode rtc.Message" (DecodeRtcMessage rest); Ok (DRtc m)
       else wrap_err "failed to decode msg.Data" (DecodeInterface rest));
  Ok {| cm_Type := t; cm_Data := d |}.

Definition NewClientMessage (msgType : string) (data : cm_data) : ClientMessage :=
  {| cm_Type := msgType; cm_Data := data |}.

Definition NewPackedClientMessage (msgType : string) (data : cm_data) : result string :=
  match Pack (NewClientMessage msgType data) with
  | Ok packed => Ok packed
  | Err e => Err (EText ("failed to pack client message: " +:+ error_text e))
  end.

(** The data each type of message is made with. *)
Definition well_typed (cm : ClientMessage) : Prop :=
  match cm_Data cm with
  | DMap (Some m) => cm_Type cm = ClientMessageJoin ∧ map_Forall (λ _ v, plain v = true) m
  | DStrings m => of_typed (cm_Type cm) = true ∧ m ≠ ∅
  | DRtc _ => of_rtc (cm_Type cm) = true
  | _ => False
  end.

Lemma of_typed_not_join t : of_typed t = true → t ≠ ClientMessageJoin.
Proof. intros H ->. vm_compute in H. done. Qed.

Lemma of_rtc_others t : of_rtc t = true → t ≠ ClientMessageJoin ∧ of_typed t = false.
Proof.
  unfold of_rtc. intros [->%bool_decide_eq_true | ->%bool_decide_eq_true]%orb_true_iff; by vm_compute.
Qed.

End codec.

(** ** The RTC server the service talks to *)
Class RtcServer := {
  rtc_server : Type;
  (** its invariant, its sessions by identifier, and every session object it
      has made *)
  rtc_ok : rtc_server → Prop;
  rtc_sessions : rtc_server → gmap string SessionConfig;
  rtc_objects : rtc_server → gmap loc SessionConfig;
  rtc_InitSession : SessionConfig → go rtc_server (result loc);
  (** the session object whose callback is to be called, if there is one *)
  rtc_CloseSession : string → go rtc_server (result (option loc));
  rtc_Send : Message → go rtc_server (result unit);
}.

(** A session is added under its identifier, or nothing changes; closing takes
    out the session of that identifier; sending keeps the sessions. *)
Class RtcServerLaws (R : RtcServer) := {
  init_law cfg r : rtc_ok r →
    wp (rtc_InitSession cfg) (λ x r', rtc_ok r' ∧
      match x with
      | Ok l => rtc_sessions r' = <[SessionID cfg := cfg]> (rtc_sessions r)
                ∧ rtc_objects r !! l = None ∧ rtc_objects r' = <[l := cfg]> (rtc_objects r)
      | Err _ => rtc_sessions r' = rtc_sessions r ∧ rtc_objects r' = rtc_objects r
      end) r;
  close_law id r : rtc_ok r →
    wp (rtc_CloseSession id) (λ x r', rtc_ok r' ∧ rtc_sessions r' = delete id (rtc_sessions r)
      ∧ rtc_objects r' = rtc_objects r ∧
      match x with
      | Ok (Some l) => ∃ cfg, rtc_sessions r !! id = Some cfg ∧ rtc_objects r !! l = Some cfg ∧ SessionID cfg = id
      | Ok None => rtc_sessions r !! id = None
      | Err _ => False
      end) r;
  send_law m r : rtc_ok r →
    wp (rtc_Send m) (λ _ r', rtc_ok r' ∧ rtc_sessions r' = rtc_sessions r ∧ rtc_objects r' = rtc_objects r) r;
}.

(** ** State *)
Inductive svc_metric :=
  | IncWSConnections (clientID : string)
  | DecWSConnections (clientID : string)
  | IncWSMessages (clientID msgType direction : string).
#[export] Instance svc_metric_eq_dec : EqDecision svc_metric.
Proof. solve_decision. Defined.

Record callback := { cb_session : string; cb_conn : string; cb_client : string }.

Section service.
  Context `{C : MsgCodec} `{R : RtcServer}.

(** [sv_closing] is the callbacks of the sessions that other goroutines have
    closed and that have not been called yet.  [sv_reused] is a ghost: the
    identifiers whose last join came while a callback of an earlier session
    of the same identifier was still to be called. *)
Record service := {
  sv_connMap : gmap string string;
  sv_ws : ws_server;
  sv_rtc : rtc_server;
  sv_callbacks : gmap loc callback;
  sv_closing : list callback;
  sv_reused : gset string;
  sv_metrics : list svc_metric;
}.

Definition put_ws (w : ws_server) (s : service) : service := {|
  sv_connMap := sv_connMap s; sv_ws := w; sv_rtc := sv_rtc s; sv_callbacks := sv_callbacks s;
  sv_closing := sv_closing s; sv_reused := sv_reused s; sv_metrics := sv_metrics s |}.
Definition put_rtc (r : rtc_server) (s : service) : service := {|
  sv_connMap := sv_connMap s; sv_ws := sv_ws s; sv_rtc := r; sv_callbacks := sv_callbacks s;
  sv_closing := sv_closing s; sv_reused := sv_reused s; sv_metrics := sv_metrics s |}.
Definition upd_connMap (f : gmap string string → gmap string string) (s : service) : service := {|
  sv_connMap := f (sv_connMap s); sv_ws := sv_ws s; sv_rtc := sv_rtc s; sv_callbacks := sv_callbacks s;
  sv_closing := sv_closing s; sv_reused := sv_reused s; sv_metrics := sv_metrics s |}.
Definition upd_closing (f : list callback → list callback) (s : service) : service := {|
  sv_connMap := sv_connMap s; sv_ws := sv_ws s; sv_rtc := sv_rtc s; sv_callbacks := sv_callbacks s;
  sv_closing := f (sv_closing s); sv_reused := sv_reused s; sv_metrics := sv_metrics s |}.
Definition add_metric (m : svc_metric) (s : service) : service := {|
  sv_connMap := sv_connMap s; sv_ws := sv_ws s; sv_rtc := sv_rtc s; sv_callbacks := sv_callbacks s;
  sv_closing := sv_closing s; sv_reused := sv_reused s; sv_metrics := sv_metrics s ++ [m] |}.

(** A session of that identifier is closed and its callback is to come. *)
Definition being_closed (id : string) (l : list callback) : bool := existsb (λ cb, bool_decide (cb_session cb = id)) l.

#[global] Arguments being_closed : simpl never.

(** A new session keeps its callback; the ghost is brought up to date. *)
Definition add_callback (l : loc) (cb : callback) (s : service) : service := {|
  sv_connMap := sv_connMap s; sv_ws := sv_ws s; sv_rtc := sv_rtc s; sv_callbacks := <[l := cb]> (sv_callbacks s);
  sv_closing := sv_closing s;
  sv_reused := if being_closed (cb_session cb) (sv_closing s) then {[cb_session cb]} ∪ sv_reused s
               else sv_reused s ∖ {[cb_session cb]};
  sv_metrics := sv_metrics s |}.

Definition on_ws {A} (m : go ws_server A) : go service A := λ s,
  '(a, w) ← m (sv_ws s); Some (a, put_ws w s).
Definition on_rtc {A} (m : go rtc_server A) : go service A := λ s,
  '(a, r) ← m (sv_rtc s); Some (a, put_rtc r s).

(** ** Messages to clients *)
Definition wsServer_Send (m : ws_Message) : go service (result unit) := on_ws (WsServer.Send m).

Definition binary (connID clientID data : string) : ws_Message :=
  {| wm_ConnID := connID; wm_ClientID := clientID; wm_Type := BinaryMessage; wm_Data := data |}.

Definition sendClientMessage (connID clientID data : string) : go service (result unit) :=
  r ← wsServer_Send (binary connID clientID data);
  mret (wrap_err "failed to send client message" r).

(** [m[k]] of a [map[string]string]. *)
Definition str_at (m : gmap string string) (k : string) : string := default str0 (m !! k).

Definition handleRTCMsg (msg : Message) : go service (result unit) :=
  let ty := if bool_decide (m_Type msg = SDPMessage) || bool_decide (m_Type msg = ICEMessage)
            then Some ClientMessageRTC
            else if bool_decide (m_Type msg = VoiceOnMessage) || bool_decide (m_Type msg = VoiceOffMessage)
            then Some ClientMessageVAD else None in
  match ty with
  | None => mret (Err (EText "unexpected rtc message type: "))
  | Some ty =>
      m ← gets sv_connMap;
      let connID := str_at m (m_SessionID msg) in
      if bool_decide (connID = str0) then mret (Err (EText "unexpected empty connID"))
      else
        match Pack {| cm_Type := ty; cm_Data := DRtc msg |} with
        | Err e => mret (Err (EWrap "failed to pack message" e))
        | Ok data =>
            _ ←? wsServer_Send (binary connID (m_GroupID msg) data);
            modify (add_metric (IncWSMessages (m_GroupID msg) ty "out")) ;; mret (Ok tt)
        end
  end.

(** ** Messages from clients *)

(** The closure given to [InitSession]. *)
Definition closeCb (cb : callback) : go service (result unit) :=
  modify (upd_connMap (delete (cb_session cb))) ;;
  match NewPackedClientMessage ClientMessageClose (DStrings {["sessionID"%string := cb_session cb]}) with
  | Err e => mret (Err (EWrap "failed to pack close message" e))
  | Ok data =>
      r ← sendClientMessage (cb_conn cb) (cb_client cb) data;
      mret (wrap_err "failed to send close message" r)
  end.

(** [rtcServer.CloseSession] up to the call of the session's callback. *)
Definition begin_close (id : string) : go service (result (option callback)) :=
  r ← on_rtc (rtc_CloseSession id);
  match r with
  | Err e => mret (Err e)
  | Ok None => mret (Ok None)
  | Ok (Some l) => m ← gets sv_callbacks; mret (Ok (m !! l))
  end.

(** The whole of it; [between] is what other goroutines do while it waits for
    those of the session to end. *)
Definition CloseSession (id : string) (between : go service unit) : go service (result unit) :=
  r ← begin_close id;
  match r with
  | Err e => mret (Err e)
  | Ok None => mret (Ok tt)
  | Ok (Some cb) => between ;; closeCb cb
  end.

(** The join branch; [between] is what other goroutines do after the session
    is made and before it gets its connection. *)
Definition handle_join (msg : ws_Message) (d : cm_data) (between : go service unit) : go service (result unit) :=
  match d with
  | DMap data =>
      match FromMap (Some {| GroupID := str0; CallID := str0; UserID := str0; SessionID := str0; Props := None |}) data with
      | Err e => mret (Err (EWrap "failed to read session config from map" e))
      | Ok c =>
          let cfg := {| GroupID := wm_ClientID msg; CallID := CallID c; UserID := UserID c;
                        SessionID := SessionID c; Props := Props c |} in
          r ← on_rtc (rtc_InitSession cfg);
          match r with
          | Err e => mret (Err (EWrap "failed to initialize rtc session" e))
          | Ok l =>
              modify (add_callback l {| cb_session := SessionID cfg; cb_conn := wm_ConnID msg;
                                        cb_client := wm_ClientID msg |}) ;;
              between ;;
              modify (upd_connMap (<[SessionID cfg := wm_ConnID msg]>)) ;;
              mret (Ok tt)
          end
      end
  | _ => mret (Err (EText ("unexpected data type: " +:+ go_type d)))
  end.

(** The session a reconnect or leave message names. *)
Definition session_of (d : cm_data) : result string :=
  match d with
  | DStrings data =>
      let id := str_at data "sessionID" in
      if bool_decide (id = str0) then Err (EText "missing sessionID in client message") else Ok id
  | _ => Err (EText ("unexpected data type: " +:+ go_type d))
  end.

Definition handle_reconnect (msg : ws_Message) (d : cm_data) : go service (result unit) :=
  match session_of d with
  | Err e => mret (Err e)
  | Ok id => modify (upd_connMap (<[id := wm_ConnID msg]>)) ;; mret (Ok tt)
  end.

Definition handle_leave (d : cm_data) (between : go service unit) : go service (result unit) :=
  match session_of d with
  | Err e => mret (Err e)
  | Ok id =>
      r ← CloseSession id between;
      mret (wrap_err "failed to close session" r)
  end.

Definition handle_rtc (d : cm_data) : go service (result unit) :=
  match d with
  | DRtc m =>
      r ← on_rtc (rtc_Send m);
      mret (wrap_err "failed to send message" r)
  | _ => mret (Err (EText ("unexpected data type: " +:+ go_type d)))
  end.

Definition handleClientMsg (msg : ws_Message) (between : go service unit) : go service (result unit) :=
  match Unpack (wm_Data msg) with
  | Err e => mret (Err (EWrap "failed to unpack data" e))
  | Ok cm =>
      modify (add_metric (IncWSMessages (wm_ClientID msg) (cm_Type cm) "in")) ;;
      if bool_decide (cm_Type cm = ClientMessageJoin) then handle_join msg (cm_Data cm) between
      else if bool_decide (cm_Type cm = ClientMessageReconnect) then handle_reconnect msg (cm_Data cm)
      else if bool_decide (cm_Type cm = ClientMessageLeave) then handle_leave (cm_Data cm) between
      else if bool_decide (cm_Type cm = ClientMessageRTC) then handle_rtc (cm_Data cm)
      else mret (Err (EText ("unexpected client message type: " +:+ cm_Type cm)))
  end.

(** ** The loops of [Start] *)
Definition hello_data (msg : ws_Message) : cm_data :=
  DStrings (<["clientID"%string := wm_ClientID msg]> {["connID"%string := wm_ConnID msg]}).

(** One message of [wsServer.ReceiveCh()]. *)
Definition dispatch (msg : ws_Message) (between : go service unit) : go service unit :=
  if bool_decide (wm_Type msg = OpenMessage) then
    modify (add_metric (IncWSConnections (wm_ClientID msg))) ;;
    match NewPackedClientMessage ClientMessageHello (hello_data msg) with
    | Err _ => mret tt
    | Ok data => _ ← sendClientMessage (wm_ConnID msg) (wm_ClientID msg) data; mret tt
    end
  else if bool_decide (wm_Type msg = CloseMessage) then
    modify (add_metric (DecWSConnections (wm_ClientID msg)))
  else if bool_decide (wm_Type msg = TextMessage) then mret tt
  else if bool_decide (wm_Type msg = BinaryMessage) then _ ← handleClientMsg msg between; mret tt
  else mret tt.

End service.

(** ** Start and stop: the calls made, in order, up to the first failure *)
Inductive life_call :=
  | StartAPI | StartRTC | StartLoops
  | CloseStopCh | StopRTC | CloseWS | StopAPI | CloseStore | ShutdownLog.
#[export] Instance life_call_eq_dec : EqDecision life_call.
Proof. solve_decision. Defined.

(** A call that may fail: the ones after it are not made. *)
Definition and_then (c : life_call) (msg : string) (r : result unit) (rest : list life_call * result unit) :
    list life_call * result unit :=
  match r with
  | Ok _ => (c :: rest.1, rest.2)
  | Err e => ([c], Err (EWrap msg e))
  end.
Definition always (c : life_call) (rest : list life_call * result unit) : list life_call * result unit :=
  (c :: rest.1, rest.2).

Definition Start (api rtc : result unit) : list life_call * result unit :=
  and_then StartAPI "failed to start api server" api
    (and_then StartRTC "failed to start rtc server" rtc (always StartLoops ([], Ok tt))).

Definition Stop (rtc api store log : result unit) : list life_call * result unit :=
  always CloseStopCh
    (and_then StopRTC "failed to stop rtc server" rtc
      (always CloseWS
        (and_then StopAPI "failed to stop api server" api
          (and_then CloseStore "failed to close store" store
            (and_then ShutdownLog "failed to shutdown logger" log ([], Ok tt)))))).

(** ** Other goroutines: the loop on the RTC server's messages and the
    closing of sessions whose connection fails.  The latter holds no lock
    between taking the session out and calling its callback, and the two
    are operations of their own. *)
Section interleaving.
  Context `{C : MsgCodec} `{R : RtcServer}.

Inductive other := ORtc (m : Message) | OClose (id : string) | OCallback (i : nat).

Definition run_other (o : other) : go service unit :=
  match o with
  | ORtc m => _ ← handleRTCMsg m; mret tt
  | OClose id =>
      r ← begin_close id;
      match r with Ok (Some cb) => modify (upd_closing (λ l, l ++ [cb])) | _ => mret tt end
  | OCallback i =>
      l ← gets sv_closing;
      match l !! i with
      | Some cb => modify (upd_closing (delete i)) ;; _ ← closeCb cb; mret tt
      | None => mret tt
      end
  end.

Definition others (ops : list other) : go service unit := go_iter run_other ops.

Inductive svc_event := SvMsg (m : ws_Message) (ops : list other) | SvOther (o : other).

Definition svc_step (ev : svc_event) : go service unit :=
  match ev with SvMsg m ops => dispatch m (others ops) | SvOther o => run_other o end.

Definition svc_run (evs : list svc_event) : go service unit := go_iter svc_step evs.

Lemma svc_run_cons ev evs s :
  svc_run (ev :: evs) s = match svc_step ev s with Some (_, s') => svc_run evs s' | None => None end.
Proof. reflexivity. Qed.

(** ** The invariant *)
Definition ws_open_ok (w : ws_server) : Prop := ws_closed w = false → ch_closed (ws_sendCh w) = false.

(** A session's callback speaks of that session and of the client that owns
    its group. *)
Definition callback_of (cfg : SessionConfig) (cb : callback) : Prop :=
  cb_session cb = SessionID cfg ∧ cb_client cb = GroupID cfg.

(** [pending] is the session that does not have its connection yet.  A
    session joined while an earlier one of its identifier is being closed may
    lose its route to the callback of the latter. *)
Record svc_ok (pending : option string) (s : service) : Prop := {
  so_rtc : rtc_ok (sv_rtc s);
  so_ws : ws_open_ok (sv_ws s);
  so_objects : ∀ id cfg, rtc_sessions (sv_rtc s) !! id = Some cfg →
    SessionID cfg = id ∧ ∃ l, rtc_objects (sv_rtc s) !! l = Some cfg;
  so_callbacks : ∀ l cfg, rtc_objects (sv_rtc s) !! l = Some cfg →
    ∃ cb, sv_callbacks s !! l = Some cb ∧ callback_of cfg cb;
  so_routes : ∀ id cfg, rtc_sessions (sv_rtc s) !! id = Some cfg → pending ≠ Some id → id ∉ sv_reused s →
    is_Some (sv_connMap s !! id);
  so_closing : ∀ cb cfg, cb ∈ sv_closing s → rtc_sessions (sv_rtc s) !! cb_session cb = Some cfg →
    cb_session cb ∈ sv_reused s;
}.

(** Messages and metrics only. *)
Record svc_same (s s' : service) : Prop := {
  ss_conn : sv_connMap s' = sv_connMap s;
  ss_rtc : sv_rtc s' = sv_rtc s;
  ss_callbacks : sv_callbacks s' = sv_callbacks s;
  ss_closing : sv_closing s' = sv_closing s;
  ss_reused : sv_reused s' = sv_reused s;
  ss_ws : ws_open_ok (sv_ws s) → ws_open_ok (sv_ws s');
}.

#[export] Instance svc_same_preorder : PreOrder svc_same.
Proof. split; [by split|]. intros ??? [] []. split; try congruence. auto. Qed.

Lemma svc_ok_same p s s' : svc_same s s' → svc_ok p s → svc_ok p s'.
Proof. intros [H1 H2 H3 H4 H5 H6] []. split; rewrite ?H1, ?H2, ?H3, ?H4, ?H5; auto. Qed.

Lemma wp_on_ws {A} (m : go ws_server A) Q s : wp m (λ a w, Q a (put_ws w s)) (sv_ws s) → wp (on_ws m) Q s.
Proof. unfold wp, on_ws. by destruct (m (sv_ws s)) as [[a w]|]. Qed.

Lemma wp_on_rtc {A} (m : go rtc_server A) Q s : wp m (λ a r, Q a (put_rtc r s)) (sv_rtc s) → wp (on_rtc m) Q s.
Proof. unfold wp, on_rtc. by destruct (m (sv_rtc s)) as [[a w]|]. Qed.

Lemma wsServer_Send_ok m Q s :
  ws_open_ok (sv_ws s) → (∀ r s', svc_same s s' → Q r s') → wp (wsServer_Send m) Q s.
Proof.
  intros Hws HQ. apply wp_on_ws. unfold WsServer.Send. apply wp_bind, wp_gets.
  assert (svc_same s (put_ws (sv_ws s) s)) as Hid by by destruct s.
  destruct (ws_closed (sv_ws s)) eqn:Hc; [by apply wp_ret, HQ|]. unfold try_send. rewrite (Hws Hc).
  case_bool_decide; [|by apply wp_ret, HQ]. apply wp_bind, wp_modify, wp_ret, HQ. by split.
Qed.

Lemma sendClientMessage_ok c cl d Q s :
  ws_open_ok (sv_ws s) → (∀ r s', svc_same s s' → Q r s') → wp (sendClientMessage c cl d) Q s.
Proof. intros Hws HQ. apply wp_bind, wsServer_Send_ok; [done|]. intros r s' H. by apply wp_ret, HQ. Qed.

Lemma handleRTCMsg_ok m Q s :
  ws_open_ok (sv_ws s) → (∀ r s', svc_same s s' → Q r s') → wp (handleRTCMsg m) Q s.
Proof.
  intros Hws HQ. unfold handleRTCMsg. cbv zeta. case_match; [|by apply wp_ret, HQ].
  apply wp_bind, wp_gets. destruct (bool_decide (str_at _ _ = str0)); [by apply wp_ret, HQ|]. destruct (Pack _); [|by apply wp_ret, HQ].
  apply wp_bind, wsServer_Send_ok; [done|]. intros r s' H1. destruct r; [|by apply wp_ret, HQ].
  apply wp_bind, wp_modify, wp_ret, HQ. rewrite H1. by split.
Qed.

(** A callback forgets the route of its session, nothing else. *)
Lemma closeCb_ok cb Q s :
  ws_open_ok (sv_ws s) → (∀ r s', svc_same (upd_connMap (delete (cb_session cb)) s) s' → Q r s') → wp (closeCb cb) Q s.
Proof.
  intros Hws HQ. apply wp_bind, wp_modify. destruct (NewPackedClientMessage _ _); [|by apply wp_ret, HQ].
  apply wp_bind, sendClientMessage_ok; [done|]. intros r s' H. by apply wp_ret, HQ.
Qed.

Context {L : RtcServerLaws R}.

(** What other goroutines leave true: they add no session and forget no
    callback. *)
Record fewer (p : option string) (s s' : service) : Prop := {
  fw_ok : svc_ok p s';
  fw_sessions : rtc_sessions (sv_rtc s') ⊆ rtc_sessions (sv_rtc s);
  fw_callbacks : sv_callbacks s ⊆ sv_callbacks s';
}.

Lemma fewer_refl p s : svc_ok p s → fewer p s s.
Proof. done. Qed.

Lemma fewer_trans p s1 s2 s3 : fewer p s1 s2 → fewer p s2 s3 → fewer p s1 s3.
Proof. intros [] []. split; [done|by etrans..]. Qed.

Lemma fewer_same p s s' : svc_ok p s → svc_same s s' → fewer p s s'.
Proof. intros Hs H. split; [by eapply svc_ok_same|by rewrite (ss_rtc _ _ H)|by rewrite (ss_callbacks _ _ H)]. Qed.

(** The route of a session that is not registered, or whose identifier was
    reused, may go. *)
Lemma svc_ok_unroute p s id :
  svc_ok p s → (∀ cfg, rtc_sessions (sv_rtc s) !! id = Some cfg → id ∈ sv_reused s) →
  svc_ok p (upd_connMap (delete id) s).
Proof.
  intros [] Hid. split; cbn; auto. intros id' cfg H1 H2 H3. destruct (decide (id' = id)) as [->|Hne].
  - by destruct H3; eapply Hid.
  - rewrite lookup_delete_ne by done. eauto.
Qed.

(** Up to its callback a close takes out the session, whose callback is the
    one returned. *)
Lemma begin_close_ok p id Q s :
  svc_ok p s →
  (∀ r s', fewer p s s' → rtc_sessions (sv_rtc s') !! id = None →
     match r with
     | Ok (Some cb) => cb_session cb = id ∧ is_Some (rtc_sessions (sv_rtc s) !! id)
     | Ok None => rtc_sessions (sv_rtc s) !! id = None
     | Err _ => False
     end → sv_closing s' = sv_closing s → sv_reused s' = sv_reused s → Q r s') →
  wp (begin_close id) Q s.
Proof.
  intros Hs HQ. apply wp_bind, wp_on_rtc. eapply wp_mono; [apply close_law, Hs|].
  intros x r' (Hr & Hsess & Hobj & Hx).
  assert (fewer p s (put_rtc r' s)) as Hf.
  { split; [|cbn; rewrite Hsess; apply delete_subseteq|done].
    destruct Hs. split; cbn; rewrite ?Hsess, ?Hobj; auto.
    - intros id' cfg [_ H]%lookup_delete_Some. auto.
    - intros id' cfg [_ H]%lookup_delete_Some. eauto.
    - intros cb cfg Hin [_ H]%lookup_delete_Some. eauto. }
  assert (rtc_sessions (sv_rtc (put_rtc r' s)) !! id = None) as Hid by (cbn; rewrite Hsess; apply lookup_delete_eq).
  destruct x as [[l|]|e]; [|by apply wp_ret, HQ|done]. destruct Hx as (cfg & Hreg & Hl & Hcfg).
  destruct (so_callbacks _ _ Hs l cfg Hl) as (cb & Hcb & Hof & _).
  apply wp_bind, wp_gets, wp_ret, HQ; try done. cbn. rewrite Hcb. split; [by rewrite Hof|by rewrite Hreg].
Qed.

(** Closing a session, its callback included. *)
Lemma CloseSession_ok p id between Q s :
  svc_ok p s →
  (∀ s1, fewer p s s1 → rtc_sessions (sv_rtc s1) !! id = None → wp between (λ _, fewer p s1) s1) →
  (∀ r s', fewer p s s' → rtc_sessions (sv_rtc s') !! id = None → Q r s') →
  wp (CloseSession id between) Q s.
Proof.
  intros Hs Hb HQ. apply wp_bind, begin_close_ok with p; [done|]. intros r s1 Hf Hid Hr _ _.
  destruct r as [[cb|]|e]; [|by apply wp_ret, HQ|done]. destruct Hr as [<- _].
  apply wp_bind. eapply wp_mono; [by apply Hb|]. intros [] s2 Hf2.
  assert (rtc_sessions (sv_rtc s2) !! cb_session cb = None) as Hid2 by (eapply lookup_weaken_None; [done|apply Hf2]).
  apply closeCb_ok; [apply (fw_ok _ _ _ Hf2)|]. intros r s3 H3. apply HQ; [|by rewrite (ss_rtc _ _ H3)].
  eapply fewer_trans; [exact Hf|]. eapply fewer_trans; [exact Hf2|].
  assert (svc_ok p (upd_connMap (delete (cb_session cb)) s2)) as Hs3.
  { apply svc_ok_unroute; [apply Hf2|]. by rewrite Hid2. }
  eapply fewer_trans; [|by eapply fewer_same]. by split.
Qed.

Lemma CloseSession_alone p id Q s :
  svc_ok p s → (∀ r s', fewer p s s' → rtc_sessions (sv_rtc s') !! id = None → Q r s') →
  wp (CloseSession id (mret tt)) Q s.
Proof. intros Hs HQ. apply (CloseSession_ok p); [done| |done]. intros s1 H1 H2. by apply wp_ret, fewer_refl, H1. Qed.

(** The identifier of a session that is closed by another goroutine is not
    registered until it is joined again. *)
Lemma svc_ok_closing p s cb :
  svc_ok p s → rtc_sessions (sv_rtc s) !! cb_session cb = None → svc_ok p (upd_closing (λ l, l ++ [cb]) s).
Proof.
  intros [] Hid. split; cbn; auto. intros cb' cfg [Hin | ->%list_elem_of_singleton]%elem_of_app Hcb'; [eauto|].
  by rewrite Hid in Hcb'.
Qed.

Lemma svc_ok_called p s i : svc_ok p s → svc_ok p (upd_closing (delete i) s).
Proof.
  intros []. split; cbn; auto. intros cb cfg Hin. apply (so_closing0 cb cfg).
  eapply elem_of_submseteq; [exact Hin|]. apply sublist_submseteq, sublist_delete.
Qed.

(** Other goroutines add no session. *)
Lemma run_other_ok p o s : svc_ok p s → wp (run_other o) (λ _, fewer p s) s.
Proof.
  intros Hs. destruct o as [m|id|i]; cbn; apply wp_bind.
  - apply handleRTCMsg_ok; [apply Hs|]. intros r s2 H. by apply wp_ret, fewer_same.
  - apply begin_close_ok with p; [done|]. intros r s2 Hf Hid Hr _ _. destruct r as [[cb|]|e]; [|by apply wp_ret..].
    destruct Hr as [<- _]. apply wp_modify. eapply fewer_trans; [exact Hf|]. split; [|done..].
    by apply svc_ok_closing, Hid; apply Hf.
  - apply wp_gets. destruct (sv_closing s !! i) as [cb|] eqn:Hi; [|by apply wp_ret, fewer_refl].
    apply wp_bind, wp_modify, wp_bind, closeCb_ok; [apply Hs|]. intros r s2 H2. apply wp_ret.
    eapply fewer_trans; [|by eapply fewer_same; [|exact H2]; apply svc_ok_unroute; [by apply svc_ok_called|]; intros cfg;
      apply (so_closing _ _ Hs cb cfg); eapply list_elem_of_lookup_2].
    split; [|done..]. apply svc_ok_unroute; [by apply svc_ok_called|]. intros cfg.
    apply (so_closing _ _ Hs cb cfg). by eapply list_elem_of_lookup_2.
Qed.

Lemma others_ok p ops s : svc_ok p s → wp (others ops) (λ _, fewer p s) s.
Proof.
  intros Hs. unfold others.
  eapply wp_mono; [apply (wp_go_iter run_other ops (λ _, fewer p s)); [by apply fewer_refl|]|by intros].
  intros _ o _ s1 _ Hs1. eapply wp_mono; [by apply run_other_ok, Hs1|].
  intros [] s2 Hs2. by eapply fewer_trans.
Qed.

(** What the message of client [c] may add: sessions of its own group. *)
Definition confined (c : string) (s s' : service) : Prop :=
  ∀ id cfg, rtc_sessions (sv_rtc s') !! id = Some cfg →
    rtc_sessions (sv_rtc s) !! id = Some cfg ∨ GroupID cfg = c.

Lemma confined_subseteq c s s' : rtc_sessions (sv_rtc s') ⊆ rtc_sessions (sv_rtc s) → confined c s s'.
Proof. intros H id cfg Hid. left. by eapply lookup_weaken. Qed.

Lemma confined_same c s s' : svc_same s s' → confined c s s'.
Proof. intros H. apply confined_subseteq. by rewrite (ss_rtc _ _ H). Qed.

Definition handled (c : string) (s : service) (r : result unit) (s' : service) : Prop :=
  svc_ok None s' ∧ confined c s s'.

Lemma handled_same c s r s' : svc_ok None s → svc_same s s' → handled c s r s'.
Proof. intros Hs H. split; [by eapply svc_ok_same|by apply confined_same]. Qed.

(** A session that has just been made. *)
Lemma svc_ok_joined s cfg l conn r' :
  svc_ok None s → rtc_ok r' → rtc_sessions r' = <[SessionID cfg := cfg]> (rtc_sessions (sv_rtc s)) →
  rtc_objects (sv_rtc s) !! l = None → rtc_objects r' = <[l := cfg]> (rtc_objects (sv_rtc s)) →
  svc_ok (Some (SessionID cfg))
    (add_callback l {| cb_session := SessionID cfg; cb_conn := conn; cb_client := GroupID cfg |} (put_rtc r' s)).
Proof.
  intros [] Hr Hs Hl Ho. split; cbn; rewrite ?Hs, ?Ho; try done.
  - intros id cfg'. intros [[<- <-]|[Hne H]]%lookup_insert_Some.
    + split; [done|]. exists l. apply lookup_insert_eq.
    + destruct (so_objects0 id cfg' H) as [? [l' Hl']]. split; [done|]. exists l'.
      rewrite lookup_insert_ne; [done|]. by intros ->; rewrite Hl in Hl'.
  - intros l' cfg'. intros [[<- <-]|[Hne H]]%lookup_insert_Some.
    + eexists. split; [apply lookup_insert_eq|done].
    + rewrite lookup_insert_ne by done. auto.
  - intros id cfg' [[<- <-]|[Hne H]]%lookup_insert_Some Hp Hre; [done|]. eapply so_routes0; [done..|].
    destruct (being_closed _ _); set_solver.
  - intros cb cfg' Hin Hcb. destruct (decide (cb_session cb = SessionID cfg)) as [E|Hne].
    + assert (being_closed (SessionID cfg) (sv_closing s) = true) as ->; [|set_solver].
      apply existsb_exists. exists cb. split; [by apply list_elem_of_In|]. by apply bool_decide_eq_true.
    + rewrite lookup_insert_ne in Hcb by done. pose proof (so_closing0 cb cfg' Hin Hcb).
      destruct (being_closed _ _); set_solver.
Qed.

Lemma svc_ok_routed s id conn : svc_ok (Some id) s → svc_ok None (upd_connMap (<[id := conn]>) s).
Proof.
  intros []. split; cbn; auto. intros id' cfg Hid' _ Hre. destruct (decide (id' = id)) as [->|Hne].
  - rewrite lookup_insert_eq. eauto.
  - rewrite lookup_insert_ne by done. eapply so_routes0; [done| |done]. by intros [= <-].
Qed.

Lemma svc_ok_route s id conn : svc_ok None s → svc_ok None (upd_connMap (<[id := conn]>) s).
Proof.
  intros []. split; cbn; auto. intros id' cfg Hid' _ Hre. destruct (decide (id' = id)) as [->|Hne].
  - rewrite lookup_insert_eq. eauto.
  - rewrite lookup_insert_ne by done. by eapply so_routes0.
Qed.

Lemma handle_join_ok msg d ops s :
  svc_ok None s → wp (handle_join msg d (others ops)) (handled (wm_ClientID msg) s) s.
Proof.
  intros Hs. assert (∀ e, wp (mret (Err e)) (handled (wm_ClientID msg) s) s) as Herr.
  { intros e. apply wp_ret, handled_same; [done|reflexivity]. }
  unfold handle_join. destruct d; try apply Herr. destruct (FromMap _ m) as [c|e]; [|apply Herr]. cbv zeta.
  set (cfg := {| GroupID := wm_ClientID msg; CallID := _ |}).
  apply wp_bind, wp_on_rtc. eapply wp_mono; [apply init_law, Hs|]. intros x r' [Hr Hx].
  destruct x as [l|e].
  - destruct Hx as (H1 & H2 & H3).
    pose proof (svc_ok_joined s cfg l (wm_ConnID msg) r' Hs Hr H1 H2 H3) as Hj.
    apply wp_bind, wp_modify, wp_bind. eapply wp_mono; [apply others_ok, Hj|].
    intros _ s2 [Hs2 Hsub _]. apply wp_bind, wp_modify, wp_ret. split; [by apply svc_ok_routed|].
    intros id cfg' Hid. pose proof (lookup_weaken _ _ _ _ Hid Hsub) as Hid'. cbn in Hid'. rewrite H1 in Hid'.
    apply lookup_insert_Some in Hid' as [[_ <-]|[_ ?]]; auto.
  - apply wp_ret. destruct Hx as [H1 H2]. split.
    + destruct Hs. split; cbn; rewrite ?H1, ?H2; auto.
    + apply confined_subseteq. cbn. by rewrite H1.
Qed.

Lemma handleClientMsg_ok msg ops s :
  svc_ok None s → wp (handleClientMsg msg (others ops)) (handled (wm_ClientID msg) s) s.
Proof.
  intros Hs. unfold handleClientMsg. destruct (Unpack _) as [cm|e].
  2: { apply wp_ret, handled_same; [done|reflexivity]. }
  apply wp_bind, wp_modify. set (s1 := add_metric _ s).
  assert (svc_same s s1) as H1 by done. assert (svc_ok None s1) as Hs1 by by eapply svc_ok_same.
  assert (∀ e, wp (mret (Err e)) (handled (wm_ClientID msg) s) s1) as Herr by by intros e; apply wp_ret, handled_same.
  case_bool_decide; [by eapply wp_mono; [apply handle_join_ok, Hs1|]|].
  case_bool_decide.
  { unfold handle_reconnect. destruct (session_of _) as [id|]; [|apply Herr]. apply wp_bind, wp_modify, wp_ret.
    split; [by apply svc_ok_route|by apply confined_subseteq]. }
  case_bool_decide.
  { unfold handle_leave. destruct (session_of _) as [id|]; [|apply Herr]. apply wp_bind.
    apply (CloseSession_ok None); [done| |].
    - intros s2 Hs2 _. apply others_ok, Hs2.
    - intros r s2 [Hs2 Hsub _] _. apply wp_ret. split; [done|]. by apply confined_subseteq. }
  case_bool_decide; [|apply Herr].
  unfold handle_rtc. destruct (cm_Data cm); try apply Herr.
  apply wp_bind, wp_on_rtc. eapply wp_mono; [apply send_law, Hs1|]. intros x r' (Hr & H5 & H6). apply wp_ret.
  split; [|apply confined_subseteq; cbn; by rewrite H5].
  destruct Hs1. split; cbn; rewrite ?H5, ?H6; auto.
Qed.

Lemma dispatch_ok msg ops s :
  svc_ok None s → wp (dispatch msg (others ops)) (λ _ s', svc_ok None s' ∧ confined (wm_ClientID msg) s s') s.
Proof.
  intros Hs. unfold dispatch.
  assert (∀ s1, svc_same s s1 → svc_ok None s1 ∧ confined (wm_ClientID msg) s s1) as Hsame.
  { intros s1 H. split; [by eapply svc_ok_same|by apply confined_same]. }
  case_bool_decide.
  { apply wp_bind, wp_modify. destruct (NewPackedClientMessage _ _); [|by apply wp_ret, Hsame].
    apply wp_bind, sendClientMessage_ok; [apply Hs|]. intros r s1 Hs1. apply wp_ret, Hsame.
    etrans; [|exact Hs1]. by split. }
  case_bool_decide; [by apply wp_modify, Hsame|]. case_bool_decide; [apply wp_ret, Hsame; reflexivity|].
  case_bool_decide; [|apply wp_ret, Hsame; reflexivity].
  apply wp_bind. eapply wp_mono; [by apply handleClientMsg_ok|]. intros r s1 Hs1. by apply wp_ret.
Qed.

Lemma svc_run_ok evs s : svc_ok None s → wp (svc_run evs) (λ _ s', svc_ok None s') s.
Proof.
  intros Hs. eapply wp_mono; [apply (wp_go_iter svc_step evs (λ _ s', svc_ok None s')); [done|]|done].
  intros _ ev _ s1 _ Hs1. destruct ev as [m ops|o]; cbn.
  - eapply wp_mono; [by apply dispatch_ok|]. by intros _ s2 [? _].
  - eapply wp_mono; [by apply run_other_ok|by intros _ s2 []].
Qed.
End interleaving.

(** ** The gauge of connections *)
Definition conn_delta (c : string) (m : svc_metric) : Z :=
  match m with
  | IncWSConnections c' => if bool_decide (c' = c) then 1 else 0
  | DecWSConnections c' => if bool_decide (c' = c) then -1 else 0
  | _ => 0
  end.
Definition conn_gauge (c : string) (l : list svc_metric) : Z := foldr (λ m z, conn_delta c m + z)%Z 0%Z l.

(** What a message moves it by. *)
Definition message_delta (c : string) (m : ws_Message) : Z :=
  if bool_decide (wm_Type m = OpenMessage) then if bool_decide (wm_ClientID m = c) then 1 else 0
  else if bool_decide (wm_Type m = CloseMessage) then if bool_decide (wm_ClientID m = c) then -1 else 0
  else 0.
Definition messages_delta (c : string) (l : list ws_Message) : Z := foldr (λ m z, message_delta c m + z)%Z 0%Z l.

Lemma conn_gauge_app c l l' : conn_gauge c (l ++ l') = (conn_gauge c l + conn_gauge c l')%Z.
Proof. unfold conn_gauge. induction l as [|m l IH]; cbn; [done|]. rewrite IH. lia. Qed.

Lemma messages_delta_app c l l' : messages_delta c (l ++ l') = (messages_delta c l + messages_delta c l')%Z.
Proof. unfold messages_delta. induction l as [|m l IH]; cbn; [done|]. rewrite IH. lia. Qed.

Lemma data_delta c id client d : Forall (data_message id client) d → messages_delta c d = 0%Z.
Proof.
  induction 1 as [|m d (_ & _ & Hm) _ IH]; [done|]. unfold messages_delta in *. cbn [foldr]. rewrite IH.
  unfold message_delta. by destruct Hm as [-> | ->].
Qed.

Lemma open_delta c id client :
  message_delta c (newOpenMessage id client) = (if bool_decide (client = c) then 1 else 0)%Z.
Proof. reflexivity. Qed.

Lemma close_delta c id client :
  message_delta c (newCloseMessage id client) = (if bool_decide (client = c) then -1 else 0)%Z.
Proof. reflexivity. Qed.

Lemma opened_delta c id client l :
  opened id client l → messages_delta c l = (if bool_decide (client = c) then 1 else 0)%Z.
Proof.
  intros (d & -> & Hd). change (newOpenMessage id client :: d) with ([newOpenMessage id client] ++ d).
  rewrite messages_delta_app, (data_delta c _ _ _ Hd). cbn [messages_delta foldr].
  rewrite open_delta. lia.
Qed.

Lemma opened_closed_delta c id l : opened_closed id l → messages_delta c l = 0%Z.
Proof.
  intros (client & d & -> & Hd). rewrite messages_delta_app, (opened_delta c _ _ _ Hd). cbn [messages_delta foldr].
  rewrite close_delta. by case_bool_decide.
Qed.

Section gauge.
  Context `{C : MsgCodec} `{R : RtcServer}.

(** The metrics a computation adds do not move the gauge of connections. *)
Definition quiet {A} (m : go service A) : Prop :=
  ∀ c s a s', m s = Some (a, s') → conn_gauge c (sv_metrics s') = conn_gauge c (sv_metrics s).

Lemma quiet_ret {A} (a : A) : quiet (mret a : go service A).
Proof. by intros c s a' s' [= <- <-]. Qed.

Lemma quiet_bind {A B} (m : go service A) (f : A → go service B) : quiet m → (∀ a, quiet (f a)) → quiet (m ≫= f).
Proof.
  intros Hm Hf c s b s'. unfold mbind, go_bind. destruct (m s) as [[a s1]|] eqn:E; [|done]. intros Hs.
  rewrite (Hf a c s1 b s' Hs). by eapply Hm.
Qed.

Lemma quiet_gets {A} (f : service → A) : quiet (gets f).
Proof. by intros c s a s' [= <- <-]. Qed.

Lemma quiet_modify f : (∀ s, sv_metrics (f s) = sv_metrics s) → quiet (modify f).
Proof. intros H c s a s' [= <- <-]. by rewrite H. Qed.

Lemma quiet_on_ws {A} (m : go ws_server A) : quiet (on_ws m).
Proof. intros c s a s'. unfold on_ws. destruct (m (sv_ws s)) as [[x w]|]; [|done]. by intros [= <- <-]. Qed.

Lemma quiet_on_rtc {A} (m : go rtc_server A) : quiet (on_rtc m).
Proof. intros c s a s'. unfold on_rtc. destruct (m (sv_rtc s)) as [[x w]|]; [|done]. by intros [= <- <-]. Qed.

Lemma gauge_add c m s :
  conn_gauge c (sv_metrics (add_metric m s)) = (conn_gauge c (sv_metrics s) + conn_delta c m)%Z.
Proof. unfold add_metric. cbn [sv_metrics]. rewrite conn_gauge_app. cbn [conn_gauge foldr]. lia. Qed.

Lemma quiet_metric c ty d : quiet (modify (add_metric (IncWSMessages c ty d))).
Proof. intros c' s a s' [= <- <-]. rewrite gauge_add. cbn. lia. Qed.

Hint Resolve quiet_ret quiet_gets quiet_on_ws quiet_on_rtc quiet_metric : rtcd.

Ltac quiet :=
  repeat first
    [ solve [auto with rtcd] | apply quiet_bind; [|intros ?] | apply quiet_modify; done | case_match ].

Lemma quiet_send c cl d : quiet (sendClientMessage c cl d).
Proof. unfold sendClientMessage, wsServer_Send. quiet. Qed.
Hint Resolve quiet_send : rtcd.

Lemma quiet_handle_rtc m : quiet (handleRTCMsg m).
Proof. unfold handleRTCMsg, wsServer_Send, bind_res. quiet. Qed.

Lemma quiet_closeCb cb : quiet (closeCb cb).
Proof. unfold closeCb. quiet. Qed.
Hint Resolve quiet_handle_rtc quiet_closeCb : rtcd.

Lemma quiet_begin id : quiet (begin_close id).
Proof. unfold begin_close. quiet. Qed.
Hint Resolve quiet_begin : rtcd.

Lemma quiet_close id between : quiet between → quiet (CloseSession id between).
Proof. intros Hb. unfold CloseSession. quiet. Qed.
Hint Resolve quiet_close : rtcd.

Lemma quiet_others ops : quiet (others ops).
Proof.
  unfold others. induction ops as [|o ops IH]; cbn; [auto with rtcd|]. apply quiet_bind; [|done].
  destruct o; cbn; quiet.
Qed.
Hint Resolve quiet_others : rtcd.

Lemma quiet_client msg ops : quiet (handleClientMsg msg (others ops)).
Proof.
  unfold handleClientMsg, handle_join, handle_reconnect, handle_leave, handle_rtc. quiet.
Qed.
Hint Resolve quiet_client : rtcd.

(** Dispatching a message moves the gauge by what the message says. *)
Lemma dispatch_gauge c msg ops s s' :
  dispatch msg (others ops) s = Some (tt, s') →
  conn_gauge c (sv_metrics s') = (conn_gauge c (sv_metrics s) + message_delta c msg)%Z.
Proof.
  unfold dispatch, message_delta. case_bool_decide.
  { unfold modify, mbind at 1, go_bind at 1. set (s1 := add_metric _ s).
    assert (conn_gauge c (sv_metrics s1) = conn_gauge c (sv_metrics s) + (if bool_decide (wm_ClientID msg = c) then 1 else 0))%Z
      as H1 by apply gauge_add.
    rewrite <- H1. intros Hrun. revert Hrun.
    destruct (NewPackedClientMessage _ _); [|by intros [= <-]].
    apply (quiet_bind _ _ (quiet_send _ _ _)). intros ?. apply quiet_ret. }
  case_bool_decide.
  { intros [= <-]. apply gauge_add. }
  rewrite Z.add_0_r. case_bool_decide; [by intros [= <-]|].
  case_bool_decide; [|by intros [= <-]].
  apply (quiet_bind _ _ (quiet_client _ _)). intros ?. apply quiet_ret.
Qed.
End gauge.

(** ** A concrete instance *)
Module ToyService.

Record toy_rtc := { tr_sessions : gmap string (loc * SessionConfig); tr_objects : gmap loc SessionConfig }.

Definition toy_init (cfg : SessionConfig) : go toy_rtc (result loc) := λ r,
  let l := fresh (dom (tr_objects r)) in
  Some (Ok l, {| tr_sessions := <[SessionID cfg := (l, cfg)]> (tr_sessions r);
                 tr_objects := <[l := cfg]> (tr_objects r) |}).

Definition toy_close (id : string) : go toy_rtc (result (option loc)) := λ r,
  Some (Ok (fst <$> tr_sessions r !! id), {| tr_sessions := delete id (tr_sessions r); tr_objects := tr_objects r |}).

Definition toy_server : RtcServer := {|
  rtc_server := toy_rtc;
  rtc_ok := λ r, ∀ id l cfg, tr_sessions r !! id = Some (l, cfg) → SessionID cfg = id ∧ tr_objects r !! l = Some cfg;
  rtc_sessions := λ r, snd <$> tr_sessions r;
  rtc_objects := tr_objects;
  rtc_InitSession := toy_init;
  rtc_CloseSession := toy_close;
  rtc_Send := λ _ r, Some (Ok tt, r);
|}.

Definition toy_server_laws : RtcServerLaws toy_server.
Proof.
  refine (Build_RtcServerLaws toy_server _ _ _).
  - intros cfg r Hr. unfold wp. cbn. set (l := fresh _).
    assert (tr_objects r !! l = None) as Hl by (apply not_elem_of_dom, is_fresh).
    split_and!; [|by rewrite fmap_insert|done|done].
    intros id l' cfg' [[<- [= <- <-]]|[Hne H]]%lookup_insert_Some; [by rewrite lookup_insert_eq|].
    destruct (Hr id l' cfg' H) as [? Ho]. split; [done|]. rewrite lookup_insert_ne; [done|].
    intros <-. by rewrite Hl in Ho.
  - intros id r Hr. unfold wp. cbn. split_and!; [|by rewrite fmap_delete|done|].
    + intros id' l cfg [_ H]%lookup_delete_Some. eauto.
    + destruct (tr_sessions r !! id) as [[l cfg]|] eqn:E; cbn; rewrite lookup_fmap, E; [|done].
      destruct (Hr id l cfg E). exists cfg. done.
  - intros m r Hr. by unfold wp.
Defined.

(** Leave, reconnect and close messages carry a session identifier alone, RTC
    messages are the candidates of a session; a join message is only read. *)
Definition join_data (id : string) : gmap string any :=
  <["sessionID"%string := AString id]> (<["callID"%string := AString "call"]>
    (<["userID"%string := AString "user"]> {["groupID"%string := AString "forged"]})).

Definition rtc_msg (id : string) : Message :=
  {| m_GroupID := "client"; m_UserID := "user"; m_SessionID := id; m_CallID := "call"; m_Type := ICEMessage;
     m_Data := "candidate" |}.

Definition is_rtc_msg (m : Message) : bool :=
  bool_decide (m_GroupID m = "client"%string) && bool_decide (m_UserID m = "user"%string) &&
  bool_decide (m_CallID m = "call"%string) && bool_decide (m_Type m = ICEMessage) &&
  bool_decide (m_Data m = "candidate"%string).

Definition toy_text (d : cm_data) : result string :=
  match d with
  | DStrings m => let s := str_at m "sessionID" in
                  if bool_decide (m = {["sessionID"%string := s]}) then Ok s else Err (EText "unsupported")
  | DRtc m => if is_rtc_msg m then Ok (m_SessionID m) else Err (EText "unsupported")
  | _ => Err (EText "unsupported")
  end.

(** The type of a message ends at the first bar. *)
Definition bar : ascii := ascii_of_nat 124.
Fixpoint until_bar (s : string) : result (string * string) :=
  match s with
  | EmptyString => Err (EText "EOF")
  | String a s => if Ascii.eqb a bar then Ok (str0, s)
                  else '(t, rest) ← until_bar s; Ok (String a t, rest)
  end.
Fixpoint no_bar (s : string) : bool :=
  match s with EmptyString => true | String a s => negb (Ascii.eqb a bar) && no_bar s end.

Lemma until_bar_app t rest : no_bar t = true → until_bar (t +:+ String bar rest) = Ok (t, rest).
Proof.
  induction t as [|a t IH]; [done|]. cbn [no_bar]. intros [H1%negb_true_iff H2]%andb_true_iff.
  rewrite sapp_cons. cbn [until_bar]. by rewrite H1, (IH H2).
Qed.

Definition toy_msg : MsgCodec := {|
  EncodeString := λ t, if no_bar t then Ok (t +:+ String bar str0) else Err (EText "unsupported");
  EncodeData := toy_text;
  DecodeString := until_bar;
  DecodeMap := λ s, Ok (Some (join_data s));
  DecodeTypedMap := λ s, Ok (DStrings {["sessionID"%string := s]});
  DecodeRtcMessage := λ s, Ok (rtc_msg s);
  DecodeInterface := λ s, Ok (DOther "string" (AString s));
|}.

Definition toy_msg_laws : MsgLaws toy_msg.
Proof.
  refine (Build_MsgLaws toy_msg _ _ _ _); cbn.
  - intros t e rest. destruct (no_bar t) eqn:E; [|done]. intros [= <-].
    rewrite sapp_assoc. by apply until_bar_app.
  - done.
  - intros m e Hm. unfold toy_text. case_bool_decide as H; [|done]. intros [= <-]. by rewrite <- H.
  - intros m e. unfold is_rtc_msg. destruct m. cbn. repeat case_bool_decide; try done. subst. by intros [= <-].
Defined.

(** A service with nothing in it yet. *)
Definition toy_service : service (R := toy_server) := {|
  sv_connMap := ∅; sv_ws := new_ws_server;
  sv_rtc := ({| tr_sessions := ∅; tr_objects := ∅ |} : @rtc_server toy_server);
  sv_callbacks := ∅; sv_closing := []; sv_reused := ∅; sv_metrics := [] |}.

Lemma toy_service_ok : svc_ok (R := toy_server) None toy_service.
Proof.
  split; cbn; try done; try (intros id cfg; by rewrite fmap_empty, lookup_empty).
Qed.

Definition client_msg (conn client text : string) : ws_Message :=
  {| wm_ClientID := client; wm_ConnID := conn; wm_Type := BinaryMessage; wm_Data := text |}.

(** Joins and a leave, with messages of the RTC server, a failing session
    and its callback in between. *)
Definition toy_events : list svc_event :=
  [SvMsg (newOpenMessage "c1" "client") []; SvMsg (client_msg "c1" "client" "join|s1") [ORtc (rtc_msg "s1")];
   SvMsg (client_msg "c1" "client" "join|s2") []; SvOther (ORtc (rtc_msg "s1"));
   SvMsg (client_msg "c1" "client" "leave|s2") [OClose "s1"; OCallback 0]; SvMsg (client_msg "c1" "client" "join|s3") []].
End ToyService.

(** ** Properties *)
Section properties.
  Context `{C : MsgCodec} `{R : RtcServer} {L : RtcServerLaws R}.

(** Whatever the messages of the clients and of the RTC server and
    whatever sessions fail in between, the service does not panic, and every
    live session has a close callback that speaks of it and of the client that
    owns its group.  It has a connection its messages can be routed to, unless
    it was joined while an earlier session of its identifier was being
    closed. *)
Theorem live_sessions_routable evs s :
  svc_ok None s →
  ∃ s', svc_run evs s = Some (tt, s') ∧
    ∀ id cfg, rtc_sessions (sv_rtc s') !! id = Some cfg →
      (id ∉ sv_reused s' → ∃ conn, sv_connMap s' !! id = Some conn)
      ∧ ∃ l cb, rtc_objects (sv_rtc s') !! l = Some cfg ∧ sv_callbacks s' !! l = Some cb
                ∧ cb_session cb = id ∧ cb_client cb = GroupID cfg.
Proof.
  intros Hs. destruct (proj1 (wp_inv _ _ _) (svc_run_ok evs s Hs)) as ([] & s' & Hrun & Hs').
  exists s'. split; [done|]. intros id cfg Hid. split; [intros Hre; by apply (so_routes _ _ Hs' id cfg)|].
  destruct (so_objects _ _ Hs' id cfg Hid) as [<- [l Hl]].
  destruct (so_callbacks _ _ Hs' l cfg Hl) as (cb & Hcb & H1 & H2). by exists l, cb.
Qed.

(** C15: a client can only make sessions in its own group, whatever group its
    join message names: dispatching a message of client [c] adds no session
    of another group, and leaves the service consistent. *)
Theorem join_confined msg ops s :
  svc_ok None s →
  ∃ s', dispatch msg (others ops) s = Some (tt, s') ∧ svc_ok None s' ∧
    ∀ id cfg, rtc_sessions (sv_rtc s') !! id = Some cfg →
      rtc_sessions (sv_rtc s) !! id = Some cfg ∨ GroupID cfg = wm_ClientID msg.
Proof.
  intros Hs. destruct (proj1 (wp_inv _ _ _) (dispatch_ok msg ops s Hs)) as ([] & s' & Hrun & Hs' & Hc).
  by exists s'.
Qed.

(** A message of the RTC server goes to the connection its session is
    routed to, under the client's identifier and with the type of its
    contents, or it is refused and nothing is sent. *)
Theorem rtc_message_routed m s :
  ws_open_ok (sv_ws s) →
  ∃ r s', handleRTCMsg m s = Some (r, s') ∧
    match r with
    | Err _ => s' = s
    | Ok _ => ∃ ty conn data,
        (ty = ClientMessageRTC ∧ (m_Type m = SDPMessage ∨ m_Type m = ICEMessage) ∨
         ty = ClientMessageVAD ∧ (m_Type m = VoiceOnMessage ∨ m_Type m = VoiceOffMessage))
        ∧ sv_connMap s !! m_SessionID m = Some conn ∧ conn ≠ str0
        ∧ Pack {| cm_Type := ty; cm_Data := DRtc m |} = Ok data
        ∧ ch_buf (ws_sendCh (sv_ws s')) = ch_buf (ws_sendCh (sv_ws s)) ++ [binary conn (m_GroupID m) data]
        ∧ sv_connMap s' = sv_connMap s ∧ sv_rtc s' = sv_rtc s
    end.
Proof.
  intros Hws. unfold handleRTCMsg.
  assert (∀ b b', b || b' = true → b = true ∨ b' = true) as Hor by by intros [] []; auto.
  destruct (bool_decide (m_Type m = SDPMessage) || bool_decide (m_Type m = ICEMessage)) eqn:E1;
    [|destruct (bool_decide (m_Type m = VoiceOnMessage) || bool_decide (m_Type m = VoiceOffMessage)) eqn:E2];
    [..|by do 2 eexists].
  all: unfold gets, modify, mbind, go_bind, mret, go_ret; cbv zeta;
    destruct (bool_decide (str_at (sv_connMap s) (m_SessionID m) = str0)) eqn:Ec; [by do 2 eexists|];
    apply bool_decide_eq_false in Ec; unfold str_at in *;
    destruct (sv_connMap s !! m_SessionID m) as [conn|] eqn:Em; [|done]; cbn in Ec |- *;
    destruct (Pack _) as [data|e] eqn:Ep; [|by do 2 eexists];
    unfold bind_res, wsServer_Send, on_ws, WsServer.Send, gets, modify, mbind, go_bind, mret, go_ret; cbn;
    destruct (ws_closed (sv_ws s)) eqn:Hcl; [do 2 eexists; split; [done|]; by destruct s|];
    unfold try_send; rewrite (Hws Hcl); destruct (bool_decide (length _ < _)); cbn;
    [|do 2 eexists; split; [done|]; by destruct s].
  all: do 2 eexists; (split; [done|]); do 3 eexists; split_and!; try done.
  - left. split; [done|]. by destruct (Hor _ _ E1) as [?%bool_decide_eq_true | ?%bool_decide_eq_true]; auto.
  - right. split; [done|]. by destruct (Hor _ _ E2) as [?%bool_decide_eq_true | ?%bool_decide_eq_true]; auto.
Qed.

(** The gauge of connections follows the connections: whatever else the
    messages do, dispatching what a connection of the WebSocket server has
    queued moves its client's gauge by one while it is open and by nothing
    before it opens and after it closes; a connection whose upgrade was
    refused takes it down by one. *)
Theorem connection_gauge `{MapOrder} ids n evs sys h id st c s s' :
  NoDup ids → ws_run evs (initial ids n) = Some sys → sy_handlers sys !! h = Some (id, st) →
  svc_run ((λ m, SvMsg m []) <$> for_conn_server id (sy_server sys)) s = Some (tt, s') →
  (conn_gauge c (sv_metrics s') - conn_gauge c (sv_metrics s))%Z =
    match st with
    | HStart | HUpgrade _ | HRefused _ | HAdd _ | HCheck _ | HOpen _ | HRemove | HCloseCh | HWsClose => 0
    | HDeadline client | HRead client | HForward client _ | HLeave client => if bool_decide (client = c) then 1 else 0
    | HDone => match for_conn_server id (sy_server sys) with
               | [m] => if bool_decide (wm_ClientID m = c) then -1 else 0
               | _ => 0
               end
    end%Z.
Proof.
  intros Hnd Hrun Hh Hs.
  assert (∀ l s s', svc_run ((λ m, SvMsg m []) <$> l) s = Some (tt, s') →
    (conn_gauge c (sv_metrics s') - conn_gauge c (sv_metrics s) = messages_delta c l)%Z) as Hd.
  { intros l. induction l as [|m l IH]; intros s1 s2; [intros [= <-]; cbn; lia|].
    rewrite fmap_cons, svc_run_cons. cbn [svc_step].
    destruct (dispatch m (others []) s1) as [[[] s3]|] eqn:E; [|done]. intros H2%IH.
    apply (dispatch_gauge c) in E. unfold messages_delta in *. cbn [foldr]. lia. }
  rewrite (Hd _ _ _ Hs).
  assert (trace_ok id st (for_conn_server id (sy_server sys))) as Ht.
  { apply (tk_traces sys) with h; [|done]. eapply ws_run_traces; [done|]. split.
    - apply (so_ids _ (initial_ok ids n Hnd)).
    - by intros h1 id1 st1 [_ ->]%initial_handler. }
  destruct st; cbn in Ht; try (by rewrite Ht); try (by apply (opened_delta c) in Ht).
  - destruct Ht as [Ht _]. by eapply opened_delta.
  - by eapply opened_closed_delta.
  - destruct Ht as [->|Ht]; [done|by eapply opened_closed_delta].
  - destruct Ht as [->|Ht]; [done|by eapply opened_closed_delta].
  - destruct Ht as [->|[[client ->]|Ht]]; [done|cbn [messages_delta foldr]; rewrite close_delta, Z.add_0_r; done|].
    rewrite (opened_closed_delta c id _ Ht). destruct Ht as (client & d & -> & (d' & -> & _)). by destruct d'.
Qed.
End properties.

(** ** Properties of messages, and what interleavings can do *)
Section more_properties.
  Context {C : MsgCodec} {M : MsgLaws C}.

(** A client message that is packed is read back as it was: join messages
    with their map of strings and booleans, leave, hello, reconnect and close
    messages with their non-empty map of strings, RTC and VAD messages with
    their RTC message. *)
Theorem client_message_roundtrip cm data : well_typed cm → Pack cm = Ok data → Unpack data = Ok cm.
Proof.
  intros Hty. unfold Pack, Unpack. rewrite bind_ok. intros (t & Ht & Hd). apply bind_ok in Hd as (d & Hd & [= <-]).
  rewrite (string_law _ _ d Ht). cbn. destruct cm as [ty dat]. unfold well_typed in Hty. cbn in *.
  destruct dat as [|[m|]|m|m|]; try done.
  - destruct Hty as [-> Hm]. rewrite bool_decide_true by done. by rewrite (map_law _ _ Hm Hd).
  - destruct Hty as [H Hm]. rewrite bool_decide_false by by apply of_typed_not_join. rewrite H.
    by rewrite (typed_map_law _ _ Hm Hd).
  - destruct (of_rtc_others _ Hty) as [H1 H2]. rewrite bool_decide_false by done. rewrite H2, Hty.
    by rewrite (rtc_law _ _ Hd).
Qed.

Context {R : RtcServer} {L : RtcServerLaws R}.

(** The route of a session is set after the session is made: when it is
    closed in between, its route is left behind for good, and the session is
    not there. *)
Theorem route_left_behind msg m c s :
  svc_ok None s → FromMap (Some {| GroupID := str0; CallID := str0; UserID := str0; SessionID := str0; Props := None |}) (Some m) = Ok c →
  wp (handle_join msg (DMap (Some m)) (others [OClose (SessionID c); OCallback (length (sv_closing s))]))
     (λ r s', r = Ok tt → rtc_sessions (sv_rtc s') !! SessionID c = None ∧ sv_closing s' = sv_closing s
                          ∧ sv_connMap s' !! SessionID c = Some (wm_ConnID msg)) s.
Proof.
  intros Hs Hc. unfold handle_join. rewrite Hc. cbv zeta. set (cfg := {| GroupID := _; CallID := _ |}).
  apply wp_bind, wp_on_rtc. eapply wp_mono; [apply init_law, Hs|]. intros x r' [Hr Hx].
  destruct x as [l|e]; [|by apply wp_ret]. destruct Hx as (H1 & H2 & H3).
  pose proof (svc_ok_joined s cfg l (wm_ConnID msg) r' Hs Hr H1 H2 H3) as Hj.
  apply wp_bind, wp_modify, wp_bind. cbn [others go_iter run_other]. apply wp_bind, wp_bind.
  apply (begin_close_ok (Some (SessionID cfg))); [exact Hj|]. intros r s2 [Hs2 _ _] Hid Hr2 Hcl _. cbn in Hr2, Hcl.
  rewrite H1, lookup_insert_eq in Hr2. destruct r as [[cb|]|]; [|done..].
  apply wp_modify, wp_bind, wp_bind, wp_gets. cbn. rewrite Hcl, list_lookup_middle by done.
  apply wp_bind, wp_modify, wp_bind, closeCb_ok; [apply Hs2|]. intros r s3 H4. apply wp_ret, wp_ret, wp_bind, wp_modify, wp_ret.
  intros _. cbn. rewrite (ss_rtc _ _ H4), (ss_closing _ _ H4). cbn. split; [exact Hid|].
  split; [|apply lookup_insert_eq]. rewrite Hcl. by rewrite delete_middle, app_nil_r.
Qed.

(** A session joined again after it was taken out and before its callback is
    called loses its new route to that callback: it is registered, and the
    messages of the RTC server cannot be sent to its client. *)
Theorem rejoin_loses_route msg m c s :
  svc_ok None s → FromMap (Some {| GroupID := str0; CallID := str0; UserID := str0; SessionID := str0; Props := None |}) (Some m) = Ok c →
  is_Some (rtc_sessions (sv_rtc s) !! SessionID c) →
  wp (run_other (OClose (SessionID c)) ;; r ← handle_join msg (DMap (Some m)) (others []);
      run_other (OCallback (length (sv_closing s))) ;; mret r)
     (λ r s', r = Ok tt → is_Some (rtc_sessions (sv_rtc s') !! SessionID c) ∧ sv_connMap s' !! SessionID c = None) s.
Proof.
  intros Hs Hc Hreg. apply wp_bind. cbn [run_other]. apply wp_bind. apply (begin_close_ok None); [exact Hs|].
  intros r s2 [Hs2 _ _] Hid Hr2 Hcl _. destruct r as [[cb|]|]; [|destruct Hreg as [x Hx]; by rewrite Hx in Hr2|done].
  apply wp_modify, wp_bind. unfold handle_join. rewrite Hc. cbv zeta. set (cfg := {| GroupID := _; CallID := _ |}).
  apply wp_bind, wp_on_rtc. eapply wp_mono; [apply init_law, Hs2|]. intros x r' [Hr Hx].
  destruct x as [l|e].
  - destruct Hx as (H1 & _ & _). apply wp_bind, wp_modify, wp_bind, wp_ret, wp_bind, wp_modify, wp_ret.
    apply wp_bind, wp_bind, wp_gets. cbn. rewrite Hcl, list_lookup_middle by done.
    apply wp_bind, wp_modify, wp_bind, closeCb_ok; [apply Hs2|]. intros r s3 H4. apply wp_ret, wp_ret. intros _.
    rewrite (ss_rtc _ _ H4), (ss_conn _ _ H4). cbn. rewrite H1. split; [by rewrite lookup_insert_eq|].
    destruct Hr2 as [-> _]. apply lookup_delete_eq.
  - destruct Hx as [H1 H2]. apply wp_ret, wp_bind. eapply wp_mono; [apply (run_other_ok None (OCallback _))|].
    + apply (svc_ok_closing _ _ cb) in Hs2; [|by destruct Hr2 as [-> _]].
      destruct Hs2. split; cbn in *; rewrite ?H1, ?H2; auto.
    + intros _ s3 _. by apply wp_ret.
Qed.

(** The close message of a session goes to the connection it was joined
    from, whatever connection it has reconnected to since. *)
Theorem close_notifies_first_connection id cfg l cb conn2 data s :
  svc_ok None s → rtc_sessions (sv_rtc s) !! id = Some cfg → sv_connMap s !! id = Some conn2 →
  ws_closed (sv_ws s) = false → length (ch_buf (ws_sendCh (sv_ws s))) < ch_cap (ws_sendCh (sv_ws s)) →
  fst <$> rtc_CloseSession id (sv_rtc s) = Some (Ok (Some l)) → sv_callbacks s !! l = Some cb →
  NewPackedClientMessage ClientMessageClose (DStrings {["sessionID"%string := id]}) = Ok data →
  ∃ s', CloseSession id (mret tt) s = Some (Ok tt, s') ∧ sv_connMap s' !! id = None
    ∧ ch_buf (ws_sendCh (sv_ws s')) = ch_buf (ws_sendCh (sv_ws s)) ++ [binary (cb_conn cb) (cb_client cb) data].
Proof.
  intros Hs Hid Hconn Hopen Hroom Hl Hcb Hd. unfold CloseSession.
  pose proof (close_law id _ (so_rtc _ _ Hs)) as Hlaw. unfold wp in Hlaw. unfold on_rtc.
  destruct (rtc_CloseSession id (sv_rtc s)) as [[x r']|] eqn:E; [|done]. cbn in Hl. injection Hl as ->.
  destruct Hlaw as (_ & _ & _ & cfg' & _ & Ho & Hcfg).
  destruct (so_callbacks _ _ Hs l cfg' Ho) as (cb' & Hcb' & Hof & _). rewrite Hcb in Hcb'. injection Hcb' as <-.
  unfold begin_close, on_rtc, gets, mbind, go_bind, mret, go_ret. rewrite E. cbn. rewrite Hcb.
  unfold closeCb, sendClientMessage, wsServer_Send, on_ws, WsServer.Send, gets, modify, mbind, go_bind, mret, go_ret.
  cbn. rewrite Hof, Hcfg, Hd. cbn. rewrite Hopen, try_send_open; [|by apply Hs|done]. cbn.
  eexists. split; [done|]. split; [apply lookup_delete_eq|done].
Qed.
End more_properties.

(** Stopping stops the RTC server before it closes the WebSocket server,
    so that the messages of the last sessions can still be sent, and the
    store after the HTTP server; when the RTC server fails to stop, nothing
    else is stopped. *)
Theorem stop_order rtc api store log :
  match rtc with
  | Err e => Stop rtc api store log = ([CloseStopCh; StopRTC], Err (EWrap "failed to stop rtc server" e))
  | Ok _ => ∃ rest, (Stop rtc api store log).1 = [CloseStopCh; StopRTC; CloseWS; StopAPI] ++ rest
                    ∧ ((Stop rtc api store log).2 = Ok tt → rest = [CloseStore; ShutdownLog])
                    ∧ (is_ok api = false → rest = [])
  end.
Proof. by destruct rtc, api, store, log; try reflexivity; eexists; split_and!. Qed.

(** ** Witnesses *)
Import ToyService.

Local Abbreviation toy_run evs := (svc_run (C := toy_msg) (R := toy_server) evs).

Local Abbreviation toy_dispatch m ops :=
  (dispatch (C := toy_msg) (R := toy_server) m (others (C := toy_msg) (R := toy_server) ops)).

Lemma live_sessions_routable_witness :
  ∃ s', toy_run toy_events toy_service = Some (tt, s')
    ∧ dom (sv_connMap s') = {["s3"]}
    ∧ ∀ id cfg, rtc_sessions (sv_rtc s') !! id = Some cfg →
        (∃ conn, sv_connMap s' !! id = Some conn)
        ∧ ∃ l cb, rtc_objects (sv_rtc s') !! l = Some cfg ∧ sv_callbacks s' !! l = Some cb
                  ∧ cb_session cb = id ∧ cb_client cb = GroupID cfg.
Proof.
  destruct (live_sessions_routable (C := toy_msg) (R := toy_server) (L := toy_server_laws) toy_events toy_service
    toy_service_ok) as (s' & Hrun & H).
  exists s'. split; [exact Hrun|].
  assert ((λ r, (sv_connMap r.2, sv_reused r.2)) <$> toy_run toy_events toy_service = Some ({["s3" := "c1"]}, ∅)) as E
    by (vm_compute; reflexivity).
  rewrite Hrun in E. cbn in E. injection E as E1 E2. split; [rewrite E1; apply dom_singleton_L|].
  intros id cfg Hid. destruct (H id cfg Hid) as [H1 H2]. split; [|exact H2]. apply H1. rewrite E2. apply not_elem_of_empty.
Defined.

Lemma join_confined_witness :
  ∃ s', toy_dispatch (client_msg "c1" "client" "join|s1") [] toy_service
        = Some (tt, s')
    ∧ (GroupID <$> rtc_sessions (sv_rtc s')) = {["s1" := "client"]}
    ∧ ∀ id cfg, rtc_sessions (sv_rtc s') !! id = Some cfg →
        rtc_sessions (sv_rtc toy_service) !! id = Some cfg ∨ GroupID cfg = "client".
Proof.
  destruct (join_confined (C := toy_msg) (R := toy_server) (L := toy_server_laws)
    (client_msg "c1" "client" "join|s1") [] toy_service toy_service_ok) as (s' & Hrun & _ & H).
  exists s'. split; [exact Hrun|]. split; [|exact H].
  assert ((λ r, GroupID <$> rtc_sessions (sv_rtc r.2)) <$>
    toy_dispatch (client_msg "c1" "client" "join|s1") [] toy_service
    = Some {["s1" := "client"]}) as E by (vm_compute; reflexivity).
  rewrite Hrun in E. cbn [fmap option_fmap option_map snd] in E. injection E as E. exact E.
Defined.

(** The service once a client has joined as [id]. *)
Definition joined_run (id : string) : list svc_event := [SvMsg (client_msg "c1" "client" ("join|" +:+ id)) []].

Lemma rtc_message_routed_witness :
  ∃ s r s', toy_run (joined_run "s1") toy_service = Some (tt, s)
    ∧ handleRTCMsg (C := toy_msg) (R := toy_server) (rtc_msg "s1") s = Some (r, s')
    ∧ r = Ok tt ∧ ch_buf (ws_sendCh (sv_ws s')) = [binary "c1" "client" "rtc|s1"].
Proof.
  destruct (proj1 (wp_inv _ _ _) (svc_run_ok (C := toy_msg) (R := toy_server) (L := toy_server_laws)
    (joined_run "s1") toy_service toy_service_ok)) as ([] & s & Hs & Hok).
  destruct (rtc_message_routed (C := toy_msg) (R := toy_server) (rtc_msg "s1") s (so_ws _ _ Hok)) as (r & s' & Hrun & Hr).
  assert ((λ r, ch_buf (ws_sendCh (sv_ws r.2))) <$> (toy_run (joined_run "s1") toy_service) = Some []) as Eb
    by (vm_compute; reflexivity).
  rewrite Hs in Eb. cbn in Eb. injection Eb as Eb.
  assert ((λ r, sv_connMap r.2) <$> (toy_run (joined_run "s1") toy_service) = Some {["s1" := "c1"]}) as Ec
    by (vm_compute; reflexivity).
  rewrite Hs in Ec. cbn in Ec. injection Ec as Ec.
  assert ((λ x, x.1) <$> (s1 ← toy_run (joined_run "s1") toy_service; handleRTCMsg (C := toy_msg) (R := toy_server) (rtc_msg "s1") s1.2)
    = Some (Ok tt)) as Er by (vm_compute; reflexivity).
  rewrite Hs in Er. cbn in Er. unfold mbind, option_bind in Er. cbn in Er. rewrite Hrun in Er. injection Er as ->.
  exists s, (Ok tt), s'. split; [exact Hs|]. split; [exact Hrun|]. split; [reflexivity|].
  destruct Hr as (ty & conn & data & [[-> _]|[_ [Hv|Hv]]] & Hconn & _ & Hp & Hb & _); [|discriminate Hv|discriminate Hv].
  rewrite Ec in Hconn. injection Hconn as <-. rewrite Hb, Eb. vm_compute in Hp. injection Hp as <-. reflexivity.
Defined.

Lemma client_message_roundtrip_witness :
  @Pack toy_msg {| cm_Type := "leave"; cm_Data := DStrings {["sessionID"%string := "s1"%string]} |} = Ok "leave|s1"
  ∧ @Unpack toy_msg "leave|s1"
    = Ok {| cm_Type := "leave"; cm_Data := DStrings {["sessionID"%string := "s1"%string]} |}.
Proof.
  assert (@Pack toy_msg {| cm_Type := "leave"; cm_Data := DStrings {["sessionID"%string := "s1"%string]} |} = Ok "leave|s1")
    as H by (vm_compute; reflexivity).
  split; [exact H|].
  refine (client_message_roundtrip (C := toy_msg) (M := toy_msg_laws) _ _ _ H).
  unfold well_typed. split; [reflexivity|apply insert_non_empty].
Defined.

Lemma connection_gauge_witness :
  ∃ sys s', @ws_run sorted_order (WsServer.toy_run) (initial ["a"; "b"] 2) = Some sys
    ∧ toy_run ((λ m, SvMsg m []) <$> for_conn_server "a" (sy_server sys)) toy_service = Some (tt, s')
    ∧ conn_gauge "client" (sv_metrics s') = 1%Z.
Proof.
  assert (∃ sys, @ws_run sorted_order (WsServer.toy_run) (initial ["a"; "b"] 2) = Some sys
    ∧ sy_handlers sys !! 0 = Some ("a", HRead "client")) as (sys & H1 & H2).
  { vm_compute. eexists. by split. }
  destruct (proj1 (wp_inv _ _ _) (svc_run_ok (C := toy_msg) (R := toy_server) (L := toy_server_laws)
    ((λ m, SvMsg m []) <$> for_conn_server "a" (sy_server sys)) toy_service toy_service_ok)) as ([] & s' & Hs & _).
  exists sys, s'. split; [exact H1|]. split; [exact Hs|].
  pose proof (connection_gauge (C := toy_msg) (R := toy_server) (H := sorted_order) ["a"; "b"] 2 _ sys 0 "a" _ "client"
    toy_service s' toy_ids H1 H2 Hs) as E.
  cbv beta iota in E. rewrite bool_decide_true in E by reflexivity. change (conn_gauge "client" (sv_metrics toy_service)) with 0%Z in E. lia.
Defined.
