(* ===== verification/ServiceRtc.v ===== *)
(** * ServiceRtc: the RTC server behind the service

    The detailed model of the RTC server (Registry.v, Server.v, Sfu.v)
    provides what Service.v asks of one, so that the invariant of the service
    holds of the composition, whatever other goroutines do. *)
From S2P Require Import Prelude WsServer RtcConfig Pion World Call Registry Server Sfu Service.

Section instance.
  Context {E : Env} `{!PionLaws env_pion}.
  (** The platform, the credentials' MAC, the clock and the resolver. *)
  Context (arch : GoFloat.float → Z) (mac : string → string → string) (now : Z)
    (lookup_ip : string → string → result (list string)) (skip_env : bool).

Definition world_server : RtcServer := {|
  rtc_server := world;
  rtc_ok := λ w, reg_wf w ∧ ch_closed (World.sendCh (w_server w)) = false;
  rtc_sessions := λ w, srv_sessions (w_server w);
  rtc_objects := λ w, s_cfg <$> w_sessions w;
  rtc_InitSession := λ cfg,
    r ← InitSession arch mac now lookup_ip skip_env cfg true;
    mret (match r with Ok (us, _, _) => Ok us | Err e => Err e end);
  rtc_CloseSession := CloseSession_run;
  rtc_Send := Server.Send;
|}.

Lemma set_sessions_cfg (m : gmap loc session) us s cfg :
  s_cfg s = cfg → s_cfg <$> <[us := s]> m = <[us := cfg]> (s_cfg <$> m).
Proof. intros <-. apply fmap_insert. Qed.

(** The sessions keep their configurations when one of them is closed. *)
Lemma removed_objects cfg gl cl us gr call s w w' :
  placed cfg gl cl us gr call s w → removed cfg gl cl us gr call s w w' →
  s_cfg <$> w_sessions w' = s_cfg <$> w_sessions w.
Proof.
  intros Hp Hr. apply map_eq. intros l. rewrite !lookup_fmap. destruct (decide (l = us)) as [->|Hne].
  - destruct (rm_us _ _ _ _ _ _ _ _ _ Hr) as (s' & -> & _ & _ & _ & Hc). rewrite (pl_s _ _ _ _ _ _ _ _ Hp).
    cbn. by rewrite Hc.
  - destruct (w_sessions w !! l) as [s1|] eqn:E1.
    + destruct (rm_others _ _ _ _ _ _ _ _ _ Hr l s1 Hne E1) as (s2 & -> & (ch & x & -> & _)). done.
    + by rewrite (rm_none _ _ _ _ _ _ _ _ _ Hr l E1).
Qed.

Lemma world_init cfg w :
  rtc_ok (RtcServer := world_server) w →
  wp (rtc_InitSession (RtcServer := world_server) cfg) (λ x w', rtc_ok (RtcServer := world_server) w' ∧
    match x with
    | Ok l => srv_sessions (w_server w') = <[SessionID cfg := cfg]> (srv_sessions (w_server w))
              ∧ (s_cfg <$> w_sessions w) !! l = None ∧ s_cfg <$> w_sessions w' = <[l := cfg]> (s_cfg <$> w_sessions w)
    | Err _ => srv_sessions (w_server w') = srv_sessions (w_server w)
               ∧ s_cfg <$> w_sessions w' = s_cfg <$> w_sessions w
    end) w.
Proof.
  intros [Hw Hs]. cbn. apply wp_bind.
  destruct (SessionConfig_IsValid cfg) as [[]|e] eqn:Hv; [|unfold InitSession; rewrite Hv; by apply wp_ret, wp_ret].
  apply InitSession_spec; [done|done| |].
  - intros e r. apply wp_ret. split; [|done]. split; [|done]. destruct Hw; by split.
  - intros us c vars conn est r gl cl gr call w2 Hw1 Hw2 Had. apply wp_ret.
    assert (Hnew : w_sessions w2 !! us = Some (new_session cfg conn true cl)).
    { rewrite (ad_session _ _ _ _ _ _ _ _ _ _ Had). apply lookup_insert_eq. }
    pose proof (ad_chans _ _ _ _ _ _ _ _ _ _ Had) as Hch. split; [split|].
    + eapply reg_same_wf; [|exact Hw2]. eapply reg_same_put; [exact Hnew|]. split; try done. by intros [].
    + injection Hch as _ Hch. cbn. by rewrite Hch.
    + split; [apply (ad_entries _ _ _ _ _ _ _ _ _ _ Had)|]. split.
      * rewrite lookup_fmap. destruct (rw_fresh _ Hw us) as (_ & _ & ->); [|done].
        exact (ad_fresh _ _ _ _ _ _ _ _ _ _ Had).
      * unfold put_session. wsimpl. rewrite (ad_session _ _ _ _ _ _ _ _ _ _ Had), insert_insert_eq.
        by apply set_sessions_cfg.
Qed.

Lemma world_close id w :
  rtc_ok (RtcServer := world_server) w →
  wp (CloseSession_run id) (λ x w', rtc_ok (RtcServer := world_server) w'
    ∧ srv_sessions (w_server w') = delete id (srv_sessions (w_server w))
    ∧ s_cfg <$> w_sessions w' = s_cfg <$> w_sessions w ∧
    match x with
    | Ok (Some l) => ∃ cfg, srv_sessions (w_server w) !! id = Some cfg ∧ (s_cfg <$> w_sessions w) !! l = Some cfg
                            ∧ SessionID cfg = id
    | Ok None => srv_sessions (w_server w) !! id = None
    | Err _ => False
    end) w.
Proof.
  intros [Hw Hs]. destruct (srv_sessions (w_server w) !! id) as [cfg|] eqn:He.
  - pose proof (rw_entry _ Hw _ _ He) as (Hid & _).
    apply (CloseSession_run_spec id cfg); [done|done|]. intros gl cl us gr call s w' Hp Hm Hr.
    pose proof (rm_chans _ _ _ _ _ _ _ _ _ Hr) as Hch. injection Hch as _ Hch. split; [split|].
    + by eapply removed_wf.
    + cbn. by rewrite Hch.
    + split; [rewrite (rm_entries _ _ _ _ _ _ _ _ _ Hr); by rewrite Hid|].
      split; [by eapply removed_objects|]. exists cfg. split; [done|]. split; [|done].
      rewrite lookup_fmap, (pl_s _ _ _ _ _ _ _ _ Hp). cbn. by rewrite (pl_cfg _ _ _ _ _ _ _ _ Hp).
  - apply unregister_none; [done|done|]. intros w' Hw' _ H1 H2 H3. injection H3 as _ H3.
    split; [split; [done|cbn; by rewrite H3]|]. split; [by rewrite H1, delete_id|]. by rewrite H2.
Qed.

Lemma world_send m w :
  rtc_ok (RtcServer := world_server) w →
  wp (Server.Send m) (λ _ w', rtc_ok (RtcServer := world_server) w'
    ∧ srv_sessions (w_server w') = srv_sessions (w_server w) ∧ s_cfg <$> w_sessions w' = s_cfg <$> w_sessions w) w.
Proof.
  intros [Hw Hs]. cbn in Hs. unfold Server.Send. apply wp_bind, wp_gets. apply wp_bind. unfold send_on, try_send. rewrite Hs.
  case_bool_decide.
  - apply wp_bind, wp_modify, wp_ret, wp_ret. split; [|done]. split; [|done].
    eapply reg_same_wf; [|exact Hw]. apply reg_same_send.
  - apply wp_ret, wp_ret. done.
Qed.

#[local] Instance world_server_laws : RtcServerLaws world_server.
Proof. split; [apply world_init|apply world_close|intros m w; apply world_send]. Qed.


End instance.

Section witness.
  Local Abbreviation toy_rtc := (world_server (E := toy_env) (λ _, 0%Z) (λ _ _, str0) 0 (λ _ _, Ok []) false).



End witness.
