(* ===== verification/ClientState.v ===== *)
(** * ClientState: the state of a Calls client and what it sends
      (client/client.go, call.go, types.go and sendWS of websocket.go)

    A client joins a call of a Mattermost server: it talks to the server
    through the WebSocket client of [WsClient] and to the media server through
    a WebRTC connection of the library.  [ClientLib] names what it calls of the
    library beyond [Pion], and the codecs; [ClientLaws] is what is relied on.

    The subscriber of an event runs inside [emit], with no lock held; what it
    does to the client is the argument [on_event]. *)
From Stdlib Require Import Floats.SpecFloat Ascii.
From S2P Require Import Prelude GoText GoFloat RtcConfig Utils Dc WsServer WsClient RtcMonitor Pion.

(** ** Data *)
Definition pluginID : string := "com.mattermost.calls".
Definition wsEvPrefix : string := "custom_" +:+ pluginID +:+ "_".

Definition RTCConnectEvent : string := "RTCConnect".
Definition RTCDisconnectEvent : string := "RTCDisconnect".
Definition RTCTrackEvent : string := "RTCTrack".
Definition RTCSenderRTCPPacketEvent : string := "RTCSenderRTCPPacket".
Definition CloseEvent : string := "Close".
Definition ErrorEvent : string := "Error".
Definition WSConnectEvent : string := "WSConnect".
Definition WSDisconnectEvent : string := "WSDisconnect".
Definition WSCallJoinEvent : string := "WSCallJoin".
Definition WSCallRecordingStateEvent : string := "WSCallRecordingState".
Definition WSCallJobStateEvent : string := "WSCallJobState".
Definition WSJobStopEvent : string := "WSStopJobEvent".
Definition WSCallHostChangedEvent : string := "WSCallHostChanged".
Definition WSCallMutedEvent : string := "WSCallMuted".
Definition WSCallUnmutedEvent : string := "WSCallUnmuted".
Definition WSCallRaisedHandEvent : string := "WSCallRaisedHand".
Definition WSCallLoweredHandEvent : string := "WSCallLoweredHand".
Definition WSCallScreenOnEvent : string := "WSCallScreenOn".
Definition WSCallScreenOffEvent : string := "WSCallScreenOff".

Definition event_types : list string :=
  [RTCConnectEvent; RTCDisconnectEvent; RTCTrackEvent; RTCSenderRTCPPacketEvent; CloseEvent; ErrorEvent;
   WSConnectEvent; WSDisconnectEvent; WSCallJoinEvent; WSCallRecordingStateEvent; WSCallHostChangedEvent;
   WSCallUnmutedEvent; WSCallMutedEvent; WSCallRaisedHandEvent; WSCallLoweredHandEvent; WSCallScreenOnEvent;
   WSCallScreenOffEvent; WSCallJobStateEvent; WSJobStopEvent].
Definition EventType_IsValid (e : string) : bool := bool_decide (e ∈ event_types).

Definition ErrAlreadySubscribed : error := EText "already subscribed".

Record CallJobState := { cj_Type : string; cj_InitAt : Z; cj_StartAt : Z; cj_EndAt : Z; cj_Err : string }.

(** The float of 64 bits, for the numbers of decoded JSON. *)
Definition float_of_bits (bits : Z) : float :=
  let s := Z.testbit bits 63 in
  let e := (Z.shiftr bits 52 `mod` 2048)%Z in
  let m := (bits `mod` 2 ^ 52)%Z in
  let finite m e := match m with Z.pos p => S754_finite s p e | _ => S754_zero s end in
  if bool_decide (e = 2047)%Z then if bool_decide (m = 0)%Z then S754_infinity s else S754_nan
  else if bool_decide (e = 0)%Z then finite m (-1074)%Z
  else finite (m + 2 ^ 52)%Z (e - 1075)%Z.

(** [v, _ := x.(float64)]. *)
Definition as_float (v : any) : float := match v with AFloat bits => float_of_bits bits | _ => S754_zero false end.

(** [m[k]] of a [map[string]any]. *)
Definition at_key (m : gmap string any) (k : string) : any := default ANil (m !! k).

Definition CallJobState_FromMap (arch : float → Z) (m : gmap string any) : CallJobState := {|
  cj_Type := as_string (at_key m "type");
  cj_InitAt := float_to_int arch (as_float (at_key m "init_at"));
  cj_StartAt := float_to_int arch (as_float (at_key m "start_at"));
  cj_EndAt := float_to_int arch (as_float (at_key m "end_at"));
  cj_Err := as_string (at_key m "err") |}.

(** What a request carries: nothing, the join and reconnect messages, a map
    with the one key "data" to a string or to bytes, or what a caller of
    [SendWS] gives. *)
Inductive request_data :=
  | NoData
  | CallJoinMessage (channelID jobID : string) (av1Support dcSignaling : bool)
  | CallReconnectMessage (channelID originalConnID prevConnID : string)
  | StringData (data : string)
  | BytesData (data : string)
  | OtherData (data : any).

(** [rq_user] is a ghost: whether the request was made by a caller of
    [SendWS], which sends any action. *)
Record ws_request := { rq_action : string; rq_seq : Z; rq_data : request_data; rq_user : bool }.

Definition wsEventJoin : string := wsEvPrefix +:+ "join".
Definition wsEventMute : string := wsEvPrefix +:+ "mute".
Definition wsEventUnmute : string := wsEvPrefix +:+ "unmute".
Definition wsEventScreenOn : string := wsEvPrefix +:+ "screen_on".
Definition wsEventScreenOff : string := wsEvPrefix +:+ "screen_off".
Definition wsEventRaiseHand : string := wsEvPrefix +:+ "raise_hand".
Definition wsEventLowerHand : string := wsEvPrefix +:+ "unraise_hand".
Definition wsEventICE : string := wsEvPrefix +:+ "ice".
Definition wsEventSDP : string := wsEvPrefix +:+ "sdp".
Definition wsEventLeave : string := wsEvPrefix +:+ "leave".
Definition wsEventReconnect : string := wsEvPrefix +:+ "reconnect".

(** The part of [Config] that is used after [Parse]. *)
Record CallsConfig := {
  cg_SiteURL : string;
  cg_ChannelID : string;
  cg_JobID : string;
  cg_EnableAV1 : bool;
  cg_EnableDCSignaling : bool;
  cg_EnableRTCMonitor : bool;
}.

(** ** What is called of the library *)
Class ClientLib `{P : Pion} := {
  json_request : string → Z → request_data → result string;
  msgpack_request : string → Z → request_data → result string;
  RemoteDescription : pc → rtc → option sdp;
  candidate_init : string → candidate;
  session_description : sdp_type → string → sdp;
  sdp_SDP : sdp → string;
  json_object : string → result (gmap string any);
  zlib_json_sdp : sdp → result string;
  transceiver : Type;
  AddTransceiverFromTrack : pc → track → rtc → result transceiver * rtc;
  trx_Sender : transceiver → sender;
  AddEncoding : sender → track → rtc → result unit * rtc;
  track_StreamID : track → string;
  json_screen : string → result string;
  RegisterDefaultCodecs : media → result media;
  NewStatsInterceptor : result interceptor;
  RegisterDefaultInterceptors : media → interceptors → result (media * interceptors);
  ClientPeerConnection : media → interceptors → bool → rtc → result pc * rtc;
  CreateDataChannel : pc → rtc → result dchan * rtc;
  dc_Open : dchan → rtc → bool;
  remote_ID : remote → string;
}.
Arguments ClientLib P : clear implicits.

(** A remote description that is accepted is what [RemoteDescription] shows,
    and nothing else changes it; what is known of transceivers. *)
Class ClientLaws {P : Pion} (L : ClientLib P) := {
  remote_set p d r r' : SetRemoteDescription p d r = (Ok tt, r') → is_Some (RemoteDescription p r');
  remote_candidate p q c r : RemoteDescription q (AddICECandidate p c r).2 = RemoteDescription q r;
  remote_offer p q r : RemoteDescription q (CreateOffer p r).2 = RemoteDescription q r;
  remote_answer p q r : RemoteDescription q (CreateAnswer p r).2 = RemoteDescription q r;
  remote_local p q d r : RemoteDescription q (SetLocalDescription p d r).2 = RemoteDescription q r;
  remote_add p q t r : RemoteDescription q (AddTrack p t r).2 = RemoteDescription q r;
  remote_replace s q t r : RemoteDescription q (ReplaceTrack s t r).2 = RemoteDescription q r;
  remote_remove p q s r : RemoteDescription q (RemoveTrack p s r).2 = RemoteDescription q r;
  remote_transceiver p q t r : RemoteDescription q (AddTransceiverFromTrack p t r).2 = RemoteDescription q r;
  remote_encoding s q t r : RemoteDescription q (AddEncoding s t r).2 = RemoteDescription q r;
  remote_stop x q r : RemoteDescription q (receiver_Stop x r).2 = RemoteDescription q r;
  remote_pli p q n r : RemoteDescription q (WritePLI p n r).2 = RemoteDescription q r;
  remote_dc d q m r : RemoteDescription q (dc_Send d m r).2 = RemoteDescription q r;
  transceiver_sent p t r x r' :
    AddTransceiverFromTrack p t r = (Ok x, r') →
    trx_Sender x ∈ GetSenders p r' ∧ sender_Track (trx_Sender x) r' = Some t;
  encoding_failed s t r e r' :
    AddEncoding s t r = (Err e, r') → same_senders r r' ∧ ∀ s, sender_Track s r' = sender_Track s r;
}.

(** ** State *)
Inductive client_state := clientStateNew | clientStateInit | clientStateClosing | clientStateClosed.
#[export] Instance client_state_eq_dec : EqDecision client_state.
Proof. solve_decision. Defined.

(** What the subscriber of an event is given. *)
Inductive event_ctx `{Pion} :=
  | CtxNil
  | CtxError (e : error)
  | CtxString (s : string)
  | CtxJobState (j : CallJobState)
  | CtxTrack (t : remote) (r : receiver)
  | CtxRTCP (rid : string) (snd : sender).

Definition iceChSize : nat := 20.

(** The connection to the server: the socket's client ([None] is the nil
    pointer), the next sequence number, the identifiers of the first and of
    the current connection, and every request that was numbered. *)
Record signaling := {
  sg_ws : option ws_client;
  sg_seq : Z;
  sg_original : string;
  sg_current : string;
  sg_requests : list ws_request;
}.

Definition put_ws (w : option ws_client) (g : signaling) : signaling := {|
  sg_ws := w; sg_seq := sg_seq g; sg_original := sg_original g; sg_current := sg_current g; sg_requests := sg_requests g |}.
Definition put_ids (original current : string) (g : signaling) : signaling := {|
  sg_ws := sg_ws g; sg_seq := sg_seq g; sg_original := original; sg_current := current; sg_requests := sg_requests g |}.
Definition add_request (r : ws_request) (g : signaling) : signaling := {|
  sg_ws := sg_ws g; sg_seq := wrap_int 64 (sg_seq g + 1); sg_original := sg_original g; sg_current := sg_current g;
  sg_requests := sg_requests g ++ [r] |}.

(** The part of [Close] and of the reconnection. *)
Record lifecycle := {
  lc_state : client_state;
  lc_wsCloseCh : bool;
  lc_wsDoneCh : bool;
  lc_reconnectInterval : Z;
  lc_lastDisconnect : Z;
}.
Definition put_state (st : client_state) (l : lifecycle) : lifecycle := {|
  lc_state := st; lc_wsCloseCh := lc_wsCloseCh l; lc_wsDoneCh := lc_wsDoneCh l;
  lc_reconnectInterval := lc_reconnectInterval l; lc_lastDisconnect := lc_lastDisconnect l |}.
Definition put_chans (closeCh doneCh : bool) (l : lifecycle) : lifecycle := {|
  lc_state := lc_state l; lc_wsCloseCh := closeCh; lc_wsDoneCh := doneCh;
  lc_reconnectInterval := lc_reconnectInterval l; lc_lastDisconnect := lc_lastDisconnect l |}.
Definition put_reconnect (interval last : Z) (l : lifecycle) : lifecycle := {|
  lc_state := lc_state l; lc_wsCloseCh := lc_wsCloseCh l; lc_wsDoneCh := lc_wsDoneCh l;
  lc_reconnectInterval := interval; lc_lastDisconnect := last |}.

Section client.
  Context {P : Pion}.

(** The WebRTC connection; [md_added] is every candidate given to the library
    and whether the remote description was known then. *)
Record media_part {L : ClientLib P} := {
  md_rtc : rtc;
  md_pc : option pc;
  md_dc : option dchan;
  md_iceCh : chan candidate;
  md_receivers : gmap string (list receiver);
  md_voiceSender : option sender;
  md_screenTransceivers : list transceiver;
  md_rtcMon : option rtcMonitor;
  md_lastPingTS : Z;
  md_lastRTT : Z;
  md_added : list (candidate * bool);
}.

  Context {L : ClientLib P}.

Definition put_lib (r : rtc) (m : media_part) : media_part := {|
  md_rtc := r; md_pc := md_pc m; md_dc := md_dc m; md_iceCh := md_iceCh m; md_receivers := md_receivers m;
  md_voiceSender := md_voiceSender m; md_screenTransceivers := md_screenTransceivers m; md_rtcMon := md_rtcMon m;
  md_lastPingTS := md_lastPingTS m; md_lastRTT := md_lastRTT m; md_added := md_added m |}.
Definition put_pc (p : option pc) (d : option dchan) (mon : option rtcMonitor) (m : media_part) : media_part := {|
  md_rtc := md_rtc m; md_pc := p; md_dc := d; md_iceCh := md_iceCh m; md_receivers := md_receivers m;
  md_voiceSender := md_voiceSender m; md_screenTransceivers := md_screenTransceivers m; md_rtcMon := mon;
  md_lastPingTS := md_lastPingTS m; md_lastRTT := md_lastRTT m; md_added := md_added m |}.
Definition put_ice (ch : chan candidate) (added : list (candidate * bool)) (m : media_part) : media_part := {|
  md_rtc := md_rtc m; md_pc := md_pc m; md_dc := md_dc m; md_iceCh := ch; md_receivers := md_receivers m;
  md_voiceSender := md_voiceSender m; md_screenTransceivers := md_screenTransceivers m; md_rtcMon := md_rtcMon m;
  md_lastPingTS := md_lastPingTS m; md_lastRTT := md_lastRTT m; md_added := added |}.
Definition put_tracks (rx : gmap string (list receiver)) (voice : option sender) (screen : list transceiver)
    (m : media_part) : media_part := {|
  md_rtc := md_rtc m; md_pc := md_pc m; md_dc := md_dc m; md_iceCh := md_iceCh m; md_receivers := rx;
  md_voiceSender := voice; md_screenTransceivers := screen; md_rtcMon := md_rtcMon m;
  md_lastPingTS := md_lastPingTS m; md_lastRTT := md_lastRTT m; md_added := md_added m |}.
Definition put_ping (ts rtt : Z) (m : media_part) : media_part := {|
  md_rtc := md_rtc m; md_pc := md_pc m; md_dc := md_dc m; md_iceCh := md_iceCh m; md_receivers := md_receivers m;
  md_voiceSender := md_voiceSender m; md_screenTransceivers := md_screenTransceivers m; md_rtcMon := md_rtcMon m;
  md_lastPingTS := ts; md_lastRTT := rtt; md_added := md_added m |}.

(** [cc_emitted] is every event a subscriber was called for. *)
Record calls_client := {
  cc_cfg : CallsConfig;
  cc_handlers : gset string;
  cc_sig : signaling;
  cc_med : media_part;
  cc_life : lifecycle;
  cc_emitted : list (string * event_ctx);
}.

Definition upd_sig (f : signaling → signaling) (c : calls_client) : calls_client := {|
  cc_cfg := cc_cfg c; cc_handlers := cc_handlers c; cc_sig := f (cc_sig c); cc_med := cc_med c; cc_life := cc_life c;
  cc_emitted := cc_emitted c |}.
Definition upd_med (f : media_part → media_part) (c : calls_client) : calls_client := {|
  cc_cfg := cc_cfg c; cc_handlers := cc_handlers c; cc_sig := cc_sig c; cc_med := f (cc_med c); cc_life := cc_life c;
  cc_emitted := cc_emitted c |}.
Definition upd_life (f : lifecycle → lifecycle) (c : calls_client) : calls_client := {|
  cc_cfg := cc_cfg c; cc_handlers := cc_handlers c; cc_sig := cc_sig c; cc_med := cc_med c; cc_life := f (cc_life c);
  cc_emitted := cc_emitted c |}.
Definition subscribe (e : string) (c : calls_client) : calls_client := {|
  cc_cfg := cc_cfg c; cc_handlers := {[e]} ∪ cc_handlers c; cc_sig := cc_sig c; cc_med := cc_med c;
  cc_life := cc_life c; cc_emitted := cc_emitted c |}.
Definition log_event (e : string) (x : event_ctx) (c : calls_client) : calls_client := {|
  cc_cfg := cc_cfg c; cc_handlers := cc_handlers c; cc_sig := cc_sig c; cc_med := cc_med c; cc_life := cc_life c;
  cc_emitted := cc_emitted c ++ [(e, x)] |}.

(** [New], after the configuration is parsed. *)
Definition New (cfg : CallsConfig) (r : rtc) : calls_client := {|
  cc_cfg := cfg; cc_handlers := ∅;
  cc_sig := {| sg_ws := None; sg_seq := 1; sg_original := str0; sg_current := str0; sg_requests := [] |};
  cc_med := {| md_rtc := r; md_pc := None; md_dc := None; md_iceCh := make_chan iceChSize; md_receivers := ∅;
    md_voiceSender := None; md_screenTransceivers := []; md_rtcMon := None; md_lastPingTS := 0; md_lastRTT := 0;
    md_added := [] |};
  cc_life := {| lc_state := clientStateNew; lc_wsCloseCh := false; lc_wsDoneCh := false;
    lc_reconnectInterval := 0; lc_lastDisconnect := zero_time |};
  cc_emitted := [] |}.

(** A call of the library. *)
Definition lib {A} (f : rtc → A * rtc) : go calls_client A := λ c,
  let '(a, r) := f (md_rtc (cc_med c)) in Some (a, upd_med (put_lib r) c).

(** ** Events *)
Definition On (eventType : string) : go calls_client (result unit) :=
  if negb (EventType_IsValid eventType) then mret (Err (EText ("invalid event type " +:+ eventType)))
  else
    c ← gets (λ c, c);
    if bool_decide (eventType ∈ cc_handlers c) then mret (Err ErrAlreadySubscribed)
    else modify (subscribe eventType) ;; mret (Ok tt).

(** What the subscribers do. *)
  Context (on_event : string → event_ctx → go calls_client unit).

Definition emit (eventType : string) (x : event_ctx) : go calls_client unit :=
  c ← gets (λ c, c);
  when (bool_decide (eventType ∈ cc_handlers c)) (modify (log_event eventType x) ;; on_event eventType x).

(** ** Sending *)

(** [c.ws.Send]: a nil client panics. *)
Definition ws_Send (m : ws_Message) : go calls_client (result unit) := λ c,
  w ← sg_ws (cc_sig c);
  '(st, w) ← (st ← sender_step (SCheck m); sender_step st) w;
  Some (match st with SRet r => r | _ => Ok tt end, upd_sig (put_ws (Some w)) c).

Definition send_request (user : bool) (ev : string) (msg : request_data) (binary : bool) : go calls_client (result unit) :=
  c ← gets (λ c, c);
  let seq := sg_seq (cc_sig c) in
  let req := {| rq_action := ev; rq_seq := seq; rq_data := msg; rq_user := user |} in
  let msgType := if binary then BinaryMessage else TextMessage in
  match (if binary then msgpack_request ev seq msg else json_request ev seq msg) with
  | Err e => mret (Err (EWrap ("failed to marshal ws message (" +:+ ev +:+ ")") e))
  | Ok data =>
      modify (upd_sig (add_request req)) ;;
      r ← ws_Send {| wm_ClientID := str0; wm_ConnID := str0; wm_Type := msgType; wm_Data := data |};
      mret (wrap_err ("failed to send ws message (" +:+ ev +:+ ")") r)
  end.

(** The client's own requests, and those of the callers of [SendWS]. *)
Definition sendWS : string → request_data → bool → go calls_client (result unit) := send_request false.
Definition SendWS : string → request_data → bool → go calls_client (result unit) := send_request true.

Definition joinCall : go calls_client (result unit) :=
  c ← gets cc_cfg;
  r ← sendWS wsEventJoin
    (CallJoinMessage (cg_ChannelID c) (cg_JobID c) (cg_EnableAV1 c) (cg_EnableDCSignaling c)) false;
  mret (wrap_err "failed to send ws msg" r).

Definition leaveCall : go calls_client (result unit) :=
  r ← sendWS wsEventLeave NoData false; mret (wrap_err "failed to send ws msg" r).

Definition reconnectCall : go calls_client (result unit) :=
  c ← gets (λ c, c);
  r ← sendWS wsEventReconnect
    (CallReconnectMessage (cg_ChannelID (cc_cfg c)) (sg_original (cc_sig c)) (sg_current (cc_sig c))) false;
  mret (wrap_err "failed to send ws msg" r).

End client.

(** ** What sending does *)

(** Requests are numbered from 1 on, in [int64]. *)
Definition number (n : nat) : Z := wrap_int 64 (1 + Z.of_nat n).
Definition numbered (g : signaling) : Prop :=
  rq_seq <$> sg_requests g = number <$> seq 0 (length (sg_requests g)) ∧
  sg_seq g = number (length (sg_requests g)).

Lemma add_request_numbered r g : rq_seq r = sg_seq g → numbered g → numbered (add_request r g).
Proof.
  intros Hr [Hl Hs]. split; cbn.
  - rewrite fmap_app, length_app, seq_app, fmap_app, Hl. cbn. by rewrite Hr, Hs.
  - rewrite length_app, Hs. unfold number. rewrite wrap_int_succ. cbn. f_equal. lia.
Qed.

(** Two requests of one client have different numbers, up to 2^64 of them. *)
Lemma numbered_distinct g i j r s :
  numbered g → (Z.of_nat (length (sg_requests g)) ≤ 2 ^ 64)%Z →
  sg_requests g !! i = Some r → sg_requests g !! j = Some s → rq_seq r = rq_seq s → i = j.
Proof.
  intros [Hl _] Hn Hi Hj Hrs.
  assert (∀ k r, sg_requests g !! k = Some r → k < length (sg_requests g) ∧ rq_seq r = number k) as Hnum.
  { intros k x Hk. apply lookup_lt_Some in Hk as Hlt. split; [done|].
    assert ((rq_seq <$> sg_requests g) !! k = Some (rq_seq x)) as H by (by rewrite list_lookup_fmap, Hk).
    rewrite Hl, list_lookup_fmap, lookup_seq_lt in H by done. by injection H. }
  destruct (Hnum i r Hi) as [Hi1 Hi2]. destruct (Hnum j s Hj) as [Hj1 Hj2].
  rewrite Hi2, Hj2 in Hrs. unfold number, wrap_int in Hrs.
  assert ((1 + Z.of_nat i + 2 ^ (64 - 1)) mod 2 ^ 64 = (1 + Z.of_nat j + 2 ^ (64 - 1)) mod 2 ^ 64)%Z as Hm by lia.
  apply (f_equal (λ z, (z - (1 + 2 ^ (64 - 1))) mod 2 ^ 64)%Z) in Hm.
  rewrite !Zminus_mod_idemp_l in Hm.
  replace (1 + Z.of_nat i + 2 ^ (64 - 1) - (1 + 2 ^ (64 - 1)))%Z with (Z.of_nat i) in Hm by lia.
  replace (1 + Z.of_nat j + 2 ^ (64 - 1) - (1 + 2 ^ (64 - 1)))%Z with (Z.of_nat j) in Hm by lia.
  rewrite !Z.mod_small in Hm by lia. lia.
Qed.

(** The socket's client is there; its channel is never closed. *)
Definition ready (g : signaling) : Prop := ∃ w, sg_ws g = Some w ∧ ch_closed (wc_sendCh w) = false.

Lemma ready_add r g : ready g → ready (add_request r g).
Proof. done. Qed.

Section sending.
  Context {P : Pion} {L : ClientLib P}.

Lemma wp_pion {A} (f : rtc → A * rtc) Q (c : calls_client) :
  Q (f (md_rtc (cc_med c))).1 (upd_med (put_lib (f (md_rtc (cc_med c))).2) c) → wp (lib f) Q c.
Proof. unfold wp, lib. by destruct (f (md_rtc (cc_med c))). Qed.

Lemma wp_ws_Send m (c : calls_client) :
  ready (cc_sig c) →
  wp (ws_Send m) (λ _ c', ∃ w, ch_closed (wc_sendCh w) = false ∧ c' = upd_sig (put_ws (Some w)) c) c.
Proof.
  intros (w & Hw & Ho). destruct (sender_send m w Ho) as (r & w' & E & Ho').
  unfold wp, ws_Send. rewrite Hw. cbn [mbind option_bind]. rewrite E. cbn. by exists w'.
Qed.

(** A request is encoded, numbered and handed to the socket's client, or
    nothing happens. *)
Definition sent_by (user : bool) (ev : string) (msg : request_data) (c c' : calls_client) : Prop :=
  c' = c ∨
  ∃ w, ch_closed (wc_sendCh w) = false ∧
    c' = upd_sig (λ g, put_ws (Some w)
      (add_request {| rq_action := ev; rq_seq := sg_seq g; rq_data := msg; rq_user := user |} g)) c.
Definition sent_as : string → request_data → calls_client → calls_client → Prop := sent_by false.

Lemma wp_send_request user ev msg binary (c : calls_client) :
  ready (cc_sig c) → wp (send_request user ev msg binary) (λ _ c', sent_by user ev msg c c') c.
Proof.
  intros Hr. unfold send_request. apply wp_bind, wp_gets. cbn zeta.
  destruct (if binary then _ else _); [|by left].
  apply wp_bind, wp_modify, wp_bind. eapply wp_mono; [by apply wp_ws_Send|].
  intros r c' (w & Ho & ->). apply wp_ret. right. by exists w.
Qed.

Lemma wp_sendWS ev msg binary (c : calls_client) :
  ready (cc_sig c) → wp (sendWS ev msg binary) (λ _ c', sent_as ev msg c c') c.
Proof. apply wp_send_request. Qed.

(** What a request, or a call of the library that does not touch the remote
    description, leaves alone. *)
Record api_frame (act : ws_request → Prop) (c c' : calls_client) : Prop := {
  af_cfg : cc_cfg c' = cc_cfg c;
  af_handlers : cc_handlers c ⊆ cc_handlers c';
  af_life : cc_life c' = cc_life c;
  af_original : sg_original (cc_sig c') = sg_original (cc_sig c);
  af_current : sg_current (cc_sig c') = sg_current (cc_sig c);
  af_requests : ∃ l, sg_requests (cc_sig c') = sg_requests (cc_sig c) ++ l ∧ Forall act l;
  af_numbered : numbered (cc_sig c) → numbered (cc_sig c');
  af_ready : ready (cc_sig c) → ready (cc_sig c');
  af_emitted : cc_emitted c' = cc_emitted c;
  af_pc : md_pc (cc_med c') = md_pc (cc_med c);
  af_ice : md_iceCh (cc_med c') = md_iceCh (cc_med c);
  af_added : md_added (cc_med c') = md_added (cc_med c);
  af_mon : md_rtcMon (cc_med c') = md_rtcMon (cc_med c);
  af_remote p : RemoteDescription p (md_rtc (cc_med c')) = RemoteDescription p (md_rtc (cc_med c));
}.

#[export] Instance api_frame_preorder act : PreOrder (api_frame act).
Proof.
  split.
  - intros c. split; try done. exists []. by rewrite app_nil_r.
  - intros c1 c2 c3 H1 H2. split.
    4-5,9-13: by etrans; [apply H2|apply H1].
    + etrans; [apply H2|apply H1].
    + etrans; [apply H1|apply H2].
    + etrans; [apply H2|apply H1].
    + destruct (af_requests _ _ _ H1) as (l & E1 & F1), (af_requests _ _ _ H2) as (k & E2 & F2).
      exists (l ++ k). rewrite E2, E1, app_assoc. by rewrite Forall_app.
    + intros. by apply H2, H1.
    + intros. by apply H2, H1.
    + intros p. etrans; [apply H2|apply H1].
Qed.

Lemma sent_frame (act : ws_request → Prop) user ev msg (c c' : calls_client) :
  (∀ n, act {| rq_action := ev; rq_seq := n; rq_data := msg; rq_user := user |}) → sent_by user ev msg c c' → api_frame act c c'.
Proof.
  intros Ha [->|(w & Ho & ->)]; [done|]. split; try done.
  - eexists [_]. split; [reflexivity|]. by apply Forall_singleton.
  - intros Hn. exact (add_request_numbered {| rq_action := ev; rq_seq := sg_seq (cc_sig c); rq_data := msg; rq_user := user |} _ eq_refl Hn).
  - intros _. by exists w.
Qed.

Lemma lib_frame act r (c : calls_client) :
  (∀ p, RemoteDescription p r = RemoteDescription p (md_rtc (cc_med c))) →
  api_frame act c (upd_med (put_lib r) c).
Proof. intros Hr. split; try done. exists []. by rewrite app_nil_r. Qed.

Lemma tracks_frame act rx v s (c : calls_client) : api_frame act c (upd_med (put_tracks rx v s) c).
Proof. split; try done. exists []. by rewrite app_nil_r. Qed.

End sending.

(** ** A concrete library *)
Module ToyClient.

(** A signal is a letter and what it carries. *)
Definition toy_signal (s : string) : result (gmap string any) :=
  match s with
  | String "c"%char x => Ok (<["type"%string := AString "candidate"]>
      {["candidate"%string := AMap {["candidate"%string := AString x]}]})
  | String "o"%char x => Ok (<["type"%string := AString "offer"]> {["sdp"%string := AString x]})
  | String "a"%char x => Ok (<["type"%string := AString "answer"]> {["sdp"%string := AString x]})
  | _ => Err (EText "invalid character")
  end.

Definition toy_remote_description (p : nat) (r : Toy.toy_rtc) : option Toy.toy_sdp :=
  if bool_decide (p ∈ Toy.toy_described r) then Some (Toy.TS SDPAnswer "answer") else None.
Definition toy_encoding (s : nat) (t : Toy.toy_track) (r : Toy.toy_rtc) : result unit * Toy.toy_rtc :=
  if bool_decide (Toy.tt_rid t = "bad"%string) then (Err (EText "bad"), r) else (Ok tt, r).

Definition toy_lib : ClientLib Toy.toy_pion := {|
  json_request := λ ev _ _, Ok ev;
  msgpack_request := λ ev _ _, Ok ev;
  RemoteDescription := toy_remote_description : @pc Toy.toy_pion → @rtc Toy.toy_pion → option (@sdp Toy.toy_pion);
  candidate_init := (λ s, s) : string → @candidate Toy.toy_pion;
  session_description := Toy.TS : sdp_type → string → @sdp Toy.toy_pion;
  sdp_SDP := Toy.ts_text : @sdp Toy.toy_pion → string;
  json_object := toy_signal;
  zlib_json_sdp := (λ x, Ok (Toy.ts_text x)) : @sdp Toy.toy_pion → result string;
  transceiver := nat;
  AddTransceiverFromTrack := Toy.toy_add : @pc Toy.toy_pion → @track Toy.toy_pion → @rtc Toy.toy_pion → _;
  trx_Sender := (λ x, x) : nat → @sender Toy.toy_pion;
  AddEncoding := toy_encoding : @sender Toy.toy_pion → @track Toy.toy_pion → @rtc Toy.toy_pion → _;
  track_StreamID := Toy.tt_id : @track Toy.toy_pion → string;
  json_screen := Ok;
  RegisterDefaultCodecs := λ m, Ok m;
  NewStatsInterceptor := Ok tt;
  RegisterDefaultInterceptors := λ m i, Ok (m, i);
  ClientPeerConnection := λ _ _ _ r, (Ok (7 : @pc Toy.toy_pion), r);
  CreateDataChannel := λ _ r, (Ok (1 : @dchan Toy.toy_pion), r);
  dc_Open := λ _ _, true;
  remote_ID := Toy.tr_stream : @remote Toy.toy_pion → string;
|}.

Lemma toy_lib_laws : ClientLaws toy_lib.
Proof.
  split; cbn; try done.
  - intros p d r r' H. unfold toy_remote_description.
    rewrite bool_decide_true; [done|]. injection H as <-.
    destruct (bool_decide (Toy.ts_type d = SDPAnswer)); cbn; apply list_elem_of_here.
  - intros p q d r. by destruct (bool_decide (Toy.ts_type d = SDPOffer)).
  - intros s q t r. unfold toy_encoding. by destruct (bool_decide (Toy.tt_rid t = "bad"%string)).
  - intros p t r x r' H. injection H as <- <-. split.
    + apply (AddTrack_ok (PionLaws := Toy.toy_laws) p t r _ _ eq_refl).
    + apply (AddTrack_ok (PionLaws := Toy.toy_laws) p t r _ _ eq_refl).
  - intros s t r e r' H. unfold toy_encoding in H.
    destruct (bool_decide (Toy.tt_rid t = "bad"%string)); [|done]. by injection H as _ <-.
Qed.

Definition toy_cfg (dc monitor : bool) : CallsConfig := {|
  cg_SiteURL := "https://example.com"; cg_ChannelID := "channel"; cg_JobID := str0; cg_EnableAV1 := true;
  cg_EnableDCSignaling := dc; cg_EnableRTCMonitor := monitor |}.

(** A socket's client that is open. *)
Definition open_ws : ws_client :=
  upd_control (wc_flushCh new_ws_client) false false 2 WSConnOpen new_ws_client.

(** A client whose socket is open and whose connection is [p]. *)
Definition toy_client (p : option nat) : calls_client (P := Toy.toy_pion) (L := toy_lib) :=
  upd_med (L := toy_lib) (λ m, put_pc (L := toy_lib) (p : option (@pc Toy.toy_pion)) (md_dc m) (md_rtcMon m) m)
    (upd_sig (L := toy_lib) (put_ws (Some open_ws))
      (New (L := toy_lib) (toy_cfg false false) (Toy.toy_empty : @rtc Toy.toy_pion))).

Lemma toy_ready p : ready (cc_sig (toy_client p)).
Proof. by eexists. Qed.
Lemma toy_numbered p : numbered (cc_sig (toy_client p)).
Proof. by split. Qed.

End ToyClient.
