(* ===== verification/ClientApi.v ===== *)
(** * ClientApi: what a Calls client offers (client/api.go)

    Muting, sharing the screen, raising the hand, the requests to the server's
    HTTP interface, and [SendWS]: [api_op] lists what a user may call.  A call holds the client's lock from its first
    test to its end, so it is one action. *)
From S2P Require Import Prelude GoText RtcConfig Utils Dc WsServer WsClient RtcMonitor Pion ClientState.

Definition httpResponseBodyMaxSizeBytes : nat := Nat.mul 1024 1024.

Section client.
  Context {P : Pion} {L : ClientLib P}.

Definition Unmute (t : option track) : go calls_client (result unit) :=
  match t with
  | None => mret (Err (EText "invalid nil track"))
  | Some t =>
      c ← gets (λ c, c);
      match md_pc (cc_med c) with
      | None => mret (Err (EText "rtc client is not initialized"))
      | Some p =>
          r ← match md_voiceSender (cc_med c) with
              | None =>
                  r ← lib (AddTrack p t);
                  match r with
                  | Err e => mret (Err (EWrap "failed to add track" e))
                  | Ok snd =>
                      modify (upd_med (λ m, put_tracks (md_receivers m) (Some snd) (md_screenTransceivers m) m)) ;;
                      mret (Ok tt)
                  end
              | Some snd => r ← lib (ReplaceTrack snd (Some t)); mret (wrap_err "failed to replace track" r)
              end;
          match r with
          | Err e => mret (Err e)
          | Ok _ => sendWS wsEventUnmute NoData false
          end
      end
  end.

Definition Mute : go calls_client (result unit) := sendWS wsEventMute NoData false.

(** After the screen-on request. *)
Definition add_screen (p : pc) (t : track) (rest : list track) : go calls_client (result transceiver) :=
  r ← lib (AddTransceiverFromTrack p t);
  match r with
  | Err e => mret (Err (EWrap "failed to add transceiver for track" e))
  | Ok trx =>
      r ← match rest with
          | [] => mret (Ok tt)
          | t' :: _ => r ← lib (AddEncoding (trx_Sender trx) t'); mret (wrap_err "failed to add encoding" r)
          end;
      match r with
      | Err e => mret (Err e)
      | Ok _ =>
          modify (upd_med (λ m, put_tracks (md_receivers m) (md_voiceSender m) (md_screenTransceivers m ++ [trx]) m)) ;;
          mret (Ok trx)
      end
  end.

Definition StartScreenShare (tracks : list track) : go calls_client (result transceiver) :=
  match tracks with
  | [] => mret (Err (EText "invalid empty tracks"))
  | t :: rest =>
      if bool_decide (2 < length tracks) then mret (Err (EText "too many tracks"))
      else
        match json_screen (track_StreamID t) with
        | Err e => mret (Err (EWrap "failed to marshal data" e))
        | Ok data =>
            c ← gets (λ c, c);
            match md_pc (cc_med c) with
            | None => mret (Err (EText "rtc client is not initialized"))
            | Some p =>
                r ← sendWS wsEventScreenOn (StringData data) false;
                match r with
                | Err e => mret (Err (EWrap "failed to send screen on event" e))
                | Ok _ => add_screen p t rest
                end
            end
        end
  end.

(** A method of the nil connection panics. *)
Fixpoint remove_screens (l : list transceiver) : go calls_client (result unit) :=
  match l with
  | [] => mret (Ok tt)
  | trx :: l =>
      c ← gets (λ c, c);
      match md_pc (cc_med c) with
      | None => panic
      | Some p =>
          r ← lib (RemoveTrack p (trx_Sender trx));
          match r with
          | Err e => mret (Err (EWrap "failed to remove track" e))
          | Ok _ => remove_screens l
          end
      end
  end.

Definition StopScreenShare : go calls_client (result unit) :=
  l ← gets (λ c, md_screenTransceivers (cc_med c));
  r ← remove_screens l;
  match r with
  | Err e => mret (Err e)
  | Ok _ =>
      modify (upd_med (λ m, put_tracks (md_receivers m) (md_voiceSender m) [] m)) ;;
      sendWS wsEventScreenOff NoData false
  end.

Definition RaiseHand : go calls_client (result unit) := SendWS wsEventRaiseHand NoData false.
Definition LowerHand : go calls_client (result unit) := SendWS wsEventLowerHand NoData false.

(** ** Requests to the HTTP interface: [request] is the method and the address
    to the status and the body of the answer. *)
Definition plugin_url (cfg : CallsConfig) : string := cg_SiteURL cfg +:+ "/plugins/" +:+ pluginID.

Definition status_ok (code : Z) : result unit :=
  if bool_decide (code = 200)%Z then Ok tt else Err (EText ("unexpected response status code " +:+ Itoa code)).

Definition recording (verb : string) (cfg : CallsConfig) (request : string → string → result (Z * string)) : result unit :=
  '(code, _) ← wrap_err "request failed"
    (request "POST"%string (plugin_url cfg +:+ "/calls/" +:+ cg_ChannelID cfg +:+ "/recording/" +:+ verb));
  status_ok code.
Definition StartRecording := recording "start".
Definition StopRecording := recording "stop".

Definition GetCallsConfig (cfg : CallsConfig) (request : string → string → result (Z * string))
    (decode : string → result (gmap string any)) : result (gmap string any) :=
  '(code, body) ← wrap_err "request failed" (request "GET"%string (plugin_url cfg +:+ "/config"));
  _ ← status_ok code;
  wrap_err "failed to decode response" (decode (String.substring 0 httpResponseBodyMaxSizeBytes body)).

(** ** The calls a user makes of a connected client; [Connect] and [Close] are
    threads of their own (ClientWs.v) *)
Inductive api_op :=
  | OpOn (eventType : string)
  | OpUnmute (t : option track)
  | OpMute
  | OpStartScreen (tracks : list track)
  | OpStopScreen
  | OpRaiseHand
  | OpLowerHand
  | OpSendWS (ev : string) (msg : request_data) (binary : bool)
  | OpStartRecording (request : string → string → result (Z * string))
  | OpStopRecording (request : string → string → result (Z * string))
  | OpGetCallsConfig (request : string → string → result (Z * string)) (decode : string → result (gmap string any)).

Definition api_step (op : api_op) : go calls_client unit :=
  match op with
  | OpOn e => _ ← On e; mret tt
  | OpUnmute t => _ ← Unmute t; mret tt
  | OpMute => _ ← Mute; mret tt
  | OpStartScreen l => _ ← StartScreenShare l; mret tt
  | OpStopScreen => _ ← StopScreenShare; mret tt
  | OpRaiseHand => _ ← RaiseHand; mret tt
  | OpLowerHand => _ ← LowerHand; mret tt
  | OpSendWS ev msg binary => _ ← SendWS ev msg binary; mret tt
  | OpStartRecording request => _ ← gets (λ c, StartRecording (cc_cfg c) request); mret tt
  | OpStopRecording request => _ ← gets (λ c, StopRecording (cc_cfg c) request); mret tt
  | OpGetCallsConfig request decode => _ ← gets (λ c, GetCallsConfig (cc_cfg c) request decode); mret tt
  end.
Definition api_run (ops : list api_op) : go calls_client unit := go_iter api_step ops.

End client.

(** ** The goroutine per encoding of a shared screen *)
Section rtcp.
  Context {P : Pion} {L : ClientLib P} (on_event : string → event_ctx → go calls_client unit).

(** What a read gives: an error, or the datagram, which decodes or not. *)
Inductive rtcp_read := RtcpError | RtcpBad | RtcpPackets.

(** [rtcpHandler] over what it reads, until an error. *)
Fixpoint rtcpHandler (rid : string) (snd : sender) (reads : list rtcp_read) : go calls_client unit :=
  match reads with
  | [] | RtcpError :: _ => mret tt
  | RtcpBad :: reads => rtcpHandler rid snd reads
  | RtcpPackets :: reads => emit on_event RTCSenderRTCPPacketEvent (CtxRTCP rid snd) ;; rtcpHandler rid snd reads
  end.

(** The datagrams reported before the first error. *)
Fixpoint reported (reads : list rtcp_read) : nat :=
  match reads with
  | [] | RtcpError :: _ => 0
  | RtcpBad :: reads => reported reads
  | RtcpPackets :: reads => S (reported reads)
  end.

(** With a subscriber that leaves the client alone, each datagram that decodes
    is reported once, in order, to the subscriber of the event if there is
    one. *)
Lemma rtcp_reported rid snd reads c :
  (∀ e x c, on_event e x c = Some (tt, c)) →
  wp (rtcpHandler rid snd reads) (λ _ c', cc_handlers c' = cc_handlers c ∧
    cc_emitted c' = cc_emitted c ++ (if bool_decide (RTCSenderRTCPPacketEvent ∈ cc_handlers c)
      then replicate (reported reads) (RTCSenderRTCPPacketEvent, CtxRTCP rid snd) else [])) c.
Proof.
  intros Hq. revert c. induction reads as [|[] reads IH]; intros c; cbn [rtcpHandler reported replicate];
    [..|apply IH|]; [apply wp_ret; split; [done|case_bool_decide; by rewrite app_nil_r]..|].
  apply wp_bind. unfold emit. apply wp_bind, wp_gets.
  destruct (bool_decide (RTCSenderRTCPPacketEvent ∈ cc_handlers c)) eqn:E; cbn [when].
  - apply wp_bind, wp_modify. unfold wp at 1. rewrite Hq. eapply wp_mono; [apply IH|].
    intros [] c' [Hh He]. split; [done|]. rewrite He. cbn [log_event cc_handlers cc_emitted]. rewrite E.
    by rewrite <- app_assoc.
  - apply wp_ret. eapply wp_mono; [apply IH|]. intros [] c' [Hh He]. by rewrite He, E.
Qed.

End rtcp.

(** ** Frames *)
Definition user_actions : list string :=
  [wsEventUnmute; wsEventMute; wsEventScreenOn; wsEventScreenOff; wsEventRaiseHand; wsEventLowerHand].
(** A request the user asked for: one of these, or any with [SendWS]. *)
Definition user_action (r : ws_request) : Prop := rq_user r = true ∨ rq_action r ∈ user_actions.

Section frames.
  Context {P : Pion} {L : ClientLib P} `{!ClientLaws L}.

(** Screen transceivers belong to a connection. *)
Definition screen_ok (c : calls_client) : Prop := md_screenTransceivers (cc_med c) = [] ∨ is_Some (md_pc (cc_med c)).

Definition kept (c c' : calls_client) : Prop := api_frame user_action c c' ∧ (screen_ok c → screen_ok c').

#[local] Instance kept_preorder : PreOrder kept.
Proof.
  split; [by split|]. intros c1 c2 c3 [H1 K1] [H2 K2]. split; [by etrans|]. tauto.
Qed.

Lemma kept_pc c c' : api_frame user_action c c' → is_Some (md_pc (cc_med c)) → kept c c'.
Proof. intros H Hp. split; [done|]. intros _. right. by rewrite (af_pc _ _ _ H). Qed.

(** A request, after something that is kept. *)
Lemma kept_send user ev msg binary c c1 :
  ready (cc_sig c) → kept c c1 → user || bool_decide (ev ∈ user_actions) = true →
  wp (send_request user ev msg binary) (λ _ c', kept c c') c1.
Proof.
  intros Hr H Ha. eapply wp_mono.
  - apply wp_send_request. by apply (af_ready _ _ _ (proj1 H)).
  - intros ? c' Hs. etrans; [done|]. split.
    + apply (sent_frame user_action user ev msg c1 c'); [|done]. intros n.
      apply orb_true_iff in Ha as [Ha|Ha%bool_decide_eq_true_1]; [by left|by right].
    + destruct Hs as [->|(w & _ & ->)]; done.
Qed.

Lemma kept_lib {A} (f : rtc → A * rtc) c c1 (Q : A → calls_client → Prop) :
  kept c c1 → (∀ q r, RemoteDescription q (f r).2 = RemoteDescription q r) →
  (∀ c', kept c c' → md_pc (cc_med c') = md_pc (cc_med c1) → Q (f (md_rtc (cc_med c1))).1 c') → wp (lib f) Q c1.
Proof.
  intros H Hf HQ. apply wp_pion, HQ; [|done]. etrans; [done|]. split; [|done]. apply lib_frame. intros q. apply Hf.
Qed.

Lemma kept_tracks rx v s c c1 :
  kept c c1 → s = md_screenTransceivers (cc_med c1) ∨ s = [] ∨ is_Some (md_pc (cc_med c1)) →
  kept c (upd_med (put_tracks rx v s) c1).
Proof.
  intros H Hs. etrans; [done|]. split; [apply tracks_frame|]. unfold screen_ok. cbn.
  destruct Hs as [->|[->|?]]; auto.
Qed.

Lemma kept_remove l c c1 :
  kept c c1 → (l = [] ∨ is_Some (md_pc (cc_med c1))) → wp (remove_screens l) (λ _ c', kept c c') c1.
Proof.
  revert c1. induction l as [|x l IH]; intros c1 H Hp; cbn [remove_screens]; [by apply wp_ret|].
  destruct Hp as [|[p Hp]]; [done|]. apply wp_bind, wp_gets. rewrite Hp. apply wp_bind.
  apply (kept_lib _ c); [done|intros q r; apply remote_remove|]. intros c' H' Hp'.
  destruct (RemoveTrack p (trx_Sender x) (md_rtc (cc_med c1))).1; [|by apply wp_ret].
  apply IH; [done|]. right. by rewrite Hp', Hp.
Qed.

Lemma On_kept e c : wp (On e) (λ _ c', kept c c') c.
Proof.
  unfold On. destruct (negb _); [by apply wp_ret|]. apply wp_bind, wp_gets.
  destruct (bool_decide_reflect (e ∈ cc_handlers c)); [by apply wp_ret|]. apply wp_bind, wp_modify, wp_ret.
  split; [|done]. split; try done; [set_solver|]. exists []. by rewrite app_nil_r.
Qed.

Lemma Unmute_kept t c : ready (cc_sig c) → wp (Unmute t) (λ _ c', kept c c') c.
Proof.
  intros Hr. unfold Unmute. destruct t as [t|]; [|by apply wp_ret]. apply wp_bind, wp_gets.
  destruct (md_pc (cc_med c)) as [p|] eqn:Hp; [|by apply wp_ret]. apply wp_bind.
  assert (∀ (r : result unit) c1, kept c c1 → wp (match r with Err e => mret (Err e)
    | Ok _ => sendWS wsEventUnmute NoData false end) (λ _ c', kept c c') c1) as Hend.
  { intros [] c1 H; [|by apply wp_ret]. by apply (kept_send _ _ _ _ c). }
  destruct (md_voiceSender (cc_med c)) as [snd|]; apply wp_bind.
  - apply (kept_lib _ c); [done|intros; apply remote_replace|]. intros c' H _. apply wp_ret. by apply Hend.
  - apply (kept_lib _ c); [done|intros; apply remote_add|]. intros c' H _.
    destruct (AddTrack p t (md_rtc (cc_med c))).1 as [snd|e]; [|by apply wp_ret].
    apply wp_bind, wp_modify, wp_ret, (Hend (Ok tt)), (kept_tracks _ _ _ c); [done|by left].
Qed.

Lemma StartScreenShare_kept l c : ready (cc_sig c) → wp (StartScreenShare l) (λ _ c', kept c c') c.
Proof.
  intros Hr. unfold StartScreenShare. destruct l as [|t rest]; [by apply wp_ret|].
  destruct (bool_decide _); [by apply wp_ret|]. destruct (json_screen _); [|by apply wp_ret].
  apply wp_bind, wp_gets. destruct (md_pc (cc_med c)) as [p|] eqn:Hp; [|by apply wp_ret].
  apply wp_bind. eapply wp_mono; [by apply (kept_send _ _ _ _ c)|].
  intros [] c1 H1; [|by apply wp_ret]. unfold add_screen. apply wp_bind.
  assert (is_Some (md_pc (cc_med c1))) as Hp1 by (rewrite (af_pc _ _ _ (proj1 H1)), Hp; done).
  apply (kept_lib _ c); [done|intros; apply remote_transceiver|]. intros c2 H2 Hp2.
  destruct (AddTransceiverFromTrack p t (md_rtc (cc_med c1))).1 as [trx|]; [|by apply wp_ret].
  assert (∀ (r : result unit) c3, kept c c3 → md_pc (cc_med c3) = md_pc (cc_med c1) →
    wp (match r with Err e => mret (Err e) | Ok _ =>
      modify (upd_med (λ m, put_tracks (md_receivers m) (md_voiceSender m) (md_screenTransceivers m ++ [trx]) m)) ;;
      mret (Ok trx) end) (λ _ c', kept c c') c3) as Hend.
  { intros [] c3 H3 Hp3; [|by apply wp_ret]. apply wp_bind, wp_modify, wp_ret.
    apply (kept_tracks _ _ _ c); [done|]. right; right. by rewrite Hp3. }
  apply wp_bind. destruct rest as [|t' rest]; [by apply wp_ret, (Hend (Ok tt))|]. apply wp_bind.
  apply (kept_lib _ c); [done|intros; apply remote_encoding|]. intros c3 H3 Hp3. apply wp_ret, Hend; [done|].
  by rewrite Hp3.
Qed.

Lemma StopScreenShare_kept c : ready (cc_sig c) → screen_ok c → wp StopScreenShare (λ _ c', kept c c') c.
Proof.
  intros Hr Hs. unfold StopScreenShare. apply wp_bind, wp_gets, wp_bind.
  eapply wp_mono; [apply (kept_remove _ c); [done|exact Hs]|]. intros [] c1 H1; [|by apply wp_ret].
  apply wp_bind, wp_modify. apply (kept_send _ _ _ _ c); [done| |done].
  apply (kept_tracks _ _ _ c); [done|by right; left].
Qed.

Lemma wp_ignore {A} (m : go calls_client A) (Q : calls_client → Prop) c :
  wp m (λ _, Q) c → wp (_ ← m; mret tt) (λ _, Q) c.
Proof. intros H. by apply wp_bind. Qed.

Lemma api_step_kept op c : ready (cc_sig c) → screen_ok c → wp (api_step op) (λ _ c', kept c c') c.
Proof.
  intros Hr Hs. destruct op; cbn [api_step]; apply wp_ignore.
  - apply On_kept.
  - by apply Unmute_kept.
  - by apply (kept_send _ _ _ _ c).
  - by apply StartScreenShare_kept.
  - by apply StopScreenShare_kept.
  - by apply (kept_send _ _ _ _ c).
  - by apply (kept_send _ _ _ _ c).
  - by apply (kept_send _ _ _ _ c).
  - by apply wp_gets.
  - by apply wp_gets.
  - by apply wp_gets.
Qed.

Lemma api_run_kept ops c : ready (cc_sig c) → screen_ok c → wp (api_run ops) (λ _ c', kept c c') c.
Proof.
  intros Hr Hs. apply (wp_go_iter _ _ (λ _ c', kept c c')); [done|]. intros pre op post c1 _ H1.
  eapply wp_mono; [apply api_step_kept; [by apply H1|by apply H1]|]. intros ? c2 H2. by etrans.
Qed.

End frames.

(** ** Properties *)
Section properties.
  Context {P : Pion} {L : ClientLib P} `{!ClientLaws L}.

(** Calls of the API, in any order, do not crash a client that is connected;
    they send what the user asked for only, numbered in sequence, and leave the identity
    of the connection, the candidates and what the library knows of the other
    side as they were. *)
Theorem api_keeps_protocol ops c :
  ready (cc_sig c) → numbered (cc_sig c) → screen_ok c →
  ∃ c', api_run ops c = Some (tt, c') ∧ api_frame user_action c c' ∧ numbered (cc_sig c').
Proof.
  intros Hr Hn Hs. destruct (proj1 (wp_inv _ _ _) (api_run_kept ops c Hr Hs)) as ([] & c' & Hrun & H & _).
  exists c'. split_and!; [done..|]. by apply (af_numbered _ _ _ H).
Qed.

(** The senders of a list whose tracks are removed have none; the tracks of
    the others stay. *)
Definition removed (l : list transceiver) (r r' : rtc) : Prop :=
  (∀ x, x ∈ l → sender_Track (trx_Sender x) r' = None) ∧
  (∀ s, s ∉ trx_Sender <$> l → sender_Track s r' = sender_Track s r).

Lemma remove_screens_removed `{!PionLaws P} l p c :
  md_pc (cc_med c) = Some p →
  wp (remove_screens l) (λ r c', ∃ w, c' = upd_med (put_lib w) c ∧
    (r = Ok tt → removed l (md_rtc (cc_med c)) w)) c.
Proof.
  revert c. induction l as [|x l IH]; intros c Hp; cbn [remove_screens].
  - apply wp_ret. exists (md_rtc (cc_med c)). split; [by destruct c as [? ? ? []]|]. intros _. split; [|done].
    intros x Hx. by apply elem_of_nil in Hx.
  - apply wp_bind, wp_gets. rewrite Hp. apply wp_bind, wp_pion.
    destruct (RemoveTrack p (trx_Sender x) (md_rtc (cc_med c))) as [[[]|e] w] eqn:Hx; cbn [fst snd].
    2:{ apply wp_ret. by exists w. }
    destruct (RemoveTrack_ok _ _ _ _ Hx) as (Hnone & Hframe & _).
    eapply wp_mono; [by apply IH|]. intros r c' (w' & -> & Hr). exists w'. split; [done|]. intros ->.
    destruct (Hr eq_refl) as [H1 H2]. cbn in H2. split.
    + intros y [->|Hy]%elem_of_cons; [|by apply H1].
      destruct (decide (trx_Sender x ∈ trx_Sender <$> l)) as [(y & -> & Hy)%list_elem_of_fmap|Hn]; [by apply H1|].
      by rewrite H2.
    + intros s Hs. rewrite fmap_cons, not_elem_of_cons in Hs. destruct Hs as [Hne Hs]. rewrite H2 by done.
      by apply Hframe.
Qed.

(** Stopping the screen share takes the tracks off every screen sender and off
    no other one, and forgets the transceivers; when the library fails the
    list is kept. *)
Theorem screen_share_stops `{!PionLaws P} p c :
  ready (cc_sig c) → md_pc (cc_med c) = Some p →
  ∃ r c', StopScreenShare c = Some (r, c') ∧
    ((∃ e, r = Err (EWrap "failed to remove track" e) ∧
       md_screenTransceivers (cc_med c') = md_screenTransceivers (cc_med c)) ∨
     (md_screenTransceivers (cc_med c') = [] ∧
      removed (md_screenTransceivers (cc_med c)) (md_rtc (cc_med c)) (md_rtc (cc_med c')))).
Proof.
  intros Hr Hp. apply (wp_inv _ (λ r c', _)). unfold StopScreenShare. apply wp_bind, wp_gets, wp_bind.
  assert (wp (remove_screens (md_screenTransceivers (cc_med c))) (λ r c',
    match r with Ok _ => True | Err e => ∃ e', e = EWrap "failed to remove track" e' end) c) as Herr.
  { clear Hr. revert Hp. generalize (md_screenTransceivers (cc_med c)). intros l. revert c.
    induction l as [|x l IH]; intros c Hp; cbn [remove_screens]; [by apply wp_ret|].
    apply wp_bind, wp_gets. rewrite Hp. apply wp_bind, wp_pion.
    destruct (RemoveTrack p (trx_Sender x) (md_rtc (cc_med c))).1 as [[]|e]; [by apply IH|].
    apply wp_ret. by exists e. }
  pose proof (remove_screens_removed (md_screenTransceivers (cc_med c)) p c Hp) as Hrm.
  unfold wp in Herr, Hrm |- *. destruct (remove_screens _ c) as [[r c1]|]; [|done].
  destruct Hrm as (w & -> & Hok). destruct r as [[]|e].
  - cbn beta iota. change (wp (modify (upd_med (λ m, put_tracks (md_receivers m) (md_voiceSender m) [] m)) ;;
      sendWS wsEventScreenOff NoData false) (λ r c',
      (∃ e, r = Err (EWrap "failed to remove track" e) ∧
        md_screenTransceivers (cc_med c') = md_screenTransceivers (cc_med c)) ∨
      (md_screenTransceivers (cc_med c') = [] ∧
       removed (md_screenTransceivers (cc_med c)) (md_rtc (cc_med c)) (md_rtc (cc_med c')))) (upd_med (put_lib w) c)).
    apply wp_bind, wp_modify. eapply wp_mono; [by apply wp_sendWS|].
    intros ? c' [->|(? & _ & ->)]; right; (split; [done|]); by apply Hok.
  - destruct Herr as [e' ->]. left. by exists e'.
Qed.

(** When the second track of a screen share cannot be added, the first one is
    left in the connection and in no list, so that stopping the share does
    not remove it. *)
Theorem failed_encoding_leaks p t t' trx e w w' c :
  ready (cc_sig c) → md_pc (cc_med c) = Some p →
  AddTransceiverFromTrack p t (md_rtc (cc_med c)) = (Ok trx, w) → AddEncoding (trx_Sender trx) t' w = (Err e, w') →
  ∃ r c', StartScreenShare [t; t'] c = Some (r, c') ∧
    md_screenTransceivers (cc_med c') = md_screenTransceivers (cc_med c) ∧
    (r = Err (EWrap "failed to add encoding" e) →
     trx_Sender trx ∈ GetSenders p (md_rtc (cc_med c')) ∧ sender_Track (trx_Sender trx) (md_rtc (cc_med c')) = Some t).
Proof.
  intros Hr Hp Ht Hy. apply (wp_inv _ (λ r c', _)). unfold StartScreenShare. cbn [length].
  rewrite bool_decide_false by lia. destruct (json_screen _) as [data|]; [|by apply wp_ret].
  apply wp_bind, wp_gets. rewrite Hp. apply wp_bind.
  eapply wp_mono; [by apply wp_sendWS|]. intros x c1 Hsent.
  assert (cc_med c1 = cc_med c) as Hmed by (destruct Hsent as [->|(? & _ & ->)]; done).
  destruct x as [[]|e1]; [|by apply wp_ret; rewrite Hmed].
  unfold add_screen. apply wp_bind, wp_pion. rewrite Hmed, Ht. cbn [fst snd].
  apply wp_bind, wp_bind, wp_pion. cbn [md_rtc cc_med upd_med put_lib]. rewrite Hy. cbn [fst snd wrap_err].
  apply wp_ret, wp_ret. split; [cbn; by rewrite Hmed|]. intros _. cbn.
  destruct (transceiver_sent _ _ _ _ _ Ht) as [H1 H2]. destruct (encoding_failed _ _ _ _ _ Hy) as [H3 H4].
  by rewrite H3, H4.
Qed.

(** A call that sends before the client is connected crashes it. *)
Theorem mute_before_connect_panics cfg r data :
  json_request wsEventMute 1 NoData = Ok data → Mute (New cfg r) = None.
Proof. intros Hj. unfold Mute, sendWS, send_request, mbind, go_bind, gets. cbn -[json_request wsEventMute]. by rewrite Hj. Qed.

End properties.

(** ** Witnesses *)
Lemma api_keeps_protocol_witness :
  ∃ c', api_run (L := ToyClient.toy_lib) [OpOn CloseEvent; OpUnmute (Some (Toy.TT "voice" KindAudio str0 "audio/opus" 0) : option (@track Toy.toy_pion));
      OpStopScreen; OpRaiseHand] (ToyClient.toy_client (Some 7)) = Some (tt, c') ∧
    api_frame user_action (ToyClient.toy_client (Some 7)) c' ∧ numbered (cc_sig c').
Proof.
  apply (api_keeps_protocol (ClientLaws0 := ToyClient.toy_lib_laws));
    [apply ToyClient.toy_ready|apply ToyClient.toy_numbered|by left].
Defined.

(** A client that shares its screen with one sender. *)
Definition toy_sharing : calls_client (P := Toy.toy_pion) (L := ToyClient.toy_lib) :=
  upd_med (L := ToyClient.toy_lib) (λ m, put_tracks (L := ToyClient.toy_lib) ∅ None [0 : @transceiver _ ToyClient.toy_lib]
      (put_lib (L := ToyClient.toy_lib)
        (Toy.TRtc [(7, Some (Toy.TT "screen" KindVideo str0 "video/VP8" 0))] [] : @rtc Toy.toy_pion) m))
    (ToyClient.toy_client (Some 7)).

Lemma screen_share_stops_witness :
  ∃ r c', StopScreenShare (L := ToyClient.toy_lib) toy_sharing = Some (r, c') ∧
    ((∃ e, r = Err (EWrap "failed to remove track" e) ∧
       md_screenTransceivers (cc_med c') = md_screenTransceivers (cc_med toy_sharing)) ∨
     (md_screenTransceivers (cc_med c') = [] ∧
      removed (L := ToyClient.toy_lib) (md_screenTransceivers (cc_med toy_sharing))
        (md_rtc (cc_med toy_sharing)) (md_rtc (cc_med c')))).
Proof.
  apply (screen_share_stops (PionLaws0 := Toy.toy_laws) (7 : @pc Toy.toy_pion)); [by eexists|done].
Defined.
