(* ===== verification/ClientRtc.v ===== *)
(** * ClientRtc: the WebRTC side of a Calls client (client/rtc.go)

    Signaling messages from the server, the construction of the connection,
    and the callbacks registered on it, each as a definition of its own. *)
From Stdlib Require Import Floats.SpecFloat.
From S2P Require Import Prelude GoText GoFloat RtcConfig Utils Dc RtcMonitor Pion ClientState ClientApi.

Definition signalMsgCandidate : string := "candidate".
Definition signalMsgOffer : string := "offer".
Definition signalMsgAnswer : string := "answer".

Definition client_rtpVideoExtensions : list string :=
  ["urn:ietf:params:rtp-hdrext:sdes:mid"%string;
   "urn:ietf:params:rtp-hdrext:sdes:rtp-stream-id"%string;
   "urn:ietf:params:rtp-hdrext:sdes:repaired-rtp-stream-id"%string].

(** The 64 bits of a float. *)
Definition bits_of_float (x : float) : Z :=
  match x with
  | S754_zero s => if s then 2 ^ 63 else 0
  | S754_infinity s => (if s then 2 ^ 63 else 0) + 2047 * 2 ^ 52
  | S754_nan => 2047 * 2 ^ 52 + 2 ^ 51 + 1
  | S754_finite s m e =>
      (if s then 2 ^ 63 else 0) +
      (if Z.pos m <? 2 ^ 52 then Z.pos m else (e + 1075) * 2 ^ 52 + (Z.pos m - 2 ^ 52))
  end%Z.

Section client.
  Context {P : Pion} {D : DcCodec} {L : ClientLib P}.
  Context (on_event : string → event_ctx → go calls_client unit).

(** A method of [c.pc]; a nil connection panics. *)
Definition the_pc : go calls_client pc := λ c, p ← md_pc (cc_med c); Some (p, c).

Definition AddCandidate (p : pc) (x : candidate) : go calls_client (result unit) :=
  modify (upd_med (λ m,
    put_ice (md_iceCh m) (md_added m ++ [(x, bool_decide (is_Some (RemoteDescription p (md_rtc m))))]) m)) ;;
  lib (AddICECandidate p x).

Definition handle_candidate (x : candidate) : go calls_client (result unit) :=
  p ← the_pc;
  c ← gets (λ c, c);
  match RemoteDescription p (md_rtc (cc_med c)) with
  | Some _ => r ← AddCandidate p x; mret (wrap_err "failed to add remote candidate" r)
  | None =>
      match try_send x (md_iceCh (cc_med c)) with
      | SendPanic => panic
      | Full => mret (Err (EText "failed to queue candidate"))
      | Sent ch => modify (upd_med (λ m, put_ice ch (md_added m) m)) ;; mret (Ok tt)
      end
  end.

(** [for i := 0; i < len(c.iceCh); i++]: the length is read at each turn. *)
Fixpoint drain (fuel i : nat) (p : pc) : go calls_client (result unit) :=
  match fuel with
  | O => mret (Ok tt)
  | S fuel =>
      c ← gets (λ c, c);
      match recv (md_iceCh (cc_med c)) with
      | inl (x, ch) =>
          if bool_decide (i < length (ch_buf (md_iceCh (cc_med c)))) then
            modify (upd_med (λ m, put_ice ch (md_added m) m)) ;;
            r ← AddCandidate p x;
            match r with
            | Err e => mret (Err (EWrap "failed to add remote candidate" e))
            | Ok _ => drain fuel (S i) p
            end
          else mret (Ok tt)
      | inr _ => mret (Ok tt)
      end
  end.

Definition handleAnswer (sdp : string) : go calls_client (result unit) :=
  p ← the_pc;
  r ← lib (SetRemoteDescription p (session_description SDPAnswer sdp));
  match r with
  | Err e => mret (Err (EWrap "failed to set remote description" e))
  | Ok _ => n ← gets (λ c, length (ch_buf (md_iceCh (cc_med c)))); drain n 0 p
  end.

(** The open data channel, when signaling goes through it. *)
Definition signaling_dc (c : calls_client) : option dchan :=
  match md_dc (cc_med c) with
  | Some d => if cg_EnableDCSignaling (cc_cfg c) && dc_Open d (md_rtc (cc_med c)) then Some d else None
  | None => None
  end.

(** A description sent on the data channel; the message of each failure is
    [kind]. *)
Definition send_sdp_dc (kind : string) (d : dchan) (x : sdp) : go calls_client (result unit) :=
  match json_Marshal_sdp (Some x) with
  | Err e => mret (Err (EWrap ("failed to marshal " +:+ kind) e))
  | Ok data =>
      match EncodeMessage MessageTypeSDP (BytesPayload data) with
      | None => panic
      | Some (Err e) => mret (Err (EWrap "failed to encode dc message" e))
      | Some (Ok msg) => lib (dc_Send d msg)
      end
  end.

Definition send_sdp_ws (kind : string) (x : sdp) : go calls_client (result unit) :=
  match zlib_json_sdp x with
  | Err e => mret (Err (EWrap ("failed to encode " +:+ kind) e))
  | Ok data => sendWS wsEventSDP (BytesData data) true
  end.

Definition send_sdp (kind : string) (x : sdp) : go calls_client (result unit) :=
  c ← gets (λ c, c);
  match signaling_dc c with
  | Some d => send_sdp_dc kind d x
  | None => send_sdp_ws kind x
  end.

Definition handleOffer (sdp : string) : go calls_client (result unit) :=
  p ← the_pc;
  r ← lib (SetRemoteDescription p (session_description SDPOffer sdp));
  match r with
  | Err e => mret (Err (EWrap "failed to set remote description" e))
  | Ok _ =>
      r ← lib (CreateAnswer p);
      match r with
      | Err e => mret (Err (EWrap "failed to create answer" e))
      | Ok answer =>
          r ← lib (SetLocalDescription p answer);
          match r with
          | Err e => mret (Err (EWrap "failed to set local description" e))
          | Ok _ => send_sdp "answer" answer
          end
      end
  end.

Definition handle_signal (msg : gmap string any) : go calls_client (result unit) :=
  match at_key msg "type" with
  | AString msgType =>
      if bool_decide (msgType = signalMsgCandidate) then
        match at_key msg "candidate" with
        | AMap wrapper =>
            match at_key wrapper "candidate" with
            | AString x => handle_candidate (candidate_init x)
            | _ => mret (Err (EText "invalid candidate format found"))
            end
        | _ => mret (Err (EText "invalid candidate format found"))
        end
      else if bool_decide (msgType = signalMsgOffer) then
        match at_key msg "sdp" with
        | AString sdp => handleOffer sdp
        | _ => mret (Err (EText "invalid SDP data received"))
        end
      else if bool_decide (msgType = signalMsgAnswer) then
        match at_key msg "sdp" with
        | AString sdp => handleAnswer sdp
        | _ => mret (Err (EText "invalid SDP data received"))
        end
      else mret (Err (EText ("invalid signaling msg type " +:+ msgType)))
  | _ => mret (Err (EText "unexpected msg type found in signaling data"))
  end.

Definition handleWSEventSignal (evData : gmap string any) : go calls_client (result unit) :=
  match at_key evData "data" with
  | AString data =>
      match json_object data with
      | Err e => mret (Err (EWrap "failed to unmarshal signal data" e))
      | Ok msg => handle_signal msg
      end
  | _ => mret (Err (EText "unexpected data type found for signaling data"))
  end.

(** ** Building the connection *)
Definition register_extensions (m : media) : result media :=
  foldl (λ m ext, m ← m; wrap_err "failed to register header extension" (RegisterHeaderExtension ext KindVideo m))
    (Ok m) client_rtpVideoExtensions.

Definition client_engine (monitor : bool) : result (media * interceptors) :=
  m ← wrap_err "failed to register default codecs" (RegisterDefaultCodecs media0);
  i ← (if monitor then
         x ← wrap_err "failed to create stats interceptor" NewStatsInterceptor; Ok (add_interceptor x interceptors0)
       else Ok interceptors0);
  '(m, i) ← wrap_err "failed to register default interceptors" (RegisterDefaultInterceptors m i);
  m ← register_extensions m;
  Ok (m, i).

Definition initRTCSession : go calls_client (result unit) :=
  cfg ← gets cc_cfg;
  match client_engine (cg_EnableRTCMonitor cfg) with
  | Err e => mret (Err e)
  | Ok (m, i) =>
      r ← lib (ClientPeerConnection m i true);
      match r with
      | Err e => mret (Err (EText ("failed to create new peer connection: " +:+ error_text e)))
      | Ok p =>
          modify (upd_med (λ m, put_pc (Some p) (md_dc m)
            (if cg_EnableRTCMonitor cfg then Some newRTCMonitor else md_rtcMon m) m)) ;;
          r ← lib (CreateDataChannel p);
          match r with
          | Err e => mret (Err (EWrap "failed to create data channel" e))
          | Ok d => modify (upd_med (λ m, put_ping 0 0 (put_pc (md_pc m) (Some d) (md_rtcMon m) m))) ;; mret (Ok tt)
          end
      end
  end.

(** ** Callbacks *)
Definition client_onICECandidate (x : option (ice_candidate ice_extra)) : go calls_client unit :=
  match x with
  | None => mret tt
  | Some x =>
      match json_Marshal_candidate x with
      | Err _ => mret tt
      | Ok data => _ ← sendWS wsEventICE (StringData data) true; mret tt
      end
  end.

Definition onTrack (p : pc) (t : remote) (r : receiver) : go calls_client unit :=
  match ParseTrackID (remote_ID t) with
  | Err _ => _ ← lib (receiver_Stop r); mret tt
  | Ok (trackType, sessionID) =>
      if negb (bool_decide (trackType = trackTypeVoice)) && negb (bool_decide (trackType = trackTypeScreen)) then
        _ ← lib (receiver_Stop r); mret tt
      else
        (if bool_decide (trackType = trackTypeScreen) then _ ← lib (WritePLI p (remote_SSRC t)); mret tt
         else mret tt) ;;
        modify (upd_med (λ m, put_tracks (<[sessionID := default [] (md_receivers m !! sessionID) ++ [r]]> (md_receivers m))
          (md_voiceSender m) (md_screenTransceivers m) m)) ;;
        emit on_event RTCTrackEvent (CtxTrack t r)
  end.

Definition onNegotiationNeeded (p : pc) : go calls_client unit :=
  r ← lib (CreateOffer p);
  match r with
  | Err _ => mret tt
  | Ok offer =>
      r ← lib (SetLocalDescription p offer);
      match r with
      | Err e => emit on_event ErrorEvent (CtxError e)
      | Ok _ => _ ← send_sdp "offer" offer; mret tt
      end
  end.

(** ** The goroutine of the data channel *)

(** A message sent on the data channel [d]; whether it was. *)
Definition send_dc (d : dchan) (mt : Z) (p : payload) : go calls_client bool :=
  match EncodeMessage mt p with
  | None => panic
  | Some (Err _) => mret false
  | Some (Ok msg) => r ← lib (dc_Send d msg); mret (is_ok r)
  end.

Definition ping_tick (d : dchan) (now : Z) : go calls_client unit :=
  b ← send_dc d MessageTypePing NoPayload;
  when b (modify (upd_med (λ m, put_ping now (md_lastRTT m) m))).

(** The round-trip time that is reported: [float64(rtt/1000)]. *)
Definition reported_rtt (rtt : Z) : float := f64_of_Z (Z.quot rtt 1000).

Definition stats_tick (d : dchan) (st : rtcStats) : go calls_client unit :=
  (if SFleb (S754_zero false) (lossRate st) then
     _ ← send_dc d MessageTypeLossRate (FloatPayload (bits_of_float (lossRate st))); mret tt
   else mret tt) ;;
  rtt ← gets (λ c, md_lastRTT (cc_med c));
  (if bool_decide (0 < rtt)%Z then
     _ ← send_dc d MessageTypeRoundTripTime (FloatPayload (bits_of_float (reported_rtt rtt))); mret tt
   else mret tt) ;;
  (if SFltb (S754_zero false) (jitter st) then
     _ ← send_dc d MessageTypeJitter (FloatPayload (bits_of_float (jitter st))); mret tt
   else mret tt).

(** [OnMessage]; the type assertion on the payload of an SDP message panics
    when it is not bytes. *)
Definition client_onDCMessage (data : string) (now : Z) : go calls_client unit :=
  match DecodeMessage data with
  | Err _ => mret tt
  | Ok (mt, payload) =>
      if bool_decide (mt = MessageTypePong) then
        ts ← gets (λ c, md_lastPingTS (cc_med c));
        when (bool_decide (0 < ts)%Z) (modify (upd_med (λ m, put_ping (md_lastPingTS m) (wrap_int 64 (now - ts)) m)))
      else if bool_decide (mt = MessageTypeSDP) then
        match payload with
        | BytesPayload text =>
            match json_Unmarshal_sdp text with
            | Err _ => mret tt
            | Ok x =>
                if bool_decide (sdp_Type x = SDPOffer) then _ ← handleOffer (sdp_SDP x); mret tt
                else if bool_decide (sdp_Type x = SDPAnswer) then _ ← handleAnswer (sdp_SDP x); mret tt
                else mret tt
            end
        | _ => panic
        end
      else mret tt
  end.

End client.

(** ** Frames *)
Definition media_action (r : ws_request) : Prop := user_action r ∨ rq_action r = wsEventSDP ∨ rq_action r = wsEventICE.
Definition media_event (e : string) : Prop := e = RTCTrackEvent ∨ e = ErrorEvent.

Section frames.
  Context {P : Pion} {D : DcCodec} {L : ClientLib P}.

(** The queue of candidates is open, and no candidate was given to the library
    before it knew the remote description. *)
Definition ice_ok (m : media_part) : Prop := ch_closed (md_iceCh m) = false ∧ Forall (λ x, x.2 = true) (md_added m).

(** The monitor, if any, has not been stopped. *)
Definition running (m : media_part) : Prop :=
  ∀ mon, md_rtcMon m = Some mon → stopCh mon = false ∧ doneCh mon = false ∧ ch_closed (statsCh mon) = false.

(** What the media side leaves alone. *)
Record media_frame (c c' : calls_client) : Prop := {
  mf_cfg : cc_cfg c' = cc_cfg c;
  mf_handlers : cc_handlers c ⊆ cc_handlers c';
  mf_life : cc_life c' = cc_life c;
  mf_original : sg_original (cc_sig c') = sg_original (cc_sig c);
  mf_current : sg_current (cc_sig c') = sg_current (cc_sig c);
  mf_requests : ∃ l, sg_requests (cc_sig c') = sg_requests (cc_sig c) ++ l ∧ Forall media_action l;
  mf_emitted : ∃ l, cc_emitted c' = cc_emitted c ++ l ∧ Forall (λ x, media_event x.1) l;
  mf_numbered : numbered (cc_sig c) → numbered (cc_sig c');
  mf_ready : ready (cc_sig c) → ready (cc_sig c');
  mf_pc : is_Some (md_pc (cc_med c)) → is_Some (md_pc (cc_med c'));
  mf_screen : screen_ok c → screen_ok c';
  mf_ice : ice_ok (cc_med c) → ice_ok (cc_med c');
  mf_mon : running (cc_med c) → running (cc_med c');
}.

#[export] Instance media_frame_preorder : PreOrder media_frame.
Proof.
  split.
  - intros c. split; try done; exists []; by rewrite app_nil_r.
  - intros c1 c2 c3 H1 H2. split.
    1,3-5: etrans; [apply H2|apply H1].
    4-9: intros; by apply H2, H1.
    + etrans; [apply H1|apply H2].
    + destruct (mf_requests _ _ H1) as (l & E1 & F1), (mf_requests _ _ H2) as (k & E2 & F2).
      exists (l ++ k). rewrite E2, E1, app_assoc. by rewrite Forall_app.
    + destruct (mf_emitted _ _ H1) as (l & E1 & F1), (mf_emitted _ _ H2) as (k & E2 & F2).
      exists (l ++ k). rewrite E2, E1, app_assoc. by rewrite Forall_app.
Qed.

(** A change of the media side that keeps [ice_ok]. *)
Lemma upd_med_frame f (c : calls_client) :
  (is_Some (md_pc (cc_med c)) → is_Some (md_pc (f (cc_med c)))) →
  md_screenTransceivers (f (cc_med c)) = md_screenTransceivers (cc_med c) →
  (ice_ok (cc_med c) → ice_ok (f (cc_med c))) → (running (cc_med c) → running (f (cc_med c))) →
  media_frame c (upd_med f c).
Proof.
  intros Hp Hs Hi Hm. split; try done; try (exists []; by rewrite app_nil_r).
  unfold screen_ok. cbn. rewrite Hs. naive_solver.
Qed.

Lemma lib_media_frame r (c : calls_client) : media_frame c (upd_med (put_lib r) c).
Proof. by apply upd_med_frame. Qed.

Lemma sent_media_frame ev msg (c c' : calls_client) :
  ev = wsEventSDP ∨ ev = wsEventICE → sent_as ev msg c c' → media_frame c c'.
Proof.
  intros Ha Hs. pose proof (sent_frame media_action false ev msg c c' (λ n, or_intror Ha) Hs) as H. destruct Hs as [->|(w & Hw & ->)]; [done|].
  split; try apply H; try done; exists []; by rewrite app_nil_r.
Qed.

Lemma wp_lib_frame {A} (f : rtc → A * rtc) (Q : A → calls_client → Prop) (c c1 : calls_client) :
  media_frame c c1 →
  (∀ c', media_frame c c' → c' = upd_med (put_lib (f (md_rtc (cc_med c1))).2) c1 → Q (f (md_rtc (cc_med c1))).1 c') →
  wp (lib f) Q c1.
Proof. intros H HQ. apply wp_pion, HQ; [|done]. etrans; [done|]. apply lib_media_frame. Qed.

(** A library call whose outcome does not matter, at the end. *)
Lemma wp_lib_end {A B} (f : rtc → A * rtc) (b : A → B) (c c1 : calls_client) :
  media_frame c c1 → wp (a ← lib f; mret (b a)) (λ _, media_frame c) c1.
Proof. intros H. apply wp_bind. apply (wp_lib_frame _ _ c); [done|]. intros c' H' _. by apply wp_ret. Qed.

Lemma wp_send_frame ev msg binary (c c1 : calls_client) :
  ready (cc_sig c) → media_frame c c1 → ev = wsEventSDP ∨ ev = wsEventICE → wp (sendWS ev msg binary) (λ _, media_frame c) c1.
Proof.
  intros Hr H Ha. eapply wp_mono; [apply wp_sendWS; by apply (mf_ready _ _ H)|].
  intros ? c' Hs. etrans; [done|]. exact (sent_media_frame ev msg c1 c' Ha Hs).
Qed.

Lemma wp_ignore_frame {A} (m : go calls_client A) (c c1 : calls_client) :
  wp m (λ _, media_frame c) c1 → wp (_ ← m; mret tt) (λ _, media_frame c) c1.
Proof. intros H. by apply wp_bind. Qed.

(** What is assumed of the subscribers: they do what calls of the API do. *)
Definition users_ok (on_event : string → event_ctx → go calls_client unit) : Prop :=
  ∀ e x c, ready (cc_sig c) → screen_ok c → wp (on_event e x) (λ _ c', api_frame user_action c c' ∧ (screen_ok c → screen_ok c')) c.

Lemma api_media_frame (c c' : calls_client) :
  api_frame user_action c c' → (screen_ok c → screen_ok c') → media_frame c c'.
Proof.
  intros [] Hs. split; try done.
  - destruct af_requests as (l & E & F). exists l. split; [done|]. eapply Forall_impl; [done|]. by left.
  - exists []. by rewrite app_nil_r.
  - by rewrite af_pc.
  - unfold ice_ok. by rewrite af_ice, af_added.
  - unfold running. by rewrite af_mon.
Qed.

Lemma wp_emit_media on_event e x (c c1 : calls_client) :
  users_ok on_event → ready (cc_sig c) → screen_ok c → media_event e → media_frame c c1 →
  wp (emit on_event e x) (λ _, media_frame c) c1.
Proof.
  intros Hu Hr Hs He H. unfold emit. apply wp_bind, wp_gets. unfold when.
  destruct (bool_decide_reflect (e ∈ cc_handlers c1)); [|by apply wp_ret].
  apply wp_bind, wp_modify.
  eapply wp_mono; [apply Hu; [by apply (mf_ready _ _ H)|by apply (mf_screen _ _ H)]|].
  intros ? c' [H' Hs']. etrans; [exact H|].
  etrans; [|by apply api_media_frame]. split; try done; [exists []; by rewrite app_nil_r|].
  exists [(e, x)]. split; [done|]. by apply Forall_singleton.
Qed.

End frames.

(** ** The operations keep the frame *)
Section operations.
  Context {P : Pion} {D : DcCodec} {L : ClientLib P} `{!ClientLaws L}.
  Context (on_event : string → event_ctx → go calls_client unit) (Hu : users_ok on_event).

Lemma queue_frame ch (c c1 : calls_client) :
  media_frame c c1 → ch_closed ch = ch_closed (md_iceCh (cc_med c1)) →
  media_frame c (upd_med (λ m, put_ice ch (md_added m) m) c1).
Proof. intros H Hc. etrans; [done|]. apply upd_med_frame; [done|done| |done]. unfold ice_ok. cbn. by rewrite Hc. Qed.

Lemma wp_AddCandidate p x (c c1 : calls_client) :
  media_frame c c1 → is_Some (RemoteDescription p (md_rtc (cc_med c1))) →
  wp (AddCandidate p x) (λ _ c', media_frame c c' ∧ is_Some (RemoteDescription p (md_rtc (cc_med c')))) c1.
Proof.
  intros H Hd. unfold AddCandidate. apply wp_bind, wp_modify.
  apply (wp_lib_frame _ _ c).
  - etrans; [done|]. apply upd_med_frame; [done|done| |done]. intros [H1 H2]. split; [done|]. cbn.
    apply Forall_app. split; [done|]. apply Forall_singleton. by apply bool_decide_eq_true_2.
  - intros c' H' ->. split; [done|]. cbn. by rewrite remote_candidate.
Qed.

Lemma drain_frame fuel i p (c c1 : calls_client) :
  media_frame c c1 → is_Some (RemoteDescription p (md_rtc (cc_med c1))) →
  wp (drain fuel i p) (λ _, media_frame c) c1.
Proof.
  revert i c1. induction fuel as [|fuel IH]; intros i c1 H Hd; cbn [drain]; [by apply wp_ret|].
  apply wp_bind, wp_gets. destruct (recv _) as [[x ch]|b] eqn:Hr; [|by apply wp_ret].
  branch; [|by apply wp_ret]. apply wp_bind, wp_modify, wp_bind.
  eapply wp_mono; [apply (wp_AddCandidate _ _ c); [apply queue_frame; [done|by eapply recv_closed]|done]|].
  intros [[]|e] c' [H' Hd']; [by apply IH|by apply wp_ret].
Qed.

(** After [SetRemoteDescription]. *)
Lemma wp_described {A} p d (k : result unit → go calls_client A) (Q : A → calls_client → Prop) (c c1 : calls_client) :
  media_frame c c1 →
  (∀ e c', media_frame c c' → wp (k (Err e)) Q c') →
  (∀ c', media_frame c c' → md_iceCh (cc_med c') = md_iceCh (cc_med c1) →
     is_Some (RemoteDescription p (md_rtc (cc_med c'))) → wp (k (Ok tt)) Q c') →
  wp (r ← lib (SetRemoteDescription p d); k r) Q c1.
Proof.
  intros H Herr Hok. apply wp_bind. apply (wp_lib_frame _ _ c); [done|]. intros c' H' ->.
  destruct (SetRemoteDescription p d (md_rtc (cc_med c1))) as [[[]|e] r] eqn:E; [apply Hok; [done..|]|by apply Herr].
  cbn. by apply (remote_set _ _ _ _ E).
Qed.

Lemma wp_the_pc p (c : calls_client) Q : md_pc (cc_med c) = Some p → Q p c → wp the_pc Q c.
Proof. unfold wp, the_pc. by intros ->. Qed.

Lemma handle_candidate_frame x (c : calls_client) :
  is_Some (md_pc (cc_med c)) → ch_closed (md_iceCh (cc_med c)) = false → wp (handle_candidate x) (λ _, media_frame c) c.
Proof.
  intros [p Hp] Hc. unfold handle_candidate. apply wp_bind, (wp_the_pc p); [done|]. apply wp_bind, wp_gets.
  destruct (RemoteDescription p (md_rtc (cc_med c))) eqn:Hd.
  - apply wp_bind. eapply wp_mono; [apply (wp_AddCandidate _ _ c); [done|by eexists]|].
    intros r c' [H _]. by apply wp_ret.
  - destruct (try_send x _) as [ch| |] eqn:Hs; [|by apply wp_ret|unfold try_send in Hs].
    + apply wp_bind, wp_modify, wp_ret, queue_frame; [done|by eapply try_send_closed].
    + rewrite Hc in Hs. by case_bool_decide.
Qed.

Lemma handleAnswer_frame s (c : calls_client) :
  is_Some (md_pc (cc_med c)) → wp (handleAnswer s) (λ _, media_frame c) c.
Proof.
  intros [p Hp]. unfold handleAnswer. apply wp_bind, (wp_the_pc p); [done|]. apply (wp_described _ _ _ _ c); [done| |].
  - intros e c' H. by apply wp_ret.
  - intros c' H _ Hd. apply wp_bind, wp_gets. by apply drain_frame.
Qed.

Lemma encode_sdp data : ∃ r, EncodeMessage MessageTypeSDP (BytesPayload data) = Some r.
Proof. by eexists. Qed.

Lemma send_sdp_frame kind x (c c1 : calls_client) :
  ready (cc_sig c) → media_frame c c1 → wp (send_sdp kind x) (λ _, media_frame c) c1.
Proof.
  intros Hr H. unfold send_sdp. apply wp_bind, wp_gets. destruct (signaling_dc c1) as [d|].
  - unfold send_sdp_dc. destruct (json_Marshal_sdp (Some x)) as [data|]; [|by apply wp_ret].
    destruct (encode_sdp data) as [r ->]. destruct r as [msg|e]; [|by apply wp_ret].
    by apply (wp_lib_frame _ _ c).
  - unfold send_sdp_ws. destruct (zlib_json_sdp x); [|by apply wp_ret].
    apply wp_send_frame; [done..|]. by left.
Qed.

Lemma handleOffer_frame s (c : calls_client) :
  ready (cc_sig c) → is_Some (md_pc (cc_med c)) → wp (handleOffer s) (λ _, media_frame c) c.
Proof.
  intros Hr [p Hp]. unfold handleOffer. apply wp_bind, (wp_the_pc p); [done|]. apply (wp_described _ _ _ _ c); [done| |].
  { intros e c' H. by apply wp_ret. }
  intros c1 H1 _ _. apply wp_bind, (wp_lib_frame _ _ c); [done|]. intros c2 H2 _.
  destruct (CreateAnswer p _).1 as [answer|]; [|by apply wp_ret].
  apply wp_bind, (wp_lib_frame _ _ c); [done|]. intros c3 H3 _.
  destruct (SetLocalDescription p answer _).1; [|by apply wp_ret]. by apply send_sdp_frame.
Qed.

Lemma handleWSEventSignal_frame evData (c : calls_client) :
  ready (cc_sig c) → is_Some (md_pc (cc_med c)) → ch_closed (md_iceCh (cc_med c)) = false →
  wp (handleWSEventSignal evData) (λ _, media_frame c) c.
Proof.
  intros Hr Hp Hc. unfold handleWSEventSignal. destruct (at_key evData "data"); try by apply wp_ret.
  destruct (json_object s) as [msg|]; [|by apply wp_ret]. unfold handle_signal.
  destruct (at_key msg "type") as [|ty| | | | |]; try by apply wp_ret.
  branch.
  { destruct (at_key msg "candidate") as [| | | | | |m]; try by apply wp_ret.
    destruct (at_key m "candidate"); try by apply wp_ret. by apply handle_candidate_frame. }
  branch.
  { destruct (at_key msg "sdp"); try by apply wp_ret. by apply handleOffer_frame. }
  branch; [|by apply wp_ret].
  destruct (at_key msg "sdp"); try by apply wp_ret. by apply handleAnswer_frame.
Qed.

Lemma initRTCSession_frame (c : calls_client) :
  wp initRTCSession (λ r c', media_frame c c' ∧ (r = Ok tt → is_Some (md_pc (cc_med c')) ∧ is_Some (md_dc (cc_med c')))) c.
Proof.
  unfold initRTCSession. apply wp_bind, wp_gets. destruct (client_engine _) as [[m i]|]; [|by apply wp_ret].
  apply wp_bind, (wp_lib_frame _ _ c); [done|]. intros c1 H1 _.
  destruct (ClientPeerConnection m i true (md_rtc (cc_med c))).1 as [p|]; [|by apply wp_ret].
  apply wp_bind, wp_modify, wp_bind, (wp_lib_frame _ _ c).
  { etrans; [done|]. apply upd_med_frame; [done..|]. intros Hm mon. cbn.
    destruct (cg_EnableRTCMonitor (cc_cfg c)); [by intros [= <-]|apply Hm]. }
  intros c2 H2 E2. destruct (CreateDataChannel p _).1 as [d|]; [|by apply wp_ret].
  apply wp_bind, wp_modify, wp_ret. split; [|intros _; split; [|by eexists]; by rewrite E2; eexists].
  etrans; [exact H2|]. by apply upd_med_frame.
Qed.

Lemma onICECandidate_frame x (c : calls_client) : ready (cc_sig c) → wp (client_onICECandidate x) (λ _, media_frame c) c.
Proof.
  intros Hr. destruct x as [x|]; cbn [client_onICECandidate]; [|by apply wp_ret].
  destruct (json_Marshal_candidate x); [|by apply wp_ret].
  apply wp_ignore_frame, wp_send_frame; [done..|]. by right.
Qed.

Lemma onTrack_frame p t r (c : calls_client) :
  ready (cc_sig c) → screen_ok c → wp (onTrack on_event p t r) (λ _, media_frame c) c.
Proof.
  intros Hr Hs. unfold onTrack. destruct (ParseTrackID _) as [[ty id]|]; [|by apply (wp_lib_end _ (λ _, tt))].
  branch; [by apply (wp_lib_end _ (λ _, tt))|].
  apply wp_bind. eapply (wp_mono _ (λ _, media_frame c)).
  { branch; [by apply (wp_lib_end _ (λ _, tt))|by apply wp_ret]. }
  intros _ c1 H1. apply wp_bind, wp_modify. apply wp_emit_media; [done..|by left|].
  etrans; [exact H1|]. by apply upd_med_frame.
Qed.

Lemma onNegotiationNeeded_frame p (c : calls_client) :
  ready (cc_sig c) → screen_ok c → wp (onNegotiationNeeded on_event p) (λ _, media_frame c) c.
Proof.
  intros Hr Hs. unfold onNegotiationNeeded. apply wp_bind, (wp_lib_frame _ _ c); [done|]. intros c1 H1 _.
  destruct (CreateOffer p _).1 as [offer|]; [|by apply wp_ret].
  apply wp_bind, (wp_lib_frame _ _ c); [done|]. intros c2 H2 _.
  destruct (SetLocalDescription p offer _).1; [by apply wp_ignore_frame, send_sdp_frame|].
  apply wp_emit_media; [done..|by right|done].
Qed.

Lemma send_dc_frame d mt p (c c1 : calls_client) :
  EncodeMessage mt p ≠ None → media_frame c c1 → wp (send_dc d mt p) (λ _, media_frame c) c1.
Proof.
  intros He H. unfold send_dc. destruct (EncodeMessage mt p) as [[msg|]|]; [|by apply wp_ret|done].
  by apply (wp_lib_end _ is_ok).
Qed.

Lemma ping_frame d now (c : calls_client) : wp (ping_tick d now) (λ _, media_frame c) c.
Proof.
  unfold ping_tick. apply wp_bind. eapply wp_mono; [by apply (send_dc_frame _ _ _ c)|].
  intros [] c1 H1; [|by apply wp_ret]. apply wp_modify. etrans; [done|]. by apply upd_med_frame.
Qed.

(** One of the three reports. *)
Lemma report_frame d mt b (c c1 : calls_client) :
  mt ≠ MessageTypeSDP → media_frame c c1 →
  wp (_ ← send_dc d mt (FloatPayload b); mret tt) (λ _, media_frame c) c1.
Proof.
  intros Hm H. apply wp_ignore_frame, send_dc_frame; [|done]. unfold EncodeMessage.
  by rewrite bool_decide_false.
Qed.

Lemma stats_frame d st (c : calls_client) : wp (stats_tick d st) (λ _, media_frame c) c.
Proof.
  unfold stats_tick. apply wp_bind. eapply (wp_mono _ (λ _, media_frame c)).
  { branch; [by apply report_frame|by apply wp_ret]. }
  intros _ c1 H1. apply wp_bind, wp_gets, wp_bind. eapply (wp_mono _ (λ _, media_frame c)).
  { branch; [by apply report_frame|by apply wp_ret]. }
  intros _ c2 H2. branch; [by apply report_frame|by apply wp_ret].
Qed.

Lemma onDCMessage_frame data now (c : calls_client) :
  ready (cc_sig c) → is_Some (md_pc (cc_med c)) → wp (client_onDCMessage data now) (λ _, media_frame c) c.
Proof.
  intros Hr Hp. unfold client_onDCMessage. destruct (DecodeMessage data) as [[mt p]|] eqn:Hd; [|by apply wp_ret].
  branch.
  { apply wp_bind, wp_gets. unfold when. branch; [|by apply wp_ret]. apply wp_modify. by apply upd_med_frame. }
  destruct (bool_decide_reflect (mt = MessageTypeSDP)) as [->|]; [|by apply wp_ret].
  apply DecodeMessage_typed in Hd as [[[|] _]|[[_ [text ->]]|[[|[|]] _]]]; try done.
  destruct (json_Unmarshal_sdp text) as [x|]; [|by apply wp_ret].
  branch; [by apply wp_ignore_frame, handleOffer_frame|].
  branch; [by apply wp_ignore_frame, handleAnswer_frame|by apply wp_ret].
Qed.

(** ** Sequences of what happens on the media side *)
Inductive media_op :=
  | MdSignal (evData : gmap string any)
  | MdCandidate (x : option (ice_candidate ice_extra))
  | MdTrack (p : pc) (t : remote) (r : receiver)
  | MdNegotiation (p : pc)
  | MdPing (d : dchan) (now : Z)
  | MdStats (d : dchan) (st : rtcStats)
  | MdMessage (data : string) (now : Z)
  | MdUser (op : api_op)
  | MdInit.

Definition media_step (op : media_op) : go calls_client unit :=
  match op with
  | MdSignal evData => _ ← handleWSEventSignal evData; mret tt
  | MdCandidate x => client_onICECandidate x
  | MdTrack p t r => onTrack on_event p t r
  | MdNegotiation p => onNegotiationNeeded on_event p
  | MdPing d now => ping_tick d now
  | MdStats d st => stats_tick d st
  | MdMessage data now => client_onDCMessage data now
  | MdUser op => api_step op
  | MdInit => _ ← initRTCSession; mret tt
  end.
Definition media_run (ops : list media_op) : go calls_client unit := go_iter media_step ops.

Lemma media_step_frame op (c : calls_client) :
  ready (cc_sig c) → screen_ok c → is_Some (md_pc (cc_med c)) → ice_ok (cc_med c) →
  wp (media_step op) (λ _, media_frame c) c.
Proof.
  intros Hr Hs Hp [Hi _]. destruct op; cbn [media_step].
  - by apply wp_ignore_frame, handleWSEventSignal_frame.
  - by apply onICECandidate_frame.
  - by apply onTrack_frame.
  - by apply onNegotiationNeeded_frame.
  - apply ping_frame.
  - apply stats_frame.
  - by apply onDCMessage_frame.
  - eapply wp_mono; [by apply api_step_kept|]. intros _ c' [H Hk]. by apply api_media_frame.
  - apply wp_ignore_frame. eapply wp_mono; [apply initRTCSession_frame|]. by intros _ c' [H _].
Qed.

Lemma media_run_frame ops (c : calls_client) :
  ready (cc_sig c) → screen_ok c → is_Some (md_pc (cc_med c)) → ice_ok (cc_med c) →
  wp (media_run ops) (λ _, media_frame c) c.
Proof.
  intros Hr Hs Hp Hi. apply (wp_go_iter _ _ (λ _, media_frame c)); [done|]. intros pre op post c1 _ H1.
  eapply wp_mono; [apply media_step_frame; by apply H1|]. intros ? c2 H2. by etrans.
Qed.

End operations.

(** ** Properties *)
Section properties.
  Context {P : Pion} {D : DcCodec} {L : ClientLib P} `{!ClientLaws L}.
  Context (on_event : string → event_ctx → go calls_client unit).

(** Once there is a connection the media side does not crash, keeps to what it
    may send, and no candidate is given to the library before it knows the
    remote description. *)
Lemma media_run_safe ops (c : calls_client) :
  users_ok on_event → ready (cc_sig c) → numbered (cc_sig c) → screen_ok c → is_Some (md_pc (cc_med c)) →
  ice_ok (cc_med c) →
  ∃ c', media_run on_event ops c = Some (tt, c') ∧ numbered (cc_sig c') ∧
    (∀ x b, (x, b) ∈ md_added (cc_med c') → b = true) ∧
    ∃ l, sg_requests (cc_sig c') = sg_requests (cc_sig c) ++ l ∧ Forall media_action l.
Proof.
  intros Hu Hr Hn Hs Hp Hi.
  destruct (proj1 (wp_inv _ _ _) (media_run_frame on_event Hu ops c Hr Hs Hp Hi)) as ([] & c' & Hrun & H).
  exists c'. split_and!; [done|by apply H| |by apply H]. intros x b Hx.
  destruct (mf_ice _ _ H Hi) as [_ Hall]. rewrite Forall_forall in Hall. by apply (Hall (x, b)).
Qed.

Lemma half_step n i : i < S n → (S n - i + 1) / 2 = S ((n - S i + 1) / 2).
Proof.
  intros Hi. destruct (decide (i = n)) as [->|].
  - replace (n - S n) with 0 by lia. by replace (S n - n) with 1 by lia.
  - replace (S n - i + 1) with (1 * 2 + (n - S i + 1)) by lia. by rewrite Nat.div_add_l by lia.
Qed.

(** The loop over the queue takes the first half of it, rounded up. *)
Lemma drain_half fuel i p (c : calls_client) :
  (∀ x r, (AddICECandidate p x r).1 = Ok tt) → is_Some (RemoteDescription p (md_rtc (cc_med c))) →
  let l := ch_buf (md_iceCh (cc_med c)) in
  let k := (length l - i + 1) / 2 in
  length l - i ≤ fuel →
  wp (drain fuel i p) (λ r c', r = Ok tt ∧ ch_buf (md_iceCh (cc_med c')) = drop k l ∧
    md_added (cc_med c') = md_added (cc_med c) ++ ((λ x, (x, true)) <$> take k l)) c.
Proof.
  intros Hok. revert i c. induction fuel as [|fuel IH]; intros i c Hd l k Hf.
  { apply wp_ret. subst k. replace (length l - i) with 0 by lia. by rewrite app_nil_r. }
  cbn [drain]. apply wp_bind, wp_gets. fold l. unfold recv. fold l. subst k.
  destruct l as [|x l'] eqn:Hl; [apply wp_ret; by rewrite app_nil_r|]. cbn [length] in *.
  destruct (bool_decide_reflect (i < S (length l'))) as [Hi|Hi].
  2:{ apply wp_ret. replace (S (length l') - i) with 0 by lia. by rewrite app_nil_r. }
  apply wp_bind, wp_modify, wp_bind. unfold AddCandidate. apply wp_bind, wp_modify, wp_pion.
  cbn [cc_med upd_med md_rtc put_ice put_lib]. rewrite Hok.
  eapply wp_mono; [apply IH|].
  - cbn. by rewrite remote_candidate.
  - cbn. lia.
  - intros r c' (-> & -> & ->). cbn [ch_buf md_iceCh md_added cc_med upd_med put_lib put_ice].
    rewrite half_step by done. split_and!; [done..|]. rewrite bool_decide_eq_true_2 by done.
    by rewrite <- app_assoc.
Qed.

(** An answer adds the first half of the queued candidates, rounded up, and
    leaves the other half in the queue. *)
Theorem answer_drains_half s p w (c : calls_client) :
  md_pc (cc_med c) = Some p →
  SetRemoteDescription p (session_description SDPAnswer s) (md_rtc (cc_med c)) = (Ok tt, w) →
  (∀ x r, (AddICECandidate p x r).1 = Ok tt) →
  let l := ch_buf (md_iceCh (cc_med c)) in
  let k := (length l + 1) / 2 in
  ∃ c', handleAnswer s c = Some (Ok tt, c') ∧ ch_buf (md_iceCh (cc_med c')) = drop k l ∧
    md_added (cc_med c') = md_added (cc_med c) ++ ((λ x, (x, true)) <$> take k l).
Proof.
  intros Hp Hset Hok l k.
  assert (wp (handleAnswer s) (λ r c', r = Ok tt ∧ ch_buf (md_iceCh (cc_med c')) = drop k l ∧
    md_added (cc_med c') = md_added (cc_med c) ++ ((λ x, (x, true)) <$> take k l)) c) as H.
  { unfold handleAnswer. apply wp_bind, (wp_the_pc p); [done|]. apply wp_bind, wp_pion. rewrite Hset.
    apply wp_bind, wp_gets.
    assert (is_Some (RemoteDescription p w)) as Hd by (by eapply remote_set).
    pose proof (drain_half (length l) 0 p (upd_med (put_lib w) c) Hok Hd) as Hdrain. cbn in Hdrain.
    fold l in Hdrain. rewrite Nat.sub_0_r in Hdrain. by apply Hdrain. }
  apply wp_inv in H as (r & c' & Hrun & -> & ?). by exists c'.
Qed.

(** An offer is answered through the data channel when signaling goes through
    it and it is open, and otherwise by one numbered request. *)
Theorem offer_answered s p answer w1 w2 w3 (c : calls_client) :
  ready (cc_sig c) → md_pc (cc_med c) = Some p →
  SetRemoteDescription p (session_description SDPOffer s) (md_rtc (cc_med c)) = (Ok tt, w1) →
  CreateAnswer p w1 = (Ok answer, w2) → SetLocalDescription p answer w2 = (Ok tt, w3) →
  ∃ r c', handleOffer s c = Some (r, c') ∧
    match signaling_dc (upd_med (put_lib w3) c) with
    | Some d =>
        sg_requests (cc_sig c') = sg_requests (cc_sig c) ∧
        (∀ data msg, json_Marshal_sdp (Some answer) = Ok data →
           EncodeMessage MessageTypeSDP (BytesPayload data) = Some (Ok msg) →
           r = (dc_Send d msg w3).1 ∧ md_rtc (cc_med c') = (dc_Send d msg w3).2)
    | None =>
        md_rtc (cc_med c') = w3 ∧
        (r = Ok tt → ∃ data, zlib_json_sdp answer = Ok data ∧
           sg_requests (cc_sig c') = sg_requests (cc_sig c) ++
             [{| rq_action := wsEventSDP; rq_seq := sg_seq (cc_sig c); rq_data := BytesData data; rq_user := false |}])
    end.
Proof.
  intros Hr Hp H1 H2 H3. apply (wp_inv _ (λ r c', _)). unfold handleOffer.
  apply wp_bind, (wp_the_pc p); [done|]. apply wp_bind, wp_pion. rewrite H1.
  apply wp_bind, wp_pion. cbn [cc_med upd_med md_rtc put_lib fst snd]. rewrite H2.
  apply wp_bind, wp_pion. cbn [cc_med upd_med md_rtc put_lib fst snd]. rewrite H3. cbn [fst snd].
  change (upd_med (put_lib w3) (upd_med (put_lib w2) (upd_med (put_lib w1) c))) with (upd_med (put_lib w3) c).
  unfold send_sdp. apply wp_bind, wp_gets. destruct (signaling_dc (upd_med (put_lib w3) c)) as [d|].
  - unfold send_sdp_dc. destruct (json_Marshal_sdp (Some answer)) as [data|]; [|by apply wp_ret].
    destruct (encode_sdp data) as [[msg|e] E]; rewrite E; [|apply wp_ret; split; [done|]; intros data' msg' ? ?; by simplify_eq].
    apply wp_pion. split; [done|]. intros data' msg' ? ?. by simplify_eq.
  - unfold send_sdp_ws. destruct (zlib_json_sdp answer) as [data|e]; [|by apply wp_ret].
    unfold sendWS, send_request. apply wp_bind, wp_gets. cbn zeta iota.
    destruct (msgpack_request _ _ _) as [bytes|]; [|by apply wp_ret].
    apply wp_bind, wp_modify, wp_bind. eapply wp_mono; [by apply wp_ws_Send|].
    intros r c' (w & _ & ->). apply wp_ret. split; [done|]. intros _. by exists data.
Qed.

(** A round-trip time of less than a second is reported as none. *)
Theorem short_rtt_reported_as_zero d (c : calls_client) :
  (0 < md_lastRTT (cc_med c) < 1000)%Z →
  stats_tick d {| lossRate := S754_nan; jitter := S754_nan |} c =
  (_ ← send_dc d MessageTypeRoundTripTime (FloatPayload 0); mret tt) c.
Proof.
  intros Hr. unfold stats_tick. cbn [lossRate jitter SFleb SFltb SFcompare].
  unfold mbind, go_bind, mret, go_ret, gets. rewrite bool_decide_true by lia.
  unfold reported_rtt. rewrite Z.quot_small by lia. change (bits_of_float (f64_of_Z 0)) with 0%Z.
  by destruct (send_dc _ _ _ c) as [[]|].
Qed.

(** A signal that comes before the connection is made crashes the client. *)
Theorem early_candidate_panics x (c : calls_client) : md_pc (cc_med c) = None → handle_candidate x c = None.
Proof. intros Hp. unfold handle_candidate, the_pc, mbind, go_bind. by rewrite Hp. Qed.

End properties.

(** ** Witnesses *)
Lemma silent_users_ok : users_ok (L := ToyClient.toy_lib) (λ _ _, mret tt).
Proof. intros e x c _ _. by apply wp_ret. Qed.

(** A client with three candidates waiting. *)
Definition toy_waiting : calls_client (P := Toy.toy_pion) (L := ToyClient.toy_lib) :=
  upd_med (L := ToyClient.toy_lib)
    (put_ice (L := ToyClient.toy_lib) (Chan 20 ["x"; "y"; "z"]%string false : chan (@candidate Toy.toy_pion)) [])
    (ToyClient.toy_client (Some 7)).

Lemma answer_drains_half_witness :
  ∃ c', handleAnswer "answer" toy_waiting = Some (Ok tt, c') ∧
    ch_buf (md_iceCh (cc_med c')) = (["z"%string] : list (@candidate Toy.toy_pion)) ∧
    md_added (cc_med c') = [("x"%string : @candidate Toy.toy_pion, true); ("y"%string : @candidate Toy.toy_pion, true)].
Proof.
  apply (answer_drains_half (ClientLaws0 := ToyClient.toy_lib_laws) "answer" (7 : @pc Toy.toy_pion)
    (SetRemoteDescription (7 : @pc Toy.toy_pion) (session_description (ClientLib := ToyClient.toy_lib) SDPAnswer "answer")
       (md_rtc (cc_med toy_waiting))).2 toy_waiting); [done|done|by intros ? ?].
Defined.

Lemma offer_answered_witness :
  let c := ToyClient.toy_client (Some 7) in
  let w := (SetRemoteDescription (7 : @pc Toy.toy_pion) (session_description (ClientLib := ToyClient.toy_lib) SDPOffer "offer")
       (md_rtc (cc_med c))).2 in
  ∃ r c', handleOffer (D := ToyDc.toy_codec) "offer" c = Some (r, c') ∧ md_rtc (cc_med c') = w.
Proof.
  intros c w.
  destruct (offer_answered (D := ToyDc.toy_codec) (L := ToyClient.toy_lib) "offer" (7 : @pc Toy.toy_pion)
    (Toy.TS SDPAnswer "answer" : @sdp Toy.toy_pion) w w w c (ToyClient.toy_ready _) eq_refl eq_refl eq_refl eq_refl)
    as (r & c' & Hrun & H & _). by exists r, c'.
Defined.

Lemma short_rtt_reported_as_zero_witness :
  let c := upd_med (L := ToyClient.toy_lib) (put_ping (L := ToyClient.toy_lib) 5 200) (ToyClient.toy_client (Some 7)) in
  stats_tick (D := ToyDc.toy_codec) (1 : @dchan Toy.toy_pion) {| lossRate := S754_nan; jitter := S754_nan |} c =
  (_ ← send_dc (D := ToyDc.toy_codec) (1 : @dchan Toy.toy_pion) MessageTypeRoundTripTime (FloatPayload 0); mret tt) c.
Proof. intros c. apply short_rtt_reported_as_zero. cbn. lia. Defined.
