(* ===== verification/ClientWs.v ===== *)
(** * ClientWs: the server side of a Calls client and its life
      (client/websocket.go, Connect, Close and close of client/client.go)

    Events of the server are decoded by the library's [WebSocketEventFromJSON];
    a decoded event may lack its broadcast part (a nil pointer).  [Connect],
    each [Close] and the reader goroutine are threads; the socket's own client
    is any value its goroutines may have brought it to. *)
From Stdlib Require Import Floats.SpecFloat.
From S2P Require Import Prelude GoText GoFloat RtcConfig Utils Dc WsServer WsClient RtcMonitor Pion ClientState ClientApi ClientRtc.

Definition wsMinReconnectRetryInterval : Z := second.
Definition wsReconnectRetryIntervalJitter : Z := (500 * millisecond)%Z.
Definition wsReconnectionTimeout : Z := (30 * second)%Z.
Definition errCallEnded : error := EText "call ended".

Definition wsEventSignal : string := wsEvPrefix +:+ "signal".
Definition wsEventError : string := wsEvPrefix +:+ "error".
Definition wsEventUserLeft : string := wsEvPrefix +:+ "user_left".
Definition wsEventCallEnd : string := wsEvPrefix +:+ "call_end".
Definition wsEventCallJobState : string := wsEvPrefix +:+ "call_job_state".
Definition wsEventJobStop : string := wsEvPrefix +:+ "job_stop".
Definition wsEventCallHostChanged : string := wsEvPrefix +:+ "call_host_changed".
Definition wsEventUserMuted : string := wsEvPrefix +:+ "user_muted".
Definition wsEventUserUnmuted : string := wsEvPrefix +:+ "user_unmuted".
Definition wsEventUserRaisedHand : string := wsEvPrefix +:+ "user_raise_hand".
Definition wsEventUserLoweredHand : string := wsEvPrefix +:+ "user_unraise_hand".
Definition wsEventUserScreenOn : string := wsEvPrefix +:+ "user_screen_on".
Definition wsEventUserScreenOff : string := wsEvPrefix +:+ "user_screen_off".

(** A decoded event: its connection and channel are in the broadcast part. *)
Record ws_ev := {
  ev_type : string;
  ev_valid : bool;
  ev_broadcast : option (string * string);
  ev_data : gmap string any;
}.

Class EventLib := {
  event_of_json : string → result (option ws_ev);
  WebsocketEventHello : string;
  hello_type : HasPrefix WebsocketEventHello wsEvPrefix = false;
}.

(** [x.(string)] of a key, empty when it is missing or something else. *)
Definition data_string (ev : ws_ev) (k : string) : string := as_string (at_key (ev_data ev) k).

(** The channel of an event. *)
Definition ev_channel (ev : ws_ev) (channel : string) : string :=
  if bool_decide (channel = str0) then data_string ev "channelID" else channel.
Definition ev_conn (ev : ws_ev) (conn : string) : string :=
  if bool_decide (conn = str0) then data_string ev "connID" else conn.

Section client.
  Context {P : Pion} {D : DcCodec} {L : ClientLib P} {EV : EventLib}.
  Context (on_event : string → event_ctx → go calls_client unit).
  Context (arch : spec_float → Z) (visit : ssrc_stats → list (Z * stats)).

(** ** Events *)
Definition handleWSEventHello (ev : ws_ev) : go calls_client (result bool) :=
  match at_key (ev_data ev) "connection_id" with
  | AString connID =>
      if bool_decide (connID = str0) then mret (Err (EText "missing or invalid connection ID"))
      else
        original ← gets (λ c, sg_original (cc_sig c));
        if bool_decide (original = str0) then
          modify (upd_sig (put_ids connID connID)) ;; emit on_event WSConnectEvent CtxNil ;; mret (Ok false)
        else
          modify (upd_life (put_reconnect 0 zero_time)) ;;
          modify (upd_sig (put_ids original connID)) ;; emit on_event WSConnectEvent CtxNil ;; mret (Ok true)
  | _ => mret (Err (EText "missing or invalid connection ID"))
  end.

Definition hello (ev : ws_ev) : go calls_client (result unit) :=
  r ← handleWSEventHello ev;
  match r with
  | Err e => mret (Err (EWrap "failed to handle hello event" e))
  | Ok true => mret (Ok tt)
  | Ok false => r ← joinCall; mret (wrap_err "failed to join call" r)
  end.

Definition user_left (ev : ws_ev) : go calls_client (result unit) :=
  let sessionID := data_string ev "session_id" in
  if bool_decide (sessionID = str0) then mret (Err (EText "missing session_id from user_left event"))
  else
    l ← gets (λ c, default [] (md_receivers (cc_med c) !! sessionID));
    go_iter (λ r, _ ← lib (receiver_Stop r);
      modify (upd_med (λ m, put_tracks (delete sessionID (md_receivers m)) (md_voiceSender m)
        (md_screenTransceivers m) m))) l ;;
    mret (Ok tt).

Definition job_state (ev : ws_ev) : go calls_client (result unit) :=
  cfg ← gets cc_cfg;
  if negb (bool_decide (data_string ev "callID" = cg_ChannelID cfg)) then mret (Ok tt)
  else
    match at_key (ev_data ev) "jobState" with
    | AMap data =>
        let st := CallJobState_FromMap arch data in
        emit on_event WSCallJobStateEvent (CtxJobState st) ;;
        when (bool_decide (cj_Type st = "recording"%string)) (emit on_event WSCallRecordingStateEvent (CtxJobState st)) ;;
        mret (Ok tt)
    | _ => mret (Err (EText "invalid recording state"))
    end.

(** An event of a session of the call, told to the subscriber of [e]. *)
Definition session_event (ev : ws_ev) (channel : string) (needed : bool) (e : string) : go calls_client (result unit) :=
  cfg ← gets cc_cfg;
  if negb (bool_decide (ev_channel ev channel = cg_ChannelID cfg)) then mret (Ok tt)
  else
    let sessionID := data_string ev "session_id" in
    if needed && bool_decide (sessionID = str0) then
      mret (Err (EText ("missing session_id from " +:+ ev_type ev +:+ " event")))
    else emit on_event e (CtxString sessionID) ;; mret (Ok tt).

Definition host_changed (ev : ws_ev) (channel : string) : go calls_client (result unit) :=
  cfg ← gets cc_cfg;
  if negb (bool_decide (ev_channel ev channel = cg_ChannelID cfg)) then mret (Ok tt)
  else
    let hostID := data_string ev "hostID" in
    if bool_decide (hostID = str0) then mret (Err (EText "unexpected empty hostID"))
    else emit on_event WSCallHostChangedEvent (CtxString hostID) ;; mret (Ok tt).

Definition ws_error (ev : ws_ev) : go calls_client (result unit) :=
  let err := EText ("ws error: " +:+ data_string ev "data") in
  emit on_event ErrorEvent (CtxError err) ;; mret (Err err).

Definition joined : go calls_client (result unit) :=
  emit on_event WSCallJoinEvent CtxNil ;;
  r ← initRTCSession;
  mret (wrap_err "failed to init RTC session" r).

Definition handle_event (ev : ws_ev) (channel : string) : go calls_client (result unit) :=
  let ty := ev_type ev in
  if bool_decide (ty = WebsocketEventHello) then hello ev
  else if bool_decide (ty = wsEventJoin) then joined
  else if bool_decide (ty = wsEventSignal) then
    r ← handleWSEventSignal (ev_data ev); mret (wrap_err "failed to handle signal event" r)
  else if bool_decide (ty = wsEventError) then ws_error ev
  else if bool_decide (ty = wsEventUserLeft) then user_left ev
  else if bool_decide (ty = wsEventCallEnd) then
    cfg ← gets cc_cfg;
    mret (if bool_decide (ev_channel ev channel = cg_ChannelID cfg) then Err errCallEnded else Ok tt)
  else if bool_decide (ty = wsEventCallJobState) then job_state ev
  else if bool_decide (ty = wsEventJobStop) then
    emit on_event WSJobStopEvent (CtxString (data_string ev "job_id")) ;; mret (Ok tt)
  else if bool_decide (ty = wsEventCallHostChanged) then host_changed ev channel
  else if bool_decide (ty = wsEventUserUnmuted) then session_event ev channel true WSCallUnmutedEvent
  else if bool_decide (ty = wsEventUserMuted) then session_event ev channel true WSCallMutedEvent
  else if bool_decide (ty = wsEventUserRaisedHand) then session_event ev channel true WSCallRaisedHandEvent
  else if bool_decide (ty = wsEventUserLoweredHand) then session_event ev channel true WSCallLoweredHandEvent
  else if bool_decide (ty = wsEventUserScreenOn) then session_event ev channel true WSCallScreenOnEvent
  else if bool_decide (ty = wsEventUserScreenOff) then session_event ev channel false WSCallScreenOffEvent
  else mret (Ok tt).

(** Events that name another connection are ignored; before the first hello
    nothing else is handled. *)
Definition admit_event (ev : ws_ev) (conn channel : string) : go calls_client (result unit) :=
  g ← gets cc_sig;
  let id := ev_conn ev conn in
  if negb (bool_decide (id = str0)) && negb (bool_decide (id = sg_current g)) && negb (bool_decide (id = sg_original g))
  then mret (Ok tt)
  else if bool_decide (sg_original g = str0) && negb (bool_decide (ev_type ev = WebsocketEventHello)) then
    mret (Err (EText "ws message received while waiting for hello"))
  else handle_event ev channel.

Definition handleWSMsg (msg : ws_Message) : go calls_client (result unit) :=
  if bool_decide (wm_Type msg = TextMessage) then
    match event_of_json (wm_Data msg) with
    | Err e => mret (Err (EWrap "failed to unmarshal event" e))
    | Ok None => mret (Err (EText "unexpected nil event"))
    | Ok (Some ev) =>
        if negb (ev_valid ev) then mret (Err (EText "invalid event"))
        else
          match ev_broadcast ev with
          | None => panic
          | Some (conn, channel) => admit_event ev conn channel
          end
    end
  else if bool_decide (wm_Type msg = BinaryMessage) then mret (Ok tt)
  else mret (Err (EText ("invalid ws message type " +:+ Itoa (wm_Type msg)))).

(** ** Opening and closing *)

(** [dial] is the socket's client that [ws.NewClient] returns. *)
Definition wsOpen (dial : result ws_client) : go calls_client (result unit) :=
  match dial with
  | Err e => mret (Err (EWrap "failed to create websocket client" e))
  | Ok w =>
      modify (upd_sig (put_ws (Some w))) ;;
      original ← gets (λ c, sg_original (cc_sig c));
      if bool_decide (original = str0) then mret (Ok tt)
      else r ← reconnectCall; mret (wrap_err "reconnectCall failed" r)
  end.

(** [c.rtcMon.Stop()]: the monitor's goroutine ends, and [Stop] returns; a
    second [Stop] panics. *)
Definition stop_monitor : go calls_client unit := λ c,
  match md_rtcMon (cc_med c) with
  | None => Some (tt, c)
  | Some m =>
      s ← mon_run visit stop_events
            {| mo_mon := m; mo_thread := (if doneCh m then MoEnd else MoLoop); mo_stops := [SpStop] |};
      Some (tt, upd_med (λ d, put_pc (md_pc d) (md_dc d) (Some (mo_mon s)) d) c)
  end.

(** [c.close()]. *)
Definition close_client : go calls_client unit :=
  modify (upd_life (put_state clientStateClosed)) ;;
  stop_monitor ;;
  p ← gets (λ c, md_pc (cc_med c));
  match p with
  | Some p => lib (λ r, (tt, pc_Close p r))
  | None => mret tt
  end ;;
  emit on_event CloseEvent CtxNil.

(** ** The reader goroutine *)
Inductive ws_reader := RdNone | RdLoop | RdLeave | RdCloseDone | RdEnd.
#[export] Instance ws_reader_eq_dec : EqDecision ws_reader.
Proof. solve_decision. Defined.

(** The case of the [select] that is taken; a closed [ReceiveCh] comes with
    the clock, the random part of the delay and the answer of [NewClient]. *)
Inductive rd_choice := RcMessage (now jitter : Z) (dial : result ws_client) | RcError | RcClose.

(** The delay before the next attempt. *)
Definition next_interval (interval jitter : Z) : Z := wrap_int 64 (interval + (wsMinReconnectRetryInterval + jitter)).

(** The socket is gone: another attempt, or the end. *)
Definition reconnect (now jitter : Z) (dial : result ws_client) : go calls_client ws_reader :=
  emit on_event WSDisconnectEvent CtxNil ;;
  l ← gets cc_life;
  if negb (bool_decide (lc_lastDisconnect l = zero_time)) &&
     bool_decide (wsReconnectionTimeout < time_sub now (lc_lastDisconnect l))%Z then
    emit on_event ErrorEvent (CtxError (EText "ws reconnection timeout reached")) ;;
    close_client ;; mret RdLeave
  else
    let last := if bool_decide (lc_lastDisconnect l = zero_time) then now else lc_lastDisconnect l in
    modify (upd_life (put_reconnect (next_interval (lc_reconnectInterval l) jitter) last)) ;;
    _ ← wsOpen dial;
    mret RdLoop.

Definition handled_msg (m : ws_Message) : go calls_client ws_reader :=
  r ← handleWSMsg m;
  match r with
  | Ok _ => mret RdLoop
  | Err e =>
      if error_is e errCallEnded then close_client ;; mret RdLeave
      else emit on_event ErrorEvent (CtxError e) ;; mret RdLoop
  end.

(** A message taken from [c.ws.ReceiveCh()]; [RdLoop] again when there is none
    yet. *)
Definition read_ws (now jitter : Z) (dial : result ws_client) : go calls_client ws_reader := λ c,
  w ← sg_ws (cc_sig c);
  match recv (wc_receiveCh w) with
  | inl (m, ch) => handled_msg m (upd_sig (put_ws (Some (put_receiveCh ch w))) c)
  | inr true => reconnect now jitter dial c
  | inr false => Some (RdLoop, c)
  end.

Definition read_err : go calls_client ws_reader := λ c,
  w ← sg_ws (cc_sig c);
  match recv (wc_errorCh w) with
  | inl (_, ch) => Some (RdLoop, upd_sig (put_ws (Some (put_errorCh ch w))) c)
  | inr _ => Some (RdLoop, c)
  end.

Definition close_wsDoneCh : go calls_client unit := λ c,
  if lc_wsDoneCh (cc_life c) then None
  else Some (tt, upd_life (put_chans (lc_wsCloseCh (cc_life c)) true) c).

Definition wsReader_step (ch : rd_choice) (st : ws_reader) : go calls_client ws_reader :=
  match st with
  | RdLoop =>
      match ch with
      | RcMessage now jitter dial => read_ws now jitter dial
      | RcError => read_err
      | RcClose => b ← gets (λ c, lc_wsCloseCh (cc_life c)); mret (if b : bool then RdLeave else RdLoop)
      end
  | RdLeave => _ ← leaveCall; mret RdCloseDone
  | RdCloseDone => close_wsDoneCh ;; mret RdEnd
  | RdNone | RdEnd => mret st
  end.

(** ** [Connect] and [Close] *)
Definition Connect (dial : result ws_client) : go calls_client (result ws_reader) :=
  l ← gets cc_life;
  if negb (bool_decide (lc_state l = clientStateNew)) then mret (Err (EText "ws client is already initialized"))
  else
    modify (upd_life (put_state clientStateInit)) ;;
    r ← wsOpen dial;
    match r with Err e => mret (Err e) | Ok _ => mret (Ok RdLoop) end.

Inductive cl_close := CzStart | CzCloseCh | CzWait | CzSocket | CzClose | CzRet (r : result unit).

Definition close_wsCloseCh : go calls_client unit := λ c,
  if lc_wsCloseCh (cc_life c) then None
  else Some (tt, upd_life (put_chans true (lc_wsDoneCh (cc_life c))) c).

(** [closed] is the answer of the socket's client; a nil one panics. *)
Definition Close_step (closed : result unit) (st : cl_close) : go calls_client cl_close :=
  match st with
  | CzStart =>
      l ← gets cc_life;
      if bool_decide (lc_state l = clientStateInit) then
        modify (upd_life (put_state clientStateClosing)) ;; mret CzCloseCh
      else mret (CzRet (Err (EText "client is not initialized")))
  | CzCloseCh => close_wsCloseCh ;; mret CzWait
  | CzWait => b ← gets (λ c, lc_wsDoneCh (cc_life c)); mret (if b : bool then CzSocket else CzWait)
  | CzSocket => λ c,
      _ ← sg_ws (cc_sig c);
      Some (match closed with
            | Err e => CzRet (Err (EWrap "failed to close ws" e))
            | Ok _ => CzClose
            end, c)
  | CzClose => close_client ;; mret (CzRet (Ok tt))
  | CzRet r => mret (CzRet r)
  end.

(** [OnICEConnectionStateChange]: whether a [Close] is started. *)
Inductive ice_state := IceConnected | IceDisconnected | IceClosed | IceFailed | IceOther.
Definition onICEConnectionStateChange (st : ice_state) : go calls_client bool :=
  match st with
  | IceConnected => emit on_event RTCConnectEvent CtxNil ;; mret false
  | IceClosed | IceFailed =>
      emit on_event RTCDisconnectEvent CtxNil ;;
      l ← gets cc_life;
      mret (bool_decide (lc_state l = clientStateInit))
  | _ => mret false
  end.

(** ** The client and its threads *)
Record cl_sys := { cl_client : calls_client; cl_reader : ws_reader; cl_closes : list cl_close }.

Inductive cl_event :=
  | LvConnect (dial : result ws_client)
  | LvReader (ch : rd_choice)
  | LvCall
  | LvClose (k : nat) (closed : result unit)
  | LvIce (st : ice_state)
  | LvMedia (op : media_op)
  | LvSocket (w : ws_client).

(** [LvCall] is a call of [Close]; [LvSocket] is what the goroutines of the
    socket's client do to it. *)
Definition cl_step (ev : cl_event) (s : cl_sys) : option cl_sys :=
  let c := cl_client s in
  match ev with
  | LvConnect dial =>
      '(r, c) ← Connect dial c;
      Some {| cl_client := c; cl_reader := match r with Ok st => st | Err _ => cl_reader s end; cl_closes := cl_closes s |}
  | LvReader ch =>
      '(st, c) ← wsReader_step ch (cl_reader s) c;
      Some {| cl_client := c; cl_reader := st; cl_closes := cl_closes s |}
  | LvCall => Some {| cl_client := c; cl_reader := cl_reader s; cl_closes := cl_closes s ++ [CzStart] |}
  | LvClose k closed =>
      match cl_closes s !! k with
      | None => Some s
      | Some st =>
          '(st, c) ← Close_step closed st c;
          Some {| cl_client := c; cl_reader := cl_reader s; cl_closes := <[k := st]> (cl_closes s) |}
      end
  | LvIce st =>
      '(b, c) ← onICEConnectionStateChange st c;
      Some {| cl_client := c; cl_reader := cl_reader s;
              cl_closes := cl_closes s ++ (if b : bool then [CzStart] else []) |}
  | LvMedia op =>
      '(_, c) ← media_step on_event op c;
      Some {| cl_client := c; cl_reader := cl_reader s; cl_closes := cl_closes s |}
  | LvSocket w =>
      match sg_ws (cc_sig c) with
      | None => Some s
      | Some _ => Some {| cl_client := upd_sig (put_ws (Some w)) c; cl_reader := cl_reader s; cl_closes := cl_closes s |}
      end
  end.

Fixpoint cl_run (evs : list cl_event) (s : cl_sys) : option cl_sys :=
  match evs with [] => Some s | ev :: evs => s ← cl_step ev s; cl_run evs s end.

Definition cl_initial (cfg : CallsConfig) (r : rtc) : cl_sys := {|
  cl_client := New cfg r; cl_reader := RdNone; cl_closes := [] |}.

End client.

(** ** What handling a message leaves alone *)

(** Joining happens once, at the first hello; a reconnection names the first
    connection.  What callers of [SendWS] send is left to them. *)
Definition is_join (r : ws_request) : bool := negb (rq_user r) && bool_decide (rq_action r = wsEventJoin).
Definition own_request (r : ws_request) : Prop :=
  rq_user r = false ∧ (rq_action r = wsEventJoin ∨ rq_action r = wsEventReconnect).

Lemma not_own_join l : Forall (λ r, ¬ own_request r) l → List.filter is_join l = [].
Proof.
  induction 1 as [|r l Hr _ IH]; [done|]. cbn. unfold is_join at 1.
  destruct (rq_user r) eqn:Hu; [done|]. rewrite bool_decide_false; [done|]. intros E. by apply Hr; split; [|left].
Qed.

Section frames.
  Context {P : Pion} {D : DcCodec} {L : ClientLib P} `{!ClientLaws L} {EV : EventLib}.
  Context (on_event : string → event_ctx → go calls_client unit) (Hu : users_ok on_event).
  Context (arch : spec_float → Z) (visit : ssrc_stats → list (Z * stats)).

Definition join_data (cfg : CallsConfig) : request_data :=
  CallJoinMessage (cg_ChannelID cfg) (cg_JobID cfg) (cg_EnableAV1 cfg) (cg_EnableDCSignaling cfg).

Record join_ok (c : calls_client) : Prop := {
  jo_none : sg_original (cc_sig c) = str0 → Forall (λ r, ¬ own_request r) (sg_requests (cc_sig c));
  jo_once : length (List.filter is_join (sg_requests (cc_sig c))) ≤ 1;
  jo_join : Forall (λ r, rq_user r = false → rq_action r = wsEventJoin → rq_data r = join_data (cc_cfg c))
    (sg_requests (cc_sig c));
  jo_reconnect : Forall (λ r, rq_user r = false → rq_action r = wsEventReconnect →
      ∃ cur, rq_data r = CallReconnectMessage (cg_ChannelID (cc_cfg c)) (sg_original (cc_sig c)) cur)
    (sg_requests (cc_sig c));
}.

(** Other requests are added. *)
Lemma join_ok_extend (c c' : calls_client) l :
  join_ok c → cc_cfg c' = cc_cfg c → sg_original (cc_sig c') = sg_original (cc_sig c) →
  sg_requests (cc_sig c') = sg_requests (cc_sig c) ++ l → Forall (λ r, ¬ own_request r) l → join_ok c'.
Proof.
  intros [H1 H2 H3 H4] Ec Eo Er Hl. split; rewrite ?Ec, ?Eo, ?Er, ?Forall_app.
  - intros Hn. split; [by apply H1|done].
  - rewrite List.filter_app, length_app.
    rewrite (not_own_join l Hl). cbn. lia.
  - split; [done|]. eapply Forall_impl; [exact Hl|]. intros r Hr Eu E. by destruct Hr; split; [|left].
  - split; [done|]. eapply Forall_impl; [exact Hl|]. intros r Hr Eu E. by destruct Hr; split; [|right].
Qed.

(** What handling a message leaves alone; the events it tells satisfy [ok]. *)
Record ws_frame (ok : string → Prop) (c c' : calls_client) : Prop := {
  wf_cfg : cc_cfg c' = cc_cfg c;
  wf_handlers : cc_handlers c ⊆ cc_handlers c';
  wf_state : lc_state (cc_life c') = lc_state (cc_life c);
  wf_closeCh : lc_wsCloseCh (cc_life c') = lc_wsCloseCh (cc_life c);
  wf_doneCh : lc_wsDoneCh (cc_life c') = lc_wsDoneCh (cc_life c);
  wf_emitted : ∃ l, cc_emitted c' = cc_emitted c ++ l ∧ Forall (λ x, ok x.1) l;
  wf_original : sg_original (cc_sig c) ≠ str0 → sg_original (cc_sig c') = sg_original (cc_sig c);
  wf_numbered : numbered (cc_sig c) → numbered (cc_sig c');
  wf_ready : ready (cc_sig c) → ready (cc_sig c');
  wf_screen : screen_ok c → screen_ok c';
  wf_ice : ice_ok (cc_med c) → ice_ok (cc_med c');
  wf_mon : running (cc_med c) → running (cc_med c');
  wf_join : join_ok c → join_ok c';
}.

#[export] Instance ws_frame_preorder ok : PreOrder (ws_frame ok).
Proof.
  split.
  - intros c. split; try done; exists []; by rewrite app_nil_r.
  - intros c1 c2 c3 H1 H2. split.
    1,3-5: etrans; [apply H2|apply H1].
    4-9: intros; by apply H2, H1.
    + etrans; [apply H1|apply H2].
    + destruct (wf_emitted _ _ _ H1) as (l & E1 & F1), (wf_emitted _ _ _ H2) as (k & E2 & F2).
      exists (l ++ k). rewrite E2, E1, app_assoc. by rewrite Forall_app.
    + intros Hn. rewrite (wf_original _ _ _ H2); [by apply H1|]. by rewrite (wf_original _ _ _ H1).
Qed.

Lemma media_action_not_own r : media_action r → ¬ own_request r.
Proof.
  intros H [Eu [E|E]]; unfold media_action, user_action in H; rewrite Eu, E in H;
    destruct H as [[H|H]|[H|H]]; try done; try (by vm_compute in H); revert H.
  - by apply (bool_decide_unpack (wsEventJoin ∉ user_actions)).
  - by apply (bool_decide_unpack (wsEventReconnect ∉ user_actions)).
Qed.

Lemma media_ws_frame (ok : string → Prop) (c c' : calls_client) :
  (∀ e, media_event e → ok e) → media_frame c c' → ws_frame ok c c'.
Proof.
  intros Hok H. split; try apply H; try (by rewrite (mf_life _ _ H)).
  - destruct (mf_emitted _ _ H) as (l & E & F). exists l. split; [done|]. eapply Forall_impl; [done|]. auto.
  - intros _. apply H.
  - intros Hj. destruct (mf_requests _ _ H) as (l & E & F).
    apply (join_ok_extend c c' l); [done|apply H|apply H|done|].
    eapply Forall_impl; [exact F|]. intros r. apply media_action_not_own.
Qed.

Lemma wp_emit_ws (ok : string → Prop) e x (c c1 : calls_client) :
  (∀ e, media_event e → ok e) → ok e → ready (cc_sig c) → screen_ok c → ws_frame ok c c1 →
  wp (emit on_event e x) (λ _, ws_frame ok c) c1.
Proof.
  intros Hm He Hr Hs H. unfold emit. apply wp_bind, wp_gets. unfold when.
  destruct (bool_decide_reflect (e ∈ cc_handlers c1)); [|by apply wp_ret].
  apply wp_bind, wp_modify.
  eapply wp_mono; [apply Hu; [by apply (wf_ready _ _ _ H)|by apply (wf_screen _ _ _ H)]|].
  intros ? c' [H' Hs']. etrans; [exact H|].
  etrans; [|by apply (media_ws_frame _ _ _ Hm), api_media_frame]. split; try done.
  - exists [(e, x)]. split; [done|]. by apply Forall_singleton.
  - intros Hj. by apply (join_ok_extend c1 _ []); [done..|rewrite app_nil_r|].
Qed.

(** An event, then an answer. *)
Lemma wp_emit_ret {A} (ok : string → Prop) e x (a : A) (c c1 : calls_client) :
  (∀ e, media_event e → ok e) → ok e → ready (cc_sig c) → screen_ok c → ws_frame ok c c1 →
  wp (emit on_event e x ;; mret a) (λ _, ws_frame ok c) c1.
Proof.
  intros Hm He Hr Hs H. apply wp_bind. eapply wp_mono; [by apply (wp_emit_ws ok e x c)|].
  intros ? c' H'. by apply wp_ret.
Qed.

(** ** The events of a call *)
Definition job_events : list string := [WSCallJobStateEvent; WSCallRecordingStateEvent].
Definition call_events : list string :=
  [WSCallHostChangedEvent; WSCallUnmutedEvent; WSCallMutedEvent; WSCallRaisedHandEvent; WSCallLoweredHandEvent;
   WSCallScreenOnEvent; WSCallScreenOffEvent].

(** The events that are told whatever channel the server's event names. *)
Definition unscoped_events : list string := [WSCallJoinEvent; WSJobStopEvent].

(** An event of the server is about the client's call, or one of the two
    whose channel is not looked at. *)
Definition about_call (cfg : CallsConfig) (ev : ws_ev) (channel e : string) : Prop :=
  (e ∈ job_events → data_string ev "callID" = cg_ChannelID cfg) ∧
  (e ∈ call_events → ev_channel ev channel = cg_ChannelID cfg) ∧
  (e = WSCallJoinEvent → ev_type ev = wsEventJoin) ∧ (e = WSJobStopEvent → ev_type ev = wsEventJobStop).

Lemma not_unscoped e ev :
  e ∉ unscoped_events → (e = WSCallJoinEvent → ev_type ev = wsEventJoin) ∧ (e = WSJobStopEvent → ev_type ev = wsEventJobStop).
Proof.
  intros H. split; intros ->; destruct H; [apply list_elem_of_here|apply list_elem_of_further, list_elem_of_here].
Qed.

Lemma about_other cfg ev channel e :
  bool_decide (e ∈ job_events ++ call_events ++ unscoped_events) = false → about_call cfg ev channel e.
Proof.
  intros H%bool_decide_eq_false_1. rewrite !not_elem_of_app in H. destruct H as (H1 & H2 & H3).
  split; [done|]. split; [done|]. by apply not_unscoped.
Qed.

Lemma about_media cfg ev channel e : media_event e → about_call cfg ev channel e.
Proof. by intros [->| ->]; apply about_other. Qed.

Lemma about_session cfg ev channel e :
  ev_channel ev channel = cg_ChannelID cfg → bool_decide (e ∈ job_events ++ unscoped_events) = false → about_call cfg ev channel e.
Proof.
  intros H H1%bool_decide_eq_false_1. rewrite not_elem_of_app in H1. destruct H1 as [H1 H2].
  split; [done|]. split; [done|]. by apply not_unscoped.
Qed.

Lemma about_job cfg ev channel e :
  data_string ev "callID" = cg_ChannelID cfg → bool_decide (e ∈ call_events ++ unscoped_events) = false → about_call cfg ev channel e.
Proof.
  intros H H1%bool_decide_eq_false_1. rewrite not_elem_of_app in H1. destruct H1 as [H1 H2].
  split; [done|]. split; [done|]. by apply not_unscoped.
Qed.

Lemma about_join cfg ev channel : ev_type ev = wsEventJoin → about_call cfg ev channel WSCallJoinEvent.
Proof. intros H. split; [|split]; [by intros Hc%(bool_decide_eq_true_2 _)..|by split]. Qed.

Lemma about_stop cfg ev channel : ev_type ev = wsEventJobStop → about_call cfg ev channel WSJobStopEvent.
Proof. intros H. split; [|split]; [by intros Hc%(bool_decide_eq_true_2 _)..|by split]. Qed.

Section event.
  Context (ev : ws_ev) (channel : string) (c : calls_client).
  Context (Hr : ready (cc_sig c)) (Hs : screen_ok c) (Hi : ice_ok (cc_med c)).
Abbreviation ok := (about_call (cc_cfg c) ev channel).
#[local] Hint Resolve about_media : core.

Lemma session_event_ws needed e :
  bool_decide (e ∈ job_events ++ unscoped_events) = false → wp (session_event on_event ev channel needed e) (λ _, ws_frame ok c) c.
Proof.
  intros He. unfold session_event. apply wp_bind, wp_gets.
  destruct (bool_decide_reflect (ev_channel ev channel = cg_ChannelID (cc_cfg c))) as [Hc|]; [|by apply wp_ret].
  cbn [negb]. destruct (needed && _); [by apply wp_ret|]. apply wp_emit_ret; auto; [by apply about_session|done].
Qed.

Lemma host_changed_ws : wp (host_changed on_event ev channel) (λ _, ws_frame ok c) c.
Proof.
  unfold host_changed. apply wp_bind, wp_gets.
  destruct (bool_decide_reflect (ev_channel ev channel = cg_ChannelID (cc_cfg c))) as [Hc|]; [|by apply wp_ret].
  cbn [negb]. branch; [by apply wp_ret|]. apply wp_emit_ret; auto; [by apply about_session|done].
Qed.

Lemma job_state_ws : wp (job_state on_event arch ev) (λ _, ws_frame ok c) c.
Proof.
  unfold job_state. apply wp_bind, wp_gets.
  destruct (bool_decide_reflect (data_string ev "callID" = cg_ChannelID (cc_cfg c))) as [Hc|]; [|by apply wp_ret].
  cbn [negb]. destruct (at_key (ev_data ev) "jobState") as [| | | | | |data]; try by apply wp_ret.
  apply wp_bind. eapply wp_mono; [apply (wp_emit_ws ok _ _ c); auto; [by apply about_job|done]|]. intros ? c1 H1.
  unfold when. destruct (bool_decide (cj_Type _ = _)); [|by apply wp_bind, wp_ret, wp_ret].
  apply wp_emit_ret; auto. by apply about_job.
Qed.

Lemma user_left_ws : wp (user_left ev) (λ _, ws_frame ok c) c.
Proof.
  unfold user_left. branch; [by apply wp_ret|]. apply wp_bind, wp_gets, wp_bind.
  eapply wp_mono; [apply (wp_go_iter _ _ (λ _ c', media_frame c c')); [done|]|].
  - intros pre x post c1 _ H1. apply wp_bind, (wp_lib_frame _ _ c); [done|]. intros c2 H2 _. apply wp_modify.
    etrans; [exact H2|]. by apply upd_med_frame.
  - intros ? c1 H1. apply wp_ret, media_ws_frame; [|exact H1]. apply about_media.
Qed.

Lemma joined_ws : ev_type ev = wsEventJoin → wp (joined on_event) (λ _, ws_frame ok c) c.
Proof.
  intros Hty. unfold joined. apply wp_bind. eapply wp_mono; [apply (wp_emit_ws ok _ _ c); auto; [by apply about_join|done]|].
  intros ? c1 H1. apply wp_bind. eapply wp_mono; [apply initRTCSession_frame|]. intros r c2 [H2 _]. apply wp_ret.
  etrans; [exact H1|]. apply media_ws_frame; [|exact H2]. apply about_media.
Qed.

End event.

(** ** Saying hello *)
Definition no_own (c : calls_client) : Prop := Forall (λ r, ¬ own_request r) (sg_requests (cc_sig c)).

(** A first connection: nothing has been joined. *)
Lemma join_ok_first (c : calls_client) : no_own c → join_ok c.
Proof.
  intros Hn. split; [done| | |].
  - rewrite not_own_join by done. cbn. lia.
  - eapply Forall_impl; [exact Hn|]. intros r Hr Eu E. by destruct Hr; split; [|left].
  - eapply Forall_impl; [exact Hn|]. intros r Hr Eu E. by destruct Hr; split; [|right].
Qed.

Lemma api_no_own (c c' : calls_client) : api_frame user_action c c' → no_own c → no_own c'.
Proof.
  intros H Hn. destruct (af_requests _ _ _ H) as (l & E & F). unfold no_own. rewrite E. apply Forall_app. split; [done|].
  eapply Forall_impl; [exact F|]. intros r Hr. apply media_action_not_own. by left.
Qed.

(** What [emit] does: nothing, or the event and what its subscriber does. *)
Definition told (e : string) (x : event_ctx) (c c' : calls_client) : Prop :=
  ((e ∉ cc_handlers c) ∧ c' = c) ∨ (api_frame user_action (log_event e x c) c' ∧ (screen_ok c → screen_ok c')).

Lemma wp_emit_told e x (c : calls_client) :
  ready (cc_sig c) → screen_ok c → wp (emit on_event e x) (λ _, told e x c) c.
Proof.
  intros Hr Hs. unfold emit. apply wp_bind, wp_gets. unfold when.
  destruct (bool_decide_reflect (e ∈ cc_handlers c)); [|by apply wp_ret; left].
  apply wp_bind, wp_modify. eapply wp_mono; [by apply Hu|].
  intros ? c' [H H']. by right.
Qed.

Lemma told_no_own e x c c' : told e x c c' → no_own c → no_own c'.
Proof. intros [[_ ->]|[H _]] Hn; [done|]. by eapply api_no_own. Qed.

Lemma told_ready e x c c' : told e x c c' → ready (cc_sig c) → ready (cc_sig c').
Proof. intros [[_ ->]|[H _]] Hr; [done|]. by apply (af_ready _ _ _ H). Qed.

Lemma told_ws_frame (ok : string → Prop) e x c c' : (∀ e, media_event e → ok e) → ok e → told e x c c' → ws_frame ok c c'.
Proof.
  intros Hm He [[_ ->]|[H Hs]]; [done|]. transitivity (log_event e x c).
  - split; try done.
    + exists [(e, x)]. split; [done|]. by apply Forall_singleton.
    + intros Hj. by apply (join_ok_extend c _ []); [done..|rewrite app_nil_r|].
  - apply (media_ws_frame _ _ _ Hm). by apply api_media_frame.
Qed.

Lemma told_original e x c c' : told e x c c' → sg_original (cc_sig c') = sg_original (cc_sig c) ∧ cc_cfg c' = cc_cfg c.
Proof. intros [[_ ->]|[H _]]; [done|]. split; [apply (af_original _ _ _ H)|apply (af_cfg _ _ _ H)]. Qed.

Lemma join_sent (c c' : calls_client) :
  no_own c → sg_original (cc_sig c) ≠ str0 → sent_as wsEventJoin (join_data (cc_cfg c)) c c' → join_ok c'.
Proof.
  intros Hn Ho [->|(w & _ & ->)]; [by apply join_ok_first|].
  split; cbn; [done| | |]; rewrite ?List.filter_app, ?Forall_app.
  - rewrite not_own_join by done. cbn [app List.filter]. destruct (is_join _); cbn; lia.
  - split; [|by apply Forall_singleton]. eapply Forall_impl; [exact Hn|]. intros r Hr Eu E. by destruct Hr; split; [|left].
  - split; [|apply Forall_singleton; intros Eu E; by vm_compute in E].
    eapply Forall_impl; [exact Hn|]. intros r Hr Eu E. by destruct Hr; split; [|right].
Qed.

(** A request that is not counted among the joins' frame. *)
Lemma sent_ws_frame (ok : string → Prop) ev msg (c c' : calls_client) :
  sent_as ev msg c c' → (join_ok c → join_ok c') → ws_frame ok c c'.
Proof.
  intros Hs Hj. pose proof (sent_frame (λ _, True) false ev msg c c' (λ _, I) Hs) as H.
  destruct Hs as [->|(w & Hw & ->)]; [done|]. split; try apply H; try done; exists []; by rewrite app_nil_r.
Qed.

Lemma ids_ws_frame (ok : string → Prop) original current (c : calls_client) :
  (sg_original (cc_sig c) ≠ str0 → original = sg_original (cc_sig c)) →
  (join_ok c → join_ok (upd_sig (put_ids original current) c)) →
  ws_frame ok c (upd_sig (put_ids original current) c).
Proof. intros Ho Hj. split; try done; exists []; by rewrite app_nil_r. Qed.

Lemma life_ws_frame (ok : string → Prop) interval last (c : calls_client) :
  ws_frame ok c (upd_life (put_reconnect interval last) c).
Proof.
  split; try done; [exists []; by rewrite app_nil_r|].
  intros Hj. by apply (join_ok_extend c _ []); [done..|rewrite app_nil_r|].
Qed.

Lemma hello_ws ev channel (c : calls_client) :
  ready (cc_sig c) → screen_ok c → join_ok c →
  wp (hello on_event ev) (λ _, ws_frame (about_call (cc_cfg c) ev channel) c) c.
Proof.
  intros Hr Hs Hj. unfold hello, handleWSEventHello. apply wp_bind.
  destruct (at_key (ev_data ev) "connection_id") as [|connID| | | | |]; try by apply wp_ret, wp_ret.
  destruct (bool_decide_reflect (connID = str0)) as [|Hne]; [by apply wp_ret, wp_ret|].
  apply wp_bind, wp_gets. destruct (bool_decide_reflect (sg_original (cc_sig c) = str0)) as [Ho|Ho].
  - pose proof (jo_none _ Hj Ho) as Hn.
    assert (ws_frame (about_call (cc_cfg c) ev channel) c (upd_sig (put_ids connID connID) c)) as H1
      by (apply ids_ws_frame; [done|]; intros _; by apply join_ok_first).
    apply wp_bind, wp_modify, wp_bind. eapply wp_mono; [by apply wp_emit_told|]. intros ? c2 H2.
    apply wp_ret. unfold joinCall. apply wp_bind, wp_bind, wp_gets, wp_bind.
    pose proof (told_no_own _ _ _ _ H2 Hn) as Hn2. destruct (told_original _ _ _ _ H2) as [Ho2 Hc2].
    eapply wp_mono; [apply wp_sendWS; by apply (told_ready _ _ _ _ H2)|]. intros r c3 H3. apply wp_ret, wp_ret.
    etrans; [exact H1|]. etrans; [exact (told_ws_frame _ _ _ _ _ (about_media _ _ _) (about_other _ _ _ WSConnectEvent eq_refl) H2)|].
    apply (sent_ws_frame _ _ _ _ _ H3). intros _. eapply join_sent; [done| |exact H3]. by rewrite Ho2.
  - apply wp_bind, wp_modify, wp_bind, wp_modify, wp_bind.
    eapply wp_mono; [by apply wp_emit_told|]. intros ? c2 H2. apply wp_ret, wp_ret.
    etrans; [apply (life_ws_frame _ 0 zero_time)|].
    etrans; [|exact (told_ws_frame _ _ _ _ _ (about_media _ _ _) (about_other _ _ _ WSConnectEvent eq_refl) H2)].
    apply ids_ws_frame; [done|]. intros Hj'. by apply (join_ok_extend _ _ [] Hj'); [done..|rewrite app_nil_r|].
Qed.

(** Without a connection, a signal is refused or crashes the client. *)
Lemma signal_no_pc evData (c : calls_client) :
  md_pc (cc_med c) = None → wlp (handleWSEventSignal evData) (λ _ c', c' = c) c.
Proof.
  intros Hp.
  assert (∀ A (k : pc → go calls_client A) Q, wlp (p ← the_pc; k p) Q c) as Hpc.
  { intros A k Q a s'. unfold mbind, go_bind, the_pc. by rewrite Hp. }
  unfold handleWSEventSignal. destruct (at_key evData "data"); try by apply wlp_ret.
  destruct (json_object s) as [msg|]; [|by apply wlp_ret]. unfold handle_signal.
  destruct (at_key msg "type") as [|ty| | | | |]; try by apply wlp_ret.
  destruct (bool_decide (ty = signalMsgCandidate)).
  { destruct (at_key msg "candidate") as [| | | | | |m]; try by apply wlp_ret.
    destruct (at_key m "candidate"); try by apply wlp_ret. apply Hpc. }
  destruct (bool_decide (ty = signalMsgOffer)).
  { destruct (at_key msg "sdp"); try by apply wlp_ret. apply Hpc. }
  destruct (bool_decide (ty = signalMsgAnswer)); [|by apply wlp_ret].
  destruct (at_key msg "sdp"); try by apply wlp_ret. apply Hpc.
Qed.

Lemma signal_ws ev channel (c : calls_client) :
  ready (cc_sig c) → ice_ok (cc_med c) →
  wlp (r ← handleWSEventSignal (ev_data ev); mret (wrap_err "failed to handle signal event" r))
    (λ _, ws_frame (about_call (cc_cfg c) ev channel) c) c.
Proof.
  intros Hr [Hi _]. apply wlp_bind. destruct (md_pc (cc_med c)) as [p|] eqn:Hp.
  - eapply wlp_mono; [apply wp_wlp, handleWSEventSignal_frame; [done|by eexists|done]|].
    intros r c' H. apply wlp_ret, media_ws_frame; [|exact H]. apply about_media.
  - eapply wlp_mono; [by apply signal_no_pc|]. intros r c' ->. by apply wlp_ret.
Qed.

Lemma handle_event_ws ev channel (c : calls_client) :
  ready (cc_sig c) → screen_ok c → ice_ok (cc_med c) → join_ok c →
  wlp (handle_event on_event arch ev channel) (λ _, ws_frame (about_call (cc_cfg c) ev channel) c) c.
Proof.
  intros Hr Hs Hi Hj. unfold handle_event. wlp_branch; [by apply wp_wlp, hello_ws|].
  destruct (bool_decide_reflect (ev_type ev = wsEventJoin)); [by apply wp_wlp, joined_ws|].
  wlp_branch; [by apply signal_ws|].
  wlp_branch; [apply wp_wlp, wp_emit_ret; [apply about_media|by apply about_other|done..]|].
  wlp_branch; [by apply wp_wlp, user_left_ws|]. wlp_branch; [by apply wp_wlp, wp_bind, wp_gets, wp_ret|].
  wlp_branch; [by apply wp_wlp, job_state_ws|].
  destruct (bool_decide_reflect (ev_type ev = wsEventJobStop));
    [apply wp_wlp, wp_emit_ret; [apply about_media|by apply about_stop|done..]|].
  wlp_branch; [by apply wp_wlp, host_changed_ws|].
  do 6 (wlp_branch; [by apply wp_wlp, session_event_ws|]). by apply wp_wlp, wp_ret.
Qed.

(** The events a message may tell: what is about a call is about the
    client's, apart from the two events of [unscoped_events]. *)
Definition scoped (cfg : CallsConfig) (msg : ws_Message) (e : string) : Prop :=
  e ∈ job_events ++ call_events ++ unscoped_events →
  ∃ ev conn channel, event_of_json (wm_Data msg) = Ok (Some ev) ∧ ev_broadcast ev = Some (conn, channel) ∧
    about_call cfg ev channel e.

Lemma ws_frame_weaken (ok ok' : string → Prop) c c' : (∀ e, ok e → ok' e) → ws_frame ok c c' → ws_frame ok' c c'.
Proof.
  intros Hok []. split; try done. destruct wf_emitted0 as (l & E & F). exists l. split; [done|].
  eapply Forall_impl; [exact F|]. auto.
Qed.

Lemma handleWSMsg_ws msg (c : calls_client) :
  ready (cc_sig c) → screen_ok c → ice_ok (cc_med c) → join_ok c →
  wlp (handleWSMsg on_event arch msg) (λ _, ws_frame (scoped (cc_cfg c) msg) c) c.
Proof.
  intros Hr Hs Hi Hj. unfold handleWSMsg. wlp_branch; [|wlp_branch; by apply wlp_ret].
  destruct (event_of_json (wm_Data msg)) as [[ev|]|] eqn:He; [|by apply wlp_ret..].
  destruct (negb (ev_valid ev)); [by apply wlp_ret|].
  destruct (ev_broadcast ev) as [[conn channel]|] eqn:Hb; [|by intros ? ?].
  unfold admit_event. apply wlp_bind. intros g ? [= <- <-].
  wlp_branch; [by apply wlp_ret|]. wlp_branch; [by apply wlp_ret|].
  eapply wlp_mono; [by apply handle_event_ws|]. intros r c' H. eapply ws_frame_weaken; [|exact H].
  intros e Ha _. by exists ev, conn, channel.
Qed.

End frames.

(** ** Properties *)
Section properties.
  Context {P : Pion} {D : DcCodec} {L : ClientLib P} `{!ClientLaws L} {EV : EventLib}.
  Context (on_event : string → event_ctx → go calls_client unit).
  Context (arch : spec_float → Z).

(** C29: Handling a message of the server tells the subscribers of the state
    of the call's jobs and of the changes of its host and of its sessions
    (voice, hand, screen) only when the message names the channel of the
    client's call, and that a job is to stop or the call was joined only for
    the server's event of that type, whatever channel it names
    ([job_stop_unscoped]); a message for another connection changes nothing,
    and no message changes the identity of a connection that has one. *)
Theorem call_events_scoped msg (c : calls_client) r c' :
  users_ok on_event → ready (cc_sig c) → screen_ok c → ice_ok (cc_med c) → join_ok c →
  handleWSMsg on_event arch msg c = Some (r, c') →
  (∃ l, cc_emitted c' = cc_emitted c ++ l ∧ Forall (λ x, scoped (cc_cfg c) msg x.1) l) ∧
  (∀ ev conn channel,
    wm_Type msg = TextMessage → event_of_json (wm_Data msg) = Ok (Some ev) → ev_broadcast ev = Some (conn, channel) →
    ev_conn ev conn ∉ [str0; sg_current (cc_sig c); sg_original (cc_sig c)] → c' = c) ∧
  (sg_original (cc_sig c) ≠ str0 → sg_original (cc_sig c') = sg_original (cc_sig c)).
Proof.
  intros Hu Hr Hs Hi Hj E. pose proof (handleWSMsg_ws _ Hu arch msg c Hr Hs Hi Hj _ _ E) as H.
  split_and!; [apply H| |apply H]. intros ev conn channel Ht He Hb Hid.
  unfold handleWSMsg in E. rewrite (bool_decide_true (_ = _) Ht), He, Hb in E.
  destruct (negb (ev_valid ev)); [by injection E as _ <-|]. unfold admit_event, mbind, go_bind, gets in E.
  rewrite !bool_decide_false in E by set_solver. by injection E as _ <-.
Qed.

(** The event that stops a job, and the one that says the call was joined,
    carry no check of the channel: the subscriber is told of an event that
    names another call. *)
Theorem job_stop_unscoped msg ev conn channel (c : calls_client) :
  wm_Type msg = TextMessage → event_of_json (wm_Data msg) = Ok (Some ev) → ev_valid ev = true →
  ev_broadcast ev = Some (conn, channel) → ev_conn ev conn ∈ [str0; sg_current (cc_sig c); sg_original (cc_sig c)] →
  sg_original (cc_sig c) ≠ str0 → ev_type ev = wsEventJobStop → WSJobStopEvent ∈ cc_handlers c →
  handleWSMsg on_event arch msg c =
    (on_event WSJobStopEvent (CtxString (data_string ev "job_id")) ;; mret (Ok tt))
      (log_event WSJobStopEvent (CtxString (data_string ev "job_id")) c).
Proof.
  intros Ht He Hv Hb Hid Ho Hty Hin.
  assert (wsEventJobStop ≠ WebsocketEventHello) as Hh by (intros E; pose proof hello_type as H; by rewrite <- E in H).
  unfold handleWSMsg. rewrite (bool_decide_true (_ = _) Ht), He, Hv, Hb. cbn [negb].
  unfold admit_event, mbind at 1, go_bind at 1, gets at 1.
  assert (negb (bool_decide (ev_conn ev conn = str0)) && negb (bool_decide (ev_conn ev conn = sg_current (cc_sig c)))
    && negb (bool_decide (ev_conn ev conn = sg_original (cc_sig c))) = false) as ->.
  { rewrite !elem_of_cons in Hid. destruct Hid as [H|[H|[H|[]%elem_of_nil]]]; rewrite (bool_decide_true (_ = _) H);
      by rewrite ?andb_false_r. }
  rewrite (bool_decide_false (sg_original _ = _)) by done. cbn [andb]. unfold handle_event. rewrite Hty.
  rewrite (bool_decide_false (_ = WebsocketEventHello)) by done. do 6 rewrite bool_decide_false by done.
  rewrite (bool_decide_true (wsEventJobStop = _)) by done.
  unfold emit, modify, when, mbind, go_bind, gets. rewrite (bool_decide_true (WSJobStopEvent ∈ _)) by done. done.
Qed.

End properties.

(** ** Concrete events *)
Module ToyEv.

(** An event of the type [ty] with the given data, about the call "channel". *)
Definition toy_event (ty : string) (data : gmap string any) : result (option ws_ev) :=
  Ok (Some {| ev_type := ty; ev_valid := true; ev_broadcast := Some (str0, "channel"%string); ev_data := data |}).

Definition toy_decode (s : string) : result (option ws_ev) :=
  if bool_decide (s = "hello"%string) then toy_event "hello" {["connection_id"%string := AString "conn1"]}
  else if bool_decide (s = "join"%string) then toy_event wsEventJoin ∅
  else if bool_decide (s = "end"%string) then toy_event wsEventCallEnd ∅
  else if bool_decide (s = "muted"%string) then toy_event wsEventUserMuted {["session_id"%string := AString "s1"]}
  else Err (EText "invalid character").

#[export] Instance toy_events : EventLib.
Proof. refine {| event_of_json := toy_decode; WebsocketEventHello := "hello" |}. reflexivity. Defined.

Definition toy_text (s : string) : ws_Message := {|
  wm_ClientID := str0; wm_ConnID := str0; wm_Type := TextMessage; wm_Data := s |}.

(** A client that said hello, with a subscriber of mute events. *)
Definition toy_joined : calls_client (P := Toy.toy_pion) (L := ToyClient.toy_lib) :=
  subscribe (L := ToyClient.toy_lib) WSCallMutedEvent
    (upd_sig (L := ToyClient.toy_lib) (put_ids "conn1" "conn1") (ToyClient.toy_client (Some 7))).

End ToyEv.

Definition toy_told : calls_client (P := Toy.toy_pion) (L := ToyClient.toy_lib) :=
  log_event (L := ToyClient.toy_lib) WSCallMutedEvent (CtxString "s1") ToyEv.toy_joined.

Lemma call_events_scoped_witness :
  ∃ l, cc_emitted toy_told = cc_emitted ToyEv.toy_joined ++ l ∧
    Forall (λ x, scoped (EV := ToyEv.toy_events) (cc_cfg ToyEv.toy_joined) (ToyEv.toy_text "muted") x.1) l.
Proof.
  refine (proj1 (call_events_scoped (D := ToyDc.toy_codec) (EV := ToyEv.toy_events)
    (ClientLaws0 := ToyClient.toy_lib_laws) (λ _ _, mret tt) (λ _, 0%Z)
    (ToyEv.toy_text "muted") ToyEv.toy_joined (Ok tt) toy_told silent_users_ok _ _ _ _ _)).
  - by eexists.
  - by left.
  - by split.
  - apply join_ok_first. by apply Forall_nil.
  - reflexivity.
Defined.
