(* ===== verification/ClientLife.v ===== *)
(** * ClientLife: the life of a Calls client

    Reachable states of the threads of [ClientWs], their invariant, and what
    follows for the joining of a call, for the candidates that wait for a
    description, for [Close] and for reconnections. *)
From Stdlib Require Import Floats.SpecFloat.
From S2P Require Import Prelude GoText GoFloat RtcConfig Utils Dc WsServer WsClient RtcMonitor Pion ClientState ClientApi ClientRtc ClientWs.

(** A [Close] that has passed its guard and not returned. *)
Definition inside (st : cl_close) : bool := match st with CzStart | CzRet _ => false | _ => true end.

Section life.
  Context {P : Pion} {D : DcCodec} {L : ClientLib P} `{!ClientLaws L} {EV : EventLib}.
  Context (on_event : string → event_ctx → go calls_client unit) (Hu : users_ok on_event).
  Context (arch : spec_float → Z) (visit : ssrc_stats → list (Z * stats)).
  Context (cfg : CallsConfig) (r0 : rtc).

(** A socket's client as [WsClient] leaves it. *)
Definition socket_ok (w : ws_client) : Prop := ∃ wr rd, client_ok w wr rd.

(** What happens to a client: the user calls the API, except [On], once it is
    connected, and the library calls back once it has a connection; signals
    and the connection itself come through the reader. *)
Definition allowed (ev : cl_event) (s : cl_sys) : Prop :=
  match ev with
  | LvConnect (Ok w) | LvSocket w | LvReader (RcMessage _ _ (Ok w)) => socket_ok w
  | LvMedia MdInit | LvMedia (MdSignal _) => False
  | LvMedia (MdUser (OpOn _)) => True
  | LvMedia (MdUser _) | LvIce _ => is_Some (sg_ws (cc_sig (cl_client s)))
  | LvMedia _ => is_Some (sg_ws (cc_sig (cl_client s))) ∧ is_Some (md_pc (cc_med (cl_client s)))
  | _ => True
  end.

Inductive cl_path (s0 : cl_sys) : cl_sys → Prop :=
  | path_refl : cl_path s0 s0
  | path_step s ev s' :
      cl_path s0 s → allowed ev s → cl_step on_event arch visit ev s = Some s' → cl_path s0 s'.

Definition cl_reach : cl_sys → Prop := cl_path (cl_initial cfg r0).

(** ** The invariant *)
Record life_ok (l : lifecycle) (rd : ws_reader) (cls : list cl_close) : Prop := {
  lk_done : lc_wsDoneCh l = bool_decide (rd = RdEnd);
  lk_new : lc_state l = clientStateNew → rd = RdNone;
  lk_idle : lc_state l = clientStateNew ∨ lc_state l = clientStateInit →
    lc_wsCloseCh l = false ∧ ∀ k st, cls !! k = Some st → inside st = false;
  lk_one j k st st' : cls !! j = Some st → cls !! k = Some st' → inside st = true → inside st' = true → j = k;
  lk_before k : cls !! k = Some CzCloseCh → lc_wsCloseCh l = false;
  lk_closing k st : cls !! k = Some st → st = CzWait ∨ st = CzSocket ∨ st = CzClose → lc_wsCloseCh l = true;
  lk_after k st : cls !! k = Some st → st = CzSocket ∨ st = CzClose → rd = RdEnd;
  lk_reading : rd = RdLoop → lc_state l ≠ clientStateClosed;
}.

Record sys_ok (s : cl_sys) : Prop := {
  so_cfg : cc_cfg (cl_client s) = cfg;
  so_ready : cl_reader s ≠ RdNone ∨ is_Some (sg_ws (cc_sig (cl_client s))) → ready (cc_sig (cl_client s));
  so_numbered : numbered (cc_sig (cl_client s));
  so_screen : screen_ok (cl_client s);
  so_ice : ice_ok (cc_med (cl_client s));
  so_join : join_ok (cl_client s);
  so_running : lc_state (cc_life (cl_client s)) ≠ clientStateClosed → running (cc_med (cl_client s));
  so_life : life_ok (cc_life (cl_client s)) (cl_reader s) (cl_closes s);
}.

Lemma life_initial_ok : sys_ok (cl_initial cfg r0).
Proof.
  split; try done.
  - by intros [?|[]].
  - by left.
  - apply join_ok_first. by apply Forall_nil.
Qed.

Lemma socket_open w : socket_ok w → ch_closed (wc_sendCh w) = false.
Proof. intros (wr & rd & H). apply H. Qed.

(** ** Steps of the reader *)

(** The reader goes on with the client it has, or ends after [close]. *)
Definition reader_next (c : calls_client) (st : ws_reader) (c' : calls_client) : Prop :=
  ∃ c1, ws_frame (λ _, True) c c1 ∧
    ((st = RdLoop ∧ c' = c1) ∨
     (st = RdLeave ∧ lc_state (cc_life c') = clientStateClosed ∧
      ws_frame (λ _, True) (upd_life (put_state (lc_state (cc_life c'))) c1) c')).

Lemma true_weaken ok c c' : ws_frame ok c c' → ws_frame (λ _, True) c c'.
Proof. by apply ws_frame_weaken. Qed.

(** Everything but the running of the monitor. *)
Record closed_frame (c c' : calls_client) : Prop := {
  xf_cfg : cc_cfg c' = cc_cfg c;
  xf_state : lc_state (cc_life c') = clientStateClosed;
  xf_closeCh : lc_wsCloseCh (cc_life c') = lc_wsCloseCh (cc_life c);
  xf_doneCh : lc_wsDoneCh (cc_life c') = lc_wsDoneCh (cc_life c);
  xf_ready : ready (cc_sig c) → ready (cc_sig c');
  xf_numbered : numbered (cc_sig c) → numbered (cc_sig c');
  xf_screen : screen_ok c → screen_ok c';
  xf_ice : ice_ok (cc_med c) → ice_ok (cc_med c');
  xf_join : join_ok c → join_ok c';
  xf_told : CloseEvent ∈ cc_handlers c → ∃ l l', cc_emitted c' = l ++ (CloseEvent, CtxNil) :: l';
}.

Lemma stop_running m :
  stopCh m = false ∧ doneCh m = false ∧ ch_closed (statsCh m) = false →
  ∃ s, mon_run visit stop_events
    {| mo_mon := m; mo_thread := (if doneCh m then MoEnd else MoLoop); mo_stops := [SpStop] |} = Some s.
Proof.
  intros (H1 & H2 & H3). rewrite H2.
  destruct (stop_events_end visit {| mo_mon := m; mo_thread := MoLoop; mo_stops := [SpStop] |} SpStop) as (s & Hs & _);
    [done| |by exists s]. right. exists SpStop. by split_and!.
Qed.

Lemma stop_monitor_spec (c : calls_client) :
  wlp (stop_monitor visit) (λ _ c', ∃ mon, c' = upd_med (λ d, put_pc (md_pc d) (md_dc d) mon d) c) c.
Proof.
  intros [] c'. unfold stop_monitor. destruct (md_rtcMon (cc_med c)) as [m|] eqn:Hm.
  - destruct (mon_run _ _ _) as [s|]; [|done]. intros [= <-]. by eexists.
  - intros [= <-]. exists None. destruct c as [? ? ? [] ? ?]. cbn in *. by subst.
Qed.

Lemma stop_monitor_wp (c : calls_client) :
  running (cc_med c) →
  wp (stop_monitor visit) (λ _ c', ∃ mon, c' = upd_med (λ d, put_pc (md_pc d) (md_dc d) mon d) c) c.
Proof.
  intros Hr. assert (∃ a c', stop_monitor visit c = Some (a, c')) as (a & c' & E).
  { unfold stop_monitor. destruct (md_rtcMon (cc_med c)) as [m|] eqn:Hm; [|by do 2 eexists].
    destruct (stop_running m (Hr m Hm)) as [s Es]. rewrite Es. by do 2 eexists. }
  apply wp_inv. exists a, c'. split; [done|]. by apply (stop_monitor_spec c a c').
Qed.

(** After the monitor. *)
Lemma closing_rest mon (c : calls_client) :
  ready (cc_sig c) → screen_ok c →
  wp (p ← gets (λ c, md_pc (cc_med c));
      match p with Some p => lib (λ r, (tt, pc_Close p r)) | None => mret tt end ;;
      emit on_event CloseEvent CtxNil)
    (λ _ c', closed_frame c c')
    (upd_med (λ d, put_pc (md_pc d) (md_dc d) mon d) (upd_life (put_state clientStateClosed) c)).
Proof.
  intros Hr Hs. set (c1 := upd_med _ _). apply wp_bind, wp_gets, wp_bind.
  assert (∀ c2 : calls_client, (∃ r, c2 = upd_med (put_lib r) c1) → wp (emit on_event CloseEvent CtxNil)
    (λ _ c', closed_frame c c') c2) as Hend.
  { intros c2 [r ->]. eapply wp_mono; [by apply wp_emit_told|]. intros ? c' Ht.
    assert (ws_frame (λ _, True) (upd_med (put_lib r) c1) c') as H by exact (told_ws_frame (λ _, True) CloseEvent CtxNil _ _ (λ _ _, I) I Ht).
    split; try apply H; try done.
    - intros Hj. apply H. by apply (join_ok_extend c _ []); [done..|rewrite app_nil_r|].
    - intros Hin. destruct Ht as [[Hn _]|[Ht _]]; [done|exists (cc_emitted c), []; by rewrite (af_emitted _ _ _ Ht)]. }
  destruct (md_pc (cc_med c1)) as [p|].
  - apply wp_pion. apply Hend. by eexists.
  - apply wp_ret, Hend. exists (md_rtc (cc_med c1)). by destruct c as [? ? ? [] ? ?].
Qed.

Lemma close_client_wp (c : calls_client) :
  ready (cc_sig c) → screen_ok c → running (cc_med c) →
  wp (close_client on_event visit) (λ _ c', closed_frame c c') c.
Proof.
  intros Hr Hs Hm. unfold close_client. apply wp_bind, wp_modify, wp_bind.
  eapply wp_mono; [by apply stop_monitor_wp|]. intros ? c' [mon ->]. by apply closing_rest.
Qed.

Lemma close_client_wlp (c : calls_client) :
  ready (cc_sig c) → screen_ok c → wlp (close_client on_event visit) (λ _ c', closed_frame c c') c.
Proof.
  intros Hr Hs. unfold close_client. apply wlp_bind. intros a s [= <- <-]. apply wlp_bind.
  eapply wlp_mono; [apply stop_monitor_spec|]. intros ? c' [mon ->]. by apply wp_wlp, closing_rest.
Qed.

Abbreviation same := (ws_frame (λ _, True)).

Lemma told_same e x c c' : told e x c c' → same c c'.
Proof. by apply told_ws_frame. Qed.

Lemma socket_same w (c : calls_client) :
  (ready (cc_sig c) → ch_closed (wc_sendCh w) = false) → same c (upd_sig (put_ws (Some w)) c).
Proof.
  intros Ho. split; try done; try (exists []; by rewrite app_nil_r).
  - intros Hr. exists w. split; [done|]. by apply Ho.
  - intros Hj. by apply (join_ok_extend c _ []); [done..|rewrite app_nil_r|].
Qed.

(** Requests that are neither joins nor reconnections. *)
Lemma leave_same (c c' : calls_client) : sent_as wsEventLeave NoData c c' → same c c'.
Proof.
  intros H. apply (sent_ws_frame _ _ _ _ _ H). intros Hj. destruct H as [->|(w & _ & ->)]; [done|].
  eapply (join_ok_extend c); [done..|]. apply Forall_singleton. by intros [_ [E|E]]; vm_compute in E.
Qed.

(** A reconnection names the first connection. *)
Lemma reconnect_same cur (c c' : calls_client) :
  sg_original (cc_sig c) ≠ str0 →
  sent_as wsEventReconnect (CallReconnectMessage (cg_ChannelID (cc_cfg c)) (sg_original (cc_sig c)) cur) c c' → same c c'.
Proof.
  intros Ho H. apply (sent_ws_frame _ _ _ _ _ H). intros [H1 H2 H3 H4]. destruct H as [->|(w & _ & ->)]; [done|].
  split; cbn; [done| | |]; rewrite ?List.filter_app, ?length_app, ?Forall_app.
  - assert (List.filter is_join [{| rq_action := wsEventReconnect; rq_seq := sg_seq (cc_sig c);
      rq_data := CallReconnectMessage (cg_ChannelID (cc_cfg c)) (sg_original (cc_sig c)) cur; rq_user := false |}] = []) as E by done.
    cbn [List.filter] in *. rewrite E. cbn. lia.
  - split; [done|]. apply Forall_singleton. intros _ E. by vm_compute in E.
  - split; [done|]. apply Forall_singleton. intros _ _. by exists cur.
Qed.

Definition dial_ok (dial : result ws_client) : Prop := match dial with Ok w => socket_ok w | Err _ => True end.

Lemma wsOpen_wp dial (c : calls_client) :
  dial_ok dial →
  wp (wsOpen dial) (λ r c', same c c' ∧ (ready (cc_sig c') ∨ c' = c ∧ r ≠ Ok tt)) c.
Proof.
  intros Hd. destruct dial as [w|e]; cbn [wsOpen]; [|by apply wp_ret; split; [|right]].
  assert (same c (upd_sig (put_ws (Some w)) c)) as H1 by (apply socket_same; intros _; by apply socket_open).
  assert (ready (cc_sig (upd_sig (put_ws (Some w)) c))) as Hr by (exists w; split; [done|by apply socket_open]).
  apply wp_bind, wp_modify, wp_bind, wp_gets.
  destruct (bool_decide_reflect (sg_original (cc_sig (upd_sig (put_ws (Some w)) c)) = str0)); [by apply wp_ret; split; [|left]|].
  apply wp_bind. unfold reconnectCall. apply wp_bind, wp_gets, wp_bind.
  eapply wp_mono; [by apply wp_sendWS|]. intros r c2 H2. apply wp_ret, wp_ret.
  pose proof (reconnect_same _ _ _ n H2) as H3. split; [by etrans|]. left. by apply (wf_ready _ _ _ H3).
Qed.

(** What a step of the reader may come to. *)
Definition reader_out (st : ws_reader) (c : calls_client) (st' : ws_reader) (c' : calls_client) : Prop :=
  (same c c' ∧
    ((st' = st ∧ st ≠ RdCloseDone) ∨ (st = RdLeave ∧ st' = RdCloseDone) ∨
     (st = RdLoop ∧ st' = RdLeave ∧ lc_wsCloseCh (cc_life c) = true))) ∨
  (st = RdLoop ∧ st' = RdLeave ∧ ∃ c1, same c c1 ∧ closed_frame c1 c') ∨
  (st = RdCloseDone ∧ st' = RdEnd ∧ c' = upd_life (put_chans (lc_wsCloseCh (cc_life c)) true) c).

Lemma close_out c c1 :
  ready (cc_sig c) → screen_ok c → same c c1 →
  wlp (close_client on_event visit ;; mret RdLeave) (λ st' c', reader_out RdLoop c st' c') c1.
Proof.
  intros Hr Hs H. apply wlp_bind.
  eapply wlp_mono; [apply close_client_wlp; by apply H|]. intros ? c2 H2. apply wlp_ret. right; left.
  split_and!; [done..|]. by exists c1.
Qed.

Lemma loop_out c c' : same c c' → reader_out RdLoop c RdLoop c'.
Proof. intros H. left. split; [done|by left]. Qed.

Lemma reconnect_out now jitter dial c c1 :
  dial_ok dial → ready (cc_sig c) → screen_ok c → same c c1 →
  wlp (reconnect on_event visit now jitter dial) (λ st' c', reader_out RdLoop c st' c') c1.
Proof.
  intros Hd Hr Hs H. unfold reconnect. apply wlp_bind.
  eapply wlp_mono; [apply wp_wlp, (wp_emit_told _ Hu); by apply H|]. intros ? c2 H2%told_same.
  assert (same c c2) as Hc2 by (by etrans). apply wlp_bind. intros l ? [= <- <-]. wlp_branch.
  - apply wlp_bind. eapply wlp_mono; [apply wp_wlp, (wp_emit_told _ Hu); by apply Hc2|]. intros ? c3 H3%told_same.
    apply close_out; [done..|]. by etrans.
  - apply wlp_bind. intros ? ? [= <- <-]. apply wlp_bind.
    assert (∀ i t, same c (upd_life (put_reconnect i t) c2)) as H3 by (intros; etrans; [exact Hc2|apply life_ws_frame]).
    eapply wlp_mono; [by apply wp_wlp, wsOpen_wp|]. intros ? c4 [H4 _]. apply wlp_ret, loop_out.
    etrans; [apply H3|exact H4].
Qed.

Lemma handled_out m c c1 :
  ready (cc_sig c) → screen_ok c → ice_ok (cc_med c) → join_ok c → same c c1 →
  wlp (handled_msg on_event arch visit m) (λ st' c', reader_out RdLoop c st' c') c1.
Proof.
  intros Hr Hs Hi Hj H. unfold handled_msg. apply wlp_bind.
  eapply wlp_mono; [apply (handleWSMsg_ws _ Hu); by apply H|]. intros [[]|e] c2 H2%true_weaken;
    assert (same c c2) as Hc2 by (by etrans).
  - by apply wlp_ret, loop_out.
  - wlp_branch; [by apply close_out|]. apply wlp_bind.
    eapply wlp_mono; [apply wp_wlp, (wp_emit_told _ Hu); by apply Hc2|]. intros ? c3 H3%told_same. apply wlp_ret, loop_out.
    by etrans.
Qed.

Lemma reader_step_out ch st c :
  match ch with RcMessage _ _ dial => dial_ok dial | _ => True end →
  (st ≠ RdNone → ready (cc_sig c)) → screen_ok c → ice_ok (cc_med c) → join_ok c →
  wlp (wsReader_step on_event arch visit ch st) (λ st' c', reader_out st c st' c') c.
Proof.
  intros Hd Hr Hs Hi Hj. destruct st; cbn [wsReader_step].
  - apply wlp_ret. left. split; [done|by left].
  - specialize (Hr ltac:(done)). destruct ch as [now jitter dial| |].
    + unfold read_ws. intros st' c'. destruct (sg_ws (cc_sig c)) as [w|] eqn:Hw; [|done].
      destruct Hr as (w' & Hw' & Ho). assert (w' = w) as -> by congruence. cbn [mbind option_bind].
      assert (ready (cc_sig c)) as Hr by (by exists w).
      destruct (recv (wc_receiveCh w)) as [[m ch]|[]].
      * apply (handled_out m c); [done..|]. by apply socket_same.
      * by apply (reconnect_out now jitter dial c).
      * intros [= <- <-]. by apply loop_out.
    + unfold read_err. intros st' c'. destruct (sg_ws (cc_sig c)) as [w|] eqn:Hw; [|done].
      destruct Hr as (w' & Hw' & Ho). assert (w' = w) as -> by congruence. cbn [mbind option_bind].
      destruct (recv (wc_errorCh w)) as [[e ch]|b]; intros [= <- <-]; apply loop_out; [|done].
      by apply socket_same.
    + apply wlp_bind. intros b ? [= <- <-]. apply wlp_ret.
      destruct (lc_wsCloseCh (cc_life c)) eqn:Hc; [|by apply loop_out]. left. split; [done|]. by right; right.
  - apply wlp_bind, wlp_bind. eapply wlp_mono; [apply wp_wlp, wp_sendWS; by apply Hr|]. intros r c1 H1.
    apply wlp_ret, wlp_ret. left. split; [by apply leave_same|]. by right; left.
  - apply wlp_bind. intros a s. unfold close_wsDoneCh. destruct (lc_wsDoneCh (cc_life c)); [done|].
    intros [= <- <-]. apply wlp_ret. by right; right.
  - apply wlp_ret. left. split; [done|by left].
Qed.


(** ** The invariant is kept *)
Lemma life_same l l' rd cls :
  lc_state l' = lc_state l → lc_wsCloseCh l' = lc_wsCloseCh l → lc_wsDoneCh l' = lc_wsDoneCh l →
  life_ok l rd cls → life_ok l' rd cls.
Proof. intros E1 E2 E3 []. split; rewrite ?E1, ?E2, ?E3; try done. Qed.

(** The reader leaves its loop. *)
Lemma life_leaving l l' rd rd' cls :
  life_ok l rd cls → rd = RdLoop ∧ rd' = RdLeave ∨ rd = RdLeave ∧ rd' = RdCloseDone →
  lc_state l' = lc_state l ∨ lc_state l' = clientStateClosed →
  lc_wsCloseCh l' = lc_wsCloseCh l → lc_wsDoneCh l' = lc_wsDoneCh l → life_ok l' rd' cls.
Proof.
  intros [H1 H2 H3 H4 H5 H6 H7 H8] Hrd Hst E2 E3.
  assert (rd' ≠ RdEnd ∧ rd ≠ RdEnd ∧ rd ≠ RdNone ∧ rd' ≠ RdLoop) as (? & ? & ? & ?) by naive_solver.
  split; rewrite ?E2, ?E3; try done.
  - by rewrite H1, !bool_decide_false.
  - intros E. destruct Hst as [E'|E']; [|congruence]. assert (rd = RdNone) by (apply H2; congruence). congruence.
  - intros [E|E]; apply H3; destruct Hst; first [left; congruence|right; congruence|congruence].
  - intros k st Hk Hst'. exfalso. by apply (H7 k st) in Hk.
Qed.

(** The reader ends. *)
Lemma life_end l cls :
  life_ok l RdCloseDone cls → lc_wsDoneCh l = false ∧ life_ok (put_chans (lc_wsCloseCh l) true l) RdEnd cls.
Proof.
  intros [H1 H2 H3 H4 H5 H6 H7 H8]. split; [by rewrite H1, bool_decide_false|]. split; cbn; try done.
  intros E. by apply H2 in E.
Qed.

(** One [Close] moves. *)
Lemma lookup_insert_case {A} (l : list A) k x j y :
  k < length l → <[k := x]> l !! j = Some y ↔ (j = k ∧ y = x) ∨ (j ≠ k ∧ l !! j = Some y).
Proof.
  intros Hk. destruct (decide (k = j)) as [<-|Hne].
  - rewrite list_lookup_insert_eq by done. naive_solver.
  - rewrite list_lookup_insert_ne by done. naive_solver.
Qed.

(** From a stage inside to the next one, with what the stage needs. *)
Lemma life_close l l' rd cls k st st' :
  life_ok l rd cls → cls !! k = Some st → inside st = true →
  (lc_state l' = lc_state l ∨ rd = RdEnd ∧ lc_state l' = clientStateClosed) → lc_wsDoneCh l' = lc_wsDoneCh l →
  st' ≠ CzStart → st' ≠ CzCloseCh → lc_wsCloseCh l' = true →
  (st' = CzSocket ∨ st' = CzClose → rd = RdEnd) → life_ok l' rd (<[k := st']> cls).
Proof.
  intros [H1 H2 H3 H4 H5 H6 H7 H8] Hk Hin Hst Hd Hn1 Hn2 Hc Ha.
  assert (k < length cls) as Hlt by by eapply lookup_lt_Some.
  assert (lc_state l ≠ clientStateNew ∧ lc_state l ≠ clientStateInit) as [Hnew Hini].
  { split; intros E; [destruct (H3 (or_introl E)) as [_ H]|destruct (H3 (or_intror E)) as [_ H]];
      specialize (H k st Hk); congruence. }
  split.
  - by rewrite Hd.
  - intros E. destruct Hst as [E'|[_ E']]; congruence.
  - intros [E|E]; destruct Hst as [E'|[_ E']]; congruence.
  - intros i j s t. rewrite !lookup_insert_case by done.
    intros [[-> ->]|[Hi Hs]] [[-> ->]|[Hj Ht]] Hs' Ht'; [done|by apply (H4 k j st t)|by apply (H4 i k s st)|
      by apply (H4 i j s t)].
  - intros j. rewrite lookup_insert_case by done. intros [[-> E]|[Hj Ht]]; [congruence|].
    exfalso. apply Hj. by apply (H4 j k CzCloseCh st).
  - done.
  - intros j t. rewrite lookup_insert_case by done. intros [[-> ->]|[Hj Ht]]; [done|by apply (H7 j t)].
  - intros E. destruct Hst as [E'|[E' _]]; [rewrite E'; by apply H8|congruence].
Qed.

(** A [Close] passes its guard. *)
Lemma life_enter l rd cls k :
  life_ok l rd cls → cls !! k = Some CzStart → lc_state l = clientStateInit →
  life_ok (put_state clientStateClosing l) rd (<[k := CzCloseCh]> cls).
Proof.
  intros [H1 H2 H3 H4 H5 H6 H7 H8] Hk Hst. assert (k < length cls) as Hlt by by eapply lookup_lt_Some.
  destruct (H3 (or_intror Hst)) as [Hc Hno].
  assert (∀ j t, cls !! j = Some t → inside t = true → False) as Hno'.
  { intros j t Hj Ht. specialize (Hno j t Hj). congruence. }
  split; cbn; try done.
  - by intros [|].
  - intros i j s t. rewrite !lookup_insert_case by done.
    intros [[-> ->]|[Hi Hs]] [[-> ->]|[Hj Ht]] Hs' Ht'; [done|exfalso; eauto..].
  - intros j t. rewrite lookup_insert_case by done. intros [[-> ->]|[Hj Ht]] Hin; [by destruct Hin as [|[|]]|].
    exfalso. eapply Hno'; [done|]. by destruct Hin as [->|[->| ->]].
  - intros j t. rewrite lookup_insert_case by done. intros [[-> ->]|[Hj Ht]] Hin; [by destruct Hin|].
    exfalso. eapply Hno'; [done|]. by destruct Hin as [->| ->].
Qed.

(** A [Close] that is refused, or one that starts. *)
Lemma life_refused l rd cls k e :
  life_ok l rd cls → cls !! k = Some CzStart → life_ok l rd (<[k := CzRet (Err e)]> cls).
Proof.
  intros [H1 H2 H3 H4 H5 H6 H7 H8] Hk. assert (k < length cls) as Hlt by by eapply lookup_lt_Some.
  split; try done.
  - intros Hst. destruct (H3 Hst) as [Hc Hno]. split; [done|]. intros j t. rewrite lookup_insert_case by done.
    intros [[-> ->]|[Hj Ht]]; [done|by eapply Hno].
  - intros i j s t. rewrite !lookup_insert_case by done.
    intros [[-> ->]|[Hi Hs]] [[-> ->]|[Hj Ht]] Hs' Ht'; try done. by apply (H4 i j s t).
  - intros j. rewrite lookup_insert_case by done. intros [[-> E]|[Hj Ht]]; [done|by eapply H5].
  - intros j t. rewrite lookup_insert_case by done. intros [[-> ->]|[Hj Ht]] Hin; [by destruct Hin as [|[|]]|by eapply H6].
  - intros j t. rewrite lookup_insert_case by done. intros [[-> ->]|[Hj Ht]] Hin; [by destruct Hin|by eapply H7].
Qed.

Lemma life_called l rd cls : life_ok l rd cls → life_ok l rd (cls ++ [CzStart]).
Proof.
  intros [H1 H2 H3 H4 H5 H6 H7 H8].
  assert (∀ k st, (cls ++ [CzStart]) !! k = Some st → st = CzStart ∨ cls !! k = Some st) as Hl.
  { intros k st [H|[_ H]]%lookup_app_Some; [by right|]. left.
    destruct (k - length cls) as [|n]; [by injection H|done]. }
  split; try done.
  - intros Hst. destruct (H3 Hst) as [Hc Hno]. split; [done|]. intros k st [->|Hk]%Hl; [done|by eapply Hno].
  - intros i j s t [->|Hi]%Hl [->|Hj]%Hl Hs Ht; try done. by apply (H4 i j s t).
  - intros k [H|Hk]%Hl; [done|by eapply H5].
  - intros k st [->|Hk]%Hl Hin; [by destruct Hin as [|[|]]|by eapply H6].
  - intros k st [->|Hk]%Hl Hin; [by destruct Hin|by eapply H7].
Qed.

(** A step that does not touch the state. *)
Lemma sys_moved s c' rd' cls' :
  sys_ok s → same (cl_client s) c' → (rd' ≠ RdNone ∨ is_Some (sg_ws (cc_sig c')) → ready (cc_sig c')) →
  life_ok (cc_life c') rd' cls' →
  sys_ok {| cl_client := c'; cl_reader := rd'; cl_closes := cls' |}.
Proof.
  intros [] H Hr Hl. split; cbn; try done; try by apply H.
  - by rewrite (wf_cfg _ _ _ H).
  - rewrite (wf_state _ _ _ H). intros Hst. by apply H, so_running0.
Qed.

(** A step that sets the state and nothing else. *)
Lemma sys_stated s f rd' cls' :
  sys_ok s → let l := f (cc_life (cl_client s)) in
  (lc_state l ≠ clientStateClosed → lc_state (cc_life (cl_client s)) ≠ clientStateClosed) →
  (rd' ≠ RdNone → cl_reader s ≠ RdNone) → life_ok l rd' cls' →
  sys_ok {| cl_client := upd_life f (cl_client s); cl_reader := rd'; cl_closes := cls' |}.
Proof.
  intros [] l Hst Hrd Hl. split; cbn; try done.
  - intros [H|H]; apply so_ready0; [left; by apply Hrd|by right].
  - by apply (join_ok_extend (cl_client s) _ [] so_join0); [done..|rewrite app_nil_r|].
  - intros H. by apply so_running0, Hst.
Qed.

(** A step that ends in [close]. *)
Lemma sys_closed s c1 c' rd' cls' :
  sys_ok s → ready (cc_sig (cl_client s)) → same (cl_client s) c1 → closed_frame c1 c' →
  life_ok (cc_life c') rd' cls' → sys_ok {| cl_client := c'; cl_reader := rd'; cl_closes := cls' |}.
Proof.
  intros [] Hr H H' Hl. split; cbn; try done.
  - by rewrite (xf_cfg _ _ H'), (wf_cfg _ _ _ H).
  - intros _. by apply H', H.
  - by apply H', H.
  - by apply H', H.
  - by apply H', H.
  - by apply H', H.
  - by rewrite (xf_state _ _ H').
Qed.

Lemma life_moved c c' rd cls : same c c' → life_ok (cc_life c) rd cls → life_ok (cc_life c') rd cls.
Proof. intros H. by apply life_same; apply H. Qed.

Lemma sys_same s c' :
  sys_ok s → ready (cc_sig (cl_client s)) → same (cl_client s) c' →
  sys_ok {| cl_client := c'; cl_reader := cl_reader s; cl_closes := cl_closes s |}.
Proof.
  intros Hs Hr H. apply (sys_moved s); [done..| |].
  - intros _. by apply H.
  - eapply life_moved; [exact H|]. apply Hs.
Qed.

Lemma reader_sys s st' c' :
  sys_ok s → cl_reader s ≠ RdNone → reader_out (cl_reader s) (cl_client s) st' c' →
  sys_ok {| cl_client := c'; cl_reader := st'; cl_closes := cl_closes s |}.
Proof.
  intros Hs Hrd H. pose proof (so_ready _ Hs (or_introl Hrd)) as Hr. pose proof (so_life _ Hs) as Hl.
  destruct H as [[H Hst]|[(E & -> & c1 & H & H')|(E & -> & ->)]].
  - apply (sys_moved s); [done..|intros _; by apply H|].
    destruct Hst as [[-> _]|[[E ->]|(E & -> & _)]].
    + by apply (life_moved (cl_client s)).
    + apply (life_leaving (cc_life (cl_client s)) _ (cl_reader s)); [done|by right|left|..]; apply H.
    + apply (life_leaving (cc_life (cl_client s)) _ (cl_reader s)); [done|by left|left|..]; apply H.
  - apply (sys_closed s c1); [done..|].
    apply (life_leaving (cc_life (cl_client s)) _ (cl_reader s)); [done|by left|right; apply H'|..].
    + by rewrite (xf_closeCh _ _ H'), (wf_closeCh _ _ _ H).
    + by rewrite (xf_doneCh _ _ H'), (wf_doneCh _ _ _ H).
  - rewrite E in Hl. apply (sys_stated s); [done|by destruct (cc_life (cl_client s))|done|]. by apply life_end.
Qed.

Lemma connect_sys s dial st c' :
  sys_ok s → dial_ok dial → Connect dial (cl_client s) = Some (st, c') →
  sys_ok {| cl_client := c'; cl_reader := match st with Ok st => st | Err _ => cl_reader s end; cl_closes := cl_closes s |}.
Proof.
  intros Hs Hd. assert (wlp (Connect dial) (λ st c', sys_ok {| cl_client := c';
    cl_reader := match st with Ok st => st | Err _ => cl_reader s end; cl_closes := cl_closes s |}) (cl_client s)) as H;
    [|by apply H].
  unfold Connect. apply wlp_bind. intros l ? [= <- <-].
  destruct (bool_decide_reflect (lc_state (cc_life (cl_client s)) = clientStateNew)) as [Hn|]; cbn [negb].
  2: { apply wlp_ret. by destruct s. }
  pose proof (so_life _ Hs) as Hl. pose proof (lk_new _ _ _ Hl Hn) as Hrd.
  set (c1 := upd_life (put_state clientStateInit) (cl_client s)).
  assert (∀ rd, rd = RdNone ∨ rd = RdLoop →
    life_ok (put_state clientStateInit (cc_life (cl_client s))) rd (cl_closes s)) as Hl1.
  { destruct Hl as [H1 H2 H3 H4 H5 H6 H7 H8]. intros rd Hrd'. rewrite Hrd in *.
    split; cbn; [rewrite H1; by destruct Hrd' as [-> | ->]|done|by intros _; apply H3; left|done..| |done].
    intros k st0 Hk Hst. by apply (H7 k st0 Hk) in Hst. }
  assert (sys_ok {| cl_client := c1; cl_reader := RdNone; cl_closes := cl_closes s |}) as Hs1.
  { apply (sys_stated s); [done| |done|by apply Hl1; left]. intros _ E. congruence. }
  apply wlp_bind. intros [] ? [= <-]. apply wlp_bind.
  eapply wlp_mono; [by apply wp_wlp, wsOpen_wp|]. intros r c2 [H2 Hr2]. rewrite Hrd.
  assert (∀ rd, rd = RdNone ∨ rd = RdLoop → life_ok (cc_life c2) rd (cl_closes s)) as Hl2
    by (intros rd Hrd'; by apply (life_moved c1); [|apply Hl1]).
  destruct r as [[]|e]; apply wlp_ret; apply (sys_moved {| cl_client := c1; cl_reader := RdNone; cl_closes := cl_closes s |});
    try done; try (apply Hl2; auto; fail).
  - intros _. by destruct Hr2 as [|[_ ?]].
  - destruct Hr2 as [|[-> _]]; [done|]. intros [?|Hw]; [done|]. apply (so_ready _ Hs1). by right.
Qed.

(** A stage of [Close] that changes no state. *)
Lemma close_stays s k st st' :
  sys_ok s → cl_closes s !! k = Some st → inside st = true → st' ≠ CzStart → st' ≠ CzCloseCh →
  lc_wsCloseCh (cc_life (cl_client s)) = true → (st' = CzSocket ∨ st' = CzClose → cl_reader s = RdEnd) →
  sys_ok {| cl_client := cl_client s; cl_reader := cl_reader s; cl_closes := <[k := st']> (cl_closes s) |}.
Proof.
  intros Hs Hk Hin H1 H2 Hc Ha. apply (sys_moved s); [done..|by apply Hs|].
  eapply life_close; [apply Hs|exact Hk|done|by left|done..].
Qed.

Lemma close_sys s k closed st :
  sys_ok s → cl_closes s !! k = Some st →
  wlp (Close_step on_event visit closed st)
    (λ st' c', sys_ok {| cl_client := c'; cl_reader := cl_reader s; cl_closes := <[k := st']> (cl_closes s) |})
    (cl_client s).
Proof.
  intros Hs Hk. pose proof (so_life _ Hs) as Hl. destruct st; cbn [Close_step].
  - apply wlp_bind. intros l ? [= <- <-].
    destruct (bool_decide_reflect (lc_state (cc_life (cl_client s)) = clientStateInit)) as [Hi|]; cbn [negb].
    + apply wlp_bind. intros [] ? [= <-]. apply wlp_ret.
      apply (sys_stated s); [done|intros _; congruence|done|by apply life_enter].
    + apply wlp_ret, (sys_moved s); [done..|by apply Hs|by apply life_refused].
  - pose proof (lk_before _ _ _ Hl k Hk) as Hc. apply wlp_bind. unfold close_wsCloseCh. intros [] c'. rewrite Hc.
    intros [= <-]. apply wlp_ret. apply (sys_stated s); [done..|].
    eapply life_close; [done|exact Hk|done|by left|done..|by intros []].
  - pose proof (lk_closing _ _ _ Hl k CzWait Hk (or_introl eq_refl)) as Hc. apply wlp_bind. intros b ? [= <- <-].
    apply wlp_ret. destruct (lc_wsDoneCh (cc_life (cl_client s))) eqn:Hd.
    + apply (close_stays s k CzWait); [done..|]. intros _. by rewrite (lk_done _ _ _ Hl), bool_decide_eq_true in Hd.
    + apply (close_stays s k CzWait); [done..|]. by intros [].
  - pose proof (lk_closing _ _ _ Hl k CzSocket Hk (or_intror (or_introl eq_refl))) as Hc. intros st' c'.
    destruct (sg_ws (cc_sig (cl_client s))); [|done]. intros [= <- <-].
    apply (close_stays s k CzSocket); [done..|by destruct closed|by destruct closed|done|].
    intros _. by apply (lk_after _ _ _ Hl k CzSocket Hk); left.
  - pose proof (lk_closing _ _ _ Hl k CzClose Hk (or_intror (or_intror eq_refl))) as Hc.
    pose proof (lk_after _ _ _ Hl k CzClose Hk (or_intror eq_refl)) as Hrd.
    assert (ready (cc_sig (cl_client s))) as Hr by (apply Hs; left; by rewrite Hrd).
    apply wlp_bind. eapply wlp_mono; [apply close_client_wlp; [done|by apply Hs]|]. intros ? c' H'. apply wlp_ret.
    apply (sys_closed s (cl_client s)); [done..|].
    eapply life_close; [done|exact Hk|done|right; split; [done|by apply H']|apply H'|done..| |by intros []].
    by rewrite (xf_closeCh _ _ H').
  - apply wlp_ret. rewrite list_insert_id by done. by destruct s.
Qed.

(** A subscriber is called, and a [Close] may be. *)
Lemma emit_sys s e x :
  sys_ok s → is_Some (sg_ws (cc_sig (cl_client s))) →
  wp (emit on_event e x)
    (λ _ c', ∀ b : bool, sys_ok {| cl_client := c'; cl_reader := cl_reader s;
                                   cl_closes := cl_closes s ++ (if b then [CzStart] else []) |}) (cl_client s).
Proof.
  intros Hs Hw. assert (ready (cc_sig (cl_client s))) as Hr by (apply Hs; by right).
  eapply wp_mono; [apply (wp_emit_told _ Hu); [done|by apply Hs]|]. intros ? c' H%told_same b.
  apply (sys_moved s); [done..|intros _; by apply H|].
  assert (life_ok (cc_life c') (cl_reader s) (cl_closes s)) by (eapply life_moved; [exact H|by apply Hs]).
  destruct b; [by apply life_called|by rewrite app_nil_r].
Qed.

Lemma ice_sys s st :
  sys_ok s → is_Some (sg_ws (cc_sig (cl_client s))) →
  wp (onICEConnectionStateChange on_event st)
    (λ (b : bool) c', sys_ok {| cl_client := c'; cl_reader := cl_reader s;
                                cl_closes := cl_closes s ++ (if b then [CzStart] else []) |}) (cl_client s).
Proof.
  intros Hs Hw. destruct st; cbn [onICEConnectionStateChange].
  1: { apply wp_bind. eapply wp_mono; [by apply emit_sys|]. intros ? c' H. apply wp_ret, (H false). }
  1,4: apply wp_ret; rewrite app_nil_r; by destruct s.
  all: apply wp_bind; eapply wp_mono; [by apply emit_sys|]; intros ? c' H; apply wp_bind, wp_gets, wp_ret, H.
Qed.

Lemma On_sys s e :
  sys_ok s → wp (On e)
    (λ _ c', sys_ok {| cl_client := c'; cl_reader := cl_reader s; cl_closes := cl_closes s |}) (cl_client s).
Proof.
  intros Hs. assert (sys_ok {| cl_client := cl_client s; cl_reader := cl_reader s; cl_closes := cl_closes s |}) as Hs'
    by (by destruct s).
  unfold On. branch; [by apply wp_ret|]. apply wp_bind, wp_gets. branch; [by apply wp_ret|].
  apply wp_bind, wp_modify, wp_ret, (sys_moved s); [done| |by apply Hs|by apply Hs].
  split; try done; [set_solver|by exists []; rewrite app_nil_r|].
  intros Hj. by apply (join_ok_extend (cl_client s) _ [] Hj); [done..|rewrite app_nil_r|].
Qed.

Lemma media_sys s op :
  sys_ok s → allowed (LvMedia op) s →
  wp (media_step on_event op)
    (λ _ c', sys_ok {| cl_client := c'; cl_reader := cl_reader s; cl_closes := cl_closes s |}) (cl_client s).
Proof.
  intros Hs Ha.
  assert (∀ c', ready (cc_sig (cl_client s)) → media_frame (cl_client s) c' →
    sys_ok {| cl_client := c'; cl_reader := cl_reader s; cl_closes := cl_closes s |}) as Hend.
  { intros c' Hr H. by apply (sys_same s), media_ws_frame. }
  assert (is_Some (sg_ws (cc_sig (cl_client s))) ∧ is_Some (md_pc (cc_med (cl_client s))) →
    wp (media_step on_event op)
      (λ _ c', sys_ok {| cl_client := c'; cl_reader := cl_reader s; cl_closes := cl_closes s |}) (cl_client s)) as Hpc.
  { intros [Hw Hp]. assert (ready (cc_sig (cl_client s))) as Hr by (apply Hs; by right).
    eapply wp_mono; [apply media_step_frame; [done|done|by apply Hs|done|by apply Hs]|]. intros ? c'. by apply Hend. }
  destruct op as [| | | | | | |op|]; try done; try by apply Hpc.
  assert ((∃ e, op = OpOn e) ∨ is_Some (sg_ws (cc_sig (cl_client s)))) as [[e ->]|Hw]
    by (destruct op; [by left; eexists|by right..]).
  - apply wp_bind. eapply wp_mono; [by apply On_sys|]. intros ? c' H. by apply wp_ret.
  - assert (ready (cc_sig (cl_client s))) as Hr by (apply Hs; by right).
    eapply wp_mono; [apply api_step_kept; [done|by apply Hs]|]. intros ? c' [H Hk]. by apply Hend, api_media_frame.
Qed.

Lemma wp_some {A} (m : go calls_client A) (Q : A → calls_client → Prop) c a c' : wp m Q c → m c = Some (a, c') → Q a c'.
Proof. intros H E. unfold wp in H. by rewrite E in H. Qed.

Lemma step_sys ev s s' : sys_ok s → allowed ev s → cl_step on_event arch visit ev s = Some s' → sys_ok s'.
Proof.
  intros Hs Ha H. destruct ev as [dial|ch| |k closed|st|op|w]; cbn [cl_step] in H.
  - destruct (Connect dial (cl_client s)) as [[r c']|] eqn:E; [|done]. injection H as <-.
    by apply (connect_sys s dial r c').
  - destruct (wsReader_step _ _ _ _ _) as [[st c']|] eqn:E; [|done]. injection H as <-.
    destruct (decide (cl_reader s = RdNone)) as [Hn|Hn].
    { rewrite Hn in E. injection E as <- <-. rewrite <-Hn. by destruct s. }
    apply reader_sys; [done..|]. apply (reader_step_out ch (cl_reader s) (cl_client s)); [|by intros _; apply Hs; left| | | |done].
    + by destruct ch as [? ? [|]| |].
    + apply Hs.
    + apply Hs.
    + apply Hs.
  - injection H as <-. apply (sys_moved s); [done..|by apply Hs|]. by apply life_called, Hs.
  - destruct (cl_closes s !! k) as [st|] eqn:Hk; [|by injection H as <-].
    destruct (Close_step _ _ _ _ _) as [[st' c']|] eqn:E; [|done]. injection H as <-.
    by apply (close_sys s k closed st).
  - destruct (onICEConnectionStateChange _ _ _) as [[b c']|] eqn:E; [|done]. injection H as <-.
    exact (wp_some _ _ _ _ _ (ice_sys s st Hs Ha) E).
  - destruct (media_step _ _ _) as [[[] c']|] eqn:E; [|done]. injection H as <-.
    exact (wp_some _ _ _ _ _ (media_sys s op Hs Ha) E).
  - destruct (sg_ws (cc_sig (cl_client s))) as [w0|] eqn:Hw; [|by injection H as <-]. injection H as <-.
    apply sys_same; [done|apply Hs; right; by rewrite Hw|]. apply socket_same. intros _. by apply socket_open.
Qed.

Lemma reach_ok s : cl_reach s → sys_ok s.
Proof. induction 1; [apply life_initial_ok|by eapply step_sys]. Qed.

Lemma reach_step s ev s' :
  cl_reach s → allowed ev s → cl_step on_event arch visit ev s = Some s' → cl_reach s'.
Proof. apply path_step. Qed.

(** ** A [Close] that is let through *)

(** The reader, told to close. *)
Definition reader_leaves (rd : ws_reader) : ws_reader :=
  match rd with RdLoop => RdLeave | RdLeave => RdCloseDone | RdCloseDone | RdEnd => RdEnd | RdNone => RdNone end.

Lemma reader_closing s :
  cl_reach s → cl_reader s ≠ RdNone → lc_wsCloseCh (cc_life (cl_client s)) = true →
  ∃ c', cl_step on_event arch visit (LvReader RcClose) s =
      Some {| cl_client := c'; cl_reader := reader_leaves (cl_reader s); cl_closes := cl_closes s |} ∧
    lc_state (cc_life c') = lc_state (cc_life (cl_client s)) ∧ lc_wsCloseCh (cc_life c') = true ∧
    cc_handlers (cl_client s) ⊆ cc_handlers c'.
Proof.
  intros Hre Hrd Hc. pose proof (reach_ok s Hre) as Hs. pose proof (so_life _ Hs) as Hl.
  destruct (cl_reader s) eqn:E; [done|..]; cbn [cl_step]; rewrite E; cbn [wsReader_step reader_leaves].
  - exists (cl_client s). unfold mbind, go_bind, gets. rewrite Hc. by split_and!.
  - assert (wp (_ ← leaveCall; mret RdCloseDone) (λ st c', st = RdCloseDone ∧ same (cl_client s) c') (cl_client s)) as H.
    { apply wp_bind, wp_bind. eapply wp_mono; [apply wp_sendWS; apply Hs; left; by rewrite E|]. intros r c1 H1.
      apply wp_ret, wp_ret. split; [done|]. by apply leave_same. }
    apply wp_inv in H as (st & c' & -> & -> & H). exists c'.
    split_and!; [done|by rewrite (wf_state _ _ _ H)|by rewrite (wf_closeCh _ _ _ H)|apply H].
  - exists (upd_life (put_chans (lc_wsCloseCh (cc_life (cl_client s))) true) (cl_client s)).
    destruct (life_end _ _ Hl) as [Hd _].
    unfold close_wsDoneCh, mbind, go_bind. rewrite Hd. by split_and!.
  - exists (cl_client s). by split_and!.
Qed.

Lemma reader_ends s :
  cl_reach s → cl_reader s ≠ RdNone → lc_wsCloseCh (cc_life (cl_client s)) = true →
  ∃ c', cl_run on_event arch visit (replicate 3 (LvReader RcClose)) s =
      Some {| cl_client := c'; cl_reader := RdEnd; cl_closes := cl_closes s |} ∧
    cl_reach {| cl_client := c'; cl_reader := RdEnd; cl_closes := cl_closes s |} ∧
    lc_state (cc_life c') = lc_state (cc_life (cl_client s)) ∧ cc_handlers (cl_client s) ⊆ cc_handlers c'.
Proof.
  intros Hre Hrd Hc.
  destruct (reader_closing s) as (c1 & E1 & S1 & C1 & H1); [done..|].
  pose proof (reach_step _ (LvReader RcClose) _ Hre I E1) as R1.
  destruct (reader_closing _ R1) as (c2 & E2 & S2 & C2 & H2); [by destruct (cl_reader s)|done|].
  pose proof (reach_step _ (LvReader RcClose) _ R1 I E2) as R2.
  destruct (reader_closing _ R2) as (c3 & E3 & S3 & C3 & H3); [by destruct (cl_reader s)|done|].
  pose proof (reach_step _ (LvReader RcClose) _ R2 I E3) as R3. cbn [cl_client cl_reader cl_closes] in *.
  assert (reader_leaves (reader_leaves (reader_leaves (cl_reader s))) = RdEnd) as E by (by destruct (cl_reader s)).
  rewrite E in *. exists c3. split_and!; [|done|congruence|set_solver].
  cbn [replicate cl_run]. rewrite E1. cbn [mbind option_bind]. rewrite E2. cbn [mbind option_bind]. by rewrite E3.
Qed.

(** What is left of a [Close] once the reader has ended. *)
Lemma close_ends s k :
  cl_reach s → cl_reader s = RdEnd → cl_closes s !! k = Some CzWait → lc_state (cc_life (cl_client s)) = clientStateClosing →
  ∃ s', cl_run on_event arch visit (replicate 3 (LvClose k (Ok tt))) s = Some s' ∧
    cl_reader s' = RdEnd ∧ cl_closes s' !! k = Some (CzRet (Ok tt)) ∧
    lc_state (cc_life (cl_client s')) = clientStateClosed ∧
    (CloseEvent ∈ cc_handlers (cl_client s) → ∃ l l', cc_emitted (cl_client s') = l ++ (CloseEvent, CtxNil) :: l').
Proof.
  intros Hre Hrd Hk Hst. pose proof (reach_ok s Hre) as Hs.
  assert (ready (cc_sig (cl_client s))) as Hr by (apply Hs; left; by rewrite Hrd).
  assert (k < length (cl_closes s)) as Hlt by by eapply lookup_lt_Some.
  assert (wp (close_client on_event visit) (λ _ c', closed_frame (cl_client s) c') (cl_client s)) as H.
  { apply close_client_wp; [done|by apply Hs|]. apply Hs. by rewrite Hst. }
  apply wp_inv in H as ([] & c' & E & H).
  assert (lc_wsDoneCh (cc_life (cl_client s)) = true) as Hd
    by (rewrite (lk_done _ _ _ (so_life _ Hs)); by apply bool_decide_true).
  destruct Hr as (w & Hw & _).
  assert (∀ c' cls st st', cls !! k = Some st → Close_step on_event visit (Ok tt) st (cl_client s) = Some (st', c') →
    cl_step on_event arch visit (LvClose k (Ok tt)) {| cl_client := cl_client s; cl_reader := RdEnd; cl_closes := cls |} =
    Some {| cl_client := c'; cl_reader := RdEnd; cl_closes := <[k := st']> cls |}) as Hstep.
  { intros c1 cls st st' Hcls Hc. cbn [cl_step cl_closes cl_client]. by rewrite Hcls, Hc. }
  exists {| cl_client := c'; cl_reader := RdEnd; cl_closes := <[k := CzRet (Ok tt)]> (cl_closes s) |}.
  split; [|split_and!; [done|by apply list_lookup_insert_eq|by apply H..]].
  assert (s = {| cl_client := cl_client s; cl_reader := RdEnd; cl_closes := cl_closes s |}) as Es
    by (rewrite <-Hrd; by destruct s).
  rewrite Es at 1. cbn [replicate cl_run].
  rewrite (Hstep (cl_client s) _ CzWait CzSocket); [|done|].
  2: { cbn [Close_step]. unfold mbind, go_bind, gets. by rewrite Hd. }
  cbn [mbind option_bind].
  rewrite (Hstep (cl_client s) _ CzSocket CzClose); [|by apply list_lookup_insert_eq|].
  2: { cbn [Close_step]. by rewrite Hw. }
  cbn [mbind option_bind].
  rewrite (Hstep c' _ CzClose (CzRet (Ok tt))); [|apply list_lookup_insert_eq; by rewrite length_insert|].
  2: { cbn [Close_step]. unfold mbind, go_bind. by rewrite E. }
  cbn [mbind option_bind]. by rewrite !list_insert_insert_eq.
Qed.

(** A [Close] that is called, runs to its end. *)
Definition close_events (k : nat) : list cl_event :=
  replicate 2 (LvClose k (Ok tt)) ++ replicate 3 (LvReader RcClose) ++ replicate 3 (LvClose k (Ok tt)).

Lemma cl_run_app evs1 evs2 s :
  cl_run on_event arch visit (evs1 ++ evs2) s = s' ← cl_run on_event arch visit evs1 s; cl_run on_event arch visit evs2 s'.
Proof.
  revert s. induction evs1 as [|ev evs1 IH]; intros s; [done|]. cbn [app cl_run].
  destruct (cl_step _ _ _ ev s) as [s1|]; [|done]. apply IH.
Qed.

Lemma close_starts s k :
  cl_reach s → cl_closes s !! k = Some CzStart → lc_state (cc_life (cl_client s)) = clientStateInit →
  ∃ c', cl_run on_event arch visit (replicate 2 (LvClose k (Ok tt))) s =
      Some {| cl_client := c'; cl_reader := cl_reader s; cl_closes := <[k := CzWait]> (cl_closes s) |} ∧
    cl_reach {| cl_client := c'; cl_reader := cl_reader s; cl_closes := <[k := CzWait]> (cl_closes s) |} ∧
    c' = upd_life (λ l, put_chans true (lc_wsDoneCh l) (put_state clientStateClosing l)) (cl_client s).
Proof.
  intros Hre Hk Hst. pose proof (reach_ok s Hre) as Hs.
  assert (k < length (cl_closes s)) as Hlt by by eapply lookup_lt_Some.
  assert (lc_wsCloseCh (cc_life (cl_client s)) = false) as Hc by (apply (lk_idle _ _ _ (so_life _ Hs)); by right).
  set (c1 := upd_life (put_state clientStateClosing) (cl_client s)).
  assert (cl_step on_event arch visit (LvClose k (Ok tt)) s =
    Some {| cl_client := c1; cl_reader := cl_reader s; cl_closes := <[k := CzCloseCh]> (cl_closes s) |}) as E1.
  { cbn [cl_step]. rewrite Hk. cbn [Close_step]. unfold mbind, go_bind, gets. by rewrite bool_decide_true. }
  set (c2 := upd_life (λ l, put_chans true (lc_wsDoneCh l) (put_state clientStateClosing l)) (cl_client s)).
  assert (cl_step on_event arch visit (LvClose k (Ok tt))
      {| cl_client := c1; cl_reader := cl_reader s; cl_closes := <[k := CzCloseCh]> (cl_closes s) |} =
    Some {| cl_client := c2; cl_reader := cl_reader s; cl_closes := <[k := CzWait]> (cl_closes s) |}) as E2.
  { cbn [cl_step cl_closes]. rewrite list_lookup_insert_eq by done.
    cbn [Close_step cl_client]. unfold close_wsCloseCh, mbind, go_bind. cbn [c1 upd_life cc_life put_state lc_wsCloseCh].
    rewrite Hc. unfold mret, go_ret. cbn [option_bind]. by rewrite list_insert_insert_eq. }
  pose proof (reach_step _ (LvClose k (Ok tt)) _ Hre I E1) as R1.
  pose proof (reach_step _ (LvClose k (Ok tt)) _ R1 I E2) as R2.
  exists c2. split_and!; [|done|done]. cbn [replicate cl_run]. rewrite E1. cbn [mbind option_bind]. by rewrite E2.
Qed.

(** C25: A client that is connected can be closed: from any state its threads
    reach, a [Close] that is called returns without an error once the reader
    takes the channel it closes, the socket's client has closed, and no other
    end of the call came first; the client is then closed and its subscriber
    was told. *)
Theorem close_returns s k :
  cl_reach s → cl_closes s !! k = Some CzStart → lc_state (cc_life (cl_client s)) = clientStateInit →
  cl_reader s ≠ RdNone →
  ∃ s', cl_run on_event arch visit (close_events k) s = Some s' ∧ cl_reader s' = RdEnd ∧
    cl_closes s' !! k = Some (CzRet (Ok tt)) ∧ lc_state (cc_life (cl_client s')) = clientStateClosed ∧
    (CloseEvent ∈ cc_handlers (cl_client s) → ∃ l l', cc_emitted (cl_client s') = l ++ (CloseEvent, CtxNil) :: l').
Proof.
  intros Hre Hk Hst Hrd. assert (k < length (cl_closes s)) as Hlt by by eapply lookup_lt_Some.
  destruct (close_starts s k Hre Hk Hst) as (c2 & E2 & R2 & ->).
  destruct (reader_ends _ R2 Hrd eq_refl) as (c3 & E3 & R3 & S3 & H3).
  destruct (close_ends _ k R3) as (s' & E4 & Hr4 & Hk4 & S4 & H4); [done|by apply list_lookup_insert_eq|done|].
  exists s'. split_and!; [|done..|]. 2: { intros Hin. by apply H4, H3. }
  unfold close_events. rewrite cl_run_app, E2. cbn [mbind option_bind]. by rewrite cl_run_app, E3.
Qed.

(** C26: Whatever the server, the library and the user do, a client itself
    asks to join its call at most once, after the server's hello, for the
    channel and with the options of its configuration, the reconnections it
    asks for name the connection it joined with, and its requests are numbered
    in sequence, those the user makes with [SendWS] included.  What the user
    sends with [SendWS] is not looked at: it may be a join too
    ([user_joins_again]). *)
Theorem joins_once s :
  cl_reach s →
  length (List.filter is_join (sg_requests (cc_sig (cl_client s)))) ≤ 1 ∧
  Forall (λ r, rq_user r = false → rq_action r = wsEventJoin → rq_data r = join_data cfg) (sg_requests (cc_sig (cl_client s))) ∧
  Forall (λ r, rq_user r = false → rq_action r = wsEventReconnect →
      ∃ cur, rq_data r = CallReconnectMessage (cg_ChannelID cfg) (sg_original (cc_sig (cl_client s))) cur)
    (sg_requests (cc_sig (cl_client s))) ∧
  (sg_original (cc_sig (cl_client s)) = str0 →
    Forall (λ r, ¬ own_request r) (sg_requests (cc_sig (cl_client s)))) ∧
  numbered (cc_sig (cl_client s)).
Proof.
  intros Hs%reach_ok. pose proof (so_join _ Hs) as [H1 H2 H3 H4]. rewrite (so_cfg _ Hs) in *.
  split_and!; [done..|apply Hs].
Qed.

(** C28: In every state that the threads of a client reach, whatever the
    server sends, the library calls back and the user calls (its API,
    [SendWS], [Connect] and [Close]), the end of the call included, no
    candidate was given to the library before it knew the remote description.
    From such a state, as long as there is a connection, no sequence of
    signals of the server, of messages of the data channel, of callbacks of
    the library and of calls of the API crashes the client, and what is sent
    is what the user asked for, descriptions and candidates, numbered in
    sequence.  The end of a call and [Close] are threads besides these, and
    their race can crash the client ([end_race_panics]). *)
Theorem candidates_wait_for_description s :
  cl_reach s →
  (∀ x b, (x, b) ∈ md_added (cc_med (cl_client s)) → b = true) ∧
  (is_Some (sg_ws (cc_sig (cl_client s))) → is_Some (md_pc (cc_med (cl_client s))) →
   ∀ ops, ∃ c', media_run on_event ops (cl_client s) = Some (tt, c') ∧ numbered (cc_sig c') ∧
     (∀ x b, (x, b) ∈ md_added (cc_med c') → b = true) ∧
     ∃ l, sg_requests (cc_sig c') = sg_requests (cc_sig (cl_client s)) ++ l ∧ Forall media_action l).
Proof.
  intros Hs%reach_ok. split.
  - destruct (so_ice _ Hs) as [_ Hall]. intros x b Hx. rewrite Forall_forall in Hall. by apply (Hall (x, b)).
  - intros Hw Hp ops. assert (ready (cc_sig (cl_client s))) as Hr by (apply Hs; by right).
    apply media_run_safe; try done; apply Hs.
Qed.

(** At most one [Close] gets past its guard and has not returned, the
    others are refused; closing the channels, waiting and closing the socket
    never panic, in a [Close] as in the reader. *)
Theorem close_once s :
  cl_reach s →
  (∀ j k st st', cl_closes s !! j = Some st → cl_closes s !! k = Some st' → inside st = true → inside st' = true → j = k) ∧
  (∀ k st closed, cl_closes s !! k = Some st → st ≠ CzClose → is_Some (cl_step on_event arch visit (LvClose k closed) s)) ∧
  (∀ ch, cl_reader s ≠ RdLoop → is_Some (cl_step on_event arch visit (LvReader ch) s)).
Proof.
  intros Hs%reach_ok. pose proof (so_life _ Hs) as Hl. split_and!; [by apply Hl|..].
  - intros k st closed Hk Hst.
    enough (is_Some (Close_step on_event visit closed st (cl_client s))) as [[st' c'] E]
      by (cbn [cl_step]; rewrite Hk, E; by eexists).
    destruct st; cbn [Close_step]; try done; unfold mbind, go_bind, gets.
    + destruct (bool_decide (lc_state (cc_life (cl_client s)) = clientStateInit)); by eexists.
    + unfold close_wsCloseCh. rewrite (lk_before _ _ _ Hl k Hk). by eexists.
    + destruct (so_ready _ Hs) as (w & Hw & _); [left; by rewrite (lk_after _ _ _ Hl k CzSocket Hk (or_introl eq_refl))|].
      rewrite Hw. by eexists.
  - intros ch Hrd. enough (is_Some (wsReader_step on_event arch visit ch (cl_reader s) (cl_client s))) as [[st' c'] E]
      by (cbn [cl_step]; rewrite E; by eexists).
    destruct (cl_reader s) eqn:E; cbn [wsReader_step]; try done; try by eexists.
    + enough (wp (_ ← leaveCall; mret RdCloseDone) (λ _ _, True) (cl_client s)) as (a & c' & E' & _)%wp_inv by by eexists.
      apply wp_bind, wp_bind. eapply wp_mono; [apply wp_sendWS, Hs; left; by rewrite E|]. intros r c1 H1. by apply wp_ret, wp_ret.
    + destruct (life_end _ _ Hl) as [Hd _]. unfold close_wsDoneCh, mbind, go_bind. rewrite Hd. by eexists.
Qed.

(** ** A [Connect] that failed *)
Definition stuck (k : nat) (s : cl_sys) : Prop :=
  cl_reader s = RdNone ∧ lc_state (cc_life (cl_client s)) ≠ clientStateNew ∧ cl_closes s !! k = Some CzWait.

Lemma stuck_step k ev s s' :
  cl_reach s → allowed ev s → cl_step on_event arch visit ev s = Some s' → stuck k s → stuck k s'.
Proof.
  intros Hre Ha H (Hrd & Hst & Hk). pose proof (reach_ok _ (reach_step _ _ _ Hre Ha H)) as Hs'.
  pose proof (reach_ok s Hre) as Hs. pose proof (so_life _ Hs) as Hl.
  assert (cl_reader s' = RdNone ∧ cl_closes s' !! k = Some CzWait) as [? ?]; [|split_and!; [done| |done]].
  2: { intros E. destruct (lk_idle _ _ _ (so_life _ Hs') (or_introl E)) as [_ Hno]. by specialize (Hno k CzWait ltac:(done)). }
  destruct ev as [dial|ch| |j closed|st|op|w]; cbn [cl_step] in H.
  - unfold Connect, mbind at 2, go_bind, gets in H. rewrite bool_decide_false in H by done. by injection H as <-.
  - rewrite Hrd in H. by injection H as <-.
  - injection H as <-. split; [done|]. by apply lookup_app_l_Some.
  - destruct (cl_closes s !! j) as [st|] eqn:Hj; [|by injection H as <-].
    destruct (Close_step _ _ _ _ _) as [[st' c']|] eqn:E; [|done]. injection H as <-. split; [done|]. cbn.
    destruct (decide (j = k)) as [->|Hne]; [|by rewrite list_lookup_insert_ne].
    assert (st = CzWait) as -> by congruence. rewrite list_lookup_insert_eq by by eapply lookup_lt_Some.
    cbn [Close_step] in E. unfold mbind, go_bind, gets in E. rewrite (lk_done _ _ _ Hl), Hrd in E. by injection E as <-.
  - destruct (onICEConnectionStateChange _ _ _) as [[b c']|]; [|done]. injection H as <-. split; [done|].
    by apply lookup_app_l_Some.
  - destruct (media_step _ _ _) as [[[] c']|]; [|done]. by injection H as <-.
  - destruct (sg_ws (cc_sig (cl_client s))); by injection H as <-.
Qed.

Lemma stuck_path k s s' : cl_reach s → stuck k s → cl_path s s' → cl_reach s' ∧ stuck k s'.
Proof.
  intros Hre Hk. induction 1 as [|s1 ev s2 _ [IH1 IH2] Ha H]; [done|]. split; [by eapply reach_step|by eapply stuck_step].
Qed.

(** Steps that are always allowed. *)
Lemma run_reach s evs s' :
  cl_reach s → Forall (λ ev, ∀ s, allowed ev s) evs → cl_run on_event arch visit evs s = Some s' → cl_reach s'.
Proof.
  revert s. induction evs as [|ev evs IH]; intros s Hre Ha E; [by injection E as <-|]. cbn [cl_run] in E.
  apply Forall_cons in Ha as [Ha1 Ha2]. destruct (cl_step _ _ _ ev s) as [s0|] eqn:E0; [|done].
  apply (IH s0); [|done..]. by apply (reach_step s ev).
Qed.

(** When [Connect] fails to reach the server the reader is never started,
    yet the client counts as initialised: a [Close] is let through and then
    waits for the reader for ever, whatever happens next. *)
Theorem failed_connect_blocks_close e s1 s2 :
  cl_run on_event arch visit [LvConnect (Err e); LvCall; LvClose 0 (Ok tt); LvClose 0 (Ok tt)] (cl_initial cfg r0) = Some s1 →
  cl_path s1 s2 → cl_reader s2 = RdNone ∧ cl_closes s2 !! 0 = Some CzWait.
Proof.
  intros H Hp. assert (cl_reach s1) as Hre by (apply (run_reach _ _ _ (path_refl _)) in H; [done|by repeat constructor]).
  injection H as H.
  destruct (stuck_path 0 s1 s2 Hre) as [_ (H1 & _ & H2)]; [by rewrite <-H|done|done].
Qed.

(** ** Giving up on a server that is gone *)

(** A look at the socket's channel when it is closed, with the clock and the
    random part of the delay; the server cannot be reached. *)
Definition attempt (e : error) (x : Z * Z) : cl_event := LvReader (RcMessage x.1 x.2 (Err e)).

(** Attempts are made in turn, each after the delay of the one before. *)
Fixpoint paced (t interval : Z) (l : list (Z * Z)) : Prop :=
  match l with
  | [] => True
  | (now, j) :: l =>
      (t + interval ≤ now ∧ 0 ≤ j < wsReconnectRetryIntervalJitter)%Z ∧
      paced now (interval + wsMinReconnectRetryInterval + j) l
  end.

(** The socket is gone: its channel is closed and empty. *)
Definition gone (c : calls_client) : Prop := ∃ w, sg_ws (cc_sig c) = Some w ∧ recv (wc_receiveCh w) = inr true.

Section silent.
  Context (Hq : ∀ e x c, on_event e x c = Some (tt, c)).

Definition logged (e : string) (x : event_ctx) (c : calls_client) : calls_client :=
  if bool_decide (e ∈ cc_handlers c) then log_event e x c else c.

Lemma emit_silent e x c : emit on_event e x c = Some (tt, logged e x c).
Proof.
  unfold emit, logged, mbind, go_bind, gets, when.
  destruct (bool_decide (e ∈ cc_handlers c)); [|done]. unfold modify. by rewrite Hq.
Qed.

Lemma bind_run {A B} (m : go calls_client A) (f : A → go calls_client B) c a c' :
  m c = Some (a, c') → (m ≫= f) c = f a c'.
Proof. intros H. unfold mbind, go_bind. by rewrite H. Qed.

Lemma logged_gone e x c : gone c → gone (logged e x c).
Proof. unfold logged. by destruct (bool_decide _). Qed.
Lemma logged_life e x c : cc_life (logged e x c) = cc_life c.
Proof. unfold logged. by destruct (bool_decide _). Qed.
Lemma logged_handlers e x c : cc_handlers (logged e x c) = cc_handlers c.
Proof. unfold logged. by destruct (bool_decide _). Qed.

Lemma attempt_step e now j s :
  cl_reader s = RdLoop → gone (cl_client s) →
  cl_step on_event arch visit (attempt e (now, j)) s =
    '(st, c) ← reconnect on_event visit now j (Err e) (cl_client s);
    Some {| cl_client := c; cl_reader := st; cl_closes := cl_closes s |}.
Proof.
  intros Hrd (w & Hw & Hc). unfold attempt. cbn [cl_step fst snd]. rewrite Hrd. cbn [wsReader_step]. unfold read_ws.
  rewrite Hw. cbn [mbind option_bind]. by rewrite Hc.
Qed.

(** Another attempt is made. *)
Lemma attempt_again e now j s :
  let l := cc_life (cl_client s) in
  cl_reader s = RdLoop → gone (cl_client s) →
  (lc_lastDisconnect l = zero_time ∨ now - lc_lastDisconnect l ≤ wsReconnectionTimeout)%Z →
  ∃ s', cl_step on_event arch visit (attempt e (now, j)) s = Some s' ∧ cl_reader s' = RdLoop ∧ gone (cl_client s') ∧
    cc_handlers (cl_client s') = cc_handlers (cl_client s) ∧
    cc_life (cl_client s') = put_reconnect (next_interval (lc_reconnectInterval l) j)
      (if bool_decide (lc_lastDisconnect l = zero_time) then now else lc_lastDisconnect l) l.
Proof.
  intros l Hrd Hg Ht. rewrite attempt_step by done. unfold reconnect.
  rewrite (bind_run _ _ _ _ _ (emit_silent _ _ _)), (bind_run (gets cc_life) _ _ _ _ eq_refl), logged_life. fold l.
  assert (negb (bool_decide (lc_lastDisconnect l = zero_time)) &&
    bool_decide (wsReconnectionTimeout < time_sub now (lc_lastDisconnect l))%Z = false) as ->.
  { destruct Ht as [Ht|Ht]; [by rewrite bool_decide_true|]. apply andb_false_iff. right. apply bool_decide_false.
    unfold time_sub, min_int64, max_int64, wsReconnectionTimeout, second in *. lia. }
  cbn. eexists. split; [done|]. cbn. rewrite logged_life, logged_handlers. split_and!; [done| |done|done].
  by apply (logged_gone WSDisconnectEvent CtxNil) in Hg.
Qed.

(** The client gives up. *)
Lemma attempt_last e now j s :
  let l := cc_life (cl_client s) in
  cl_reach s → cl_reader s = RdLoop → gone (cl_client s) → lc_lastDisconnect l ≠ zero_time →
  (wsReconnectionTimeout < now - lc_lastDisconnect l)%Z →
  ∃ s', cl_step on_event arch visit (attempt e (now, j)) s = Some s' ∧ cl_reader s' = RdLeave ∧
    lc_state (cc_life (cl_client s')) = clientStateClosed ∧
    (CloseEvent ∈ cc_handlers (cl_client s) → ∃ l l', cc_emitted (cl_client s') = l ++ (CloseEvent, CtxNil) :: l').
Proof.
  intros l Hre Hrd Hg Hz Ht. pose proof (reach_ok s Hre) as Hs.
  rewrite attempt_step by done. unfold reconnect.
  rewrite (bind_run _ _ _ _ _ (emit_silent _ _ _)), (bind_run (gets cc_life) _ _ _ _ eq_refl), logged_life. fold l.
  assert (negb (bool_decide (lc_lastDisconnect l = zero_time)) &&
    bool_decide (wsReconnectionTimeout < time_sub now (lc_lastDisconnect l))%Z = true) as ->.
  { rewrite bool_decide_false by done. apply bool_decide_true.
    unfold time_sub, min_int64, max_int64, wsReconnectionTimeout, second in *. lia. }
  rewrite (bind_run _ _ _ _ _ (emit_silent _ _ _)).
  set (c1 := logged ErrorEvent _ _).
  assert (ready (cc_sig c1) ∧ screen_ok c1 ∧ running (cc_med c1)) as (H1 & H2 & H3).
  { unfold c1, logged. destruct (bool_decide _), (bool_decide _); cbn; split_and!; try apply Hs; try (left; by rewrite Hrd);
      apply (lk_reading _ _ _ (so_life _ Hs) Hrd). }
  destruct (proj1 (wp_inv _ _ _) (close_client_wp c1 H1 H2 H3)) as ([] & c' & E & H). rewrite (bind_run _ _ _ _ _ E).
  eexists. split; [done|]. cbn. split_and!; [done|apply H|]. intros Hin. apply H. unfold c1. by rewrite !logged_handlers.
Qed.

(** [k] attempts failed since the connection was lost, the last one at [t]. *)
Record waiting (k : nat) (t : Z) (s : cl_sys) : Prop := {
  wt_reach : cl_reach s;
  wt_loop : cl_reader s = RdLoop;
  wt_gone : gone (cl_client s);
  wt_lost : lc_lastDisconnect (cc_life (cl_client s)) ≠ zero_time;
  wt_interval : (Z.of_nat k * wsMinReconnectRetryInterval ≤ lc_reconnectInterval (cc_life (cl_client s)) ≤
                 Z.of_nat k * (wsMinReconnectRetryInterval + wsReconnectRetryIntervalJitter))%Z;
  wt_elapsed : (Z.of_nat k * (Z.of_nat k - 1) * second ≤
                2 * (t - lc_lastDisconnect (cc_life (cl_client s))))%Z;
}.

(** What giving up comes to, after some of the attempts. *)
Definition given_up (e : error) (n : nat) (l : list (Z * Z)) (s : cl_sys) : Prop :=
  ∃ l1 x l2 s1 s2, l = l1 ++ x :: l2 ∧ length l1 ≤ n ∧
    cl_run on_event arch visit (attempt e <$> l1) s = Some s1 ∧ cl_reader s1 = RdLoop ∧
    cl_step on_event arch visit (attempt e x) s1 = Some s2 ∧ cl_reader s2 = RdLeave ∧
    lc_state (cc_life (cl_client s2)) = clientStateClosed ∧
    (CloseEvent ∈ cc_handlers (cl_client s) → ∃ l l', cc_emitted (cl_client s2) = l ++ (CloseEvent, CtxNil) :: l').

Lemma given_up_cons e n x l s s1 :
  cl_step on_event arch visit (attempt e x) s = Some s1 → cc_handlers (cl_client s1) = cc_handlers (cl_client s) →
  given_up e n l s1 → given_up e (S n) (x :: l) s.
Proof.
  intros E Hh (l1 & y & l2 & s2 & s3 & -> & Hn & E1 & Hr1 & E2 & Hr2 & Hst & Hc).
  exists (x :: l1), y, l2, s2, s3. split_and!; try done; [cbn; lia| |by rewrite <-Hh].
  cbn [fmap list_fmap cl_run]. rewrite E. exact E1.
Qed.

Lemma waiting_attempt e k t now j s :
  waiting k t s → k ≤ 8 → (t + lc_reconnectInterval (cc_life (cl_client s)) ≤ now)%Z →
  (0 ≤ j < wsReconnectRetryIntervalJitter)%Z →
  (∃ s', cl_step on_event arch visit (attempt e (now, j)) s = Some s' ∧
     cc_handlers (cl_client s') = cc_handlers (cl_client s) ∧ k ≤ 7 ∧ waiting (S k) now s' ∧
     lc_reconnectInterval (cc_life (cl_client s')) =
       (lc_reconnectInterval (cc_life (cl_client s)) + wsMinReconnectRetryInterval + j)%Z) ∨
  ∀ l, given_up e 0 ((now, j) :: l) s.
Proof.
  intros [Hre Hl Hg Hz Hi He] Hk Hnow Hj. unfold wsMinReconnectRetryInterval, wsReconnectRetryIntervalJitter,
    wsReconnectionTimeout, second, millisecond in *.
  destruct (decide (now - lc_lastDisconnect (cc_life (cl_client s)) ≤ wsReconnectionTimeout)%Z) as [Ht|Ht].
  - destruct (attempt_again e now j s Hl Hg (or_intror Ht)) as (s' & E & Hl' & Hg' & Hh & Hlife).
    left. exists s'. rewrite bool_decide_false in Hlife by done.
    assert (k ≤ 7) as Hk7 by (unfold wsReconnectionTimeout, second in Ht; destruct (decide (k = 8)) as [->|]; [lia|lia]).
    assert (lc_reconnectInterval (cc_life (cl_client s')) =
       (lc_reconnectInterval (cc_life (cl_client s)) + wsMinReconnectRetryInterval + j)%Z) as Hi'.
    { rewrite Hlife. cbn. unfold next_interval, wsMinReconnectRetryInterval, second. rewrite wrap_int_id; [lia|].
      unfold min_int64, max_int64. nia. }
    split_and!; [done..| |done]. split; [by apply (reach_step s (attempt e (now, j)))|done..| | |].
    + by rewrite Hlife.
    + rewrite Hi'. unfold wsMinReconnectRetryInterval, wsReconnectRetryIntervalJitter, second, millisecond. nia.
    + rewrite Hlife. cbn [put_reconnect lc_lastDisconnect]. unfold second. nia.
  - right. intros l. destruct (attempt_last e now j s Hre Hl Hg Hz) as (s' & E & Hr & Hst & Hc); [lia|].
    exists [], (now, j), l, s, s'. by split_and!.
Qed.

Lemma waiting_ends e k t l s :
  waiting k t s → k ≤ 8 → 9 - k ≤ length l → paced t (lc_reconnectInterval (cc_life (cl_client s))) l →
  given_up e (8 - k) l s.
Proof.
  revert k t s. induction l as [|[now j] l IH]; intros k t s Hw Hk Hl Hp; cbn [length] in Hl; [lia|].
  destruct Hp as [[Hnow Hj] Hp].
  destruct (waiting_attempt e k t now j s) as [(s' & E & Hh & Hk' & Hw' & Hi)|H]; [done..| |].
  - rewrite <-Hi in Hp. replace (8 - k) with (S (8 - S k)) by lia. eapply given_up_cons; [exact E|done|].
    apply (IH (S k) now); [done|lia..|done].
  - destruct (H l) as (l1 & x & l2 & s1 & s2 & H1 & Hn & H2). exists l1, x, l2, s1, s2. split; [done|]. split; [lia|done].
Qed.

(** C27: A client whose server is gone, and whose subscribers leave it alone,
    does not retry for ever: of nine attempts made one after the other, each
    after its delay and all failing, the reader gives up in one, after at most
    eight new connections, and closes the client. *)
Theorem reconnect_gives_up e now j l s :
  cl_reach s → cl_reader s = RdLoop → gone (cl_client s) →
  lc_lastDisconnect (cc_life (cl_client s)) = zero_time → lc_reconnectInterval (cc_life (cl_client s)) = 0%Z →
  (zero_time < now)%Z → paced now 0 ((now, j) :: l) → 8 ≤ length l →
  given_up e 8 ((now, j) :: l) s.
Proof.
  intros Hre Hl Hg Hz Hi Hnow [[_ Hj] Hp] Hlen.
  destruct (attempt_again e now j s Hl Hg (or_introl Hz)) as (s' & E & Hl' & Hg' & Hh & Hlife).
  rewrite Hz, Hi, bool_decide_true in Hlife by done.
  unfold wsMinReconnectRetryInterval, wsReconnectRetryIntervalJitter, second, millisecond in Hj, Hp.
  assert (lc_reconnectInterval (cc_life (cl_client s')) = (1000000000 + j)%Z) as Hi'.
  { rewrite Hlife. cbn. unfold next_interval, wsMinReconnectRetryInterval, second. rewrite wrap_int_id; [lia|].
    unfold min_int64, max_int64. lia. }
  eapply given_up_cons; [exact E|done|]. apply (waiting_ends e 1 now); [|lia|lia|by rewrite Hi'].
  split; [by apply (reach_step s (attempt e (now, j)))|done..| | |].
  - rewrite Hlife. cbn. unfold zero_time in *. lia.
  - rewrite Hi'. unfold wsMinReconnectRetryInterval, wsReconnectRetryIntervalJitter, second, millisecond. lia.
  - rewrite Hlife. cbn [put_reconnect lc_lastDisconnect]. lia.
Qed.

End silent.

End life.

(** ** A concrete client *)
Module ToyLife.

(** A socket that has received the given messages. *)
Definition toy_socket (msgs : list string) : ws_client :=
  put_receiveCh (Chan ReceiveChSize (ToyEv.toy_text <$> msgs) false) ToyClient.open_ws.

(** A socket that is gone. *)
Definition toy_gone : ws_client := {|
  wc_sendCh := make_chan sendChSize; wc_receiveCh := Chan ReceiveChSize [] true; wc_errorCh := Chan errorChSize [] true;
  wc_flushCh := make_chan 1; wc_flushDone := true; wc_closeCh := true; wc_wg := 0;
  wc_state := WSConnClosed; wc_queued := []; wc_written := [] |}.

Lemma toy_socket_ok msgs : socket_ok (toy_socket msgs).
Proof. exists WLoop, RRead. split; try done. cbn. lia. Qed.
Lemma toy_gone_ok : socket_ok toy_gone.
Proof. exists WEnd, REnd. by split. Qed.

Abbreviation step := (cl_step (D := ToyDc.toy_codec) (L := ToyClient.toy_lib) (EV := ToyEv.toy_events)
  (λ _ _, mret tt) (λ _, 0%Z) (λ m, map_to_list m)).
Abbreviation run := (cl_run (D := ToyDc.toy_codec) (L := ToyClient.toy_lib) (EV := ToyEv.toy_events)
  (λ _ _, mret tt) (λ _, 0%Z) (λ m, map_to_list m)).
Abbreviation reach := (cl_reach (D := ToyDc.toy_codec) (L := ToyClient.toy_lib) (EV := ToyEv.toy_events)
  (λ _ _, mret tt) (λ _, 0%Z) (λ m, map_to_list m) (ToyClient.toy_cfg false true) (Toy.toy_empty : @rtc Toy.toy_pion)).
Definition start : cl_sys (P := Toy.toy_pion) (L := ToyClient.toy_lib) :=
  cl_initial (L := ToyClient.toy_lib) (ToyClient.toy_cfg false true) (Toy.toy_empty : @rtc Toy.toy_pion).

(** The reader takes what the socket received. *)
Definition take : cl_event (P := Toy.toy_pion) := LvReader (RcMessage 0 0 (Err (EText "refused"))).

(** Connecting and joining a call. *)
Definition joining : list (cl_event (P := Toy.toy_pion)) :=
  [LvConnect (Ok (toy_socket ["hello"%string; "join"%string])); take; take].

(** A [Close] begins, and the reader takes the end of the call before the
    channel that [Close] closes. *)
Definition ending : list (cl_event (P := Toy.toy_pion)) :=
  [LvSocket (toy_socket ["end"%string]); LvCall; LvClose 0 (Ok tt); LvClose 0 (Ok tt); take; take; take;
   LvClose 0 (Ok tt); LvClose 0 (Ok tt)].

Lemma toy_allowed (evs : list (cl_event (P := Toy.toy_pion))) :
  evs = joining ∨ evs = joining ++ ending ∨ evs = joining ++ [LvSocket toy_gone] ∨ evs = joining ++ [LvCall] →
  Forall (λ ev, ∀ s, allowed (L := ToyClient.toy_lib) ev s) evs.
Proof.
  pose proof toy_gone_ok. pose proof toy_socket_ok.
  intros [->|[->|[->| ->]]]; repeat constructor; intros s; cbn; auto.
Qed.

Definition toy_state (evs : list (cl_event (P := Toy.toy_pion))) : cl_sys (P := Toy.toy_pion) (L := ToyClient.toy_lib) := default start (run evs start).

(** Whether the run goes through. *)
Definition runs (evs : list (cl_event (P := Toy.toy_pion))) : bool :=
  match run evs start with Some _ => true | None => false end.

Lemma toy_reach evs :
  evs = joining ∨ evs = joining ++ ending ∨ evs = joining ++ [LvSocket toy_gone] ∨ evs = joining ++ [LvCall] →
  runs evs = true → reach (toy_state evs).
Proof.
  unfold runs. intros He H. destruct (run evs start) as [s|] eqn:Hs; [clear H|done]. apply (run_reach _ _ _ _ _ start evs); [apply path_refl|by apply toy_allowed|].
  unfold toy_state. by rewrite Hs.
Qed.

End ToyLife.

(** ** What a user can send *)

(** A user that joins again with [SendWS] is not stopped: the server is asked
    twice, once by the client and once by its user. *)
Theorem user_joins_again :
  (λ s, (λ r, (rq_action r, rq_user r)) <$> sg_requests (cc_sig (cl_client s)))
    <$> ToyLife.run (ToyLife.joining ++ [LvMedia (MdUser (OpSendWS wsEventJoin NoData false))]) ToyLife.start
  = Some [(wsEventJoin, false); (wsEventJoin, true)].
Proof. by vm_compute. Qed.

(** ** A race at the end of a call *)

(** A [Close] that waits for the reader while the reader handles the end of
    the call panics: both end in [close], and the second [Stop] of the RTC
    monitor closes its channel again. *)
Theorem end_race_panics :
  ∃ s, ToyLife.reach s ∧ lc_state (cc_life (cl_client s)) = clientStateClosed ∧ cl_reader s = RdEnd ∧
    cl_closes s = [CzClose] ∧ ToyLife.step (LvClose 0 (Ok tt)) s = None.
Proof.
  exists (ToyLife.toy_state (ToyLife.joining ++ ToyLife.ending)).
  split; [apply ToyLife.toy_reach; [by right; left|by vm_compute]|]. do 3 (split; [by vm_compute|]).
  assert (match ToyLife.step (LvClose 0 (Ok tt)) (ToyLife.toy_state (ToyLife.joining ++ ToyLife.ending)) with
          | Some _ => true | None => false end = false) as H by (by vm_compute).
  by destruct (ToyLife.step _ _).
Qed.

(** ** Witnesses *)
Lemma joins_once_witness :
  List.filter is_join (sg_requests (cc_sig (cl_client (ToyLife.toy_state ToyLife.joining)))) =
    [{| rq_action := wsEventJoin; rq_seq := 1; rq_data := join_data (ToyClient.toy_cfg false true); rq_user := false |}] ∧
  length (List.filter is_join (sg_requests (cc_sig (cl_client (ToyLife.toy_state ToyLife.joining))))) ≤ 1 ∧
  numbered (cc_sig (cl_client (ToyLife.toy_state ToyLife.joining))).
Proof.
  assert (ToyLife.reach (ToyLife.toy_state ToyLife.joining)) as H
    by (apply ToyLife.toy_reach; [by left|]; by vm_compute).
  destruct (joins_once (D := ToyDc.toy_codec) (EV := ToyEv.toy_events) (ClientLaws0 := ToyClient.toy_lib_laws)
    _ silent_users_ok _ _ _ _ _ H) as (H1 & H2 & H3 & H4 & H5).
  split; [by vm_compute|by split].
Defined.

(** A joined client: the user joins again, the server sends a candidate and an
    answer. *)
Lemma candidates_wait_for_description_witness :
  ∃ c', media_run (D := ToyDc.toy_codec) (λ _ _, mret tt)
      [MdUser (OpSendWS wsEventJoin NoData false); MdSignal {["data"%string := AString "cone"]};
       MdSignal {["data"%string := AString "aanswer"]}] (cl_client (ToyLife.toy_state ToyLife.joining)) = Some (tt, c') ∧
    md_added (cc_med c') = [("one"%string : @candidate Toy.toy_pion, true)].
Proof.
  assert (ToyLife.reach (ToyLife.toy_state ToyLife.joining)) as H
    by (apply ToyLife.toy_reach; [by left|]; by vm_compute).
  destruct (candidates_wait_for_description (D := ToyDc.toy_codec) (EV := ToyEv.toy_events) (ClientLaws0 := ToyClient.toy_lib_laws)
    _ silent_users_ok _ _ _ _ _ H) as [_ Hall].
  destruct (Hall ltac:(vm_compute; by eexists) ltac:(vm_compute; by eexists)
    [MdUser (OpSendWS wsEventJoin NoData false); MdSignal {["data"%string := AString "cone"]};
     MdSignal {["data"%string := AString "aanswer"]}]) as (c' & Hrun & _).
  exists c'. split; [exact Hrun|].
  assert (match media_run (D := ToyDc.toy_codec) (λ _ _, mret tt)
      [MdUser (OpSendWS wsEventJoin NoData false); MdSignal {["data"%string := AString "cone"]};
       MdSignal {["data"%string := AString "aanswer"]}] (cl_client (ToyLife.toy_state ToyLife.joining)) with
    | Some (_, c) => md_added (cc_med c) | None => [] end = [("one"%string : @candidate Toy.toy_pion, true)]) as E
    by (vm_compute; reflexivity).
  rewrite Hrun in E. exact E.
Defined.

Lemma close_returns_witness :
  ∃ s', ToyLife.run (close_events 0) (ToyLife.toy_state (ToyLife.joining ++ [LvCall])) = Some s' ∧ cl_reader s' = RdEnd ∧
    cl_closes s' !! 0 = Some (CzRet (Ok tt)).
Proof.
  assert (ToyLife.reach (ToyLife.toy_state (ToyLife.joining ++ [LvCall]))) as H
    by (apply ToyLife.toy_reach; [by right; right; right|]; by vm_compute).
  destruct (close_returns (D := ToyDc.toy_codec) (EV := ToyEv.toy_events) (ClientLaws0 := ToyClient.toy_lib_laws)
    _ silent_users_ok _ _ _ _ _ 0 H) as (s' & H1 & H2 & H3 & _); [by vm_compute..|by exists s'].
Defined.

Lemma close_once_witness :
  is_Some (ToyLife.step (LvReader RcClose) (ToyLife.toy_state (ToyLife.joining ++ ToyLife.ending))).
Proof.
  assert (ToyLife.reach (ToyLife.toy_state (ToyLife.joining ++ ToyLife.ending))) as H by (apply ToyLife.toy_reach; [by right; left|]; by vm_compute).
  apply (close_once (D := ToyDc.toy_codec) (EV := ToyEv.toy_events) (ClientLaws0 := ToyClient.toy_lib_laws)
    _ silent_users_ok _ _ _ _ _ H). by vm_compute.
Defined.

Lemma failed_connect_blocks_close_witness :
  ∃ s1, ToyLife.run [LvConnect (Err (EText "refused")); LvCall; LvClose 0 (Ok tt); LvClose 0 (Ok tt)] ToyLife.start = Some s1 ∧
    cl_reader s1 = RdNone ∧ cl_closes s1 !! 0 = Some CzWait.
Proof.
  assert (ToyLife.runs [LvConnect (Err (EText "refused")); LvCall; LvClose 0 (Ok tt); LvClose 0 (Ok tt)] = true) as H
    by (by vm_compute).
  unfold ToyLife.runs in H. destruct (ToyLife.run _ _) as [s1|] eqn:E; [clear H|done]. exists s1. split; [done|].
  apply (failed_connect_blocks_close (D := ToyDc.toy_codec) (EV := ToyEv.toy_events)
    (ClientLaws0 := ToyClient.toy_lib_laws) _ silent_users_ok _ _ _ _ _ s1 s1 E). apply path_refl.
Defined.

(** Nine attempts, each as early as can be. *)
Definition toy_attempts : list (Z * Z) := (λ n, (Z.of_nat (n * (n + 1)) * 500000000, 0)%Z) <$> seq 0 9.

Lemma reconnect_gives_up_witness :
  given_up (P := Toy.toy_pion) (D := ToyDc.toy_codec) (L := ToyClient.toy_lib) (EV := ToyEv.toy_events)
    (λ _ _, mret tt) (λ _, 0%Z) (λ m, map_to_list m) (EText "refused") 8 toy_attempts
    (ToyLife.toy_state (ToyLife.joining ++ [LvSocket ToyLife.toy_gone])).
Proof.
  assert (ToyLife.reach (ToyLife.toy_state (ToyLife.joining ++ [LvSocket ToyLife.toy_gone]))) as H
    by (apply ToyLife.toy_reach; [by right; right; left|]; by vm_compute).
  apply (reconnect_gives_up (D := ToyDc.toy_codec) (EV := ToyEv.toy_events)
    (ClientLaws0 := ToyClient.toy_lib_laws) _ silent_users_ok _ _ _ _ ltac:(done) (EText "refused") 0 0 (tail toy_attempts) _ H).
  - by vm_compute.
  - eexists. split; by vm_compute.
  - by vm_compute.
  - by vm_compute.
  - by vm_compute.
  - cbn. unfold wsMinReconnectRetryInterval, wsReconnectRetryIntervalJitter, second, millisecond. lia.
  - by vm_compute; lia.
Defined.
