(* ===== verification/RtcdClient.v ===== *)
(** * RtcdClient: the client of the service (service/client.go)

    A client keeps one WebSocket connection to the service: [msgReader] passes
    the messages on, and when the connection ends it is made again after a
    growing delay.  The two goroutines of each connection, each [Close] and the
    callers are threads; the sockets' own clients are those of [WsClient].  The
    transport of [NewClient] is left out; its HTTP calls are in [RtcdApi]. *)
From S2P Require Import Prelude GoText WsServer WsClient World Service.

Definition maxReconnectInterval : Z := (30 * second)%Z.

(** ** State *)

(** Sockets are numbered in the order they were opened. *)
Record rcd_client := {
  rc_closed : bool;
  rc_wsClient : option nat;
  rc_sockets : list ws_client;
  rc_connID : string;
  rc_receiveCh : chan ClientMessage;
  rc_errorCh : chan error;
  rc_wg : Z;
}.

Definition put_conn (closed : bool) (ws : option nat) (c : rcd_client) : rcd_client := {|
  rc_closed := closed; rc_wsClient := ws; rc_sockets := rc_sockets c; rc_connID := rc_connID c;
  rc_receiveCh := rc_receiveCh c; rc_errorCh := rc_errorCh c; rc_wg := rc_wg c |}.
Definition put_sockets (l : list ws_client) (c : rcd_client) : rcd_client := {|
  rc_closed := rc_closed c; rc_wsClient := rc_wsClient c; rc_sockets := l; rc_connID := rc_connID c;
  rc_receiveCh := rc_receiveCh c; rc_errorCh := rc_errorCh c; rc_wg := rc_wg c |}.
Definition put_connID (id : string) (c : rcd_client) : rcd_client := {|
  rc_closed := rc_closed c; rc_wsClient := rc_wsClient c; rc_sockets := rc_sockets c; rc_connID := id;
  rc_receiveCh := rc_receiveCh c; rc_errorCh := rc_errorCh c; rc_wg := rc_wg c |}.
Definition put_out (receive : chan ClientMessage) (errors : chan error) (c : rcd_client) : rcd_client := {|
  rc_closed := rc_closed c; rc_wsClient := rc_wsClient c; rc_sockets := rc_sockets c; rc_connID := rc_connID c;
  rc_receiveCh := receive; rc_errorCh := errors; rc_wg := rc_wg c |}.
Definition put_wg (n : Z) (c : rcd_client) : rcd_client := {|
  rc_closed := rc_closed c; rc_wsClient := rc_wsClient c; rc_sockets := rc_sockets c; rc_connID := rc_connID c;
  rc_receiveCh := rc_receiveCh c; rc_errorCh := rc_errorCh c; rc_wg := n |}.

(** [NewClient], once the configuration is parsed. *)
Definition NewClient : rcd_client := {|
  rc_closed := false; rc_wsClient := None; rc_sockets := []; rc_connID := str0;
  rc_receiveCh := make_chan ReceiveChSize; rc_errorCh := make_chan 32; rc_wg := 0 |}.

Section client.
  Context {C : MsgCodec}.

(** ** Operations *)

Definition rc_sendError (e : error) : go rcd_client unit := λ c,
  if rc_closed c then Some (tt, c)
  else match try_send e (rc_errorCh c) with
       | SendPanic => None
       | Full => Some (tt, c)
       | Sent ch => Some (tt, put_out (rc_receiveCh c) ch c)
       end.

Definition closed_err {A} : result A := Err (EText "ws client is closed").

(** [dial] is the answer of [ws.NewClient]. *)
Definition rcd_Connect (dial : result ws_client) : go rcd_client (result unit) :=
  c ← gets (λ c, c);
  if rc_closed c then mret closed_err
  else if bool_decide (rc_wsClient c ≠ None) then mret (Err (EText "ws client is already initialized"))
  else
    match dial with
    | Err e => mret (Err (EWrap "failed to create ws client" e))
    | Ok w =>
        modify (put_sockets (rc_sockets c ++ [w])) ;;
        modify (put_conn false (Some (length (rc_sockets c)))) ;;
        modify (put_wg (rc_wg c + 2)) ;;
        mret (Ok tt)
    end.

(** [c.wsClient.Send]. *)
Definition socket_send (k : nat) (m : ws_Message) : go rcd_client (result unit) := λ c,
  w ← rc_sockets c !! k;
  '(st, w) ← (st ← sender_step (SCheck m); sender_step st) w;
  Some (match st with SRet r => r | _ => Ok tt end, put_sockets (<[k := w]> (rc_sockets c)) c).

Definition rcd_Send (msg : ClientMessage) : go rcd_client (result unit) :=
  c ← gets (λ c, c);
  if rc_closed c then mret closed_err
  else
    match rc_wsClient c with
    | None => mret (Err (EText "ws client is not initialized"))
    | Some k =>
        match Pack msg with
        | Err e => mret (Err (EWrap "failed to pack message" e))
        | Ok data => socket_send k {| wm_ClientID := str0; wm_ConnID := str0; wm_Type := BinaryMessage; wm_Data := data |}
        end
    end.

Definition Connected : go rcd_client bool :=
  c ← gets (λ c, c);
  match rc_wsClient c with
  | Some k => mret (negb (rc_closed c) && match rc_sockets c !! k with
                                          | Some w => bool_decide (wc_state w = WSConnOpen)
                                          | None => false
                                          end)
  | None => mret false
  end.

(** ** The goroutine that reads, and reconnects *)
Inductive rc_reader :=
  | GRead
  | GMsg (m : ws_Message)
  | GReport (e : error)
  | GOut (cm : ClientMessage)
  | GCheck
  | GSleep (attempt waitTime : Z)
  | GCallback (attempt waitTime : Z)
  | GConnect (attempt waitTime : Z)
  | GRetry (e : error) (attempt waitTime : Z)
  | GFail (e : error)
  | GMark
  | GCloseReceive
  | GCloseError
  | GDone
  | GEnd.

(** What a hello message says of the connection. *)
Definition note_hello (cm : ClientMessage) : go rcd_client unit :=
  match cm_Data cm with
  | DStrings data =>
      let id := default str0 (data !! "connID"%string) in
      when (bool_decide (cm_Type cm = ClientMessageHello) && negb (bool_decide (id = str0))) (modify (put_connID id))
  | _ => mret tt
  end.

(** A message that was received: what is to be done with it. *)
Definition read_message (m : ws_Message) : go rcd_client rc_reader :=
  if negb (bool_decide (wm_Type m = BinaryMessage)) then
    mret (GReport (EText ("unexpected msg type: " +:+ Itoa (wm_Type m))))
  else
    match Unpack (wm_Data m) with
    | Err e => mret (GReport (EWrap "failed to unpack message" e))
    | Ok cm => note_hello cm ;; mret (GOut cm)
    end.

Definition pass_message (cm : ClientMessage) : go rcd_client rc_reader := λ c,
  match try_send cm (rc_receiveCh c) with
  | SendPanic => None
  | Full => Some (GReport (EText "failed to send client message: channel is full"), c)
  | Sent ch => Some (GRead, put_out ch (rc_errorCh c) c)
  end.

(** [waitTime] at the next attempt. *)
Definition next_wait (interval waitTime : Z) : Z :=
  if bool_decide (waitTime < maxReconnectInterval)%Z then wrap_int 64 (waitTime + interval) else waitTime.

Definition close_receiveCh : go rcd_client unit := λ c,
  ch ← close_chan (rc_receiveCh c); Some (tt, put_out ch (rc_errorCh c) c).
Definition close_errorCh : go rcd_client unit := λ c,
  ch ← close_chan (rc_errorCh c); Some (tt, put_out (rc_receiveCh c) ch c).
Definition rc_wg_done : go rcd_client unit := λ c,
  if (rc_wg c <=? 0)%Z then None else Some (tt, put_wg (rc_wg c - 1) c).

Definition take_message (k : nat) : go rcd_client rc_reader := λ c,
  w ← rc_sockets c !! k;
  match recv (wc_receiveCh w) with
  | inl (m, ch) => Some (GMsg m, put_sockets (<[k := put_receiveCh ch w]> (rc_sockets c)) c)
  | inr true => Some (GCheck, c)
  | inr false => Some (GRead, c)
  end.

(** [cb] is the callback's answer, [None] when there is no callback. *)
Definition rc_reader_step (interval : Z) (k : nat) (cb : option (result unit)) (dial : result ws_client)
    (st : rc_reader) : go rcd_client rc_reader :=
  match st with
  | GRead => take_message k
  | GMsg m => read_message m
  | GReport e => rc_sendError e ;; mret GRead
  | GOut cm => pass_message cm
  | GCheck =>
      c ← gets (λ c, c);
      if bool_decide (rc_wsClient c ≠ None) then modify (put_conn (rc_closed c) None) ;; mret (GSleep 0 0)
      else mret GDone
  | GSleep attempt waitTime => mret (GCallback (wrap_int 64 (attempt + 1)) (next_wait interval waitTime))
  | GCallback attempt waitTime =>
      mret (match cb with Some (Err e) => GFail e | _ => GConnect attempt waitTime end)
  | GConnect attempt waitTime =>
      r ← rcd_Connect dial;
      mret (match r with Ok _ => GDone | Err e => GRetry e attempt waitTime end)
  | GRetry e attempt waitTime =>
      rc_sendError (EWrap "failed to re-connect" e) ;; mret (GSleep attempt waitTime)
  | GFail e => rc_sendError (EWrap "reconnect callback failed" e) ;; mret GMark
  | GMark => c ← gets (λ c, c); modify (put_conn true (rc_wsClient c)) ;; mret GCloseReceive
  | GCloseReceive => close_receiveCh ;; mret GCloseError
  | GCloseError => close_errorCh ;; mret GDone
  | GDone => rc_wg_done ;; mret GEnd
  | GEnd => mret GEnd
  end.

(** ** The goroutine that passes the errors on *)
Inductive rc_errors := ERead | EReport (e : error) | EDone | EEnd.

Definition rc_errors_step (k : nat) (st : rc_errors) : go rcd_client rc_errors :=
  match st with
  | ERead => λ c,
      w ← rc_sockets c !! k;
      match recv (wc_errorCh w) with
      | inl (e, ch) => Some (EReport e, put_sockets (<[k := put_errorCh ch w]> (rc_sockets c)) c)
      | inr true => Some (EDone, c)
      | inr false => Some (ERead, c)
      end
  | EReport e => rc_sendError e ;; mret ERead
  | EDone => rc_wg_done ;; mret EEnd
  | EEnd => mret EEnd
  end.

(** ** [Close] *)
Inductive rc_close :=
  | CStart
  | CSocket (k : nat)
  | CWait (r : result unit)
  | CCloseReceive (r : result unit)
  | CCloseError (r : result unit)
  | CRet (r : result unit).

(** [closed] is the answer of the socket's client. *)
Definition rc_close_step (closed : result unit) (st : rc_close) : go rcd_client rc_close :=
  match st with
  | CStart =>
      c ← gets (λ c, c);
      if rc_closed c then mret (CRet closed_err)
      else
        match rc_wsClient c with
        | None => mret (CRet (Err (EText "ws client is not initialized")))
        | Some k => modify (put_conn true None) ;; mret (CSocket k)
        end
  | CSocket k => mret (CWait closed)
  | CWait r => n ← gets rc_wg; mret (if (n =? 0)%Z then CCloseReceive r else CWait r)
  | CCloseReceive r => close_receiveCh ;; mret (CCloseError r)
  | CCloseError r => close_errorCh ;; mret (CRet r)
  | CRet r => mret (CRet r)
  end.

(** ** The client and its threads *)
Record rc_sys := {
  rs_client : rcd_client;
  rs_readers : list rc_reader;
  rs_errors : list rc_errors;
  rs_closes : list rc_close;
}.

(** [RvSocket] is what the goroutines of a socket's client do to it; the last
    two are the caller's receives. *)
Inductive rc_event :=
  | RvConnect (dial : result ws_client)
  | RvReader (k : nat) (cb : option (result unit)) (dial : result ws_client)
  | RvErrors (k : nat)
  | RvCall
  | RvClose (j : nat) (closed : result unit)
  | RvSend (msg : ClientMessage)
  | RvSocket (k : nat) (w : ws_client)
  | RvTake
  | RvTakeError.

(** The goroutines that a connection starts. *)
Definition started {A} (c c' : rcd_client) (st : A) : list A :=
  replicate (length (rc_sockets c') - length (rc_sockets c)) st.

Definition with_rcd (c : rcd_client) (s : rc_sys) : rc_sys := {|
  rs_client := c; rs_readers := rs_readers s; rs_errors := rs_errors s; rs_closes := rs_closes s |}.

Definition rc_step (interval : Z) (ev : rc_event) (s : rc_sys) : option rc_sys :=
  let c := rs_client s in
  match ev with
  | RvConnect dial =>
      '(_, c') ← rcd_Connect dial c;
      Some {| rs_client := c'; rs_readers := rs_readers s ++ started c c' GRead;
              rs_errors := rs_errors s ++ started c c' ERead; rs_closes := rs_closes s |}
  | RvReader k cb dial =>
      match rs_readers s !! k with
      | None => Some s
      | Some st =>
          '(st, c') ← rc_reader_step interval k cb dial st c;
          Some {| rs_client := c'; rs_readers := <[k := st]> (rs_readers s) ++ started c c' GRead;
                  rs_errors := rs_errors s ++ started c c' ERead; rs_closes := rs_closes s |}
      end
  | RvErrors k =>
      match rs_errors s !! k with
      | None => Some s
      | Some st =>
          '(st, c') ← rc_errors_step k st c;
          Some {| rs_client := c'; rs_readers := rs_readers s; rs_errors := <[k := st]> (rs_errors s);
                  rs_closes := rs_closes s |}
      end
  | RvCall => Some {| rs_client := c; rs_readers := rs_readers s; rs_errors := rs_errors s;
                      rs_closes := rs_closes s ++ [CStart] |}
  | RvClose j closed =>
      match rs_closes s !! j with
      | None => Some s
      | Some st =>
          '(st, c') ← rc_close_step closed st c;
          Some {| rs_client := c'; rs_readers := rs_readers s; rs_errors := rs_errors s;
                  rs_closes := <[j := st]> (rs_closes s) |}
      end
  | RvSend msg => '(_, c') ← rcd_Send msg c; Some (with_rcd c' s)
  | RvSocket k w =>
      Some (if bool_decide (k < length (rc_sockets c)) then with_rcd (put_sockets (<[k := w]> (rc_sockets c)) c) s else s)
  | RvTake =>
      Some (match recv (rc_receiveCh c) with inl (_, ch) => with_rcd (put_out ch (rc_errorCh c) c) s | inr _ => s end)
  | RvTakeError =>
      Some (match recv (rc_errorCh c) with inl (_, ch) => with_rcd (put_out (rc_receiveCh c) ch c) s | inr _ => s end)
  end.

Fixpoint rc_run (interval : Z) (evs : list rc_event) (s : rc_sys) : option rc_sys :=
  match evs with [] => Some s | ev :: evs => s ← rc_step interval ev s; rc_run interval evs s end.

Definition rc_initial : rc_sys := {| rs_client := NewClient; rs_readers := []; rs_errors := []; rs_closes := [] |}.

End client.

(** ** The invariant *)
Definition reading (st : rc_reader) : bool :=
  match st with GRead | GMsg _ | GReport _ | GOut _ | GCheck => true | _ => false end.
Definition retrying (st : rc_reader) : bool :=
  match st with GSleep _ _ | GCallback _ _ | GConnect _ _ | GRetry _ _ _ | GFail _ | GMark => true | _ => false end.
Definition over (st : rc_reader) : bool := match st with GDone | GEnd => true | _ => false end.
Definition reader_live (st : rc_reader) : bool := match st with GEnd => false | _ => true end.
Definition errors_live (st : rc_errors) : bool := match st with EEnd => false | _ => true end.

(** How far a [Close] that passed its guard has got. *)
Definition close_stage (st : rc_close) : nat :=
  match st with CSocket _ | CWait _ => 1 | CCloseReceive _ => 2 | CCloseError _ => 3 | _ => 0 end.

(** The members of a list that satisfy [f]. *)
Definition live {A} (f : A → bool) (l : list A) : nat := length (List.filter f l).

Lemma live_insert {A} (f : A → bool) l k x y :
  l !! k = Some x → live f (<[k := y]> l) + Nat.b2n (f x) = live f l + Nat.b2n (f y).
Proof.
  unfold live. revert k. induction l as [|z l IH]; intros [|k] Hk; try done.
  - injection Hk as ->. cbn. destruct (f x), (f y); cbn; lia.
  - specialize (IH k Hk). change (<[S k:=y]> (z :: l)) with (z :: <[k:=y]> l). cbn [List.filter].
    destruct (f z); cbn [length]; lia.
Qed.

Lemma live_app {A} (f : A → bool) l k : live f (l ++ k) = live f l + live f k.
Proof. unfold live. by rewrite List.filter_app, length_app. Qed.

Lemma live_zero {A} (f : A → bool) l k x : live f l = 0 → l !! k = Some x → f x = false.
Proof.
  intros H Hk. destruct (f x) eqn:Hf; [|done]. exfalso. revert k Hk. unfold live in H.
  induction l as [|z l IH]; intros [|k] Hk; try done; cbn in *.
  - injection Hk as ->. by rewrite Hf in H.
  - apply (IH) with k; [|done]. by destruct (f z).
Qed.

#[local] Arguments live : simpl never.

Definition sock_open (w : ws_client) : Prop := ch_closed (wc_sendCh w) = false.

(** The phases of a client. *)
Inductive phase (c : rcd_client) (R : list rc_reader) (K : list rc_close) : Prop :=
  | ph_fresh :
      rc_sockets c = [] → rc_closed c = false → rc_wsClient c = None →
      ch_closed (rc_receiveCh c) = false → ch_closed (rc_errorCh c) = false →
      Forall (λ st, close_stage st = 0) K → phase c R K
  | ph_open k st :
      length (rc_sockets c) = S k → rc_closed c = false → rc_wsClient c = Some k →
      ch_closed (rc_receiveCh c) = false → ch_closed (rc_errorCh c) = false →
      Forall (λ st, close_stage st = 0) K → R !! k = Some st → reading st = true → phase c R K
  | ph_retry k st :
      length (rc_sockets c) = S k → rc_closed c = false → rc_wsClient c = None →
      ch_closed (rc_receiveCh c) = false → ch_closed (rc_errorCh c) = false →
      Forall (λ st, close_stage st = 0) K → R !! k = Some st → retrying st = true → phase c R K
  | ph_closing k st j cst :
      length (rc_sockets c) = S k → rc_closed c = true → rc_wsClient c = None →
      K !! j = Some cst → 1 ≤ close_stage cst → (∀ i x, K !! i = Some x → i ≠ j → close_stage x = 0) →
      ch_closed (rc_receiveCh c) = (close_stage cst =? 3)%nat → ch_closed (rc_errorCh c) = false →
      (2 ≤ close_stage cst → rc_wg c = 0%Z) → R !! k = Some st → reading st = true ∨ over st = true → phase c R K
  | ph_failed k st :
      length (rc_sockets c) = S k → rc_closed c = true → rc_wsClient c = None →
      ch_closed (rc_receiveCh c) = negb (match st with GCloseReceive => true | _ => false end) →
      ch_closed (rc_errorCh c) = over st →
      Forall (λ st, close_stage st = 0) K → R !! k = Some st → reading st = false → retrying st = false → phase c R K
  | ph_over :
      rc_closed c = true → rc_wsClient c = None → ch_closed (rc_receiveCh c) = true → ch_closed (rc_errorCh c) = true →
      Forall (λ st, close_stage st = 0) K → rc_wg c = 0%Z → phase c R K.

Record rcd_ok (s : rc_sys) : Prop := {
  ro_readers : length (rs_readers s) = length (rc_sockets (rs_client s));
  ro_errors : length (rs_errors s) = length (rc_sockets (rs_client s));
  ro_wg : rc_wg (rs_client s) = Z.of_nat (live reader_live (rs_readers s) + live errors_live (rs_errors s));
  ro_old : ∀ i st, rs_readers s !! i = Some st → S i < length (rc_sockets (rs_client s)) → over st = true;
  ro_sockets : Forall sock_open (rc_sockets (rs_client s));
  ro_phase : phase (rs_client s) (rs_readers s) (rs_closes s);
}.

(** What the steps that neither connect nor close leave as it was. *)
Record same_flags (c c' : rcd_client) : Prop := {
  sf_closed : rc_closed c' = rc_closed c;
  sf_ws : rc_wsClient c' = rc_wsClient c;
  sf_sockets : length (rc_sockets c') = length (rc_sockets c);
  sf_open : Forall sock_open (rc_sockets c) → Forall sock_open (rc_sockets c');
  sf_receive : ch_closed (rc_receiveCh c') = ch_closed (rc_receiveCh c);
  sf_error : ch_closed (rc_errorCh c') = ch_closed (rc_errorCh c);
  sf_wg : rc_wg c' = rc_wg c;
}.

#[export] Instance same_flags_preorder : PreOrder same_flags.
Proof.
  split; [by split|]. intros c1 c2 c3 [] []. split; try congruence. auto.
Qed.

Lemma phase_same c c' R K : same_flags c c' → phase c R K → phase c' R K.
Proof.
  intros [E1 E2 E3 _ E4 E5 E6] [H1 H2 H3 H4 H5 H6|k st|k st|k st j cst|k st|].
  - apply ph_fresh; try congruence. apply nil_length_inv. by rewrite E3, H1.
  - eapply (ph_open _ _ _ k st); congruence.
  - eapply (ph_retry _ _ _ k st); congruence.
  - eapply (ph_closing _ _ _ k st j cst); try done; try congruence. by rewrite E6.
  - eapply (ph_failed _ _ _ k st); congruence.
  - apply ph_over; congruence.
Qed.

Lemma ok_at_last s k st :
  rcd_ok s → rs_readers s !! k = Some st → over st = false → length (rc_sockets (rs_client s)) = S k.
Proof.
  intros Hs Hk Hst. assert (k < length (rc_sockets (rs_client s))) as Hlt
    by (rewrite <-(ro_readers _ Hs); by eapply lookup_lt_Some).
  destruct (decide (S k < length (rc_sockets (rs_client s)))) as [H|]; [|lia].
  rewrite (ro_old _ Hs k st Hk H) in Hst. done.
Qed.

Lemma initial_rcd_ok : rcd_ok rc_initial.
Proof.
  split; [done..|by apply Forall_nil|]. apply ph_fresh; try done.
Qed.

(** A step that keeps the flags and moves no thread. *)
Lemma ok_same s c' :
  rcd_ok s → same_flags (rs_client s) c' →
  rcd_ok {| rs_client := c'; rs_readers := rs_readers s; rs_errors := rs_errors s; rs_closes := rs_closes s |}.
Proof.
  intros [] H. split; cbn; rewrite ?(sf_sockets _ _ H), ?(sf_wg _ _ H); try done; [by apply H|]. by eapply phase_same.
Qed.

Lemma error_sent e s :
  rcd_ok s → wp (rc_sendError e) (λ _ c', same_flags (rs_client s) c') (rs_client s).
Proof.
  intros Hs. unfold rc_sendError, wp. destruct (rc_closed (rs_client s)) eqn:Hc; [done|].
  assert (ch_closed (rc_errorCh (rs_client s)) = false) as He by (destruct (ro_phase _ Hs); congruence).
  destruct (try_send e (rc_errorCh (rs_client s))) as [ch| |] eqn:Ht; [|done|].
  - split; try done. cbn. by apply try_send_closed in Ht.
  - unfold try_send in Ht. rewrite He in Ht. by destruct (bool_decide _).
Qed.

Lemma sockets_same k w c :
  (rc_sockets c !! k = None ∨ sock_open w) → same_flags c (put_sockets (<[k := w]> (rc_sockets c)) c).
Proof.
  intros Hw. split; try done; cbn; [by rewrite length_insert|]. intros Ho.
  destruct Hw as [Hn|Hw]; [|by apply Forall_insert]. by rewrite list_insert_ge by (by apply lookup_ge_None in Hn).
Qed.

(** A reader moves; it is the last one, or it ends. *)
Lemma ok_reader s c' k st st' :
  rcd_ok s → rs_readers s !! k = Some st → same_flags (rs_client s) c' →
  reading st = true ∧ reading st' = true ∨ retrying st = true ∧ retrying st' = true ∨
    reading st = true ∧ over st' = true ∧ st' ≠ GEnd ∧ rc_closed c' = true →
  rcd_ok {| rs_client := c'; rs_readers := <[k := st']> (rs_readers s); rs_errors := rs_errors s; rs_closes := rs_closes s |}.
Proof.
  intros Hs Hk Hf Hst. pose proof (ok_same s c' Hs Hf) as [H1 H2 H3 H4 H5 H6]. cbn in *.
  assert (over st = false ∧ reader_live st = true ∧ reader_live st' = true) as (Hov & Hl & Hl').
  { destruct st, st'; naive_solver. }
  pose proof (ok_at_last s k st Hs Hk Hov) as Hlen. rewrite <-(sf_sockets _ _ Hf) in Hlen.
  assert (k < length (rs_readers s)) as Hlt by by eapply lookup_lt_Some.
  split; cbn; try done.
  - by rewrite length_insert.
  - rewrite H3. pose proof (live_insert reader_live _ k st st' Hk) as E. rewrite Hl, Hl' in E. cbn in E.
  lia.
  - intros i x Hi Hx. rewrite list_lookup_insert_ne in Hi by lia. by apply (H4 i).
  - destruct H6 as [|k0 st0|k0 st0|k0 st0 j cst|k0 st0|]; try (assert (k0 = k) as -> by congruence).
    + exfalso. by rewrite H in Hlen.
    + destruct Hst as [[_ ?]|[[? _]|(_ & _ & _ & ?)]]; [|assert (st0 = st) as -> by congruence; by destruct st|congruence].
      apply (ph_open _ _ _ k st'); try done. by apply list_lookup_insert_eq.
    + destruct Hst as [[? _]|[[_ ?]|(? & _ & _ & ?)]]; [assert (st0 = st) as -> by congruence; by destruct st| |congruence].
      apply (ph_retry _ _ _ k st'); try done. by apply list_lookup_insert_eq.
    + apply (ph_closing _ _ _ k st' j cst); try done; [by apply list_lookup_insert_eq|].
      destruct Hst as [[_ ?]|[[? _]|(_ & ? & _ & _)]]; [by left| |by right].
      assert (st0 = st) as -> by congruence. destruct st; naive_solver.
    + assert (st0 = st) as -> by congruence. destruct st; naive_solver.
    + exfalso. assert (live reader_live (rs_readers s) = 0) as Hz by lia.
      pose proof (live_zero _ _ _ _ Hz Hk). congruence.
Qed.

Definition dial_open (dial : result ws_client) : Prop := match dial with Ok w => sock_open w | Err _ => True end.

Lemma started_same {A} c c' (st : A) : same_flags c c' → started c c' st = [].
Proof. intros H. unfold started. by rewrite (sf_sockets _ _ H), Nat.sub_diag. Qed.

(** The phase of a reader that is not over. *)
Lemma reading_phase s k st :
  rcd_ok s → rs_readers s !! k = Some st → reading st = true →
  length (rc_sockets (rs_client s)) = S k ∧ ch_closed (rc_receiveCh (rs_client s)) = false ∧
  (rc_closed (rs_client s) = false ∧ rc_wsClient (rs_client s) = Some k ∨
   rc_closed (rs_client s) = true ∧ rc_wsClient (rs_client s) = None).
Proof.
  intros Hs Hk Hst. pose proof (ok_at_last s k st Hs Hk ltac:(by destruct st)) as Hlen. split; [done|].
  destruct (ro_phase _ Hs) as [|k0 st0|k0 st0|k0 st0 j cst|k0 st0|]; try (assert (k0 = k) as -> by congruence).
  - exfalso. by rewrite H in Hlen.
  - split; [done|by left].
  - assert (st0 = st) as -> by congruence. by destruct st.
  - split; [|by right]. rewrite H5. apply Nat.eqb_neq. intros E.
    assert (live reader_live (rs_readers s) = 0) as Hz by (pose proof (ro_wg _ Hs); lia).
    pose proof (live_zero _ _ _ _ Hz Hk). by destruct st.
  - assert (st0 = st) as -> by congruence. congruence.
  - exfalso. assert (live reader_live (rs_readers s) = 0) as Hz by (pose proof (ro_wg _ Hs); lia).
    pose proof (live_zero _ _ _ _ Hz Hk). by destruct st.
Qed.

Lemma retrying_phase s k st :
  rcd_ok s → rs_readers s !! k = Some st → retrying st = true →
  length (rc_sockets (rs_client s)) = S k ∧ rc_closed (rs_client s) = false ∧ rc_wsClient (rs_client s) = None ∧
  ch_closed (rc_receiveCh (rs_client s)) = false ∧ ch_closed (rc_errorCh (rs_client s)) = false ∧
  Forall (λ st, close_stage st = 0) (rs_closes s).
Proof.
  intros Hs Hk Hst. pose proof (ok_at_last s k st Hs Hk ltac:(by destruct st)) as Hlen. split; [done|].
  destruct (ro_phase _ Hs) as [|k0 st0|k0 st0|k0 st0 j cst|k0 st0|]; try (assert (k0 = k) as -> by congruence);
    try (assert (st0 = st) as -> by congruence); try done.
  - by destruct st.
  - destruct st; naive_solver.
  - congruence.
  - exfalso. assert (live reader_live (rs_readers s) = 0) as Hz by (pose proof (ro_wg _ Hs); lia).
    pose proof (live_zero _ _ _ _ Hz Hk). by destruct st.
Qed.

(** The client changes, the other parts as they were but for one reader. *)
Abbreviation moved s c' k st' := {|
  rs_client := c'; rs_readers := <[k := st']> (rs_readers s) ++ started (rs_client s) c' GRead;
  rs_errors := rs_errors s ++ started (rs_client s) c' ERead; rs_closes := rs_closes s |}.

Lemma ok_moved s c' k st st' :
  rcd_ok s → rs_readers s !! k = Some st → same_flags (rs_client s) c' →
  reading st = true ∧ reading st' = true ∨ retrying st = true ∧ retrying st' = true ∨
    reading st = true ∧ over st' = true ∧ st' ≠ GEnd ∧ rc_closed c' = true →
  rcd_ok (moved s c' k st').
Proof. intros Hs Hk Hf Hst. rewrite !(started_same _ _ _ Hf), !app_nil_r. by eapply ok_reader. Qed.

(** A connection that ended. *)
Lemma ok_lost s k :
  rcd_ok s → rs_readers s !! k = Some GCheck → rc_wsClient (rs_client s) = Some k →
  rcd_ok (moved s (put_conn (rc_closed (rs_client s)) None (rs_client s)) k (GSleep 0 0)).
Proof.
  intros Hs Hk Hw. unfold started. cbn [put_conn rc_sockets]. rewrite Nat.sub_diag, !app_nil_r.
  destruct (reading_phase s k GCheck Hs Hk eq_refl) as (Hlen & Hr & [[Hc _]|[_ Hw']]); [|congruence].
  assert (k < length (rs_readers s)) as Hlt by by eapply lookup_lt_Some.
  pose proof (live_insert reader_live _ k _ (GSleep 0 0) Hk) as E. cbn in E.
  destruct Hs as [H1 H2 H3 H4 H5 H6]. split; cbn; try done.
  - by rewrite length_insert.
  - rewrite H3. lia.
  - intros i x Hi Hx. rewrite list_lookup_insert_ne in Hi by lia. by apply (H4 i).
  - apply (ph_retry _ _ _ k (GSleep 0 0)); try done; try by apply list_lookup_insert_eq.
    + destruct H6; first [done|congruence].
    + destruct H6; first [done|congruence].
Qed.

(** A connection that is made again. *)
Lemma ok_connected s k attempt waitTime w c' :
  rcd_ok s → rs_readers s !! k = Some (GConnect attempt waitTime) → sock_open w →
  rcd_Connect (Ok w) (rs_client s) = Some (Ok tt, c') → rcd_ok (moved s c' k GDone).
Proof.
  intros Hs Hk Hw E. destruct (retrying_phase s k _ Hs Hk eq_refl) as (Hlen & Hc & Hn & Hr & He & Hq).
  unfold rcd_Connect, mbind, go_bind, gets in E. rewrite Hc, Hn, bool_decide_false in E by (by intros []).
  injection E as <-. unfold started. cbn [put_conn put_wg put_sockets rc_sockets].
  rewrite length_app. replace (length (rc_sockets (rs_client s)) + length [w] - length (rc_sockets (rs_client s))) with 1 by (cbn; lia).
  assert (k < length (rs_readers s)) as Hlt by by eapply lookup_lt_Some.
  pose proof (live_insert reader_live _ k _ GDone Hk) as E. cbn in E.
  destruct Hs as [H1 H2 H3 H4 H5 H6]. split; cbn.
  - rewrite !length_app, length_insert. cbn. lia.
  - rewrite !length_app. cbn. lia.
  - rewrite !live_app, H3. change (live reader_live [GRead]) with 1. change (live errors_live [ERead]) with 1. lia.
  - intros i x Hi Hx. rewrite length_app in Hx. cbn in Hx.
    rewrite lookup_app_l in Hi by (rewrite length_insert; lia).
    destruct (decide (i = k)) as [->|Hne]; [rewrite list_lookup_insert_eq in Hi by done; by injection Hi as <-|].
    rewrite list_lookup_insert_ne in Hi by done. apply (H4 i); [done|lia].
  - apply Forall_app. by split; [|apply Forall_singleton].
  - apply (ph_open _ _ _ (S k) GRead); cbn; try done; [rewrite length_app; cbn; lia|by rewrite Hlen|].
    rewrite lookup_app_r by (rewrite length_insert; lia). rewrite length_insert, H1, Hlen, Nat.sub_diag. done.
Qed.

(** A reader whose callback refused closes the channels. *)
Lemma failing_phase s k st :
  rcd_ok s → rs_readers s !! k = Some st → st = GCloseReceive ∨ st = GCloseError →
  length (rc_sockets (rs_client s)) = S k ∧ rc_closed (rs_client s) = true ∧ rc_wsClient (rs_client s) = None ∧
  ch_closed (rc_receiveCh (rs_client s)) = negb (match st with GCloseReceive => true | _ => false end) ∧
  ch_closed (rc_errorCh (rs_client s)) = false ∧ Forall (λ st, close_stage st = 0) (rs_closes s).
Proof.
  intros Hs Hk Hst. pose proof (ok_at_last s k st Hs Hk ltac:(by destruct Hst as [-> | ->])) as Hlen. split; [done|].
  destruct (ro_phase _ Hs) as [Hnil ?|k0 st0|k0 st0|k0 st0 j cst|k0 st0|]; try (assert (k0 = k) as -> by congruence);
    try (assert (st0 = st) as -> by congruence); try (by destruct Hst as [-> | ->]).
  - exfalso. by rewrite Hnil in Hlen.
  - exfalso. destruct Hst as [-> | ->]; naive_solver.
  - exfalso. assert (live reader_live (rs_readers s) = 0) as Hz by (pose proof (ro_wg _ Hs); lia).
    pose proof (live_zero _ _ _ _ Hz Hk). by destruct Hst as [-> | ->].
Qed.

Lemma ok_failing s c' k st st' :
  rcd_ok s → rs_readers s !! k = Some st → reader_live st = true → length (rc_sockets (rs_client s)) = S k →
  rc_sockets c' = rc_sockets (rs_client s) → rc_wg c' = rc_wg (rs_client s) →
  rc_closed c' = true → rc_wsClient c' = None → st' = GCloseReceive ∨ st' = GCloseError ∨ st' = GDone →
  ch_closed (rc_receiveCh c') = negb (match st' with GCloseReceive => true | _ => false end) →
  ch_closed (rc_errorCh c') = over st' → Forall (λ st, close_stage st = 0) (rs_closes s) →
  rcd_ok (moved s c' k st').
Proof.
  intros [H1 H2 H3 H4 H5 H6] Hk Hl Hlen Es Ew Hc Hn Hst Hr He Hq. unfold started. rewrite Es, Nat.sub_diag, !app_nil_r.
  assert (k < length (rs_readers s)) as Hlt by by eapply lookup_lt_Some.
  pose proof (live_insert reader_live _ k st st' Hk) as E.
  assert (reader_live st' = true ∧ reading st' = false ∧ retrying st' = false) as (Hl' & ? & ?) by (destruct Hst as [->|[->| ->]]; done).
  rewrite Hl, Hl' in E. cbn in E.
  split; cbn; rewrite ?Es, ?Ew; try done.
  - by rewrite length_insert.
  - rewrite H3. lia.
  - intros i x Hi Hx. rewrite list_lookup_insert_ne in Hi by lia. by apply (H4 i).
  - apply (ph_failed _ _ _ k st'); try done; [by rewrite Es|by apply list_lookup_insert_eq].
Qed.

(** [wg.Done()] of a goroutine. *)
Lemma done_phase c c' R R' K :
  phase c R K → c' = put_wg (rc_wg c - 1) c → (0 < rc_wg c)%Z →
  (∀ i st, R !! i = Some st → R' !! i = Some st ∨ st = GDone ∧ R' !! i = Some GEnd) → phase c' R' K.
Proof.
  intros Hp -> Hw HR. destruct Hp as [H1 H2 H3 H4 H5 H6|k st|k st|k st j cst|k st|].
  - by apply ph_fresh.
  - apply (ph_open _ _ _ k st); try done. destruct (HR k st) as [|[-> _]]; done.
  - apply (ph_retry _ _ _ k st); try done. destruct (HR k st) as [|[-> _]]; done.
  - assert (¬ 2 ≤ close_stage cst) as Hn by (intros H'; specialize (H7 H'); lia).
    destruct (HR k st) as [HR'|[-> HR']]; [done|..].
    + by apply (ph_closing _ _ _ k st j cst); try done.
    + apply (ph_closing _ _ _ k GEnd j cst); try done.
  - destruct (HR k st) as [HR'|[-> HR']]; [done|..].
    + by apply (ph_failed _ _ _ k st).
    + by apply (ph_failed _ _ _ k GEnd).
  - lia.
Qed.

Lemma reader_done s k :
  rcd_ok s → rs_readers s !! k = Some GDone →
  wp (rc_wg_done ;; mret GEnd) (λ st' c', rcd_ok (moved s c' k st')) (rs_client s).
Proof.
  intros Hs Hk. pose proof (live_insert reader_live _ k _ GEnd Hk) as E. cbn in E.
  assert (k < length (rs_readers s)) as Hlt by by eapply lookup_lt_Some.
  assert (0 < rc_wg (rs_client s))%Z as Hw by (pose proof (ro_wg _ Hs); lia).
  apply wp_bind. unfold rc_wg_done, wp at 1. destruct (Z.leb_spec (rc_wg (rs_client s)) 0); [lia|].
  apply wp_ret. unfold started. cbn [put_wg rc_sockets]. rewrite Nat.sub_diag, !app_nil_r.
  destruct Hs as [H1 H2 H3 H4 H5 H6]. split; cbn; try done.
  - by rewrite length_insert.
  - rewrite H3. lia.
  - intros i x Hi Hx. destruct (decide (i = k)) as [->|Hne].
    + rewrite list_lookup_insert_eq in Hi by done. by injection Hi as <-.
    + rewrite list_lookup_insert_ne in Hi by done. by apply (H4 i).
  - eapply done_phase; [exact H6|done|done|]. intros i x Hi. destruct (decide (i = k)) as [->|Hne].
    + right. split; [congruence|]. by apply list_lookup_insert_eq.
    + left. by rewrite list_lookup_insert_ne.
Qed.

(** ** Every step goes through and keeps the invariant *)
Section steps.
  Context {C : MsgCodec} (interval : Z).

Lemma note_hello_same cm c : wp (note_hello cm) (λ _ c', same_flags c c') c.
Proof.
  unfold note_hello. destruct (cm_Data cm); try by apply wp_ret.
  unfold when. destruct (_ && _); [|by apply wp_ret]. by apply wp_modify.
Qed.

Lemma read_message_same m c :
  wp (read_message m) (λ st' c', same_flags c c' ∧ reading st' = true) c.
Proof.
  unfold read_message. branch; [by apply wp_ret|]. destruct (Unpack (wm_Data m)) as [cm|e]; [|by apply wp_ret].
  apply wp_bind. eapply wp_mono; [apply note_hello_same|]. intros ? c' H. by apply wp_ret.
Qed.

Lemma take_message_ok s k :
  rcd_ok s → rs_readers s !! k = Some GRead →
  wp (take_message k) (λ st' c', same_flags (rs_client s) c' ∧ reading st' = true) (rs_client s).
Proof.
  intros Hs Hk. destruct (reading_phase s k GRead Hs Hk eq_refl) as (Hlen & _).
  destruct (lookup_lt_is_Some_2 (rc_sockets (rs_client s)) k) as [w Hw]; [lia|].
  unfold take_message, wp. rewrite Hw. cbn [mbind option_bind].
  destruct (recv (wc_receiveCh w)) as [[m ch]|[]]; [|done..]. split; [|done].
  apply sockets_same. right. by apply (Forall_lookup_1 _ _ _ _ (ro_sockets _ Hs) Hw).
Qed.

Lemma pass_message_ok s k cm :
  rcd_ok s → rs_readers s !! k = Some (GOut cm) →
  wp (pass_message cm) (λ st' c', same_flags (rs_client s) c' ∧ reading st' = true) (rs_client s).
Proof.
  intros Hs Hk. destruct (reading_phase s k _ Hs Hk eq_refl) as (_ & Hr & _). unfold pass_message, wp.
  destruct (try_send cm (rc_receiveCh (rs_client s))) as [ch| |] eqn:Ht; [|done|].
  - split; [|done]. split; try done. cbn. by apply try_send_closed in Ht.
  - unfold try_send in Ht. rewrite Hr in Ht. by destruct (bool_decide _).
Qed.

(** An error is sent on the way to the next stage. *)
Lemma send_then s k e st st' :
  rcd_ok s → rs_readers s !! k = Some st →
  reading st = true ∧ reading st' = true ∨ retrying st = true ∧ retrying st' = true →
  wp (rc_sendError e ;; mret st') (λ st' c', rcd_ok (moved s c' k st')) (rs_client s).
Proof.
  intros Hs Hk Hst. apply wp_bind. eapply wp_mono; [by apply error_sent|]. intros ? c' H. apply wp_ret.
  eapply ok_moved; [done..|]. destruct Hst; auto.
Qed.

Lemma reader_reading s k cb dial st :
  rcd_ok s → rs_readers s !! k = Some st → reading st = true →
  wp (rc_reader_step interval k cb dial st) (λ st' c', rcd_ok (moved s c' k st')) (rs_client s).
Proof.
  intros Hs Hk Hst.
  assert (∀ m : go rcd_client rc_reader, wp m (λ st' c', same_flags (rs_client s) c' ∧ reading st' = true) (rs_client s) →
    wp m (λ st' c', rcd_ok (moved s c' k st')) (rs_client s)) as Hgo.
  { intros m H. eapply wp_mono; [exact H|]. intros st' c' [Hf Hr]. eapply ok_moved; [done..|]. by left. }
  destruct st; try done; cbn [rc_reader_step].
  - by apply Hgo, take_message_ok.
  - apply Hgo, read_message_same.
  - apply (send_then s k e (GReport e) GRead); [done..|]. by left.
  - apply Hgo. by apply (pass_message_ok s k).
  - destruct (reading_phase s k GCheck Hs Hk eq_refl) as (_ & _ & [[Hc Hn]|[Hc Hn]]); apply wp_bind, wp_gets; rewrite Hn.
    + rewrite bool_decide_true by done. apply wp_bind, wp_modify, wp_ret. by apply ok_lost.
    + rewrite bool_decide_false by (by intros []). apply wp_ret. eapply ok_moved; [done..|]. right; right. by rewrite Hc.
Qed.

Lemma reader_retrying s k cb dial st :
  rcd_ok s → rs_readers s !! k = Some st → retrying st = true → dial_open dial →
  wp (rc_reader_step interval k cb dial st) (λ st' c', rcd_ok (moved s c' k st')) (rs_client s).
Proof.
  intros Hs Hk Hst Hd.
  assert (∀ st', retrying st' = true → rcd_ok (moved s (rs_client s) k st')) as Hstay
    by (intros st' H'; eapply ok_moved; [done..|]; by right; left).
  destruct (retrying_phase s k st Hs Hk Hst) as (Hlen & Hc & Hn & Hr & He & Hq).
  destruct st; try done; cbn [rc_reader_step].
  - by apply wp_ret, Hstay.
  - apply wp_ret. by destruct cb as [[]|]; apply Hstay.
  - apply wp_bind. destruct dial as [w|e].
    + unfold rcd_Connect at 1. apply wp_bind, wp_gets. rewrite Hc, Hn, bool_decide_false by (by intros []).
      apply wp_bind, wp_modify, wp_bind, wp_modify, wp_bind, wp_modify, wp_ret, wp_ret.
      eapply ok_connected; [done..|]. unfold rcd_Connect, mbind, go_bind, gets.
      by rewrite Hc, Hn, bool_decide_false by (by intros []).
    + unfold rcd_Connect at 1. apply wp_bind, wp_gets. rewrite Hc, Hn, bool_decide_false by (by intros []).
      by apply wp_ret, wp_ret, Hstay.
  - apply (send_then s k _ (GRetry e attempt waitTime)); [done..|]. by right.
  - apply (send_then s k _ (GFail e)); [done..|]. by right.
  - apply wp_bind, wp_gets, wp_bind, wp_modify, wp_ret.
    by apply (ok_failing s _ k GMark GCloseReceive); auto.
Qed.

(** Closing a channel that is open. *)
Definition shut {A} (ch : chan A) : chan A := Chan (ch_cap ch) (ch_buf ch) true.

Lemma close_receive_wp c :
  ch_closed (rc_receiveCh c) = false → wp close_receiveCh (λ _ c', c' = put_out (shut (rc_receiveCh c)) (rc_errorCh c) c) c.
Proof. intros H. unfold close_receiveCh, close_chan, wp. by rewrite H. Qed.
Lemma close_error_wp c :
  ch_closed (rc_errorCh c) = false → wp close_errorCh (λ _ c', c' = put_out (rc_receiveCh c) (shut (rc_errorCh c)) c) c.
Proof. intros H. unfold close_errorCh, close_chan, wp. by rewrite H. Qed.

Lemma reader_failing s k cb dial st :
  rcd_ok s → rs_readers s !! k = Some st → st = GCloseReceive ∨ st = GCloseError →
  wp (rc_reader_step interval k cb dial st) (λ st' c', rcd_ok (moved s c' k st')) (rs_client s).
Proof.
  intros Hs Hk Hst. destruct (failing_phase s k st Hs Hk Hst) as (Hlen & Hc & Hn & Hr & He & Hq).
  destruct Hst as [-> | ->]; cbn [rc_reader_step]; apply wp_bind.
  - eapply wp_mono; [by apply close_receive_wp|]. intros ? c' ->. apply wp_ret.
    by apply (ok_failing s _ k GCloseReceive GCloseError); auto.
  - eapply wp_mono; [by apply close_error_wp|]. intros ? c' ->. apply wp_ret.
    by apply (ok_failing s _ k GCloseError GDone); auto.
Qed.

Lemma reader_moves s k cb dial st :
  rcd_ok s → rs_readers s !! k = Some st → dial_open dial →
  wp (rc_reader_step interval k cb dial st) (λ st' c', rcd_ok (moved s c' k st')) (rs_client s).
Proof.
  intros Hs Hk Hd. destruct st; try (by apply reader_reading); try (by apply reader_retrying).
  - apply reader_failing; auto.
  - apply reader_failing; auto.
  - by apply reader_done.
  - apply wp_ret. unfold started. rewrite Nat.sub_diag, !app_nil_r, list_insert_id by done. by destruct s.
Qed.

(** The goroutine of the errors. *)
Lemma errors_move s k st :
  rcd_ok s → rs_errors s !! k = Some st →
  wp (rc_errors_step k st)
    (λ st' c', rcd_ok {| rs_client := c'; rs_readers := rs_readers s; rs_errors := <[k := st']> (rs_errors s);
                         rs_closes := rs_closes s |}) (rs_client s).
Proof.
  intros Hs Hk. assert (k < length (rs_errors s)) as Hlt by by eapply lookup_lt_Some.
  assert (∀ st' c', same_flags (rs_client s) c' → errors_live st = true → errors_live st' = true →
    rcd_ok {| rs_client := c'; rs_readers := rs_readers s; rs_errors := <[k := st']> (rs_errors s);
              rs_closes := rs_closes s |}) as Hgo.
  { intros st' c' Hf Hl Hl'. destruct (ok_same s c' Hs Hf) as [H1 H2 H3 H4 H5 H6].
    pose proof (live_insert errors_live _ k _ st' Hk) as E. rewrite Hl, Hl' in E. cbn in *.
    split; cbn; try done; [by rewrite length_insert|]. rewrite H3. lia. }
  destruct st; cbn [rc_errors_step].
  - destruct (lookup_lt_is_Some_2 (rc_sockets (rs_client s)) k) as [w Hw]; [by rewrite <-(ro_errors _ Hs)|].
    unfold wp. rewrite Hw. cbn [mbind option_bind].
    destruct (recv (wc_errorCh w)) as [[e ch]|[]]; apply Hgo; try done.
    apply sockets_same. right. by apply (Forall_lookup_1 _ _ _ _ (ro_sockets _ Hs) Hw).
  - apply wp_bind. eapply wp_mono; [by apply error_sent|]. intros ? c' H. by apply wp_ret, Hgo.
  - pose proof (live_insert errors_live _ k _ EEnd Hk) as E. cbn in E.
    assert (0 < rc_wg (rs_client s))%Z as Hw by (pose proof (ro_wg _ Hs); lia).
    apply wp_bind. unfold rc_wg_done, wp at 1. destruct (Z.leb_spec (rc_wg (rs_client s)) 0); [lia|].
    apply wp_ret. destruct Hs as [H1 H2 H3 H4 H5 H6]. split; cbn; try done.
    + by rewrite length_insert.
    + rewrite H3. lia.
    + eapply done_phase; [exact H6|done|done|]. by left.
  - apply wp_ret. rewrite list_insert_id by done. by destruct s.
Qed.

End steps.

(** ** The steps of a [Close] *)

(** A [Close] that is not past its guard does not count. *)
Lemma phase_quiet c R K j x y :
  phase c R K → K !! j = Some x → close_stage x = 0 → close_stage y = 0 → phase c R (<[j := y]> K).
Proof.
  intros Hp Hj Hx Hy.
  assert (Forall (λ st, close_stage st = 0) K → Forall (λ st, close_stage st = 0) (<[j := y]> K)) as Hq
    by (intros; by apply Forall_insert).
  destruct Hp as [|k st|k st|k st i cst|k st|].
  - apply ph_fresh; auto.
  - apply (ph_open _ _ _ k st); auto.
  - apply (ph_retry _ _ _ k st); auto.
  - assert (j ≠ i) as Hne by (intros ->; assert (cst = x) as -> by congruence; lia).
    apply (ph_closing _ _ _ k st i cst); try done; [by rewrite list_lookup_insert_ne|].
    intros i' z Hz Hi'. destruct (decide (j = i')) as [<-|]; [|rewrite list_lookup_insert_ne in Hz by done; eauto].
    rewrite list_lookup_insert_eq in Hz by (by eapply lookup_lt_Some). by injection Hz as <-.
  - apply (ph_failed _ _ _ k st); auto.
  - apply ph_over; auto.
Qed.

Lemma quiet_lookup K j x : Forall (λ st, close_stage st = 0) K → K !! j = Some x → close_stage x = 0.
Proof. intros H Hj. by apply (Forall_lookup_1 _ _ _ _ H Hj). Qed.

Lemma closing_phase s j cst :
  rcd_ok s → rs_closes s !! j = Some cst → 1 ≤ close_stage cst →
  ∃ k st, length (rc_sockets (rs_client s)) = S k ∧ rc_closed (rs_client s) = true ∧ rc_wsClient (rs_client s) = None ∧
    (∀ i x, rs_closes s !! i = Some x → i ≠ j → close_stage x = 0) ∧
    ch_closed (rc_receiveCh (rs_client s)) = (close_stage cst =? 3) ∧ ch_closed (rc_errorCh (rs_client s)) = false ∧
    (2 ≤ close_stage cst → rc_wg (rs_client s) = 0%Z) ∧
    rs_readers s !! k = Some st ∧ (reading st = true ∨ over st = true).
Proof.
  intros Hs Hj Hst. destruct (ro_phase _ Hs) as [|k st|k st|k st i cst'|k st|];
    try (match goal with H : Forall _ (rs_closes s) |- _ => pose proof (quiet_lookup _ _ _ H Hj); lia end).
  assert (i = j) as ->. { destruct (decide (i = j)) as [|Hne]; [done|]. rewrite (H4 j cst Hj) in Hst; [lia|congruence]. }
  assert (cst' = cst) as -> by congruence. exists k, st. by split_and!.
Qed.

Abbreviation closed_to s c' j st' := {|
  rs_client := c'; rs_readers := rs_readers s; rs_errors := rs_errors s; rs_closes := <[j := st']> (rs_closes s) |}.

(** From a stage past the guard to the next one. *)
Lemma ok_closing s c' j cst cst' :
  rcd_ok s → rs_closes s !! j = Some cst → 1 ≤ close_stage cst → 1 ≤ close_stage cst' →
  rc_sockets c' = rc_sockets (rs_client s) → rc_wg c' = rc_wg (rs_client s) → rc_closed c' = true →
  rc_wsClient c' = None → ch_closed (rc_receiveCh c') = (close_stage cst' =? 3) → ch_closed (rc_errorCh c') = false →
  (2 ≤ close_stage cst' → rc_wg c' = 0%Z) → rcd_ok (closed_to s c' j cst').
Proof.
  intros Hs Hj Hst Hst' Es Ew Hc Hn Hr He Hw.
  destruct (closing_phase s j cst Hs Hj Hst) as (k & st & Hlen & _ & _ & Hq & _ & _ & _ & Hk & Hrd).
  assert (j < length (rs_closes s)) as Hlt by by eapply lookup_lt_Some.
  destruct Hs as [H1 H2 H3 H4 H5 H6]. split; cbn; rewrite ?Es, ?Ew; try done.
  apply (ph_closing _ _ _ k st j cst'); try done; [by rewrite Es|by apply list_lookup_insert_eq|].
  intros i x Hi Hne. rewrite list_lookup_insert_ne in Hi by done. by apply (Hq i).
Qed.

Lemma ok_refused s j st r :
  rcd_ok s → rs_closes s !! j = Some st → close_stage st = 0 → rcd_ok (closed_to s (rs_client s) j (CRet r)).
Proof.
  intros [] Hj Hst. split; cbn; try done. by eapply phase_quiet.
Qed.

Lemma close_starting s j :
  rcd_ok s → rs_closes s !! j = Some CStart →
  wp (rc_close_step (Ok tt) CStart) (λ st' c', rcd_ok (closed_to s c' j st')) (rs_client s).
Proof.
  intros Hs Hj. cbn [rc_close_step]. apply wp_bind, wp_gets. destruct (rc_closed (rs_client s)) eqn:Hc.
  { apply wp_ret. by apply (ok_refused s j CStart). }
  destruct (rc_wsClient (rs_client s)) as [k|] eqn:Hn; [|by apply wp_ret, (ok_refused s j CStart)].
  apply wp_bind, wp_modify, wp_ret. assert (j < length (rs_closes s)) as Hlt by by eapply lookup_lt_Some.
  destruct Hs as [H1 H2 H3 H4 H5 H6]. split; cbn; try done.
  destruct H6 as [|k0 st|k0 st|k0 st i cst|k0 st|]; try congruence.
  apply (ph_closing _ _ _ k0 st j (CSocket k)); cbn; try done; try lia; [by apply list_lookup_insert_eq| |by left].
  intros i x Hi Hne. rewrite list_lookup_insert_ne in Hi by done. by eapply quiet_lookup.
Qed.

Lemma close_moves s j closed st :
  rcd_ok s → rs_closes s !! j = Some st →
  wp (rc_close_step closed st) (λ st' c', rcd_ok (closed_to s c' j st')) (rs_client s).
Proof.
  intros Hs Hj. destruct st as [|k|r|r|r|r]; [exact (close_starting s j Hs Hj)|..]; cbn [rc_close_step].
  5: { apply wp_ret. by apply (ok_refused s j (CRet r)). }
  all: destruct (closing_phase s j _ Hs Hj ltac:(cbn; lia)) as (k0 & st0 & Hlen & Hc & Hn & Hq & Hr & He & Hw & _); cbn in Hr, Hw.
  - apply wp_ret. by apply (ok_closing s _ j (CSocket k)); cbn; auto; lia.
  - apply wp_bind, wp_gets, wp_ret. destruct (Z.eqb_spec (rc_wg (rs_client s)) 0).
    + by apply (ok_closing s _ j (CWait r)); cbn; auto; lia.
    + apply (ok_closing s _ j (CWait r)); cbn; auto; lia.
  - apply wp_bind. eapply wp_mono; [by apply close_receive_wp|]. intros ? c' ->. apply wp_ret.
    apply (ok_closing s _ j (CCloseReceive r)); cbn; auto; lia.
  - apply wp_bind. eapply wp_mono; [by apply close_error_wp|]. intros ? c' ->. apply wp_ret.
    destruct Hs as [H1 H2 H3 H4 H5 H6]. split; cbn; try done. apply ph_over; cbn; try done; [|apply Hw; lia].
    apply Forall_lookup_2. intros i x Hi. destruct (decide (i = j)) as [->|Hne].
    + rewrite list_lookup_insert_eq in Hi by (by eapply lookup_lt_Some). by injection Hi as <-.
    + rewrite list_lookup_insert_ne in Hi by done. by apply (Hq i).
Qed.

(** ** What may happen *)

(** The client lost its connection and has not got another yet. *)
Definition reconnecting (c : rcd_client) : Prop :=
  rc_closed c = false ∧ rc_wsClient c = None ∧ rc_sockets c ≠ [].

(** [ws.NewClient] gives a client that accepts messages; the caller does not
    call [Connect] while the client reconnects. *)
Definition rc_allowed (ev : rc_event) (s : rc_sys) : Prop :=
  match ev with
  | RvConnect dial => dial_open dial ∧ ¬ reconnecting (rs_client s)
  | RvReader _ _ dial => dial_open dial
  | RvSocket _ w => sock_open w
  | _ => True
  end.

Section reach.
  Context {C : MsgCodec} (interval : Z).

Inductive rc_reach : rc_sys → Prop :=
  | rc_reach_initial : rc_reach rc_initial
  | rc_reach_step s ev s' : rc_reach s → rc_allowed ev s → rc_step interval ev s = Some s' → rc_reach s'.

Lemma connect_moves s dial :
  rcd_ok s → dial_open dial → ¬ reconnecting (rs_client s) →
  wp (rcd_Connect dial)
    (λ _ c', rcd_ok {| rs_client := c'; rs_readers := rs_readers s ++ started (rs_client s) c' GRead;
                       rs_errors := rs_errors s ++ started (rs_client s) c' ERead; rs_closes := rs_closes s |}) (rs_client s).
Proof.
  intros Hs Hd Hre.
  assert (rcd_ok {| rs_client := rs_client s; rs_readers := rs_readers s ++ started (rs_client s) (rs_client s) GRead;
    rs_errors := rs_errors s ++ started (rs_client s) (rs_client s) ERead; rs_closes := rs_closes s |}) as Hs'.
  { unfold started. rewrite Nat.sub_diag, !app_nil_r. by destruct s. }
  unfold rcd_Connect. apply wp_bind, wp_gets. destruct (rc_closed (rs_client s)) eqn:Hc; [by apply wp_ret|].
  destruct (bool_decide_reflect (rc_wsClient (rs_client s) ≠ None)) as [|Hn]; [by apply wp_ret|].
  assert (rc_wsClient (rs_client s) = None) as Hnone by (destruct (rc_wsClient (rs_client s)); [by destruct Hn|done]).
  destruct dial as [w|e]; [|by apply wp_ret].
  assert (rc_sockets (rs_client s) = []) as Hnil.
  { destruct (rc_sockets (rs_client s)) eqn:E; [done|]. exfalso. apply Hre. unfold reconnecting. by rewrite E. }
  apply wp_bind, wp_modify, wp_bind, wp_modify, wp_bind, wp_modify, wp_ret.
  destruct Hs as [H1 H2 H3 H4 H5 H6]. rewrite Hnil in H1, H2. apply nil_length_inv in H1, H2.
  unfold started. cbn. rewrite Hnil, H1, H2 in *. split; cbn; try done.
  - rewrite H3. done.
  - intros [|i] st Hi Hx; [lia|done].
  - by apply Forall_singleton.
  - assert (∀ k, length (rc_sockets (rs_client s)) = S k → False) as Hno by (rewrite Hnil; done).
    destruct H6; try congruence; try (exfalso; by eapply Hno). by apply (ph_open _ _ _ 0 GRead).
Qed.

Lemma send_same s msg : rcd_ok s → wp (rcd_Send msg) (λ _ c', same_flags (rs_client s) c') (rs_client s).
Proof.
  intros Hs. unfold rcd_Send. apply wp_bind, wp_gets. destruct (rc_closed (rs_client s)) eqn:Hc; [by apply wp_ret|].
  destruct (rc_wsClient (rs_client s)) as [k|] eqn:Hn; [|by apply wp_ret].
  destruct (Pack msg) as [data|e]; [|by apply wp_ret].
  assert (k < length (rc_sockets (rs_client s))) as Hlt by (destruct (ro_phase _ Hs); try congruence; simplify_eq; lia).
  destruct (lookup_lt_is_Some_2 _ _ Hlt) as [w Hw].
  pose proof (Forall_lookup_1 _ _ _ _ (ro_sockets _ Hs) Hw) as Ho.
  set (m := {| wm_ClientID := str0; wm_ConnID := str0; wm_Type := BinaryMessage; wm_Data := data |}).
  destruct (sender_send m w Ho) as (r & w' & E & Ho').
  unfold socket_send, wp. rewrite Hw. cbn [mbind option_bind]. rewrite E. cbn. apply sockets_same. by right.
Qed.

Lemma rc_step_ok ev s : rcd_ok s → rc_allowed ev s → ∃ s', rc_step interval ev s = Some s' ∧ rcd_ok s'.
Proof.
  intros Hs Ha. destruct ev as [dial|k cb dial|k| |j closed|msg|k w| |]; cbn [rc_step].
  - destruct Ha as [Hd Hre]. destruct (proj1 (wp_inv _ _ _) (connect_moves s dial Hs Hd Hre)) as (r & c' & -> & H).
    by eexists.
  - destruct (rs_readers s !! k) as [st|] eqn:Hk; [|by exists s].
    destruct (proj1 (wp_inv _ _ _) (reader_moves interval s k cb dial st Hs Hk Ha)) as (st' & c' & -> & H). by eexists.
  - destruct (rs_errors s !! k) as [st|] eqn:Hk; [|by exists s].
    destruct (proj1 (wp_inv _ _ _) (errors_move s k st Hs Hk)) as (st' & c' & -> & H). by eexists.
  - eexists. split; [done|]. destruct Hs as [H1 H2 H3 H4 H5 H6]. split; cbn; try done.
    assert (Forall (λ st, close_stage st = 0) (rs_closes s) → Forall (λ st, close_stage st = 0) (rs_closes s ++ [CStart])) as Hq
      by (intros; apply Forall_app; split; [done|by apply Forall_singleton]).
    destruct H6 as [|k st|k st|k st i cst E1 E2 E3 Hi0 Hst Hqi|k st|].
    + apply ph_fresh; auto.
    + apply (ph_open _ _ _ k st); auto.
    + apply (ph_retry _ _ _ k st); auto.
    + apply (ph_closing _ _ _ k st i cst); try done; [by apply lookup_app_l_Some|].
      intros i' x [Hi|[_ Hi]]%lookup_app_Some Hne; [by apply (Hqi i')|].
      destruct (i' - length (rs_closes s)); [by injection Hi as <-|done].
    + apply (ph_failed _ _ _ k st); auto.
    + apply ph_over; auto.
  - destruct (rs_closes s !! j) as [st|] eqn:Hj; [|by exists s].
    destruct (proj1 (wp_inv _ _ _) (close_moves s j closed st Hs Hj)) as (st' & c' & -> & H). by eexists.
  - destruct (proj1 (wp_inv _ _ _) (send_same s msg Hs)) as (r & c' & -> & H). eexists. split; [done|]. by apply ok_same.
  - eexists. split; [done|]. destruct (bool_decide _); [|done]. apply ok_same; [done|]. apply sockets_same. by right.
  - eexists. split; [done|]. destruct (recv _) as [[m ch]|b] eqn:Hr; [|done]. apply ok_same; [done|].
    split; try done. cbn. by apply recv_closed in Hr.
  - eexists. split; [done|]. destruct (recv _) as [[m ch]|b] eqn:Hr; [|done]. apply ok_same; [done|].
    split; try done. cbn. by apply recv_closed in Hr.
Qed.

Lemma rc_reach_ok s : rc_reach s → rcd_ok s.
Proof.
  induction 1 as [|s ev s' _ IH Ha E]; [apply initial_rcd_ok|]. destruct (rc_step_ok ev s IH Ha) as (s1 & E1 & H). congruence.
Qed.

(** ** A [Close] that waits for the goroutines *)
Definition gone_sock (w : ws_client) : Prop := recv (wc_receiveCh w) = inr true ∧ recv (wc_errorCh w) = inr true.

Record draining (j : nat) (r : result unit) (s : rc_sys) : Prop := {
  dr_ok : rcd_ok s;
  dr_wait : rs_closes s !! j = Some (CWait r);
  dr_closed : rc_closed (rs_client s) = true;
  dr_gone : Forall gone_sock (rc_sockets (rs_client s));
}.

(** The steps a goroutine still makes. *)
Definition reader_rank (st : rc_reader) : nat :=
  match st with
  | GMsg _ => 6 | GOut _ => 5 | GReport _ => 4 | GRead => 3 | GCheck => 2 | GDone => 1 | _ => 0
  end.
Definition errors_rank (st : rc_errors) : nat := match st with EReport _ => 3 | ERead => 2 | EDone => 1 | EEnd => 0 end.

Lemma draining_reader j r s i st :
  draining j r s → rs_readers s !! i = Some st → reading st = true ∨ over st = true.
Proof.
  intros [Hs Hj Hc _] Hi. destruct (closing_phase s j _ Hs Hj ltac:(cbn; lia)) as (k & st0 & Hlen & _ & _ & _ & _ & _ & _ & Hk & Hst).
  destruct (decide (i = k)) as [->|Hne]; [by assert (st0 = st) as <- by congruence|].
  right. apply (ro_old _ Hs i st Hi). apply lookup_lt_Some in Hi. rewrite (ro_readers _ Hs) in Hi. lia.
Qed.

(** The client and the stage come from the step; the rank is arithmetic. *)
Ltac drained := do 2 eexists; split; [reflexivity|]; split_and!; cbn; first [done|lia].

Lemma drain_reader_step j r s i st e :
  draining j r s → rs_readers s !! i = Some st →
  ∃ st' c', rc_reader_step interval i None (Err e) st (rs_client s) = Some (st', c') ∧
    reader_rank st' ≤ pred (reader_rank st) ∧ rc_sockets c' = rc_sockets (rs_client s) ∧ rc_closed c' = true.
Proof.
  intros Hd Hi. pose proof Hd as [Hs Hj Hc Hg].
  assert (∃ w, rc_sockets (rs_client s) !! i = Some w ∧ gone_sock w) as (w & Hw & Hw1 & Hw2).
  { destruct (lookup_lt_is_Some_2 (rc_sockets (rs_client s)) i) as [w Hw].
    - rewrite <-(ro_readers _ Hs). by eapply lookup_lt_Some.
    - exists w. split; [done|]. by apply (Forall_lookup_1 _ _ _ _ Hg Hw). }
  destruct (draining_reader j r s i st Hd Hi) as [Hst|Hst]; destruct st; try done; cbn [rc_reader_step].
  - unfold take_message. rewrite Hw. cbn [mbind option_bind]. rewrite Hw1. drained.
  - unfold read_message. destruct (negb _); [drained|].
    destruct (Unpack (wm_Data m)) as [cm|]; [|drained].
    unfold note_hello, mbind, go_bind. destruct (cm_Data cm); try drained.
    unfold when. destruct (_ && _); drained.
  - unfold rc_sendError, mbind, go_bind. rewrite Hc. drained.
  - unfold pass_message. destruct (reading_phase s i _ Hs Hi eq_refl) as (_ & Hr & _).
    unfold try_send. rewrite Hr. destruct (bool_decide _); drained.
  - destruct (closing_phase s j _ Hs Hj ltac:(cbn; lia)) as (k & st0 & _ & _ & Hn & _).
    unfold mbind, go_bind, gets. rewrite Hn. drained.
  - unfold rc_wg_done, mbind, go_bind. pose proof (live_insert reader_live _ i _ GEnd Hi) as E. cbn in E.
    pose proof (ro_wg _ Hs). destruct (Z.leb_spec (rc_wg (rs_client s)) 0); [lia|]. drained.
  - drained.
Qed.

Lemma drain_reader j r s i st e :
  draining j r s → rs_readers s !! i = Some st →
  ∃ s' st', rc_step interval (RvReader i None (Err e)) s = Some s' ∧ draining j r s' ∧
    rs_readers s' = <[i := st']> (rs_readers s) ∧ rs_errors s' = rs_errors s ∧ reader_rank st' ≤ pred (reader_rank st).
Proof.
  intros Hd Hi. destruct (drain_reader_step j r s i st e Hd Hi) as (st' & c' & E & Hr & Es & Hc). pose proof Hd as [Hs Hj _ Hg].
  destruct (rc_step_ok (RvReader i None (Err e)) s Hs I) as (s' & E' & Hs'). exists s', st'. split; [done|].
  cbn [rc_step] in E'. rewrite Hi, E in E'. cbn [mbind option_bind] in E'. unfold started in E'.
  rewrite Es, Nat.sub_diag, !app_nil_r in E'. injection E' as <-. split_and!; try done.
  split; cbn; [done..|by rewrite Es].
Qed.

Lemma drain_errors j r s i st :
  draining j r s → rs_errors s !! i = Some st →
  ∃ s' st', rc_step interval (RvErrors i) s = Some s' ∧ draining j r s' ∧
    rs_errors s' = <[i := st']> (rs_errors s) ∧ rs_readers s' = rs_readers s ∧ errors_rank st' ≤ pred (errors_rank st).
Proof.
  intros Hd Hi. pose proof Hd as [Hs Hj Hc Hg].
  assert (∃ st' c', rc_errors_step i st (rs_client s) = Some (st', c') ∧ errors_rank st' ≤ pred (errors_rank st) ∧
    rc_sockets c' = rc_sockets (rs_client s) ∧ rc_closed c' = true) as (st' & c' & E & Hr & Es & Hc').
  { destruct st; cbn [rc_errors_step].
    - destruct (lookup_lt_is_Some_2 (rc_sockets (rs_client s)) i) as [w Hw];
        [rewrite <-(ro_errors _ Hs); by eapply lookup_lt_Some|].
      destruct (Forall_lookup_1 _ _ _ _ Hg Hw) as [_ Hw2]. rewrite Hw. cbn [mbind option_bind]. rewrite Hw2. drained.
    - unfold rc_sendError, mbind, go_bind. rewrite Hc. drained.
    - unfold rc_wg_done, mbind, go_bind. pose proof (live_insert errors_live _ i _ EEnd Hi) as E. cbn in E.
      pose proof (ro_wg _ Hs). destruct (Z.leb_spec (rc_wg (rs_client s)) 0); [lia|]. drained.
    - drained. }
  destruct (rc_step_ok (RvErrors i) s Hs I) as (s' & E' & Hs'). exists s', st'. split; [done|].
  cbn [rc_step] in E'. rewrite Hi, E in E'. injection E' as <-. split_and!; try done. split; cbn; [done..|by rewrite Es].
Qed.

Lemma rc_run_app evs1 evs2 s :
  rc_run interval (evs1 ++ evs2) s = s' ← rc_run interval evs1 s; rc_run interval evs2 s'.
Proof.
  revert s. induction evs1 as [|ev evs1 IH]; intros s; [done|]. cbn [app rc_run].
  destruct (rc_step interval ev s) as [s1|]; [|done]. apply IH.
Qed.

(** The goroutines of the connections, run to their ends. *)
Lemma drain_one_reader j r i e n s st :
  draining j r s → rs_readers s !! i = Some st → reader_rank st ≤ n →
  ∃ s' st', rc_run interval (replicate n (RvReader i None (Err e))) s = Some s' ∧ draining j r s' ∧
    rs_readers s' = <[i := st']> (rs_readers s) ∧ rs_errors s' = rs_errors s ∧ reader_rank st' = 0.
Proof.
  revert s st. induction n as [|n IH]; intros s st Hd Hi Hn.
  - exists s, st. split_and!; try done; [by rewrite list_insert_id|lia].
  - destruct (drain_reader j r s i st e Hd Hi) as (s1 & st1 & E1 & Hd1 & Hr1 & He1 & Hn1).
    assert (rs_readers s1 !! i = Some st1) as Hi1 by (rewrite Hr1; apply list_lookup_insert_eq; by eapply lookup_lt_Some).
    destruct (IH s1 st1 Hd1 Hi1) as (s2 & st2 & E2 & Hd2 & Hr2 & He2 & Hn2); [lia|].
    exists s2, st2. cbn [replicate rc_run]. rewrite E1. cbn [mbind option_bind].
    split_and!; [done|done|by rewrite Hr2, Hr1, list_insert_insert_eq|congruence|done].
Qed.

Lemma drain_one_errors j r i n s st :
  draining j r s → rs_errors s !! i = Some st → errors_rank st ≤ n →
  ∃ s' st', rc_run interval (replicate n (RvErrors i)) s = Some s' ∧ draining j r s' ∧
    rs_errors s' = <[i := st']> (rs_errors s) ∧ rs_readers s' = rs_readers s ∧ errors_rank st' = 0.
Proof.
  revert s st. induction n as [|n IH]; intros s st Hd Hi Hn.
  - exists s, st. split_and!; try done; [by rewrite list_insert_id|lia].
  - destruct (drain_errors j r s i st Hd Hi) as (s1 & st1 & E1 & Hd1 & Hr1 & He1 & Hn1).
    assert (rs_errors s1 !! i = Some st1) as Hi1 by (rewrite Hr1; apply list_lookup_insert_eq; by eapply lookup_lt_Some).
    destruct (IH s1 st1 Hd1 Hi1) as (s2 & st2 & E2 & Hd2 & Hr2 & He2 & Hn2); [lia|].
    exists s2, st2. cbn [replicate rc_run]. rewrite E1. cbn [mbind option_bind].
    split_and!; [done|done|by rewrite Hr2, Hr1, list_insert_insert_eq|congruence|done].
Qed.

(** Both goroutines of the socket [i]. *)
Definition drain_events (e : error) (i : nat) : list rc_event :=
  replicate 6 (RvReader i None (Err e)) ++ replicate 3 (RvErrors i).

(** The goroutines of the first [n] sockets have ended. *)
Record ended (n : nat) (s : rc_sys) : Prop := {
  en_readers i st : i < n → rs_readers s !! i = Some st → reader_rank st = 0;
  en_errors i st : i < n → rs_errors s !! i = Some st → errors_rank st = 0;
}.

Lemma drain_all j r e s n :
  draining j r s → n ≤ length (rs_readers s) →
  ∃ s', rc_run interval (flat_map (drain_events e) (seq 0 n)) s = Some s' ∧ draining j r s' ∧ ended n s' ∧
    length (rs_readers s') = length (rs_readers s).
Proof.
  intros Hd. induction n as [|n IH]; intros Hn.
  - exists s. split_and!; [done|done| |done]. split; intros; lia.
  - destruct IH as (s1 & E1 & Hd1 & [Hr1 He1] & Hl1); [lia|].
    destruct (lookup_lt_is_Some_2 (rs_readers s1) n) as [st Hst]; [lia|].
    assert (reader_rank st ≤ 6) as H6 by (destruct st; cbn; lia).
    destruct (drain_one_reader j r n e 6 s1 st Hd1 Hst H6) as (s2 & st2 & E2 & Hd2 & Hr2 & He2 & Hk2).
    destruct (lookup_lt_is_Some_2 (rs_errors s2) n) as [se Hse].
    { rewrite (ro_errors _ (dr_ok _ _ _ Hd2)), <-(ro_readers _ (dr_ok _ _ _ Hd2)), Hr2, length_insert. lia. }
    assert (errors_rank se ≤ 3) as H3 by (destruct se; cbn; lia).
    destruct (drain_one_errors j r n 3 s2 se Hd2 Hse H3) as (s3 & st3 & E3 & Hd3 & He3 & Hr3 & Hk3).
    exists s3. split_and!; [|done| |by rewrite Hr3, Hr2, length_insert].
    + rewrite seq_S, flat_map_app, rc_run_app, E1, Nat.add_0_l. cbn [mbind option_bind flat_map].
      unfold drain_events. rewrite app_nil_r, rc_run_app, E2. cbn [mbind option_bind]. by rewrite E3.
    + split; intros i x Hi.
      * rewrite Hr3, Hr2. destruct (decide (i = n)) as [->|Hne].
        -- rewrite list_lookup_insert_eq by (by eapply lookup_lt_Some). by intros [= <-].
        -- rewrite list_lookup_insert_ne by done. apply Hr1. lia.
      * rewrite He3, He2. destruct (decide (i = n)) as [->|Hne].
        -- rewrite list_lookup_insert_eq by (rewrite <-He2; by eapply lookup_lt_Some). by intros [= <-].
        -- rewrite list_lookup_insert_ne by done. apply He1. lia.
Qed.

Lemma live_none {A} (f : A → bool) l : (∀ i x, l !! i = Some x → f x = false) → live f l = 0.
Proof.
  unfold live. induction l as [|x l IH]; intros H; [done|]. cbn [List.filter].
  rewrite (H 0 x eq_refl). apply IH. intros i y Hy. by apply (H (S i)).
Qed.

Lemma ended_wg j r s :
  draining j r s → ended (length (rs_readers s)) s → rc_wg (rs_client s) = 0%Z.
Proof.
  intros Hd [Hr He]. pose proof (dr_ok _ _ _ Hd) as Hs. rewrite (ro_wg _ Hs).
  rewrite (live_none reader_live), (live_none errors_live); [done|..].
  - intros i st Hi. assert (errors_rank st = 0) as H.
    { apply (He i); [|done]. rewrite (ro_readers _ Hs), <-(ro_errors _ Hs). by eapply lookup_lt_Some. }
    by destruct st.
  - intros i st Hi. assert (reader_rank st = 0) as H by (apply (Hr i); [by eapply lookup_lt_Some|done]).
    destruct (draining_reader j r s i st Hd Hi); by destruct st.
Qed.

(** The sockets end. *)
Lemma sockets_gone w s n :
  rcd_ok s → sock_open w → n ≤ length (rc_sockets (rs_client s)) →
  ∃ s', rc_run interval ((λ i, RvSocket i w) <$> seq 0 n) s = Some s' ∧ rcd_ok s' ∧
    rs_closes s' = rs_closes s ∧ rs_readers s' = rs_readers s ∧
    rc_closed (rs_client s') = rc_closed (rs_client s) ∧
    length (rc_sockets (rs_client s')) = length (rc_sockets (rs_client s)) ∧
    ∀ i, i < n → rc_sockets (rs_client s') !! i = Some w.
Proof.
  intros Hs Hw. induction n as [|n IH]; intros Hn.
  - exists s. split_and!; try done. intros; lia.
  - destruct IH as (s1 & E1 & H1 & Hk1 & Hr1 & Hc1 & Hl1 & Hg1); [lia|].
    destruct (rc_step_ok (RvSocket n w) s1 H1 Hw) as (s2 & E2 & H2). exists s2.
    rewrite seq_S, fmap_app, rc_run_app, E1. cbn [mbind option_bind fmap list_fmap rc_run Nat.add]. rewrite E2.
    cbn [rc_step] in E2. rewrite bool_decide_true in E2 by lia. injection E2 as <-. cbn. split_and!; try done.
    + by rewrite length_insert.
    + intros i Hi. destruct (decide (i = n)) as [->|Hne]; [apply list_lookup_insert_eq; lia|].
      rewrite list_lookup_insert_ne by done. apply Hg1. lia.
Qed.

(** A step of a [Close]. *)
Lemma close_step_eq s j st closed st' c' :
  rs_closes s !! j = Some st → rc_close_step closed st (rs_client s) = Some (st', c') →
  rc_step interval (RvClose j closed) s = Some (closed_to s c' j st').
Proof. intros Hj E. cbn [rc_step]. by rewrite Hj, E. Qed.

(** A [Close] whose goroutines have ended returns. *)
Lemma close_last s j r closed :
  draining j r s → rc_wg (rs_client s) = 0%Z →
  ∃ s', rc_run interval (replicate 3 (RvClose j closed)) s = Some s' ∧ rs_closes s' !! j = Some (CRet r) ∧
    rc_closed (rs_client s') = true ∧ ch_closed (rc_receiveCh (rs_client s')) = true ∧
    ch_closed (rc_errorCh (rs_client s')) = true ∧ rs_readers s' = rs_readers s.
Proof.
  intros [Hs Hj Hc _] Hw. destruct (closing_phase s j _ Hs Hj ltac:(cbn; lia)) as (k & st & _ & _ & _ & _ & Hr & He & _).
  assert (j < length (rs_closes s)) as Hlt by by eapply lookup_lt_Some.
  set (c1 := put_out (shut (rc_receiveCh (rs_client s))) (rc_errorCh (rs_client s)) (rs_client s)).
  set (c2 := put_out (rc_receiveCh c1) (shut (rc_errorCh c1)) c1).
  assert (rc_close_step closed (CWait r) (rs_client s) = Some (CCloseReceive r, rs_client s)) as E1.
  { cbn [rc_close_step]. unfold mbind, go_bind, gets. by rewrite Hw. }
  assert (rc_close_step closed (CCloseReceive r) (rs_client s) = Some (CCloseError r, c1)) as E2.
  { cbn [rc_close_step]. unfold mbind, go_bind, close_receiveCh, close_chan. by rewrite Hr. }
  assert (rc_close_step closed (CCloseError r) c1 = Some (CRet r, c2)) as E3.
  { cbn [rc_close_step]. unfold mbind, go_bind, close_errorCh, close_chan. cbn [c1 put_out rc_errorCh]. by rewrite He. }
  exists (closed_to (closed_to (closed_to s (rs_client s) j (CCloseReceive r)) c1 j (CCloseError r)) c2 j (CRet r)).
  split; [|split_and!; try done; cbn; apply list_lookup_insert_eq; by rewrite !length_insert].
  cbn [replicate rc_run]. rewrite (close_step_eq _ _ _ _ _ _ Hj E1). cbn [mbind option_bind].
  rewrite (close_step_eq (closed_to s (rs_client s) j (CCloseReceive r)) j (CCloseReceive r) closed (CCloseError r) c1);
    [|by apply list_lookup_insert_eq|done].
  cbn [mbind option_bind rs_closes rs_readers rs_errors].
  rewrite (close_step_eq _ j (CCloseError r) closed (CRet r) c2);
    [done|apply list_lookup_insert_eq; by rewrite length_insert|done].
Qed.

Definition close_schedule (j n : nat) (r : result unit) (e : error) (w : ws_client) : list rc_event :=
  RvClose j r :: ((λ i, RvSocket i w) <$> seq 0 n) ++ RvClose j r :: flat_map (drain_events e) (seq 0 n) ++
  replicate 3 (RvClose j r).

(** C32: A client that is connected can be closed: from any state its threads
    reach, a [Close] that is called returns the answer of the socket's client,
    once the sockets have ended and each goroutine has run to its end; the
    channels of the caller are then closed. *)
Theorem rcd_close_returns s j r e w :
  rc_reach s → rs_closes s !! j = Some CStart → rc_wsClient (rs_client s) ≠ None → gone_sock w → sock_open w →
  ∃ s', rc_run interval (close_schedule j (length (rc_sockets (rs_client s))) r e w) s = Some s' ∧
    rs_closes s' !! j = Some (CRet r) ∧ rc_closed (rs_client s') = true ∧
    ch_closed (rc_receiveCh (rs_client s')) = true ∧ ch_closed (rc_errorCh (rs_client s')) = true ∧
    ∀ i st, rs_readers s' !! i = Some st → st = GEnd.
Proof.
  intros Hs%rc_reach_ok Hj Hn Hw Ho. set (n := length (rc_sockets (rs_client s))).
  destruct (rc_wsClient (rs_client s)) as [k|] eqn:Hk; [clear Hn|done].
  assert (rc_closed (rs_client s) = false) as Hc by (destruct (ro_phase _ Hs); congruence).
  assert (j < length (rs_closes s)) as Hlt by by eapply lookup_lt_Some.
  assert (rc_step interval (RvClose j r) s = Some (closed_to s (put_conn true None (rs_client s)) j (CSocket k))) as E1.
  { eapply close_step_eq; [exact Hj|]. cbn [rc_close_step]. unfold mbind, go_bind, gets. by rewrite Hc, Hk. }
  destruct (rc_step_ok (RvClose j r) s Hs I) as (s1 & E1' & H1). assert (s1 = closed_to s (put_conn true None (rs_client s)) j (CSocket k))
    as -> by congruence. clear E1'.
  destruct (sockets_gone w _ n H1 Ho) as (s2 & E2 & H2 & Hk2 & Hr2 & Hc2 & Hl2 & Hg2); [done|]. cbn in Hk2, Hr2, Hc2, Hl2.
  assert (rs_closes s2 !! j = Some (CSocket k)) as Hj2 by (rewrite Hk2; by apply list_lookup_insert_eq).
  pose proof (close_step_eq s2 j (CSocket k) r (CWait r) (rs_client s2) Hj2 eq_refl) as E3.
  destruct (rc_step_ok (RvClose j r) s2 H2 I) as (s3 & E3' & H3).
  assert (s3 = closed_to s2 (rs_client s2) j (CWait r)) as -> by congruence. clear E3'.
  assert (draining j r (closed_to s2 (rs_client s2) j (CWait r))) as Hd.
  { split; cbn; [done|apply list_lookup_insert_eq; by rewrite Hk2, length_insert|done|].
    apply Forall_lookup_2. intros i x Hi. assert (i < n) as Hin by (apply lookup_lt_Some in Hi; lia).
    rewrite (Hg2 i Hin) in Hi. by injection Hi as <-. }
  assert (length (rs_readers s2) = n) as Hlen by (rewrite Hr2; by apply ro_readers).
  destruct (drain_all j r e _ n Hd) as (s4 & E4 & Hd4 & Hen4 & Hl4); [cbn; lia|]. cbn in Hl4.
  assert (length (rs_readers s4) = n) as Hlen4 by congruence.
  assert (rc_wg (rs_client s4) = 0%Z) as Hw4 by (apply (ended_wg j r); [done|by rewrite Hlen4]).
  destruct (close_last s4 j r r Hd4 Hw4) as (s5 & E5 & Hj5 & Hc5 & Hr5 & He5 & Hrd5). exists s5. split_and!; try done.
  - unfold close_schedule. cbn [rc_run]. rewrite E1. cbn [mbind option_bind]. rewrite rc_run_app, E2.
    cbn [mbind option_bind rc_run]. rewrite E3. cbn [mbind option_bind]. by rewrite rc_run_app, E4.
  - intros i st Hi. rewrite Hrd5 in Hi. assert (reader_rank st = 0) as Hz
      by (apply (en_readers _ _ Hen4 i); [rewrite <-Hlen4; by eapply lookup_lt_Some|done]).
    destruct (draining_reader j r s4 i st Hd4 Hi); by destruct st.
Qed.

(** C31: Whatever the sockets, the service and the callers do, short of a
    [Connect] while the client reconnects, no goroutine uses or closes a closed
    channel and the wait group never goes below zero; the channel of the
    messages is closed only when no goroutine reads any more, and at most one
    [Close] is past its guard. *)
Theorem rcd_never_panics s :
  rc_reach s →
  (∀ ev, rc_allowed ev s → is_Some (rc_step interval ev s)) ∧
  (ch_closed (rc_receiveCh (rs_client s)) = true → rc_closed (rs_client s) = true ∧
     ∀ k st, rs_readers s !! k = Some st → reading st = false ∧ retrying st = false) ∧
  (∀ i j x y, rs_closes s !! i = Some x → rs_closes s !! j = Some y → 0 < close_stage x → 0 < close_stage y → i = j).
Proof.
  intros Hs%rc_reach_ok. split_and!.
  - intros ev Ha. destruct (rc_step_ok ev s Hs Ha) as (s' & E & _). by exists s'.
  - intros Hr. assert (rc_closed (rs_client s) = true) as Hc by (destruct (ro_phase _ Hs); congruence).
    split; [done|]. intros k st Hk. split; apply not_true_is_false; intros Hst.
    + destruct (reading_phase s k st Hs Hk Hst) as (_ & Hr' & _). congruence.
    + destruct (retrying_phase s k st Hs Hk Hst) as (_ & Hc' & _). congruence.
  - intros i j x y Hi Hj Hx Hy.
    destruct (closing_phase s j y Hs Hj Hy) as (k & st & _ & _ & _ & Hq & _).
    destruct (decide (i = j)) as [|Hne]; [done|]. pose proof (Hq i x Hi Hne). lia.
Qed.

(** ** The delay between attempts *)

(** The delay before the [n]th attempt. *)
Definition backoff (n : nat) : Z := Nat.iter n (next_wait interval) 0%Z.

(** A reader between two attempts counts them and has waited accordingly. *)
Definition counted (st : rc_reader) : Prop :=
  match st with
  | GSleep a w => ∃ n : nat, a = wrap_int 64 (Z.of_nat n) ∧ w = backoff n
  | GCallback a w | GConnect a w | GRetry _ a w => ∃ n : nat, a = wrap_int 64 (Z.of_nat (S n)) ∧ w = backoff (S n)
  | _ => True
  end.

Lemma reader_counted k cb dial st :
  counted st → ∀ c, wlp (rc_reader_step interval k cb dial st) (λ st' _, counted st') c.
Proof.
  intros Hst c. assert (∀ (m : go rcd_client unit) st', counted st' → wlp (m ;; mret st') (λ st' _, counted st') c) as Hthen
    by (intros m st' H'; apply wlp_bind; intros a s' _; by apply wlp_ret).
  destruct st; cbn [rc_reader_step]; try (by apply Hthen); try (by apply wlp_ret);
    try (apply Hthen; destruct Hst as (n & H1 & H2); by exists (S n)).
  - intros st' c' E. unfold take_message in E. destruct (rc_sockets c !! k) as [w|]; [|done]. cbn in E.
    by destruct (recv (wc_receiveCh w)) as [[m ch]|[]]; injection E as <- _.
  - unfold read_message. wlp_branch; [by apply wlp_ret|]. destruct (Unpack (wm_Data m)); [|by apply wlp_ret]. by apply Hthen.
  - intros st' c' E. unfold pass_message in E. destruct (try_send cm (rc_receiveCh c)); try done; by injection E as <- _.
  - apply wlp_bind. intros c0 ? [= <- <-]. destruct (bool_decide _); [|by apply wlp_ret]. apply Hthen. by exists 0%nat.
  - apply wlp_ret. destruct Hst as (n & -> & ->). exists n. split; [|done].
    replace (Z.of_nat (S n)) with (Z.of_nat n + 1)%Z by lia. by rewrite <-(wrap_int_succ (Z.of_nat n)).
  - apply wlp_ret. by destruct cb as [[[]|e]|].
  - apply wlp_bind. intros r s' _. apply wlp_ret. by destruct r.
Qed.

Lemma reach_counted s : rc_reach s → ∀ k st, rs_readers s !! k = Some st → counted st.
Proof.
  induction 1 as [|s ev s' _ IH _ E]; [done|]. intros k st Hk.
  assert (∀ n, rs_readers s' = rs_readers s ++ replicate n GRead → counted st) as Hsame.
  { intros n En. rewrite En in Hk. apply lookup_app_Some in Hk as [Hk|[_ Hk]]; [by apply (IH k)|].
    apply lookup_replicate in Hk as [-> _]. done. }
  assert (rs_readers s' = rs_readers s → counted st) as Heq by (intros En; apply (Hsame 0); by rewrite En, app_nil_r).
  destruct ev as [dial|i cb dial|i| |j closed|msg|i w| |]; cbn [rc_step] in E.
  - destruct (rcd_Connect dial (rs_client s)) as [[r c']|]; [|done]. injection E as <-. by eapply Hsame.
  - destruct (rs_readers s !! i) as [x|] eqn:Hi; [|injection E as <-; by apply Heq].
    destruct (rc_reader_step _ _ _ _ _ _) as [[x' c']|] eqn:Ex; [|done]. injection E as <-. cbn in Hk, Hsame, Heq.
    pose proof (reader_counted i cb dial x (IH i x Hi) _ _ _ Ex) as Hx.
    apply lookup_app_Some in Hk as [Hk|[_ Hk]]; [|by apply lookup_replicate in Hk as [-> _]].
    destruct (decide (i = k)) as [->|Hne]; [|rewrite list_lookup_insert_ne in Hk by done; by apply (IH k)].
    rewrite list_lookup_insert_eq in Hk by (by eapply lookup_lt_Some). by injection Hk as <-.
  - destruct (rs_errors s !! i); [|injection E as <-; by apply Heq].
    destruct (rc_errors_step _ _ _) as [[? ?]|]; [|done]. injection E as <-. by apply Heq.
  - injection E as <-. by apply Heq.
  - destruct (rs_closes s !! j); [|injection E as <-; by apply Heq].
    destruct (rc_close_step _ _ _) as [[? ?]|]; [|done]. injection E as <-. by apply Heq.
  - destruct (rcd_Send _ _) as [[? ?]|]; [|done]. injection E as <-. by apply Heq.
  - injection E as <-. apply Heq. by destruct (bool_decide _).
  - injection E as <-. apply Heq. by destruct (recv _) as [[? ?]|].
  - injection E as <-. apply Heq. by destruct (recv _) as [[? ?]|].
Qed.

(** The delay grows with each attempt until it has reached the maximum. *)
Lemma backoff_spec n :
  (0 < interval ≤ 2 ^ 62)%Z →
  backoff n = (Z.min (Z.of_nat n) ((maxReconnectInterval + interval - 1) / interval) * interval)%Z.
Proof.
  intros Hi. assert (Hmax : (0 < maxReconnectInterval < 2 ^ 61)%Z) by (unfold maxReconnectInterval, second; lia).
  set (q := ((maxReconnectInterval + interval - 1) / interval)%Z).
  assert (interval * q ≤ maxReconnectInterval + interval - 1 < interval * q + interval)%Z as Hq.
  { unfold q. pose proof (Z.div_mod (maxReconnectInterval + interval - 1) interval ltac:(lia)).
    pose proof (Z.mod_pos_bound (maxReconnectInterval + interval - 1) interval ltac:(lia)). lia. }
  clearbody q. unfold backoff. induction n as [|n IH].
  - cbn. nia.
  - cbn [Nat.iter nat_rect]. change (nat_rect _ _ _ n) with (Nat.iter n (next_wait interval) 0%Z). rewrite IH. unfold next_wait.
    destruct (bool_decide_reflect (Z.min (Z.of_nat n) q * interval < maxReconnectInterval)%Z) as [Hlt|Hge].
    + assert (Z.of_nat n < q)%Z by nia. rewrite !Z.min_l by lia. rewrite wrap_int_id; [lia|]. unfold min_int64, max_int64.
      rewrite Z.min_l in Hlt by lia. lia.
    + assert (q ≤ Z.of_nat n)%Z by nia. by rewrite !Z.min_r by lia.
Qed.

(** C33: Before the [n]th attempt to connect again the client waits [n] times
    the configured interval, up to the first multiple of it that reaches the
    maximum: the delay never reaches the maximum and an interval. *)
Theorem reconnect_backoff s k a w :
  rc_reach s → (0 < interval ≤ 2 ^ 62)%Z → rs_readers s !! k = Some (GCallback a w) →
  ∃ n, (1 ≤ n)%Z ∧ a = wrap_int 64 n ∧
    w = (Z.min n ((maxReconnectInterval + interval - 1) / interval) * interval)%Z ∧
    (interval ≤ w < maxReconnectInterval + interval)%Z.
Proof.
  intros Hs Hi Hk. destruct (reach_counted s Hs k _ Hk) as (n & Ha & Hw). exists (Z.of_nat (S n)).
  rewrite backoff_spec in Hw by done. split_and!; [lia|done|done|..]; rewrite Hw.
  all: assert (Hmax : (0 < maxReconnectInterval)%Z) by (unfold maxReconnectInterval, second; lia).
  all: set (q := ((maxReconnectInterval + interval - 1) / interval)%Z).
  all: assert (interval * q ≤ maxReconnectInterval + interval - 1 < interval * q + interval)%Z as Hq
    by (unfold q; pose proof (Z.div_mod (maxReconnectInterval + interval - 1) interval ltac:(lia));
        pose proof (Z.mod_pos_bound (maxReconnectInterval + interval - 1) interval ltac:(lia)); lia).
  all: clearbody q; assert (1 ≤ q)%Z by nia; destruct (Z.min_spec (Z.of_nat (S n)) q) as [[Hm ->]|[Hm ->]]; nia.
Qed.

(** A [Close] while the client reconnects is refused, and the client goes on
    reconnecting. *)
Theorem close_while_reconnecting_refused s j r :
  reconnecting (rs_client s) → rs_closes s !! j = Some CStart →
  rc_step interval (RvClose j r) s =
    Some (closed_to s (rs_client s) j (CRet (Err (EText "ws client is not initialized")))).
Proof.
  intros (Hc & Hn & _) Hj. apply (close_step_eq s j CStart); [done|]. cbn [rc_close_step].
  unfold mbind, go_bind, gets. by rewrite Hc, Hn.
Qed.

End reach.

(** ** A concrete client *)
Module ToyRcd.

(** A socket that has received the given messages, and one that is gone. *)
Definition toy_socket (msgs : list ws_Message) : ws_client :=
  put_receiveCh (Chan ReceiveChSize msgs false) new_ws_client.
Definition toy_gone : ws_client :=
  put_receiveCh (Chan ReceiveChSize [] true) (put_errorCh (Chan 32 [] true) new_ws_client).

Definition refused : result ws_client := Err (EText "refused").

(** The connection is lost and the first delay begins. *)
Definition losing : list rc_event :=
  [RvConnect (Ok (toy_socket [])); RvSocket 0 toy_gone; RvReader 0 None refused; RvReader 0 None refused;
   RvReader 0 None refused].

Abbreviation run := (rc_run (C := ToyService.toy_msg) second).
Abbreviation reach := (rc_reach (C := ToyService.toy_msg) second).
Definition toy_state (evs : list rc_event) : rc_sys := default rc_initial (run evs rc_initial).

Definition connecting : list rc_event := [RvConnect (Ok (toy_socket [])); RvCall].

Lemma toy_rcd_reach evs s :
  Forall (λ ev, ∀ s, rc_allowed ev s) evs → run (RvConnect (Ok (toy_socket [])) :: evs) rc_initial = Some s → reach s.
Proof.
  intros Ha E. cbn [rc_run] in E.
  destruct (rc_step second (RvConnect (Ok (toy_socket []))) rc_initial) as [s1|] eqn:E1; [|done]. cbn in E.
  assert (reach s1) as H1.
  { eapply (rc_reach_step _ _ (RvConnect (Ok (toy_socket [])))); [apply rc_reach_initial| |exact E1].
    split; [done|]. by intros (_ & _ & []). }
  clear E1. revert s1 H1 E. induction Ha as [|ev evs Hev _ IH]; intros s1 H1 E; [by injection E as <-|].
  cbn [rc_run] in E. destruct (rc_step second ev s1) as [s2|] eqn:E2; [|done].
  apply (IH s2); [|done]. by apply (rc_reach_step _ s1 ev).
Qed.

Lemma reach_losing : reach (toy_state losing).
Proof. apply (toy_rcd_reach (tail losing)); [by repeat constructor|reflexivity]. Qed.
Lemma reach_connecting : reach (toy_state connecting).
Proof. apply (toy_rcd_reach (tail connecting)); [by repeat constructor|reflexivity]. Qed.

(** A caller connects meanwhile, and then the callback refuses. *)
Definition meddling : list rc_event :=
  losing ++ [RvConnect (Ok (toy_socket [ToyService.client_msg "c1" "client" "leave|s1"]));
    RvReader 0 (Some (Err (EText "stop"))) refused; RvReader 0 None refused; RvReader 0 None refused;
    RvReader 0 None refused; RvReader 1 None refused; RvReader 1 None refused].

End ToyRcd.

(** A [Connect] of the caller while the client reconnects makes a second
    reader; when the callback then ends the reconnection, the channel of the
    messages is closed under it, and the next message panics. *)
Theorem connect_while_reconnecting_panics :
  is_Some (ToyRcd.run ToyRcd.meddling rc_initial) ∧
  rc_step (C := ToyService.toy_msg) second (RvReader 1 None ToyRcd.refused) (ToyRcd.toy_state ToyRcd.meddling) = None.
Proof. split; [vm_compute; by eexists|by vm_compute]. Qed.

(** ** Witnesses *)
Lemma rcd_close_returns_witness :
  ∃ s', ToyRcd.run (close_schedule 0 (length (rc_sockets (rs_client (ToyRcd.toy_state ToyRcd.connecting)))) (Ok tt)
      (EText "refused") ToyRcd.toy_gone) (ToyRcd.toy_state ToyRcd.connecting) = Some s' ∧
    rs_closes s' !! 0 = Some (CRet (Ok tt)).
Proof.
  assert (rs_closes (ToyRcd.toy_state ToyRcd.connecting) !! 0 = Some CStart) as H1 by reflexivity.
  assert (rc_wsClient (rs_client (ToyRcd.toy_state ToyRcd.connecting)) ≠ None) as H2 by (vm_compute; discriminate).
  destruct (rcd_close_returns (C := ToyService.toy_msg) second (ToyRcd.toy_state ToyRcd.connecting) 0 (Ok tt) (EText "refused")
    ToyRcd.toy_gone ToyRcd.reach_connecting H1 H2 (conj eq_refl eq_refl) eq_refl) as (s' & H3 & H4 & _).
  exists s'. exact (conj H3 H4).
Defined.

Lemma rcd_never_panics_witness :
  is_Some (rc_step (C := ToyService.toy_msg) second (RvReader 0 None ToyRcd.refused) (ToyRcd.toy_state ToyRcd.losing)).
Proof. apply (rcd_never_panics second _ ToyRcd.reach_losing). exact I. Defined.

Lemma reconnect_backoff_witness :
  ∃ n, (1 ≤ n)%Z ∧ 1%Z = wrap_int 64 n ∧
    second = (Z.min n ((maxReconnectInterval + second - 1) / second) * second)%Z ∧
    (second ≤ second < maxReconnectInterval + second)%Z.
Proof.
  apply (reconnect_backoff (C := ToyService.toy_msg) second (ToyRcd.toy_state ToyRcd.losing) 0 1 second ToyRcd.reach_losing).
  - unfold second. lia.
  - reflexivity.
Defined.
