(* ===== verification/EndToEnd.v ===== *)
(** * EndToEnd: a client and the service over one WebSocket

    The client of [WsClient] and the server of [WsServer] with the connection
    between them: two streams of frames, each read in the order written.  A
    write may fail and lose its frame; a read may fail at any time.  The other
    connections of the server do as they please. *)
From S2P Require Import Prelude WsServer WsClient World Service RtcdClient.

(** ** The frames of a message *)
Definition data_op (o : opcode) : bool := match o with OpText | OpBinary => true | _ => false end.

(** What the client's writer gives to the socket. *)
Definition client_frame (m : ws_Message) : opcode * string := (client_opcode m, wm_Data m).

(** The frame of a message that carries data. *)
Definition data_frame (m : ws_Message) : option (opcode * string) :=
  o ← write_opcode (wm_Type m); if data_op o then Some (o, wm_Data m) else None.
Definition data_frames (l : list ws_Message) : list (opcode * string) := omap data_frame l.

(** ** The link *)

(** [lk_up] and [lk_down] are the frames written and not yet read;
    [lk_accepted] is every message accepted by the server's [Send], and
    [lk_taken] every message taken from the client's [receiveCh];
    [lk_intact] is whether none of the client's writes has failed. *)
Record link := {
  lk_client : client_sys;
  lk_server : system;
  lk_up : list (opcode * string);
  lk_down : list (opcode * string);
  lk_accepted : list ws_Message;
  lk_taken : list ws_Message;
  lk_intact : bool;
}.

(** [LkServer ev lost]: the write that [ev] makes is lost. *)
Inductive link_event := LkClient (ev : client_event) | LkServer (ev : ws_event) (lost : bool).

(** A read fails, or returns the next frame, whatever the answer in the
    event; without a frame it waits. *)
Definition read_wire (a : result (opcode * string)) (wire : list (opcode * string)) :
    option (result (opcode * string) * list (opcode * string)) :=
  match a, wire with
  | Err e, _ => Some (Err e, wire)
  | Ok _, f :: wire => Some (Ok f, wire)
  | Ok _, [] => None
  end.

Definition client_wired (ev : client_event) (l : link) : option (client_event * list (opcode * string)) :=
  match ev with
  | CvReader a =>
      match cs_reader (lk_client l) with
      | RRead => '(a, wire) ← read_wire a (lk_down l); Some (CvReader a, wire)
      | _ => Some (ev, lk_down l)
      end
  | _ => Some (ev, lk_down l)
  end.

Definition client_write_fails (ev : client_event) : bool :=
  match ev with CvWriter _ _ (Err _) => true | _ => false end.

(** What the client's user takes. *)
Definition taken_by (ev : client_event) (w : ws_client) : list ws_Message :=
  match ev, recv (wc_receiveCh w) with CvReceive, inl (m, _) => [m] | _, _ => [] end.

Definition link_client (ev : client_event) (l : link) : option link :=
  match client_wired ev l with
  | None => Some l
  | Some (ev, down) =>
      c ← client_step ev (lk_client l);
      let new := drop (length (wc_written (cs_client (lk_client l)))) (wc_written (cs_client c)) in
      Some {| lk_client := c; lk_server := lk_server l;
              lk_up := lk_up l ++ (if client_write_fails ev then [] else client_frame <$> new);
              lk_down := down; lk_accepted := lk_accepted l;
              lk_taken := lk_taken l ++ taken_by ev (cs_client (lk_client l));
              lk_intact := lk_intact l && negb (client_write_fails ev && bool_decide (new ≠ [])) |}
  end.

Section link.
  Context `{MapOrder}.
  (** The handler that serves the client. *)
  Context (h : nat).

Definition with_read (a : answers) (r : result (opcode * string)) : answers := {|
  an_auth := an_auth a; an_upgrade := an_upgrade a; an_deadline := an_deadline a; an_read := r |}.

Definition server_wired (ev : ws_event) (l : link) : option (ws_event * list (opcode * string)) :=
  match ev with
  | EvHandler k a =>
      match sy_handlers (lk_server l) !! h with
      | Some (_, HRead _) =>
          if bool_decide (k = h) then '(r, wire) ← read_wire (an_read a) (lk_up l); Some (EvHandler k (with_read a r), wire)
          else Some (ev, lk_up l)
      | _ => Some (ev, lk_up l)
      end
  | _ => Some (ev, lk_up l)
  end.

(** The data frames among the writes, to the client's connection. *)
Definition to_client (x : nat * opcode * string) : option (opcode * string) :=
  if bool_decide (x.1.1 = h) && data_op x.1.2 then Some (x.1.2, x.2) else None.

(** What the server's [Send] accepts. *)
Definition accepted_by (ev : ws_event) (w : ws_server) : list ws_Message :=
  match ev with
  | EvSend m => match Send m w with Some (Ok _, _) => [m] | _ => [] end
  | _ => []
  end.

Definition link_server (ev : ws_event) (lost : bool) (l : link) : option link :=
  match server_wired ev l with
  | None => Some l
  | Some (ev, up) =>
      s ← ws_step ev (lk_server l);
      let new := drop (length (ws_written (sy_server (lk_server l)))) (ws_written (sy_server s)) in
      Some {| lk_client := lk_client l; lk_server := s; lk_up := up;
              lk_down := lk_down l ++ (if lost then [] else omap to_client new);
              
              lk_accepted := lk_accepted l ++ accepted_by ev (sy_server (lk_server l)); lk_taken := lk_taken l; lk_intact := lk_intact l |}
  end.

Definition link_step (ev : link_event) (l : link) : option link :=
  match ev with LkClient ev => link_client ev l | LkServer ev lost => link_server ev lost l end.

Fixpoint link_run (evs : list link_event) (l : link) : option link :=
  match evs with [] => Some l | ev :: evs => l ← link_step ev l; link_run evs l end.

End link.

(** The client and the server before they start. *)
Definition link_initial (sends : list ws_Message) (closes : nat) (ids : list string) (n : nat) : link := {|
  lk_client := client_initial sends closes; lk_server := initial ids n; lk_up := []; lk_down := [];
  lk_accepted := []; lk_taken := []; lk_intact := true |}.

(** Every upgrade succeeds. *)
Definition link_upgrades (ev : link_event) : bool :=
  match ev with LkServer ev _ => event_upgrades ev | LkClient _ => true end.

(** ** What each step does to the frames *)

Lemma data_frames_app l k : data_frames (l ++ k) = data_frames l ++ data_frames k.
Proof. apply omap_app. Qed.

Lemma client_frames_data l : Forall (λ f, data_op f.1 = true) (client_frame <$> l).
Proof. apply Forall_fmap, Forall_true. intros m. cbn. unfold client_opcode. by case_bool_decide. Qed.

(** The frame the client's reader holds. *)
Definition held (st : reader) : list (opcode * string) :=
  match st with RForward m => data_frames [m] | _ => [] end.
(** The frame a handler holds. *)
Definition held_by (st : handler) : list (opcode * string) :=
  match st with HForward _ m => data_frames [m] | _ => [] end.

(** The data that an answer brings. *)
Definition brought (a : result (opcode * string)) : list (opcode * string) :=
  match a with Ok f => if data_op f.1 then [f] else [] | Err _ => [] end.

Definition same_pipes (w w' : ws_client) : Prop :=
  wc_written w' = wc_written w ∧ ch_buf (wc_receiveCh w') = ch_buf (wc_receiveCh w).

Lemma sendError_pipes e w : wlp (sendError e) (λ _ w', same_pipes w w') w.
Proof.
  intros u w'. unfold sendError, GetConnState, gets, mbind, mret, go_bind, go_ret. cbn.
  case_bool_decide; [by intros [= <- <-]|]. destruct (try_send _ _); by intros [= <- <-].
Qed.

(** The client's reader: what it has put on [receiveCh] and what it holds,
    and nothing else. *)
Lemma reader_frames a st w :
  wlp (reader_step a st) (λ st' w', wc_written w' = wc_written w ∧
    data_frames (ch_buf (wc_receiveCh w')) ++ held st' = data_frames (ch_buf (wc_receiveCh w)) ++ held st ++
      match st with RRead => brought a | _ => [] end) w.
Proof.
  destruct st as [|m| | | | | | |]; cbn [reader_step held].
  - destruct a as [[[] data]|e]; try (by apply wlp_ret);
      (apply wlp_bind; eapply wlp_mono; [apply sendError_pipes|]; intros ? w1 [E1 E2]; apply wlp_ret;
       by rewrite E1, E2).
  - intros st' w'. unfold try_send. destruct (ch_closed _); [done|]. case_bool_decide; intros [= <- <-]; cbn.
    + by rewrite data_frames_app, !app_nil_r.
    + by rewrite app_nil_r.
  - intros st' w'. unfold close_chan. destruct (ch_closed _); [done|]. by intros [= <- <-].
  - intros st' w'. unfold wg_done, modify, mbind, mret, go_bind, go_ret. destruct (_ <=? _)%Z; [done|]. by intros [= <- <-].
  - intros st' w'. unfold close_closeCh, modify, mbind, mret, go_bind, go_ret. destruct (wc_closeCh w); [done|]. by intros [= <- <-].
  - intros st' w' [= <- <-]. by destruct (_ =? _)%Z.
  - intros st' w'. unfold close_chan. destruct (ch_closed _); [done|]. by intros [= <- <-].
  - by intros st' w' [= <- <-].
  - by apply wlp_ret.
Qed.

Lemma sendErrorIf_pipes t r w : wlp (sendErrorIf t r) (λ _ w', same_pipes w w') w.
Proof. destruct r; [by apply wlp_ret|apply sendError_pipes]. Qed.

(** The client's writer adds to what is written, and leaves [receiveCh]. *)
Definition written_more (w w' : ws_client) : Prop :=
  (∃ new, wc_written w' = wc_written w ++ new) ∧ ch_buf (wc_receiveCh w') = ch_buf (wc_receiveCh w).

Lemma written_same w w' : same_pipes w w' → written_more w w'.
Proof. intros [E1 E2]. split; [exists []; by rewrite app_nil_r|done]. Qed.

Lemma take_send_frames next wait d r w : wlp (take_send next wait d r) (λ _ w', written_more w w') w.
Proof.
  unfold take_send. intros st w'. destruct (recv (wc_sendCh w)) as [[m ch]|b]; [|intros [= _ <-]; by apply written_same].
  revert st w'. change (wlp (modify (put_sendCh ch) ;; sendMsg d r m ;; mret next) (λ _ w', written_more w w') w).
  apply wlp_bind. intros _ w1 [= _ <-]. apply wlp_bind. unfold sendMsg.
  apply wlp_bind. eapply wlp_mono; [apply sendErrorIf_pipes|]. intros _ w2 [E1 E2].
  apply wlp_bind. intros _ w3 [= _ <-]. eapply wlp_mono; [apply sendErrorIf_pipes|]. intros _ w4 [E3 E4].
  apply wlp_ret. split; [exists [m]; rewrite E3; cbn; by rewrite E1|]. by rewrite E4; cbn; rewrite E2.
Qed.

Lemma writer_frames p d r st w : wlp (writer_step p d r st) (λ _ w', written_more w w') w.
Proof.
  destruct st as [|i| | |]; cbn [writer_step].
  - destruct p; [apply take_send_frames|..].
    + intros st w'. destruct (recv _) as [[u ch]|]; intros [= <- <-]; by apply written_same.
    + intros st w' [= <- <-]. by apply written_same.
  - apply wlp_bind. intros n w1 [= <- <-]. case_bool_decide; [apply take_send_frames|].
    by apply wlp_ret, written_same.
  - intros st w'. unfold close_flushDone, modify, mbind, mret, go_bind, go_ret. destruct (wc_flushDone w); [done|].
    intros [= <- <-]. by apply written_same.
  - intros st w'. unfold wg_done, modify, mbind, mret, go_bind, go_ret. destruct (_ <=? _)%Z; [done|].
    intros [= <- <-]. by apply written_same.
  - by apply wlp_ret, written_same.
Qed.

Lemma sender_pipes st w : wlp (sender_step st) (λ _ w', same_pipes w w') w.
Proof.
  destruct st as [m|m|r]; cbn [sender_step]; [by intros ? ? [= <- <-]| |by apply wlp_ret].
  intros st' w'. destruct (try_send _ _); [..|done]; by intros [= <- <-].
Qed.

Lemma close_pipes r st w : wlp (close_step r st) (λ _ w', same_pipes w w') w.
Proof.
  destruct st; cbn [close_step]; try (by intros ? ? [= <- <-]); try by apply wlp_ret.
  intros st' w'. destruct (try_send _ _); [..|done]; by intros [= <- <-].
Qed.

Definition brought_by (ev : client_event) (st : reader) : list (opcode * string) :=
  match ev, st with CvReader a, RRead => brought a | _, _ => [] end.

(** A step of the client: it writes more, and what is taken, queued and held
    grows by what it reads. *)
Lemma client_step_frames ev c c' :
  client_step ev c = Some c' →
  (∃ new, wc_written (cs_client c') = wc_written (cs_client c) ++ new) ∧
  data_frames (taken_by ev (cs_client c)) ++ data_frames (ch_buf (wc_receiveCh (cs_client c'))) ++ held (cs_reader c')
  = data_frames (ch_buf (wc_receiveCh (cs_client c))) ++ held (cs_reader c) ++ brought_by ev (cs_reader c).
Proof.
  assert (∀ w w', written_more w w' → (∃ new, wc_written w' = wc_written w ++ new) ∧
    data_frames (ch_buf (wc_receiveCh w')) ++ held (cs_reader c) =
    data_frames (ch_buf (wc_receiveCh w)) ++ held (cs_reader c) ++ []) as Hmore.
  { intros w w' [Hw E]. split; [done|]. by rewrite E, app_nil_r. }
  destruct ev as [p d r|a| |k|k r| |]; cbn [client_step brought_by taken_by].
  - destruct (writer_step p d r _ _) as [[st w']|] eqn:E; [|done]. intros [= <-]. apply Hmore. by eapply writer_frames.
  - destruct (reader_step a _ _) as [[st w']|] eqn:E; [|done]. intros [= <-].
    apply reader_frames in E as [E1 E2]. split; [exists []; by rewrite app_nil_r|]. cbn. by rewrite E2.
  - destruct (cs_opened c); intros [= <-]; by apply Hmore, written_same.
  - destruct (negb _); [intros [= <-]; by apply Hmore, written_same|].
    destruct (cs_senders c !! k) as [st|]; [|intros [= <-]; by apply Hmore, written_same].
    destruct (sender_step st _) as [[st' w']|] eqn:E; [|done]. intros [= <-]. cbn.
    apply Hmore, written_same. by eapply sender_pipes.
  - destruct (negb _); [intros [= <-]; by apply Hmore, written_same|].
    destruct (cs_closes c !! k) as [st|]; [|intros [= <-]; by apply Hmore, written_same].
    destruct (close_step r st _) as [[st' w']|] eqn:E; [|done]. intros [= <-]. cbn.
    apply Hmore, written_same. by eapply close_pipes.
  - unfold recv. destruct (ch_buf (wc_receiveCh (cs_client c))) as [|m buf] eqn:Eb; intros [= <-]; cbn.
    + rewrite Eb, app_nil_r. split; [exists []; by rewrite app_nil_r|done].
    + split; [exists []; by rewrite app_nil_r|]. rewrite app_nil_r, app_assoc. f_equal. symmetry. apply (data_frames_app [m] buf).
  - destruct (recv (wc_errorCh _)) as [[e ch]|]; intros [= <-]; by apply Hmore, written_same.
Qed.

(** A handler's step: what is queued for its connection, and what it holds,
    grows by what it reads. *)
Lemma handler_frames h id a st w st' w' :
  handler_step h id a st w = Some (st', w') → trace_ok id st (for_conn_server id w) →
  data_frames (for_conn_server id w') ++ held_by st' = data_frames (for_conn_server id w) ++ held_by st ++
    match st with HRead _ => brought (an_read a) | _ => [] end.
Proof.
  intros Hstep Ht. unfold for_conn_server in *. pose proof (handler_step_queued _ _ _ _ _ _ _ Hstep) as Hq.
  destruct st as [|cl|cl|cl|cl|cl|cl|cl|cl m|cl| | | |]; cbn [handler_step trace_ok held_by] in *.
  all: try (destruct (send_receive_inv _ _ _ _ _ _ Hstep) as [[-> ->]|[-> Hq']];
            [by rewrite !app_nil_r|rewrite Hq', for_conn_snoc, data_frames_app by (done || apply Ht);
             cbn [held_by]; by rewrite ?app_nil_r]).
  all: rewrite Hq; clear Hq; rewrite ?app_nil_r.
  - injection Hstep as <- <-. destruct (an_auth a) as [[]|]; by rewrite ?app_nil_r.
  - destruct (an_upgrade a); cbn in Hstep; injection Hstep as <- <-; by rewrite ?app_nil_r.
  - unfold mbind, go_bind in Hstep. case_match; [|done]. case_match. injection Hstep as <- <-. by rewrite app_nil_r.
  - injection Hstep as <- <-. destruct (ws_closed w); by rewrite app_nil_r.
  - injection Hstep as <- <-. destruct (an_deadline a); by rewrite app_nil_r.
  - injection Hstep as <- <-. by destruct (an_read a) as [[[] ?]|].
  - unfold mbind, go_bind in Hstep. case_match; [|done]. case_match. injection Hstep as <- <-. by rewrite app_nil_r.
  - unfold mbind, go_bind in Hstep. case_match; [|done]. case_match. injection Hstep as <- <-. by rewrite app_nil_r.
  - injection Hstep as <- <-. by rewrite app_nil_r.
  - injection Hstep as <- <-. by rewrite app_nil_r.
Qed.

Definition handed_to (h : nat) (ev : ws_event) (st : handler) : list (opcode * string) :=
  match ev, st with
  | EvHandler k a, HRead _ => if bool_decide (k = h) then brought (an_read a) else []
  | _, _ => []
  end.

(** Any step of the server, for the connection of one handler. *)
Lemma ws_step_up `{MapOrder} ev s s' h id st :
  traces_ok s → ws_step ev s = Some s' → sy_handlers s !! h = Some (id, st) →
  ∃ st', sy_handlers s' !! h = Some (id, st') ∧
    data_frames (for_conn_server id (sy_server s')) ++ held_by st'
    = data_frames (for_conn_server id (sy_server s)) ++ held_by st ++ handed_to h ev st.
Proof.
  intros Ht Hstep Hh.
  assert (∀ w, ws_queued w = ws_queued (sy_server s) →
    data_frames (for_conn_server id w) ++ held_by st = data_frames (for_conn_server id (sy_server s)) ++ held_by st ++ []) as Hsame.
  { intros w Hq. unfold for_conn_server. by rewrite Hq, app_nil_r. }
  destruct ev as [k a|k|m| |tick]; cbn [ws_step handed_to] in *.
  - destruct (decide (k = h)) as [->|Hne].
    + rewrite Hh, bool_decide_true in * by done. destruct (handler_step h id a st _) as [[st' w']|] eqn:E; [|done].
      injection Hstep as <-. exists st'. cbn. split; [apply lookup_insert_eq|].
      rewrite (handler_frames _ _ _ _ _ _ _ E) by by eapply tk_traces. by destruct st.
    + assert (∀ l, match st with HRead _ => if bool_decide (k = h) then l else [] | _ => [] end = []
        :> list (opcode * string)) as -> by (intros l; rewrite bool_decide_false by done; by destruct st).
      exists st. destruct (sy_handlers s !! k) as [[id' st1]|] eqn:Hk; [|injection Hstep as <-; by split; [|apply Hsame]].
      destruct (handler_step k id' a st1 _) as [[st' w']|] eqn:E; [|done]. injection Hstep as <-. cbn.
      split; [by rewrite lookup_insert_ne|].
      destruct (handler_step_trace _ _ _ _ _ _ _ E) as [_ [Hq|(m & Hq & Hm)]]; [by eapply tk_traces|by apply Hsame|].
      unfold for_conn_server. rewrite Hq, for_conn_other, app_nil_r; [done|].
      intros Hid. apply Hne. rewrite <- Hid, Hm in Hh. by eapply (tk_ids s Ht).
  - exists st. destruct (sy_closers s !! k) as [c|]; [|injection Hstep as <-; by split; [|apply Hsame]].
    destruct (closer_step c _) as [[c' w']|] eqn:E; [|done]. injection Hstep as <-. split; [done|].
    apply Hsame. by eapply closer_step_queued.
  - exists st. destruct (Send m _) as [[r w']|] eqn:E; [|done]. injection Hstep as <-. split; [done|]. apply Hsame.
    by eapply Send_queued.
  - exists st. destruct (recv _) as [[m ch]|]; injection Hstep as <-; by split; [|apply Hsame].
  - exists st. destruct (connWriter_step tick _) as [[r w']|] eqn:E; [|done]. injection Hstep as <-. split; [done|].
    apply Hsame. by eapply connWriter_queued.
Qed.

Definition same_out (w w' : ws_server) : Prop :=
  ws_written w' = ws_written w ∧ ch_buf (ws_sendCh w') = ch_buf (ws_sendCh w).

Lemma send_receive_out m wait next w : wlp (send_receive m wait next) (λ _ w', same_out w w') w.
Proof.
  intros st w'. unfold send_receive, gets, mbind, go_bind. destruct (try_send _ _); cbn; by intros [= <- <-].
Qed.

Lemma handler_out h id a st w : wlp (handler_step h id a st) (λ _ w', same_out w w') w.
Proof.
  destruct st; cbn [handler_step]; try apply send_receive_out; intros st' w';
    unfold addConn, removeConn, close_conn_ch, get_conn_at, conn_close, isClosed, gets, modify, panic,
      mbind, mret, go_bind, go_ret; cbn;
    destruct (ws_heap w !! h); cbn; intros E; repeat (case_match || simplify_option_eq); done.
Qed.

Lemma closer_out `{MapOrder} st w : wlp (closer_step st) (λ _ w', same_out w w') w.
Proof.
  intros st' w'. destruct st as [| | |[|c l]|c l| |]; cbn; unfold isClosed, getConns, conn_close, get_conn_at, gets,
    modify, close_chan, mbind, mret, go_bind, go_ret; cbn; try (destruct (ws_heap w !! c); cbn);
    intros; repeat (case_match || simplify_option_eq); done.
Qed.

Lemma to_client_pings h l : omap (to_client h) ((λ c, (c, OpPing, str0)) <$> l) = [].
Proof. induction l as [|c l IH]; [done|]. cbn. unfold to_client at 1. cbn. by rewrite andb_false_r. Qed.

Lemma data_frames_conn_cons id m l :
  data_frames (for_conn id (m :: l)) =
  (if bool_decide (wm_ConnID m = id) then data_frames [m] else []) ++ data_frames (for_conn id l).
Proof.
  unfold for_conn. case_bool_decide; [rewrite filter_cons_True by done|by rewrite filter_cons_False].
  apply (data_frames_app [m]).
Qed.

(** A message that is written reaches the client only if it names its
    connection. *)
Lemma write_msg_down h id m w :
  (∀ k, ws_conns w !! k = Some h → k = id) →
  wlp (write_msg m) (λ _ w', ch_buf (ws_sendCh w') = ch_buf (ws_sendCh w) ∧
    ∃ new, ws_written w' = ws_written w ++ new ∧
      omap (to_client h) new `sublist_of` (if bool_decide (wm_ConnID m = id) then data_frames [m] else [])) w.
Proof.
  intros Hc. assert (∀ l, ∃ new, ws_written w = ws_written w ++ new ∧ omap (to_client h) new `sublist_of` l) as Hnone.
  { intros l. exists []. rewrite app_nil_r. split; [done|apply sublist_nil_l]. }
  apply wlp_bind. intros o w1 [= <- <-]. case_bool_decide as Hne; [|by apply wlp_ret].
  destruct (ws_conns w !! wm_ConnID m) as [c|] eqn:Ec; [|by apply wlp_ret].
  destruct (write_opcode (wm_Type m)) as [op|] eqn:Eo; [|by apply wlp_ret].
  intros u w' [= <- <-]. split; [done|]. exists [(c, op, wm_Data m)]. split; [done|]. cbn.
  unfold to_client, data_frame. rewrite Eo. cbn. case_bool_decide as Hh; [subst c|apply sublist_nil_l].
  rewrite bool_decide_true by by apply Hc. by destruct (data_op op).
Qed.

Lemma ws_step_down `{MapOrder} ev s s' h id :
  (∀ k, ws_conns (sy_server s) !! k = Some h → k = id) → ws_step ev s = Some s' →
  ∃ new, ws_written (sy_server s') = ws_written (sy_server s) ++ new ∧
    omap (to_client h) new ++ data_frames (for_conn id (ch_buf (ws_sendCh (sy_server s')))) `sublist_of`
    data_frames (for_conn id (ch_buf (ws_sendCh (sy_server s)))) ++ data_frames (for_conn id (accepted_by ev (sy_server s))).
Proof.
  intros Hc Hstep.
  assert (∀ w, same_out (sy_server s) w → ∃ new, ws_written w = ws_written (sy_server s) ++ new ∧
    omap (to_client h) new ++ data_frames (for_conn id (ch_buf (ws_sendCh w))) `sublist_of`
    data_frames (for_conn id (ch_buf (ws_sendCh (sy_server s)))) ++ []) as Hsame.
  { intros w [E1 E2]. exists []. rewrite E1, E2, !app_nil_r. by split. }
  destruct ev as [k a|k|m| |tick]; cbn [ws_step accepted_by] in *.
  - destruct (sy_handlers s !! k) as [[id' st]|]; [|injection Hstep as <-; by apply Hsame].
    destruct (handler_step k id' a st _) as [[st' w']|] eqn:E; [|done]. injection Hstep as <-.
    apply Hsame. by eapply handler_out.
  - destruct (sy_closers s !! k) as [st|]; [|injection Hstep as <-; by apply Hsame].
    destruct (closer_step st _) as [[st' w']|] eqn:E; [|done]. injection Hstep as <-.
    apply Hsame. by eapply closer_out.
  - destruct (Send m _) as [[r w']|] eqn:E; [|done]. injection Hstep as <-. revert E.
    unfold Send, gets, modify, mbind, mret, go_bind, go_ret. cbn.
    destruct (ws_closed _); [intros [= <- <-]; by apply Hsame|].
    destruct (try_send m _) as [ch| |] eqn:Et; [|by intros [= <- <-]; apply Hsame|done].
    intros [= <- <-]. exists []. rewrite app_nil_r. split; [done|]. cbn [sy_server set_send ws_sendCh].
    unfold try_send in Et. destruct (ch_closed _); [done|]. case_bool_decide; [|done]. injection Et as <-. cbn [ch_buf omap].
    unfold for_conn. by rewrite filter_app, data_frames_app.
  - destruct (recv _) as [[m ch]|]; injection Hstep as <-; by apply Hsame.
  - destruct (connWriter_step tick _) as [[r w']|] eqn:E; [|done]. injection Hstep as <-.
    unfold connWriter_step in E. destruct tick.
    + injection E as _ <-. eexists. split; [done|]. by rewrite to_client_pings, app_nil_r.
    + apply (wlp_bind (gets (λ w, w))) with (Q := λ _ w', ∃ new, ws_written w' = ws_written (sy_server s) ++ new ∧
        omap (to_client h) new ++ data_frames (for_conn id (ch_buf (ws_sendCh w'))) `sublist_of`
        data_frames (for_conn id (ch_buf (ws_sendCh (sy_server s)))) ++ []) in E; [done|].
      intros w1 w2 [= <- <-]. destruct (recv _) as [[m ch]|b] eqn:Er; [|by apply wlp_ret, Hsame].
      unfold recv in Er. destruct (ch_buf (ws_sendCh (sy_server s))) as [|m' buf] eqn:Eb; [done|].
      injection Er as -> <-. apply wlp_bind. intros u w1 [= _ <-].
      eapply wlp_mono; [by apply (write_msg_down h id)|]. intros _ w2 [E1 (new & E2 & Hsub)]. exists new. split; [done|].
      rewrite E1, app_nil_r, data_frames_conn_cons. by apply sublist_app.
Qed.

(** ** The invariant *)

(** Whether or not upgrades succeed, an entry of [conns] and a connection on
    the heap are those of the handler with their identifier. *)
Record conns_own (s : system) : Prop := {
  cw_conns : ∀ k c, ws_conns (sy_server s) !! k = Some c → ∃ st, sy_handlers s !! c = Some (k, st);
  cw_heap : ∀ c x, ws_heap (sy_server s) !! c = Some x → ∃ st, sy_handlers s !! c = Some (cn_id x, st);
}.

(** What a step may do to the connections: make the handler's own, enter it,
    take entries out, close connections. *)
Record own_step (h : nat) (id : string) (w w' : ws_server) : Prop := {
  ow_conns : ∀ k c, ws_conns w' !! k = Some c →
    ws_conns w !! k = Some c ∨ c = h ∧ ∃ x, ws_heap w !! h = Some x ∧ cn_id x = k;
  ow_heap : ∀ c x, ws_heap w' !! c = Some x → (∃ y, ws_heap w !! c = Some y ∧ cn_id y = cn_id x) ∨ c = h ∧ cn_id x = id;
}.

Lemma own_same h id w w' : ws_conns w' = ws_conns w → ws_heap w' = ws_heap w → own_step h id w w'.
Proof. intros E1 E2. split; rewrite ?E1, ?E2; eauto. Qed.

Lemma own_alter h id w c f : (∀ x, cn_id (f x) = cn_id x) → own_step h id w (set_heap (alter f c) w).
Proof.
  intros Hf. split; cbn; [auto|]. intros c' x Hx. left. destruct (decide (c' = c)) as [->|Hne].
  - rewrite lookup_alter_eq in Hx. apply fmap_Some in Hx as (y & Hy & ->). exists y. by rewrite Hf.
  - rewrite lookup_alter_ne in Hx by done. eauto.
Qed.

Lemma send_receive_own h id m wait next w : wlp (send_receive m wait next) (λ _ w', own_step h id w w') w.
Proof.
  intros st w'. unfold send_receive, gets, modify, mbind, mret, go_bind, go_ret. cbn.
  destruct (try_send _ _); [| |done]; intros [= _ <-]; by apply own_same.
Qed.

Lemma handler_own h id a st w : wlp (handler_step h id a st) (λ _ w', own_step h id w w') w.
Proof.
  assert (own_step h id w w) as Hid by by apply own_same.
  destruct st; cbn [handler_step]; try apply send_receive_own; try by apply wlp_ret.
  - destruct (an_upgrade a); [|by apply wlp_ret]. intros st' w' [= _ <-]. split; cbn; [auto|].
    intros c x [[<- <-]|[_ Hx]]%lookup_insert_Some; [by right|]. left. by exists x.
  - apply wlp_bind. intros b w' Hb. apply wlp_ret. unfold addConn, get_conn_at, gets, modify, mbind, mret, go_bind, go_ret in Hb.
    destruct (ws_heap w !! h) as [x|] eqn:Hx; [|done]. cbn in Hb. case_bool_decide; injection Hb as _ <-; [done|].
    split; cbn; [|eauto]. intros k c [[<- <-]|[_ Hk]]%lookup_insert_Some; [|by left]. right. eauto.
  - apply wlp_bind. intros b w' Hb. apply wlp_ret. unfold removeConn, gets, modify, mbind, mret, go_bind, go_ret in Hb.
    case_bool_decide; injection Hb as _ <-; [done|]. split; cbn; [|eauto]. intros k c [_ Hk]%lookup_delete_Some. by left.
  - apply wlp_bind. intros u w' Hb. apply wlp_ret. unfold close_conn_ch, get_conn_at, modify, panic, mbind, go_bind in Hb.
    destruct (ws_heap w !! h) as [x|]; [|done]. cbn in Hb. destruct (cn_closeCh x); [done|]. injection Hb as _ <-.
    by apply own_alter.
  - apply wlp_bind. intros u w' Hb. unfold conn_close, modify in Hb. injection Hb as _ <-. by apply wlp_ret, own_alter.
Qed.

Lemma closer_own `{MapOrder} h id st w : wlp (closer_step st) (λ _ w', own_step h id w w') w.
Proof.
  intros st' w'. destruct st as [| | |[|c l]|c l| |]; cbn; unfold isClosed, getConns, conn_close, get_conn_at, gets,
    modify, close_chan, mbind, mret, go_bind, go_ret; cbn; try (destruct (ws_heap w !! c); cbn);
    intros; repeat (case_match || simplify_option_eq); try (by apply own_same); by apply own_alter.
Qed.

Lemma conns_own_step s h id w' st' st :
  conns_own s → sy_handlers s !! h = Some (id, st) → own_step h id (sy_server s) w' →
  conns_own {| sy_server := w'; sy_handlers := <[h := (id, st')]> (sy_handlers s); sy_closers := sy_closers s |}.
Proof.
  intros [H1 H2] Hh [H3 H4].
  assert (∀ c k st1, sy_handlers s !! c = Some (k, st1) → ∃ st2, <[h := (id, st')]> (sy_handlers s) !! c = Some (k, st2)) as Hold.
  { intros c k st1 Hc. destruct (decide (c = h)) as [->|]; [|rewrite lookup_insert_ne by done; eauto].
    rewrite Hh in Hc. injection Hc as <- _. rewrite lookup_insert_eq. eauto. }
  split; cbn.
  - intros k c [Hk|(-> & x & Hx & <-)]%H3; [destruct (H1 k c Hk) as [st1 Hc]|destruct (H2 h x Hx) as [st1 Hc]]; eauto.
  - intros c x [(y & Hy & <-)|[-> ->]]%H4; [destruct (H2 c y Hy) as [st1 Hc]; eauto|]. rewrite lookup_insert_eq. eauto.
Qed.

Lemma conns_own_server s w' cs :
  conns_own s → (∀ h id, own_step h id (sy_server s) w') →
  conns_own {| sy_server := w'; sy_handlers := sy_handlers s; sy_closers := cs |}.
Proof.
  intros [H1 H2] H. split; cbn.
  - intros k c Hk. destruct (ow_conns _ _ _ _ (H (S c) str0) k c Hk) as [Hk'|[Hc _]]; [by apply H1|lia].
  - intros c x Hx. destruct (ow_heap _ _ _ _ (H (S c) str0) c x Hx) as [(y & Hy & <-)|[Hc _]]; [by apply H2|lia].
Qed.

Lemma ws_step_own `{MapOrder} ev s s' : ws_step ev s = Some s' → conns_own s → conns_own s'.
Proof.
  intros Hstep Hs. destruct ev as [h a|k|m| |tick]; cbn [ws_step] in Hstep.
  - destruct (sy_handlers s !! h) as [[id st]|] eqn:Hh; [|by injection Hstep as <-].
    destruct (handler_step h id a st _) as [[st' w']|] eqn:E; [|done]. injection Hstep as <-.
    eapply conns_own_step; [done..|]. by eapply handler_own.
  - destruct (sy_closers s !! k) as [st|]; [|by injection Hstep as <-].
    destruct (closer_step st _) as [[st' w']|] eqn:E; [|done]. injection Hstep as <-.
    apply conns_own_server; [done|]. intros h id. by eapply closer_own.
  - destruct (Send m _) as [[r w']|] eqn:E; [|done]. injection Hstep as <-. apply conns_own_server; [done|]. intros h id.
    apply own_same; revert E; unfold Send, gets, modify, mbind, mret, go_bind, go_ret; cbn;
      repeat case_match; intros; by simplify_eq.
  - destruct (recv _) as [[m ch]|]; injection Hstep as <-; [|done]. apply conns_own_server; [done|]. intros. by apply own_same.
  - destruct (connWriter_step tick _) as [[r w']|] eqn:E; [|done]. injection Hstep as <-. apply conns_own_server; [done|].
    intros h id. apply own_same; revert E;
      unfold connWriter_step, ping_all, write_msg, getConns, getConn, gets, modify, mbind, mret, go_bind, go_ret; cbn;
      repeat case_match; intros; by simplify_eq.
Qed.

(** What of the client's messages has left the wire. *)
Definition arrived (id : string) (st : handler) (s : system) : list (opcode * string) :=
  data_frames (for_conn_server id (sy_server s)) ++ held_by st.

Record link_ok (h : nat) (id : string) (l : link) : Prop := {
  lo_client : sys_ok (lk_client l);
  lo_server : conns_own (lk_server l);
  lo_traces : traces_ok (lk_server l);
  lo_frames : Forall (λ f, data_op f.1 = true) (lk_up l);
  lo_up : ∃ st, sy_handlers (lk_server l) !! h = Some (id, st) ∧
    arrived id st (lk_server l) ++ lk_up l `sublist_of` (client_frame <$> wc_written (cs_client (lk_client l))) ∧
    (lk_intact l = true → arrived id st (lk_server l) ++ lk_up l = client_frame <$> wc_written (cs_client (lk_client l)));
  lo_down :
    (data_frames (lk_taken l) ++ data_frames (ch_buf (wc_receiveCh (cs_client (lk_client l)))) ++ held (cs_reader (lk_client l))) ++
    lk_down l ++ data_frames (for_conn id (ch_buf (ws_sendCh (sy_server (lk_server l)))))
    `sublist_of` data_frames (for_conn id (lk_accepted l));
}.

Lemma brought_sub f : brought (Ok f) `sublist_of` [f].
Proof. unfold brought. destruct (data_op f.1); [done|apply sublist_nil_l]. Qed.

(** What the client reads is off the wire. *)
Lemma client_wired_reads ev l ev' down :
  client_wired ev l = Some (ev', down) → brought_by ev' (cs_reader (lk_client l)) ++ down `sublist_of` lk_down l.
Proof.
  unfold client_wired. destruct ev as [p d r|a| |k|k r| |]; try (by intros [= <- <-]).
  destruct (cs_reader (lk_client l)) eqn:Er; try (by intros [= <- <-]). cbn [brought_by].
  destruct a as [f|e]; [|by intros [= <- <-]].
  destruct (lk_down l) as [|f' wire]; [done|]. intros [= <- <-]. cbn [brought_by].
  apply (sublist_app _ [f']); [apply brought_sub|done].
Qed.

Lemma link_client_ok h id ev l :
  link_ok h id l → ∃ l', link_client ev l = Some l' ∧ link_ok h id l' ∧ lk_server l' = lk_server l.
Proof.
  intros Hl. unfold link_client. destruct (client_wired ev l) as [[ev' down]|] eqn:Ew; [|by eexists].
  destruct (client_step_ok ev' _ (lo_client _ _ _ Hl)) as (c & Hc & Hok). rewrite Hc. eexists. split; [done|]. split; [|done].
  destruct (client_step_frames _ _ _ Hc) as [[new Hnew] Hread]. rewrite Hnew, drop_app_length.
  pose proof (client_wired_reads _ _ _ _ Ew) as Hwire. destruct Hl as [H1 H2 H3 H4 (st & H5 & H6 & H7) H8].
  split; cbn [lk_client lk_server lk_up lk_down lk_accepted lk_taken lk_intact]; try done.
  - apply Forall_app. split; [done|]. destruct (client_write_fails ev'); [done|apply client_frames_data].
  - exists st. split; [done|]. rewrite Hnew, fmap_app, app_assoc. split.
    + apply sublist_app; [done|]. destruct (client_write_fails ev'); [apply sublist_nil_l|done].
    + intros [Hi Hf]%andb_true_iff. rewrite (H7 Hi). f_equal. destruct (client_write_fails ev'); [|done].
      cbn in Hf. case_bool_decide as Hn; [done|by rewrite Hn].
  - rewrite data_frames_app, <- (app_assoc (data_frames (lk_taken l))), Hread.
    etrans; [|exact H8]. rewrite <- !app_assoc. do 3 (apply sublist_app; [done|]).
    rewrite app_assoc. by apply sublist_app.
Qed.

Lemma server_wired_reads h ev l ev' up id st :
  Forall (λ f, data_op f.1 = true) (lk_up l) → sy_handlers (lk_server l) !! h = Some (id, st) →
  server_wired h ev l = Some (ev', up) →
  handed_to h ev' st ++ up = lk_up l ∧ event_upgrades ev' = event_upgrades ev.
Proof.
  intros Hd Hh. unfold server_wired. destruct ev as [k a|k|m| |tick]; try (by intros [= <- <-]). rewrite Hh.
  destruct st as [|cl|cl|cl|cl|cl|cl|cl|cl m|cl| | | |]; try (by intros [= <- <-]).
  case_bool_decide as Hk; [|intros [= <- <-]; cbn; by rewrite bool_decide_false].
  destruct (an_read a) as [f|e] eqn:Ea.
  - cbn. destruct (lk_up l) as [|f' wire]; [done|]. intros [= <- <-]. cbn. rewrite bool_decide_true by done.
    apply Forall_cons in Hd as [-> _]. done.
  - intros [= <- <-]. cbn. by rewrite bool_decide_true.
Qed.

(** The entry of a handler's connection in [conns] is under its identifier. *)
Lemma conns_own_id s h id st k :
  conns_own s → sy_handlers s !! h = Some (id, st) → ws_conns (sy_server s) !! k = Some h → k = id.
Proof. intros Hs Hh Hk. destruct (cw_conns s Hs k h Hk) as [st' H']. rewrite Hh in H'. by injection H'. Qed.

(** A step of the server that does not panic. *)
Lemma link_server_ok `{MapOrder} h id ev lost l l' :
  link_server h ev lost l = Some l' → link_ok h id l → link_ok h id l'.
Proof.
  intros Hrun Hl. unfold link_server in Hrun.
  destruct (server_wired h ev l) as [[ev' up]|] eqn:Ew; [|by injection Hrun as <-].
  destruct (ws_step ev' (lk_server l)) as [s|] eqn:Hs; [|done]. injection Hrun as <-.
  destruct Hl as [H1 H2 H3 H4 (st & H5 & H6 & H7) H8].
  destruct (server_wired_reads h ev l ev' up id st H4 H5 Ew) as [Hwire _].
  destruct (ws_step_up ev' _ _ h id st H3 Hs H5) as (st' & Hst' & Hfr).
  destruct (ws_step_down ev' _ _ h id (λ k, conns_own_id _ h id st k H2 H5) Hs) as (new & Hnew & Hdown).
  rewrite Hnew, drop_app_length.
  assert (arrived id st' s ++ up = arrived id st (lk_server l) ++ lk_up l) as Harr.
  { unfold arrived. by rewrite Hfr, <- Hwire, <- !app_assoc. }
  split; cbn [lk_client lk_server lk_up lk_down lk_accepted lk_taken lk_intact]; try done.
  - by eapply ws_step_own.
  - by eapply ws_step_traces.
  - rewrite <- Hwire in H4. by apply Forall_app in H4 as [_ ?].
  - exists st'. rewrite Harr. done.
  - unfold for_conn at 2. rewrite filter_app, data_frames_app. fold (for_conn id (lk_accepted l)).
    etrans; [|apply sublist_app; [exact H8|reflexivity]]. rewrite <- !app_assoc.
    do 4 (apply sublist_app; [done|]). etrans; [|exact Hdown]. apply sublist_app; [|done].
    destruct lost; [apply sublist_nil_l|done].
Qed.

(** A step of the server whose upgrade, if it comes to it, succeeds. *)
Lemma link_server_runs `{MapOrder} h id ev lost l :
  event_upgrades ev = true → link_ok h id l → system_ok (lk_server l) →
  ∃ l', link_server h ev lost l = Some l' ∧ system_ok (lk_server l').
Proof.
  intros Hup Hl Hs. unfold link_server. destruct (server_wired h ev l) as [[ev' up]|] eqn:Ew; [|by eexists].
  destruct (lo_up _ _ _ Hl) as (st & Hst & _).
  destruct (server_wired_reads h ev l ev' up id st (lo_frames _ _ _ Hl) Hst Ew) as [_ Hup']. rewrite Hup in Hup'.
  destruct (ws_step_ok ev' _ Hs Hup') as (s & -> & Hok). by eexists.
Qed.

Lemma link_run_ok `{MapOrder} h id evs l l' : link_run h evs l = Some l' → link_ok h id l → link_ok h id l'.
Proof.
  revert l. induction evs as [|ev evs IH]; intros l; cbn [link_run]; [by intros [= ->]|].
  destruct (link_step h ev l) as [l1|] eqn:E; [|done]. intros Hrun Hl. apply (IH l1 Hrun). destruct ev as [ev|ev lost].
  - destruct (link_client_ok h id ev l Hl) as (l2 & E2 & Hl2 & _). cbn in E. rewrite E in E2. by injection E2 as ->.
  - by eapply link_server_ok.
Qed.

Lemma link_runs `{MapOrder} h id evs l :
  forallb link_upgrades evs = true → link_ok h id l → system_ok (lk_server l) → is_Some (link_run h evs l).
Proof.
  revert l. induction evs as [|ev evs IH]; intros l; [by eexists|]. intros [H1 H2]%andb_true_iff Hl Hs.
  assert (∃ l1, link_step h ev l = Some l1 ∧ link_ok h id l1 ∧ system_ok (lk_server l1)) as (l1 & E & Hl1 & Hs1).
  { destruct ev as [ev|ev lost].
    - destruct (link_client_ok h id ev l Hl) as (l1 & E & Hl1 & Es). exists l1. by rewrite Es.
    - destruct (link_server_runs h id ev lost l H1 Hl Hs) as (l1 & E & Hs1). exists l1. split; [done|].
      split; [by eapply link_server_ok|done]. }
  cbn [link_run]. rewrite E. by apply IH.
Qed.

Lemma initial_at ids n h id : ids !! h = Some id → sy_handlers (initial ids n) !! h = Some (id, HStart).
Proof.
  intros Hid. apply elem_of_list_to_map_1'.
  - intros y Hy%elem_of_lookup_imap. destruct Hy as (i & x & [= -> ->] & Hx). rewrite Hid in Hx. by injection Hx as ->.
  - apply elem_of_lookup_imap. by exists h, id.
Qed.

Lemma link_initial_ok h id sends closes ids n :
  NoDup ids → ids !! h = Some id → link_ok h id (link_initial sends closes ids n).
Proof.
  intros Hnd Hid.
  assert (∀ h1 id1 st1, sy_handlers (initial ids n) !! h1 = Some (id1, st1) → st1 = HStart) as Hst.
  { by intros h1 id1 st1 [_ ->]%initial_handler. }
  split; cbn [link_initial lk_client lk_server lk_up lk_down lk_accepted lk_taken lk_intact]; try done.
  - apply client_initial_ok.
  - split; [apply (so_ids _ (initial_ok ids n Hnd))|]. by intros h1 id1 st1 ->%Hst.
  - exists HStart. split; [|done]. by apply initial_at.
Qed.

(** ** Messages *)

Lemma sublist_fmap {A B} (f : A → B) l k : l `sublist_of` k → f <$> l `sublist_of` f <$> k.
Proof. induction 1; cbn; by constructor. Qed.

Lemma sublist_fmap_inv {A B} (f : A → B) l k :
  l `sublist_of` f <$> k → ∃ k', k' `sublist_of` k ∧ l = f <$> k'.
Proof.
  revert l. induction k as [|x k IH]; intros l; cbn.
  - intros ->%sublist_nil_r. by exists [].
  - intros [(k' & Hk & ->)%IH|(l' & -> & (k' & Hk & ->)%IH)]%sublist_cons_r.
    + exists k'. split; [by constructor|done].
    + exists (x :: k'). split; [by constructor|done].
Qed.

Section messages.
  Context {C : MsgCodec}.

(** [m] carries the client message [cm]. *)
Definition carries (cm : ClientMessage) (m : ws_Message) : Prop :=
  well_typed cm ∧ wm_Type m = BinaryMessage ∧ Pack cm = Ok (wm_Data m).

(** What the frames of the messages unpack to. *)
Definition unpacked (l : list ws_Message) : list (result ClientMessage) :=
  (λ f, Unpack f.2) <$> data_frames l.

(** A message the RTCD client sends is queued in its socket, packed. *)
Lemma rcd_Send_carries cm c c' :
  well_typed cm → rcd_Send cm c = Some (Ok tt, c') →
  ∃ k w w' m, rc_wsClient c = Some k ∧ rc_sockets c !! k = Some w ∧ rc_sockets c' !! k = Some w' ∧
    wc_queued w' = wc_queued w ++ [m] ∧ carries cm m.
Proof.
  intros Hty. unfold rcd_Send, gets, mbind, go_bind, mret, go_ret. cbn [fst snd].
  destruct (rc_closed c); [done|]. destruct (rc_wsClient c) as [k|]; [|done].
  destruct (Pack cm) as [data|e] eqn:Ep; [|done]. unfold socket_send.
  destruct (rc_sockets c !! k) as [w|] eqn:Ek; [|done]. cbn -[try_send].
  set (m := {| wm_ClientID := str0; wm_ConnID := str0; wm_Type := BinaryMessage; wm_Data := data |}).
  unfold GetConnState, gets, mbind, go_bind, mret, go_ret, option_bind. case_bool_decide; [done|]. cbn -[try_send].
  destruct (try_send m (wc_sendCh w)) as [ch| |]; [|done|done]. intros [= <-].
  exists k, w. exists (log_queued m (put_sendCh ch w)), m. split; [done|]. split; [done|]. split; [|done].
  cbn. apply list_lookup_insert_eq. by eapply lookup_lt_Some.
Qed.

Context {M : MsgLaws C}.

Lemma carried_frames cms ms :
  Forall2 carries cms ms → (λ f, Unpack f.2) <$> (client_frame <$> ms) = Ok <$> cms ∧ unpacked ms = Ok <$> cms.
Proof.
  induction 1 as [|cm m cms ms (Hty & Ht & Hp) _ [IH1 IH2]]; [done|].
  pose proof (client_message_roundtrip _ _ Hty Hp) as Hu. split; [cbn; by rewrite IH1, Hu|].
  assert (data_frame m = Some (OpBinary, wm_Data m)) as Hf by by unfold data_frame; rewrite Ht.
  change (unpacked (m :: ms)) with ((λ f, Unpack f.2) <$> (omap data_frame (m :: ms))). cbn. rewrite Hf, fmap_cons. cbn.
  by rewrite Hu, <- IH2.
Qed.

(** What the service does with an RTC message that has arrived: it hands it
    to the RTC server. *)
Lemma dispatch_carried_rtc {R : RtcServer} m wm between (s : service) r rtc' :
  carries (NewClientMessage ClientMessageRTC (DRtc m)) wm → rtc_Send m (sv_rtc s) = Some (r, rtc') →
  dispatch wm between s
  = Some (tt, put_rtc rtc' (add_metric (IncWSMessages (wm_ClientID wm) ClientMessageRTC "in") s)).
Proof.
  intros (Hty & Ht & Hp) Hr. unfold dispatch. rewrite Ht, 3!bool_decide_false, bool_decide_true by done.
  unfold handleClientMsg. rewrite (client_message_roundtrip _ _ Hty Hp). cbn [cm_Type cm_Data NewClientMessage].
  rewrite 3!bool_decide_false, bool_decide_true by done.
  unfold handle_rtc, on_rtc, modify, mbind, go_bind, mret, go_ret. cbn. by rewrite Hr.
Qed.

(** What it sends a client for an RTC message carries that message, to the
    connection its session is routed to. *)
Lemma handleRTCMsg_carries {R : RtcServer} m (s s' : service) :
  ws_open_ok (sv_ws s) → handleRTCMsg m s = Some (Ok tt, s') →
  ∃ ty wm, ch_buf (ws_sendCh (sv_ws s')) = ch_buf (ws_sendCh (sv_ws s)) ++ [wm]
    ∧ carries (NewClientMessage ty (DRtc m)) wm ∧ sv_connMap s !! m_SessionID m = Some (wm_ConnID wm).
Proof.
  intros Hws Hrun. destruct (rtc_message_routed m s Hws) as (r & s1 & Hrun' & Hr). rewrite Hrun in Hrun'.
  injection Hrun' as <- <-. destruct Hr as (ty & conn & data & Hty & Hc & _ & Hp & Hb & _).
  exists ty, (binary conn (m_GroupID m) data). split; [done|]. split; [|done]. split; [|by split].
  unfold well_typed. cbn. by destruct Hty as [[-> _]|[-> _]].
Qed.

(** The hello message tells the RTCD client the identifier of its
    connection. *)
Lemma hello_names_connection open wm c :
  carries (NewClientMessage ClientMessageHello (hello_data open)) wm → wm_ConnID open ≠ str0 →
  read_message wm c = Some (GOut (NewClientMessage ClientMessageHello (hello_data open)), put_connID (wm_ConnID open) c).
Proof.
  intros (Hty & Ht & Hp) Hne. unfold read_message. rewrite Ht. cbn -[note_hello].
  rewrite (client_message_roundtrip _ _ Hty Hp). unfold note_hello, hello_data, NewClientMessage. cbn [cm_Data cm_Type].
  rewrite lookup_insert_ne by done. rewrite lookup_singleton_eq. cbn [default].
  rewrite bool_decide_true, (bool_decide_false (_ = str0)) by done. done.
Qed.

(** C9: the service and a client, end to end, whatever the interleaving of the
    client's threads, of the server's and of its other connections, and
    whatever reads and writes fail.  In a run in which no upgrade of a
    connection is refused neither side panics (one refused after [Close] does:
    WsServer.refused_upgrade_after_close_panics).  In every run that has not
    panicked, the data that has reached the service from the client is data
    the client sent, and the data the client's user has been handed is data
    the service sent to that connection: unchanged, in the order in which it
    was sent, each message at most once; when all the messages sent are packed
    client messages of the protocol's types, those that arrive unpack to
    client messages that were sent, in the same order.  As long as no write of
    the client fails none of its messages is lost: those that have not reached
    the service are with its handler, on the wire or in the client's queue. *)
Theorem messages_delivered `{MapOrder} h id sends closes ids n evs :
  NoDup ids → ids !! h = Some id →
  (forallb link_upgrades evs = true → is_Some (link_run h evs (link_initial sends closes ids n))) ∧
  ∀ l, link_run h evs (link_initial sends closes ids n) = Some l →
    ∃ st, sy_handlers (lk_server l) !! h = Some (id, st)
    ∧ data_frames (for_conn_server id (sy_server (lk_server l))) `sublist_of` client_frame <$> wc_queued (cs_client (lk_client l))
    ∧ data_frames (lk_taken l) `sublist_of` data_frames (for_conn id (lk_accepted l))
    ∧ (∀ up, Forall2 carries up (wc_queued (cs_client (lk_client l))) →
         ∃ up', up' `sublist_of` up ∧ unpacked (for_conn_server id (sy_server (lk_server l))) = Ok <$> up')
    ∧ (∀ down, Forall2 carries down (for_conn id (lk_accepted l)) →
         ∃ down', down' `sublist_of` down ∧ unpacked (lk_taken l) = Ok <$> down')
    ∧ (lk_intact l = true → client_frame <$> wc_queued (cs_client (lk_client l)) =
         data_frames (for_conn_server id (sy_server (lk_server l))) ++ held_by st ++ lk_up l
         ++ (client_frame <$> ch_buf (wc_sendCh (cs_client (lk_client l))))).
Proof.
  intros Hnd Hid. pose proof (link_initial_ok h id sends closes ids n Hnd Hid) as Hinit. split.
  { intros Hup. by apply (link_runs h id); [| |apply initial_ok]. }
  intros l Hrun. pose proof (link_run_ok h id evs _ l Hrun Hinit) as Hl.
  destruct (lo_up _ _ _ Hl) as (st & Hst & Hsub & Heq). exists st. split; [done|].
  rewrite (co_fifo _ _ _ (lo_client _ _ _ Hl)). pose proof (lo_down _ _ _ Hl) as Hdown.
  assert (data_frames (for_conn_server id (sy_server (lk_server l))) `sublist_of`
    client_frame <$> (wc_written (cs_client (lk_client l)) ++ ch_buf (wc_sendCh (cs_client (lk_client l))))) as Hsub1.
  { rewrite fmap_app. apply sublist_inserts_r. etrans; [|exact Hsub]. unfold arrived. by do 2 apply sublist_inserts_r. }
  assert (data_frames (lk_taken l) `sublist_of` data_frames (for_conn id (lk_accepted l))) as Hsub2.
  { etrans; [|exact Hdown]. rewrite <- app_assoc. by apply sublist_inserts_r. }
  split; [done|]. split; [done|]. split; [|split].
  - intros up [Hu _]%carried_frames. destruct (sublist_fmap_inv Ok (unpacked (for_conn_server id (sy_server (lk_server l)))) up)
      as (up' & ? & ?); [rewrite <- Hu; by apply sublist_fmap|]. by exists up'.
  - intros down [_ Hd]%carried_frames. destruct (sublist_fmap_inv Ok (unpacked (lk_taken l)) down) as (down' & ? & ?);
      [rewrite <- Hd; by apply sublist_fmap|]. by exists down'.
  - intros Hi. rewrite fmap_app, <- (Heq Hi). unfold arrived. by rewrite <- !app_assoc.
Qed.

End messages.

(** ** Witness: the client says that it leaves, the service that the session
    is closed *)
Module ToyLink.
Import ToyService.

Definition names (ty id : string) : ClientMessage := NewClientMessage ty (DStrings {["sessionID"%string := id]}).
Definition leaves : ws_Message :=
  {| wm_ClientID := str0; wm_ConnID := str0; wm_Type := BinaryMessage; wm_Data := "leave|s1" |}.
Definition closed : ws_Message := binary "a" "client" "close|s1".

Definition answer : answers :=
  {| an_auth := Some (Ok "client"); an_upgrade := Ok tt; an_deadline := Ok tt; an_read := Ok (OpBinary, str0) |}.
Definition handle : link_event := LkServer (EvHandler 0 answer) false.
Definition read : link_event := LkClient (CvReader (Ok (OpBinary, str0))).

Definition talk : list link_event :=
  LkClient CvOpened :: replicate 6 handle ++
  [LkClient (CvSender 0); LkClient (CvSender 0); LkClient (CvWriter PickSend (Ok tt) (Ok tt)); handle; handle;
   LkServer (EvSend closed) false; LkServer (EvWriter false) false; read; read; LkClient CvReceive].

Lemma carries_names ty id m :
  of_typed ty = true → wm_Type m = BinaryMessage → @Pack toy_msg (names ty id) = Ok (wm_Data m) →
  carries (C := toy_msg) (names ty id) m.
Proof. intros H1 H2 H3. split; [split; [done|apply insert_non_empty]|done]. Qed.

Definition seen (l : link) :=
  (wc_queued (cs_client (lk_client l)), for_conn "a" (lk_accepted l),
   data_frames (for_conn_server "a" (sy_server (lk_server l))), data_frames (lk_taken l)).

Lemma messages_delivered_witness :
  ∃ l up' down', @link_run sorted_order 0 talk (link_initial [leaves] 0 ["a"; "b"] 1) = Some l
    ∧ up' `sublist_of` [names "leave" "s1"] ∧ length up' = 1
    ∧ unpacked (C := toy_msg) (for_conn_server "a" (sy_server (lk_server l))) = Ok <$> up'
    ∧ down' `sublist_of` [names "close" "s1"] ∧ length down' = 1
    ∧ unpacked (C := toy_msg) (lk_taken l) = Ok <$> down'.
Proof.
  assert (seen <$> @link_run sorted_order 0 talk (link_initial [leaves] 0 ["a"; "b"] 1)
    = Some ([leaves], [closed], [(OpBinary, "leave|s1"%string)], [(OpBinary, "close|s1"%string)])) as E
    by (vm_compute; reflexivity).
  destruct (messages_delivered (C := toy_msg) (M := toy_msg_laws) (H := sorted_order) 0 "a" [leaves] 0 ["a"; "b"] 1 talk
    toy_ids eq_refl) as [Hruns Hall].
  destruct (Hruns ltac:(vm_compute; reflexivity)) as [l Hrun]. destruct (Hall l Hrun) as (st & _ & _ & _ & Hup & Hdown & _).
  rewrite Hrun in E. injection E as E1 E2 E3 E4.
  destruct (Hup [names "leave" "s1"]) as (up' & H1 & H2); [|destruct (Hdown [names "close" "s1"]) as (down' & H3 & H4)].
  - rewrite E1. constructor; [|constructor]. by apply carries_names.
  - rewrite E2. constructor; [|constructor]. by apply carries_names.
  - exists l, up', down'. split; [exact Hrun|]. split; [exact H1|]. split.
    { rewrite <- (length_fmap (@Ok ClientMessage)), <- H2. unfold unpacked. by rewrite E3. }
    split; [exact H2|]. split; [exact H3|]. split; [|exact H4].
    rewrite <- (length_fmap (@Ok ClientMessage)), <- H4. unfold unpacked. by rewrite E4.
Defined.
End ToyLink.
