(* ===== verification/Config.v ===== *)
(** * Config: the configurations of the program

    The service's (service/config.go, service/api/config.go), its logger's
    (logger/config.go and the levels of logger/logger.go), its client's and
    the Calls client's (client/config.go), with their defaults and checks.
    [net/url], the certificate files and the logging library's levels are
    parameters. *)
From Stdlib Require Import Ascii.
From S2P Require Import Prelude GoText RtcConfig Store Auth HttpAuth.

(** ** strings *)
Definition ascii_only (s : string) : bool :=
  forallb (λ a, (N_of_ascii a <? 128)%N) (String.list_ascii_of_string s).

Fixpoint map_string (f : ascii → ascii) (s : string) : string :=
  match s with EmptyString => str0 | String a s => String (f a) (map_string f s) end.

(** Beyond ASCII these functions use the tables of Unicode: [unicode] is
    their result there. *)
Definition ToLower (unicode : string → string) (s : string) : string :=
  if ascii_only s then map_string lower s else unicode s.

Definition is_space (a : ascii) : bool :=
  let n := N_of_ascii a in ((9 <=? n)%N && (n <=? 13)%N) || (n =? 32)%N.

Fixpoint trim_left (p : ascii → bool) (s : string) : string :=
  match s with String a s' => if p a then trim_left p s' else s | EmptyString => s end.

Fixpoint trim_right (p : ascii → bool) (s : string) : string :=
  match s with
  | EmptyString => str0
  | String a s =>
      match trim_right p s with
      | EmptyString => if p a then str0 else String a str0
      | s => String a s
      end
  end.

Definition TrimSpace (unicode : string → string) (s : string) : string :=
  if ascii_only s then trim_right is_space (trim_left is_space s) else unicode s.

(** ** URLs *)
Class UrlLib := {
  url_rest : Type;
  url_Parse : string → result (string * string * string * url_rest);
  url_String : string → string → string → url_rest → string;
}.

Record URL {U : UrlLib} := { u_Scheme : string; u_Host : string; u_Path : string; u_rest : url_rest }.

Section url.
  Context {U : UrlLib}.

Definition Parse (s : string) : result URL :=
  '(scheme, host, path, rest) ← url_Parse s;
  Ok {| u_Scheme := scheme; u_Host := host; u_Path := path; u_rest := rest |}.

Definition set_target (scheme path : string) (u : URL) : URL :=
  {| u_Scheme := scheme; u_Host := u_Host u; u_Path := path; u_rest := u_rest u |}.

Definition to_String (u : URL) : string := url_String (u_Scheme u) (u_Host u) (u_Path u) (u_rest u).

(** ** The client of the service *)
Record ClientConfig := {
  cc_httpURL : string;
  cc_wsURL : string;
  cc_ClientID : string;
  cc_AuthKey : string;
  cc_URL : string;
  cc_ReconnectInterval : Z;
}.

Definition defaultReconnectInterval : Z := (2 * second)%Z.

Definition put_urls (http ws : string) (interval : Z) (c : ClientConfig) : ClientConfig := {|
  cc_httpURL := http; cc_wsURL := ws; cc_ClientID := cc_ClientID c; cc_AuthKey := cc_AuthKey c;
  cc_URL := cc_URL c; cc_ReconnectInterval := interval |}.

(** The error's text less the quoted scheme. *)
Definition ClientConfig_Parse (c : ClientConfig) : result ClientConfig :=
  _ ← guard_err (bool_decide (cc_URL c = str0)) "invalid URL value: should not be empty";
  u ← wrap_err "failed to parse url" (Parse (cc_URL c));
  _ ← guard_err (bool_decide (u_Host u = str0)) "invalid url host: should not be empty";
  ws ← (if bool_decide (u_Scheme u = "http"%string) then Ok (to_String (set_target "ws" "/ws" u))
        else if bool_decide (u_Scheme u = "https"%string) then Ok (to_String (set_target "wss" "/ws" u))
        else Err (EText "invalid url scheme"));
  Ok (put_urls (cc_URL c) ws
    (if (cc_ReconnectInterval c <=? 0)%Z then defaultReconnectInterval else cc_ReconnectInterval c) c).

(** ** The Calls client *)
Record CallsClientConfig := {
  kc_SiteURL : string;
  kc_AuthToken : string;
  kc_ChannelID : string;
  kc_wsURL : string;
}.

Definition mmWebSocketAPIPath : string := "/api/v4/websocket".

(** [idRE]: 26 lower-case letters and digits. *)
Definition id_char (a : ascii) : bool :=
  let n := N_of_ascii a in ((97 <=? n)%N && (n <=? 122)%N) || ((48 <=? n)%N && (n <=? 57)%N).
Definition idRE (s : string) : bool :=
  (String.length s =? 26)%nat && forallb id_char (String.list_ascii_of_string s).

(** What the parse leaves in the configuration comes with its error: the site
    URL is trimmed before anything is checked. *)
Definition CallsConfig_Parse (unicode : string → string) (c : CallsClientConfig) :
    result unit * CallsClientConfig :=
  if bool_decide (kc_SiteURL c = str0) then (Err (EText "invalid SiteURL value: should not be empty"), c)
  else
    let site := trim_right (λ a, bool_decide (a = "/"%char)) (TrimSpace unicode (kc_SiteURL c)) in
    let upd ws := {| kc_SiteURL := site; kc_AuthToken := kc_AuthToken c; kc_ChannelID := kc_ChannelID c;
                     kc_wsURL := ws |} in
    match Parse site with
    | Err e => (Err (EWrap "failed to parse SiteURL" e), upd (kc_wsURL c))
    | Ok u =>
        if negb (bool_decide (u_Scheme u = "http"%string)) && negb (bool_decide (u_Scheme u = "https"%string))
        then (Err (EText "invalid SiteURL scheme"), upd (kc_wsURL c))
        else
          let scheme := if bool_decide (u_Scheme u = "http"%string) then "ws"%string else "wss"%string in
          let ws := to_String (set_target scheme (u_Path u +:+ mmWebSocketAPIPath) u) in
          (_ ← guard_err (bool_decide (kc_AuthToken c = str0)) "invalid AuthToken value: should not be empty";
           guard_err (negb (idRE (kc_ChannelID c))) "invalid ChannelID value", upd ws)
    end.

End url.
Arguments URL : clear implicits.

(** ** The logger *)
Record LoggerConfig := {
  EnableConsole : bool;
  ConsoleJSON : bool;
  ConsoleLevel : string;
  EnableFile : bool;
  FileJSON : bool;
  FileLevel : string;
  FileLocation : string;
  EnableColor : bool;
}.

(** [mlog.StdAll], from the most severe on, is the logging library's. *)
Class LogLib := { log_level : Type; lv_Name : log_level → string; StdAll : list log_level }.

Section logger.
  Context {G : LogLib} (unicode : string → string).

Definition found_level (name : string) : bool :=
  existsb (λ l, bool_decide (ToLower unicode name = lv_Name l)) StdAll.

Definition Logger_IsValid (c : LoggerConfig) : result unit :=
  _ ← guard_err (negb (EnableConsole c) && negb (EnableFile c)) "should enable at least one logging target";
  _ ← guard_err (EnableConsole c && negb (found_level (ConsoleLevel c))) "invalid ConsoleLevel value";
  _ ← guard_err (EnableFile c && negb (found_level (FileLevel c))) "invalid FileLevel value";
  guard_err (EnableFile c && bool_decide (FileLocation c = str0)) "invalid FileLocation value: should not be empty".

Fixpoint levels_until (name : string) (all : list log_level) : list log_level :=
  match all with
  | [] => []
  | l :: all => l :: (if bool_decide (lv_Name l = ToLower unicode name) then [] else levels_until name all)
  end.

Definition getLevels (level : string) : list log_level := levels_until level StdAll.

(** [New], up to the logging library: the targets it configures. *)
Record log_target := {
  lt_Type : string;
  lt_Levels : list log_level;
  lt_Options : string;
  lt_Format : string;
  lt_FormatOptions : string;
  lt_MaxQueueSize : Z;
}.

Definition quote : string := String (ascii_of_nat 34) EmptyString.
(** A member of a JSON object whose value is written as it is. *)
Definition member (key value : string) : string := quote +:+ key +:+ quote +:+ ": " +:+ value.
Definition bool_text (b : bool) : string := if b then "true" else "false".

Definition json_format_options : string := "{" +:+ member "enable_caller" "true" +:+ "}".
Definition plain_format_options (color : bool) : string :=
  "{" +:+ member "delim" (quote +:+ " " +:+ quote) +:+ ", " +:+ member "min_level_len" "5" +:+ ", " +:+
  member "min_msg_len" "45" +:+ ", " +:+ member "enable_color" (bool_text color) +:+ ", " +:+
  member "enable_caller" "true" +:+ "}".

Definition console_target (c : LoggerConfig) : log_target := {|
  lt_Type := "console"; lt_Levels := getLevels (ConsoleLevel c);
  lt_Options := "{" +:+ member "out" (quote +:+ "stdout" +:+ quote) +:+ "}";
  lt_Format := if ConsoleJSON c then "json" else "plain";
  lt_FormatOptions := if ConsoleJSON c then json_format_options else plain_format_options (EnableColor c);
  lt_MaxQueueSize := 1000 |}.

Definition file_options (location : string) : string :=
  "{" +:+ member "filename" (quote +:+ location +:+ quote) +:+ ", " +:+ member "max_size" "100" +:+ ", " +:+
  member "max_age" "0" +:+ ", " +:+ member "max_backups" "0" +:+ ", " +:+ member "compress" "true" +:+ "}".

Definition file_target (c : LoggerConfig) : log_target := {|
  lt_Type := "file"; lt_Levels := getLevels (FileLevel c); lt_Options := file_options (FileLocation c);
  lt_Format := if FileJSON c then "json" else "plain";
  lt_FormatOptions := if FileJSON c then json_format_options else plain_format_options false;
  lt_MaxQueueSize := 1000 |}.

Definition logger_targets (c : LoggerConfig) : gmap string log_target :=
  let cfg := if EnableConsole c then {["_defConsole"%string := console_target c]} else ∅ in
  if EnableFile c then <["_defFile"%string := file_target c]> cfg else cfg.

(** [make] is [mlog.NewLogger], [configure] its [ConfigureTargets]. *)
Definition logger_New {Log} (make : result Log) (configure : Log → gmap string log_target → result Log)
    (c : LoggerConfig) : result Log :=
  _ ← Logger_IsValid c;
  log ← make;
  configure log (logger_targets c).

End logger.

(** ** The service *)
Record TLSConfig := { tls_Enable : bool; CertFile : string; CertKey : string }.
Record HTTPConfig := { ListenAddress : string; TLS : TLSConfig }.
Record APIConfig := { HTTP : HTTPConfig; Security : SecurityConfig; SessionCacheMinutes : Z }.
Record StoreConfig := { DataSource : string }.
Record Config := { API : APIConfig; RTC : ServerConfig; StoreCfg : StoreConfig; Logger : LoggerConfig }.

(** What the checks ask outside: [net.ParseIP], [tls.LoadX509KeyPair], Unicode. *)
Record checks := {
  is_ip : string → bool;
  LoadX509KeyPair : string → string → result unit;
  unicode_lower : string → string;
}.

Section service.
  Context {G : LogLib} (o : checks).

Definition TLSConfig_IsValid (c : TLSConfig) : result unit :=
  if tls_Enable c then
    _ ← guard_err (bool_decide (CertFile c = str0)) "invalid CertFile value: should not be empty";
    _ ← guard_err (bool_decide (CertKey c = str0)) "invalid CertKey value: should not be empty";
    wrap_err "failed to load cert files" (LoadX509KeyPair o (CertFile c) (CertKey c))
  else Ok tt.

Definition HTTPConfig_IsValid (c : HTTPConfig) : result unit :=
  _ ← guard_err (bool_decide (ListenAddress c = str0)) "invalid ListenAddress value: should not be empty";
  wrap_err "invalid TLS config" (TLSConfig_IsValid (TLS c)).

Definition APIConfig_IsValid (c : APIConfig) : result unit :=
  _ ← wrap_err "failed to validate admin config" (SecurityConfig_IsValid (Security c));
  wrap_err "failed to validate http config" (HTTPConfig_IsValid (HTTP c)).

Definition StoreConfig_IsValid (c : StoreConfig) : result unit :=
  guard_err (bool_decide (DataSource c = str0)) "invalid DataSource value: should not be empty".

Definition Config_IsValid (c : Config) : result unit :=
  _ ← APIConfig_IsValid (API c);
  _ ← ServerConfig_IsValid (is_ip o) (RTC c);
  _ ← StoreConfig_IsValid (StoreCfg c);
  Logger_IsValid (unicode_lower o) (Logger c).

(** [SetDefaults] on a configuration; [cpus] is [runtime.NumCPU()]. *)
Definition GetDefaultUDPListeningSocketsCount (cpus : Z) : Z := wrap_int 64 (cpus * 100).

Definition SetDefaults (cpus : Z) (c : Config) : Config := {|
  API := {|
    HTTP := {| ListenAddress := ":8045"; TLS := TLS (HTTP (API c)) |};
    Security := Security (API c); SessionCacheMinutes := 1440 |};
  RTC := {|
    ICEAddressUDP := ICEAddressUDP (RTC c); ICEPortUDP := 8443;
    ICEAddressTCP := ICEAddressTCP (RTC c); ICEPortTCP := 8443;
    ICEHostOverride := ICEHostOverride (RTC c); ICEHostPortOverride := ICEHostPortOverride (RTC c);
    cfgICEServers := cfgICEServers (RTC c);
    cfgTURNConfig := {| StaticAuthSecret := StaticAuthSecret (cfgTURNConfig (RTC c));
                        CredentialsExpirationMinutes := 1440 |};
    EnableIPv6 := EnableIPv6 (RTC c);
    UDPSocketsCount := GetDefaultUDPListeningSocketsCount cpus |};
  StoreCfg := {| DataSource := "/tmp/rtcd_db" |};
  Logger := {|
    EnableConsole := true; ConsoleJSON := false; ConsoleLevel := "INFO";
    EnableFile := true; FileJSON := true; FileLevel := "DEBUG"; FileLocation := "rtcd.log";
    EnableColor := false |} |}.

(** [var cfg Config]. *)
Definition zero_config : Config := {|
  API := {|
    HTTP := {| ListenAddress := str0; TLS := {| tls_Enable := false; CertFile := str0; CertKey := str0 |} |};
    Security := {| EnableAdmin := false; AdminSecretKey := str0; AllowSelfRegistration := false |};
    SessionCacheMinutes := 0 |};
  RTC := {|
    ICEAddressUDP := str0; ICEPortUDP := 0; ICEAddressTCP := str0; ICEPortTCP := 0;
    ICEHostOverride := str0; ICEHostPortOverride := str0; cfgICEServers := [];
    cfgTURNConfig := {| StaticAuthSecret := str0; CredentialsExpirationMinutes := 0 |};
    EnableIPv6 := false; UDPSocketsCount := 0 |};
  StoreCfg := {| DataSource := str0 |};
  Logger := {|
    EnableConsole := false; ConsoleJSON := false; ConsoleLevel := str0; EnableFile := false;
    FileJSON := false; FileLevel := str0; FileLocation := str0; EnableColor := false |} |}.

(** [loadConfig] (cmd/rtcd): the file, when there is one, then the environment
    are decoded over the defaults. *)
Definition loadConfig (cpus : Z) (missing : bool) (file env : Config → result Config) : result Config :=
  let cfg := SetDefaults cpus zero_config in
  cfg ← (if missing then Ok cfg else wrap_err "failed to decode config file" (file cfg));
  env cfg.

End service.

(** What the library promises of URLs with a host: what is written is read
    back when the scheme and the path are those of a WebSocket endpoint. *)
Class UrlLaws (U : UrlLib) := {
  parse_ws text scheme host path rest s :
    url_Parse text = Ok (scheme, host, path, rest) → host ≠ str0 → s = "ws"%string ∨ s = "wss"%string →
    ∃ rest', url_Parse (url_String s host "/ws" rest) = Ok (s, host, "/ws"%string, rest');
  ws_text text scheme host path rest s :
    url_Parse text = Ok (scheme, host, path, rest) → host ≠ str0 → s = "ws"%string ∨ s = "wss"%string →
    ∃ tail, url_String s host "/ws" rest = s +:+ "://" +:+ tail;
}.

(** ** Lemmas *)
Lemma Parse_ok {U : UrlLib} text u :
  Parse text = Ok u ↔ url_Parse text = Ok (u_Scheme u, u_Host u, u_Path u, u_rest u).
Proof.
  unfold Parse. destruct (url_Parse text) as [[[[s h] p] r]|e]; cbn; [|done]. destruct u; cbn. split; by intros [= -> -> -> ->].
Qed.

Lemma levels_until_split {G : LogLib} unicode name all :
  (∃ pre l post, all = pre ++ l :: post ∧ lv_Name l = ToLower unicode name ∧
     Forall (λ l, lv_Name l ≠ ToLower unicode name) pre ∧ levels_until unicode name all = pre ++ [l])
  ∨ (Forall (λ l, lv_Name l ≠ ToLower unicode name) all ∧ levels_until unicode name all = all).
Proof.
  induction all as [|l all IH]; cbn [levels_until]; [by right|].
  case_bool_decide as Hl; [left; by exists [], l, all|].
  destruct IH as [(pre & k & post & -> & Hk & Hpre & E)|[Hall E]]; rewrite E; [left|right].
  - exists (l :: pre), k, post. by repeat split; [|constructor].
  - by split; [constructor|].
Qed.

Lemma found_level_in {G : LogLib} unicode name :
  found_level unicode name = true ↔ ∃ l, l ∈ StdAll ∧ lv_Name l = ToLower unicode name.
Proof.
  unfold found_level. rewrite existsb_exists. split.
  - intros (l & Hl & H%bool_decide_eq_true). exists l. by rewrite list_elem_of_In.
  - intros (l & Hl & H). exists l. rewrite <- list_elem_of_In. split; [done|]. by apply bool_decide_eq_true.
Qed.

(** The WebSocket URL is written as one. *)
Lemma ws_url_text {U : UrlLib} {L : UrlLaws U} (c c' : ClientConfig) :
  ClientConfig_Parse c = Ok c' →
  ∃ s tail, (s = "ws"%string ∨ s = "wss"%string) ∧ cc_wsURL c' = s +:+ "://" +:+ tail.
Proof.
  unfold ClientConfig_Parse. destruct (bool_decide (cc_URL c = str0)); [done|]. cbn.
  destruct (Parse (cc_URL c)) as [u|e] eqn:Hu; [|done]. cbn.
  destruct (bool_decide_reflect (u_Host u = str0)) as [|Hh]; [done|]. cbn. apply Parse_ok in Hu.
  assert (Hws : ∀ s, s = "ws"%string ∨ s = "wss"%string →
    ∃ tail, to_String (set_target s "/ws" u) = s +:+ "://" +:+ tail) by (intros s Hs; exact (ws_text _ _ _ _ _ s Hu Hh Hs)).
  destruct (bool_decide (u_Scheme u = "http"%string)); cbn.
  - intros [= <-]. destruct (Hws "ws"%string (or_introl eq_refl)) as (tail & E). eauto 6.
  - destruct (bool_decide (u_Scheme u = "https"%string)); cbn; [|done].
    intros [= <-]. destruct (Hws "wss"%string (or_intror eq_refl)) as (tail & E). eauto 6.
Qed.

(** A quotation mark in the file's location ends the member it is written
    in: the rest of the location becomes members of the options. *)
Lemma location_escapes (p k v : string) :
  file_options (p +:+ quote +:+ ", " +:+ member k (quote +:+ v)) =
  "{" +:+ member "filename" (quote +:+ p +:+ quote) +:+ ", " +:+ member k (quote +:+ v +:+ quote) +:+ ", " +:+
  member "max_size" "100" +:+ ", " +:+ member "max_age" "0" +:+ ", " +:+ member "max_backups" "0" +:+ ", " +:+
  member "compress" "true" +:+ "}".
Proof. unfold file_options, member. by rewrite !sapp_assoc. Qed.

(** ** Properties *)

(** The client keeps to the security of the URL it is given.  A configuration
    that parses has an http or https URL with a host; the HTTP calls go to
    that URL, the WebSocket to the path /ws of the same host, encrypted exactly
    when the URL is https, and the delay before reconnecting is positive. *)
Theorem client_endpoints {U : UrlLib} {L : UrlLaws U} (c c' : ClientConfig) :
  ClientConfig_Parse c = Ok c' →
  cc_httpURL c' = cc_URL c ∧ (0 < cc_ReconnectInterval c')%Z ∧
  (cc_ClientID c', cc_AuthKey c', cc_URL c') = (cc_ClientID c, cc_AuthKey c, cc_URL c) ∧
  ∃ u w, Parse (cc_URL c) = Ok u ∧ Parse (cc_wsURL c') = Ok w ∧
    u_Host w = u_Host u ∧ u_Host u ≠ str0 ∧ u_Path w = "/ws"%string ∧
    ((u_Scheme u = "http"%string ∧ u_Scheme w = "ws"%string) ∨
     (u_Scheme u = "https"%string ∧ u_Scheme w = "wss"%string)).
Proof.
  unfold ClientConfig_Parse. destruct (bool_decide (cc_URL c = str0)); [done|]. cbn.
  destruct (Parse (cc_URL c)) as [u|e] eqn:Hu; [|done]. cbn.
  destruct (bool_decide_reflect (u_Host u = str0)) as [|Hh]; [done|]. cbn.
  assert (Hws : ∀ s, s = "ws"%string ∨ s = "wss"%string → ∃ w, Parse (to_String (set_target s "/ws" u)) = Ok w ∧
    u_Host w = u_Host u ∧ u_Path w = "/ws"%string ∧ u_Scheme w = s).
  { intros s Hs. apply Parse_ok in Hu. destruct (parse_ws _ _ _ _ _ s Hu Hh Hs) as (rest & Hr).
    exists {| u_Scheme := s; u_Host := u_Host u; u_Path := "/ws"; u_rest := rest |}. by rewrite Parse_ok. }
  assert (Hi : (0 < if cc_ReconnectInterval c <=? 0 then defaultReconnectInterval else cc_ReconnectInterval c)%Z).
  { destruct (Z.leb_spec (cc_ReconnectInterval c) 0); [done|lia]. }
  destruct (bool_decide_reflect (u_Scheme u = "http"%string)) as [Hs|_]; cbn.
  - intros [= <-]. destruct (Hws "ws"%string (or_introl eq_refl)) as (w & H). naive_solver.
  - destruct (bool_decide_reflect (u_Scheme u = "https"%string)) as [Hs|_]; cbn; [|done].
    intros [= <-]. destruct (Hws "wss"%string (or_intror eq_refl)) as (w & H). naive_solver.
Qed.

(** A valid logger has a target, and each of its targets logs the levels down
    to the configured one and no other. *)
Theorem logger_levels {G : LogLib} unicode (c : LoggerConfig) :
  Logger_IsValid unicode c = Ok tt →
  logger_targets unicode c ≠ ∅ ∧
  ∀ name t, logger_targets unicode c !! name = Some t →
    ∃ level pre l post, StdAll = pre ++ l :: post ∧ lv_Name l = ToLower unicode level ∧
      Forall (λ k, lv_Name k ≠ ToLower unicode level) pre ∧ lt_Levels t = pre ++ [l] ∧
      ((name = "_defConsole"%string ∧ level = ConsoleLevel c ∧ EnableConsole c = true) ∨
       (name = "_defFile"%string ∧ level = FileLevel c ∧ EnableFile c = true ∧ FileLocation c ≠ str0)).
Proof.
  unfold Logger_IsValid. autorewrite with ok. intros (Hany & Hcon & Hfil & Hloc). split.
  { unfold logger_targets. destruct (EnableConsole c), (EnableFile c); [apply insert_non_empty..|done]. }
  assert (Hlev : ∀ level, found_level unicode level = true → ∃ pre l post, StdAll = pre ++ l :: post ∧
    lv_Name l = ToLower unicode level ∧ Forall (λ k, lv_Name k ≠ ToLower unicode level) pre ∧
    getLevels unicode level = pre ++ [l]).
  { intros level (l & Hl & Hn)%found_level_in.
    destruct (levels_until_split unicode level StdAll) as [H|[Hall _]]; [exact H|].
    by destruct (proj1 (Forall_forall _ _) Hall l Hl). }
  assert (HC : EnableConsole c = true → found_level unicode (ConsoleLevel c) = true)
    by (intros E; rewrite E in Hcon; by destruct (found_level unicode (ConsoleLevel c))).
  assert (HF : EnableFile c = true → found_level unicode (FileLevel c) = true ∧ FileLocation c ≠ str0).
  { intros E. rewrite E in Hfil, Hloc. cbn in Hloc. apply bool_decide_eq_false in Hloc.
    by destruct (found_level unicode (FileLevel c)). }
  intros name t Ht.
  assert (Hcase : (EnableConsole c = true ∧ name = "_defConsole"%string ∧ t = console_target unicode c) ∨
    (EnableFile c = true ∧ name = "_defFile"%string ∧ t = file_target unicode c)).
  { unfold logger_targets in Ht. destruct (EnableConsole c), (EnableFile c);
      rewrite ?lookup_insert_Some, ?lookup_singleton_Some, ?lookup_empty in Ht; naive_solver. }
  destruct Hcase as [(He & -> & ->)|(He & -> & ->)].
  - destruct (Hlev _ (HC He)) as (pre & l & post & H). exists (ConsoleLevel c), pre, l, post. naive_solver.
  - destruct (HF He) as [Hf Hl]. destruct (Hlev _ Hf) as (pre & l & post & H).
    exists (FileLevel c), pre, l, post. naive_solver.
Qed.

(** Without a file and an environment the service's configuration is valid,
    and so is every part of it that the parts check again. *)
Theorem default_config_valid {G : LogLib} (o : checks) (cpus : Z) :
  (0 < cpus ≤ 2 ^ 32)%Z → (∀ name, name = "info"%string ∨ name = "debug"%string → ∃ l, l ∈ StdAll ∧ lv_Name l = name) →
  ∃ c cache, loadConfig cpus true (λ c, Ok c) (λ c, Ok c) = Ok c ∧ Config_IsValid o c = Ok tt ∧
    NewSessionCache (SessionCacheMinutes (API c)) = Ok cache ∧ session_lifetime cache = (1440 * minute)%Z ∧
    UDPSocketsCount (RTC c) = (cpus * 100)%Z.
Proof.
  intros Hc Hl. eexists _, _. split; [reflexivity|].
  assert (E : GetDefaultUDPListeningSocketsCount cpus = (cpus * 100)%Z)
    by (apply wrap_int_id; unfold min_int64, max_int64; lia).
  split; [|split; [reflexivity|split; [reflexivity|exact E]]].
  unfold Config_IsValid, APIConfig_IsValid, ServerConfig_IsValid, Logger_IsValid. autorewrite with ok.
  cbn -[found_level GetDefaultUDPListeningSocketsCount]. rewrite E.
  assert (Hf : ∀ name, ToLower (unicode_lower o) name = "info"%string ∨ ToLower (unicode_lower o) name = "debug"%string →
    found_level (unicode_lower o) name = true).
  { intros name Hn. apply found_level_in. by apply Hl. }
  rewrite !Hf by (by (left + right)). repeat split. apply Z.leb_gt. lia.
Qed.

(** ** A concrete library *)
Module ToyConfig.

(** URLs "scheme://host/path". *)
Definition parse (s : string) : result (string * string * string * unit) :=
  match Cut ":" s with
  | Some (scheme, String "/" (String "/" rest)) =>
      match Cut "/" rest with
      | Some (host, path) => Ok (scheme, host, String "/" path, tt)
      | None => Ok (scheme, rest, str0, tt)
      end
  | _ => Err (EText "missing protocol scheme")
  end.

Definition toy_url : UrlLib := {|
  url_rest := unit; url_Parse := parse; url_String s h p _ := s +:+ ":" +:+ "//" +:+ h +:+ p |}.

Lemma Cut_none c s : Cut c s = None → Contains c s = false.
Proof.
  induction s as [|a s IH]; cbn; [done|]. case_bool_decide; [done|]. by destruct (Cut c s) as [[]|]; [|intros _; apply IH].
Qed.

Lemma toy_url_laws : UrlLaws toy_url.
Proof.
  refine (Build_UrlLaws toy_url _ _); cbn [url_Parse url_String toy_url url_rest].
  2: { intros text scheme host path rest s _ _ _. exists (host +:+ "/ws"). done. }
  intros text scheme host path rest s Hp Hh Hs. exists tt.
  assert (Hn : Contains "/" host = false).
  { unfold parse in Hp. destruct (Cut ":" text) as [[sc [|a [|b r]]]|]; try done;
      [by destruct a as [[][][][][][][][]]|].
    destruct (bool_decide_reflect (a = "/"%char)) as [->|Ha];
      [|by destruct a as [[][][][][][][][]]].
    destruct (bool_decide_reflect (b = "/"%char)) as [->|Hb];
      [|by destruct b as [[][][][][][][][]]].
    destruct (Cut "/" r) as [[h p]|] eqn:Hc; injection Hp as <- <- _.
    - by eapply Cut_user.
    - by apply Cut_none. }
  unfold parse. assert (E : Cut ":" (s +:+ ":" +:+ "//" +:+ host +:+ "/ws") = Some (s, "//" +:+ host +:+ "/ws"))
    by (apply Cut_app; by destruct Hs as [-> | ->]).
  rewrite E. rewrite !sapp_cons, sapp_nil. change (host +:+ "/ws") with (host +:+ String "/" "ws"). by rewrite Cut_app.
Qed.

Definition client_config : ClientConfig := {|
  cc_httpURL := str0; cc_wsURL := str0; cc_ClientID := "a"; cc_AuthKey := "key";
  cc_URL := "https://rtcd.example.com"; cc_ReconnectInterval := 0 |}.

(** The levels of the logging library. *)
Definition toy_log : LogLib := {|
  log_level := string; lv_Name l := l;
  StdAll := ["panic"; "fatal"; "error"; "warn"; "info"; "debug"; "trace"; "stdlog"]%string |}.

Definition toy_checks : checks := {|
  is_ip _ := true; LoadX509KeyPair _ _ := Ok tt; unicode_lower s := s |}.

End ToyConfig.

(** ** Witnesses *)
Lemma client_endpoints_witness :
  ∃ c', ClientConfig_Parse (U := ToyConfig.toy_url) ToyConfig.client_config = Ok c' ∧
    cc_wsURL c' = "wss://rtcd.example.com/ws"%string ∧ (0 < cc_ReconnectInterval c')%Z.
Proof.
  eexists. split; [reflexivity|]. split; [reflexivity|].
  apply (client_endpoints (L := ToyConfig.toy_url_laws) ToyConfig.client_config). reflexivity.
Defined.

Lemma logger_levels_witness :
  logger_targets (G := ToyConfig.toy_log) id (Logger (SetDefaults 4 zero_config)) ≠ ∅.
Proof. apply (logger_levels (G := ToyConfig.toy_log)). reflexivity. Defined.

Lemma default_config_valid_witness :
  ∃ c, loadConfig 4 true (λ c, Ok c) (λ c, Ok c) = Ok c ∧
    Config_IsValid (G := ToyConfig.toy_log) ToyConfig.toy_checks c = Ok tt.
Proof.
  destruct (default_config_valid (G := ToyConfig.toy_log) ToyConfig.toy_checks 4) as (c & _ & H & Hv & _).
  - lia.
  - intros name Hn. exists name. split; [|done]. destruct Hn as [-> | ->]; apply (bool_decide_unpack _); vm_compute; exact I.
  - by exists c.
Defined.
