(* ===== verification/RtcdApi.v ===== *)
(** * RtcdApi: the HTTP interface of the service, seen from its client

    The endpoints of the service (the routes of service/service.go,
    service/version.go, service/system.go and, from [HttpAuth], those of
    authentication), the calls of the client that use them (service/client.go),
    and the two put together: what a call that succeeds has done to the store.
    The transport, [http.NewRequest] and the JSON codec are parameters. *)
From Stdlib Require Import Floats.SpecFloat Ascii.
From S2P Require Import Prelude GoFloat GoText Base64 Random Store Auth HttpAuth WsServer WsClient Config.

(** ** JSON and HTTP *)

(** Values of [json_good] survive the codec; others (strings that are not
    UTF-8, floats that are not finite) are changed or refused. *)
Class Json (A : Type) := {
  to_json : A → result string;
  of_json : string → result A;
  json_good : A → Prop;
}.
Class JsonLaws (A : Type) {J : Json A} := {
  json_back a : json_good a → ∃ t, to_json a = Ok t ∧ of_json t = Ok a;
  json_eof : ∃ e, of_json str0 = Err e;
}.

Record http_call := { hc_Method : string; hc_URL : string; hc_Auth : string; hc_Body : string }.
Record http_reply := { hr_StatusCode : Z; hr_Status : string; hr_Body : string }.

Definition StatusNotFound : Z := 404.

(** [StatusText] is net/http's. *)
Definition status_line (text : Z → string) (code : Z) : string := Itoa code +:+ " " +:+ text code.

(** ** Version *)
Record VersionInfo := {
  BuildDate : string;
  BuildVersion : string;
  BuildHash : string;
  GoVersion : string;
  GoOS : string;
  GoArch : string;
}.

(** The linker's variables and the runtime's constants. *)
Record build := {
  buildVersion : string; buildHash : string; buildDate : string;
  runtime_Version : string; runtime_GOOS : string; runtime_GOARCH : string;
}.

Definition getVersionInfo (b : build) : VersionInfo := {|
  BuildDate := buildDate b; BuildVersion := buildVersion b; BuildHash := buildHash b;
  GoVersion := runtime_Version b; GoOS := runtime_GOOS b; GoArch := runtime_GOARCH b |}.

Definition version_fields (v : VersionInfo) : list (string * string) :=
  [("buildDate", BuildDate v); ("buildVersion", BuildVersion v); ("buildHash", BuildHash v);
   ("goVersion", GoVersion v); ("goOS", GoOS v); ("goArch", GoArch v)]%string.

(** ** System *)
Record SystemInfo := { CPULoad : float }.

(** [prevStat], [prevTime] (none is the zero time) and [systemInfo]. *)
Record sampler := { sp_idle : float; sp_time : option Z; sp_info : SystemInfo }.

Definition new_sampler : sampler :=
  {| sp_idle := S754_zero false; sp_time := None; sp_info := {| CPULoad := S754_zero false |} |}.

(** [time.Time.Sub] and [time.Duration.Seconds]. *)
Definition time_Sub (t u : Z) : Z := Z.max min_int64 (Z.min max_int64 (t - u)).
Definition Seconds (d : Z) : float :=
  f64_add (f64_of_Z (Z.quot d second)) (f64_div (f64_of_Z (Z.rem d second)) (f64_of_Z second)).

Definition cpu_load (idleDiff elapsed : float) : float :=
  f64_div (f64_of_Z 1) (f64_div idleDiff elapsed).

(** One tick of [collectSystemInfo]; [stat] is the idle time of [proc.Stat()]. *)
Definition collectSystemInfo_tick (currTime : Z) (stat : result float) (s : sampler) : sampler :=
  match stat with
  | Err _ => s
  | Ok idle =>
      let idleDiff := f64_sub idle (sp_idle s) in
      {| sp_idle := idle; sp_time := Some currTime;
         sp_info := match sp_time s with
                    | None => sp_info s
                    | Some prevTime => {| CPULoad := cpu_load idleDiff (Seconds (time_Sub currTime prevTime)) |}
                    end |}
  end.

Definition collectSystemInfo (ticks : list (Z * result float)) (s : sampler) : sampler :=
  fold_left (λ s t, collectSystemInfo_tick t.1 t.2 s) ticks s.

(** ** The endpoints *)
Section server.
  Context {O : MapOrder} {S : Store} {B : Bcrypt} (cfg : SecurityConfig) (text : Z → string) (b : build).
  Context {JM : Json (gmap string string)} {JV : Json VersionInfo} {JS : Json SystemInfo}.

Record api_state := { as_auth : auth S; as_sampler : sampler }.

Definition on_auth {A} (m : go (auth S) A) : go api_state A := λ s,
  '(r, a) ← m (as_auth s); Some (r, {| as_auth := a; as_sampler := as_sampler s |}).

(** A body is written once the value is encoded: a value that cannot be
    leaves the status, and nothing else. *)
Definition reply {A} {J : Json A} (code : Z) (a : A) : http_reply := {|
  hr_StatusCode := code; hr_Status := status_line text code;
  hr_Body := match to_json a with Ok t => t | Err _ => str0 end |}.

Definition not_found_body : string := "404 page not found" +:+ String (ascii_of_nat 10) EmptyString.
Definition not_found : http_reply := {|
  hr_StatusCode := StatusNotFound; hr_Status := status_line text StatusNotFound; hr_Body := not_found_body |}.

Definition write_answer (a : http_response) : http_reply :=
  match a with NotFound => not_found | Answer code res => reply code res end.

Definition getVersion (c : http_call) : http_reply :=
  if bool_decide (hc_Method c ≠ "GET"%string) then not_found else reply StatusOK (getVersionInfo b).

Definition getSystemInfo (c : http_call) (s : sampler) : http_reply :=
  if bool_decide (hc_Method c ≠ "GET"%string) then not_found else reply StatusOK (sp_info s).

Definition as_request (c : http_call) : http_request := {|
  req_Method := hc_Method c; req_Authorization := hc_Auth c; req_Body := of_json (hc_Body c) |}.

(** The routes [New] registers, less /ws, the metrics and the profiles, which
    are [others]. *)
Definition serve (others : string → http_call → http_reply) (path : string) (c : http_call)
    (o : outside S) : go api_state http_reply :=
  if bool_decide (path = "/version"%string) then mret (getVersion c)
  else if bool_decide (path = "/login"%string) then a ← on_auth (loginClient (as_request c) o); mret (write_answer a)
  else if bool_decide (path = "/register"%string) then
    a ← on_auth (registerClient cfg (as_request c) o); mret (write_answer a)
  else if bool_decide (path = "/unregister"%string) then
    a ← on_auth (unregisterClient cfg (as_request c) o); mret (write_answer a)
  else if bool_decide (path = "/system"%string) && bool_decide (runtime_GOOS b ≠ "darwin"%string) then
    s ← gets as_sampler; mret (getSystemInfo c s)
  else mret (others path c).

End server.

(** ** The client *)
Record http_client := { hcl_cfg : ClientConfig; hcl_ready : bool }.

(** [NewClient]: the configuration, the answers of the options, and a client
    whose transport is made. *)
Definition new_http_client {U : UrlLib} (cfg : ClientConfig) (options : list (result unit)) : result http_client :=
  cfg ← wrap_err "failed to parse config" (ClientConfig_Parse cfg);
  _ ← wrap_err "failed to apply option" (foldr (λ o r, o ;; r) (Ok tt) options);
  Ok {| hcl_cfg := cfg; hcl_ready := true |}.

Definition SetBasicAuth (user password : string) : string :=
  "Basic " +:+ EncodeToString (user +:+ ":" +:+ password).

Section client.
  Context {W : Type} (NewRequest : string → string → result unit) (Do : http_call → go W (result http_reply)).
  Context {JM : Json (gmap string string)} {JV : Json VersionInfo} {JS : Json SystemInfo} (cl : http_client).

Definition no_client {A} : result A := Err (EText "http client is not initialized").

(** Building a request, and sending it. *)
Definition send_request {A} (meth path auth body : string) (k : http_reply → result A) : go W (result A) :=
  let url := cc_httpURL (hcl_cfg cl) +:+ path in
  match NewRequest meth url with
  | Err e => mret (Err (EWrap "failed to build request" e))
  | Ok _ =>
      resp ← Do {| hc_Method := meth; hc_URL := url; hc_Auth := auth; hc_Body := body |};
      mret (match resp with Err e => Err (EWrap "http request failed" e) | Ok resp => k resp end)
  end.

Definition own_credentials : string := SetBasicAuth (cc_ClientID (hcl_cfg cl)) (cc_AuthKey (hcl_cfg cl)).

Definition status_error {A} (resp : http_reply) : result A :=
  Err (EText ("request failed with status " +:+ hr_Status resp)).

Definition request_error (resp : http_reply) (respData : gmap string string) : result unit :=
  let errMsg := field "error" respData in
  if bool_decide (errMsg ≠ str0) then Err (EText ("request failed: " +:+ errMsg)) else status_error resp.

Definition register_data (clientID authKey : string) : gmap string string :=
  <["clientID"%string := clientID]> {["authKey"%string := authKey]}.

Definition rcd_Register (clientID authKey : string) : go W (result unit) :=
  if negb (hcl_ready cl) then mret no_client
  else
    match to_json (register_data clientID authKey) with
    | Err e => mret (Err (EWrap "failed to encode body" e))
    | Ok buf =>
        send_request "POST" "/register" own_credentials buf (λ resp,
          respData ← wrap_err "decoding http response failed" (of_json (hr_Body resp));
          if bool_decide (hr_StatusCode resp ≠ StatusCreated) then request_error resp respData else Ok tt)
    end.

Definition rcd_Unregister (clientID : string) : go W (result unit) :=
  if negb (hcl_ready cl) then mret no_client
  else
    match to_json ({["clientID"%string := clientID]} : gmap string string) with
    | Err e => mret (Err (EWrap "failed to encode body" e))
    | Ok buf =>
        send_request "POST" "/unregister" own_credentials buf (λ resp,
          if bool_decide (hr_StatusCode resp ≠ StatusOK) then
            respData ← wrap_err "decoding http response failed" (of_json (hr_Body resp));
            request_error resp respData
          else Ok tt)
    end.

(** [GetVersionInfo] and [GetSystemInfo]. *)
Definition get_info {A} {J : Json A} (path : string) : go W (result A) :=
  if negb (hcl_ready cl) then mret no_client
  else send_request "GET" path str0 str0 (λ resp,
    info ← wrap_err "decoding http response failed" (of_json (hr_Body resp));
    if bool_decide (hr_StatusCode resp ≠ StatusOK) then status_error resp else Ok info).

Definition GetVersionInfo : go W (result VersionInfo) := get_info "/version".
Definition GetSystemInfo : go W (result SystemInfo) := get_info "/system".

(** What [Connect] gives to [ws.NewClient], and the header that comes of it. *)
Definition connect_config : WsClient.ClientConfig := {|
  cf_URL := cc_wsURL (hcl_cfg cl); cf_ConnID := str0;
  cf_AuthToken := EncodeToString (cc_ClientID (hcl_cfg cl) +:+ ":" +:+ cc_AuthKey (hcl_cfg cl));
  cf_AuthType := BasicClientAuthType |}.
Definition connect_auth : string := auth_header connect_config.

End client.

(** ** The client's calls reach the service *)

(** A request or its answer may be lost on the way. *)
Inductive network := Delivered | LostRequest | LostReply.

(** What follows the base of a URL. *)
Definition path_of (base url : string) : option string :=
  let '(x, path) := split_at (String.length base) url in
  if bool_decide (x = base) then Some path else None.

Section composed.
  Context {O : MapOrder} {S : Store} {B : Bcrypt} (cfg : SecurityConfig) (text : Z → string) (b : build).
  Context {JM : Json (gmap string string)} {JV : Json VersionInfo} {JS : Json SystemInfo}.
  Context (others : string → http_call → http_reply) (NewRequest : string → string → result unit).

(** The transport between a client and the service at [base]. *)
Definition transport (base : string) (net : network) (o : outside S) (c : http_call) :
    go api_state (result http_reply) :=
  match net, path_of base (hc_URL c) with
  | LostRequest, _ | _, None => mret (Err (EText "connection refused"))
  | _, Some path =>
      resp ← serve cfg text b others path c o;
      mret (match net with Delivered => Ok resp | _ => Err (EText "connection reset by peer") end)
  end.

Lemma path_of_app base path : path_of base (base +:+ path) = Some path.
Proof. unfold path_of. by rewrite split_at_app, bool_decide_true. Qed.

Lemma wp_and_wlp {X A} (m : go X A) Q Q' x : wp m Q x → wlp m Q' x → wp m (λ a x', Q a x' ∧ Q' a x') x.
Proof. intros (a & x' & E & H)%wp_inv H'. apply wp_inv. eauto 6. Qed.

Lemma wlp_any {X A} (m : go X A) x : wlp m (λ _ _, True) x.
Proof. by intros ???. Qed.

Lemma wp_on_auth {A} (m : go (auth S) A) Q (s : api_state) :
  wp m (λ r x, Q r {| as_auth := x; as_sampler := as_sampler s |}) (as_auth s) → wp (on_auth m) Q s.
Proof. unfold wp, on_auth. destruct (m (as_auth s)) as [[r x]|] eqn:E; cbn; by rewrite ?E. Qed.

(** *** Every answer but one is a refusal *)
Definition refusal (resp : http_response) : Prop :=
  resp = NotFound ∨ ∃ code e, (400 ≤ code)%Z ∧ resp = failure code e.

Lemma refusal_failure code e : (400 ≤ code)%Z → refusal (failure code e).
Proof. right. eauto. Qed.

Lemma refusal_code resp : refusal resp → (400 ≤ hr_StatusCode (write_answer text resp))%Z.
Proof. intros [->|(code & e & Hc & ->)]; [done|exact Hc]. Qed.

Lemma authHandler_code r o x :
  wlp (authHandler cfg r o) (λ ans _, aa_err ans ≠ None → aa_code ans = StatusUnauthorized) x.
Proof.
  unfold authHandler, bearerAuthHandler, basicAuthHandler. destruct (HasPrefix _ _).
  - destruct (parseBearerAuth _); [|by apply wlp_ret].
    apply wlp_bind. eapply wlp_mono; [apply wlp_any|]. intros [c|e] x' _; apply wlp_ret; [|done]. by case_bool_decide.
  - destruct (BasicAuth r) as [[id key]|]; [|by apply wlp_ret]. wlp_branch; [by apply wlp_ret|].
    wlp_branch; [by apply wlp_ret|]. apply wlp_bind. eapply wlp_mono; [apply wlp_any|].
    intros [u|e] x' _; by apply wlp_ret.
Qed.

Lemma authHandler_refuses {A} r o x (k : auth_answer → go (auth S) A) Q :
  (∀ ans x', aa_err ans = None → wlp (k ans) Q x') →
  (∀ ans e x', aa_err ans = Some e → aa_code ans = StatusUnauthorized → wlp (k ans) Q x') →
  wlp (a ← authHandler cfg r o; k a) Q x.
Proof.
  intros H1 H2. apply wlp_bind. eapply wlp_mono; [apply authHandler_code|]. intros ans x' Hc.
  destruct (aa_err ans) as [e|] eqn:E; [apply (H2 _ e _ E), Hc; by rewrite E|by apply H1].
Qed.

Lemma registerClient_answer r o x :
  wlp (registerClient cfg r o) (λ resp _, refusal resp ∨
    ∃ id, resp = success StatusCreated {["clientID"%string := id]}) x.
Proof.
  assert (Hbody : ∀ x, wlp (register_body r o) (λ resp _, refusal resp ∨
    ∃ id, resp = success StatusCreated {["clientID"%string := id]}) x).
  { intros y. unfold register_body. destruct (req_Body r) as [m|e]; [|apply wlp_ret; left; by apply refusal_failure].
    apply wlp_bind. eapply wlp_mono; [apply wlp_any|]. intros [u|e] x' _; apply wlp_ret; [by eauto|].
    left. by apply refusal_failure. }
  unfold registerClient. wlp_branch; [apply wlp_ret; by left; left|]. wlp_branch; [apply Hbody|].
  apply authHandler_refuses; [intros ans x' ->; apply Hbody|]. intros ans e x' -> ->. apply wlp_ret.
  left. by apply refusal_failure.
Qed.

Lemma unregisterClient_answer r o x :
  wlp (unregisterClient cfg r o) (λ resp _, refusal resp ∨ resp = success StatusOK ∅) x.
Proof.
  unfold unregisterClient. wlp_branch; [apply wlp_ret; by left; left|].
  wlp_branch; [apply wlp_ret; left; by apply refusal_failure|].
  apply authHandler_refuses; [|intros ans e x' -> ->; apply wlp_ret; left; by apply refusal_failure].
  intros ans x' ->. destruct (req_Body r) as [m|e]; [|apply wlp_ret; left; by apply refusal_failure].
  cbv zeta. wlp_branch; [apply wlp_ret; left; by apply refusal_failure|].
  wlp_branch; [apply wlp_ret; left; by apply refusal_failure|].
  apply wlp_bind. eapply wlp_mono; [apply wlp_any|]. intros [u|e] x1 _; apply wlp_ret; [by right|].
  left. by apply refusal_failure.
Qed.

(** A call that reaches the service: what it answers is read by [k], unless
    the answer is lost. *)
Lemma send_spec {A} cl net o meth path au body (k : http_reply → result A) (Q : result A → api_state → Prop) s :
  (∀ e, Q (Err e) s) →
  wp (serve cfg text b others path
        {| hc_Method := meth; hc_URL := cc_httpURL (hcl_cfg cl) +:+ path; hc_Auth := au; hc_Body := body |} o)
     (λ resp s', Q (k resp) s' ∧ ∀ e, Q (Err e) s') s →
  wp (send_request NewRequest (transport (cc_httpURL (hcl_cfg cl)) net o) cl meth path au body k) Q s.
Proof.
  intros Herr Hserve. unfold send_request. destruct (NewRequest _ _); [|by apply wp_ret].
  apply wp_bind. unfold transport. cbn [hc_URL]. rewrite path_of_app.
  destruct net; [|by apply wp_ret, wp_ret|]; apply wp_bind; (eapply wp_mono; [exact Hserve|]);
    intros resp s' [Hk He]; apply wp_ret, wp_ret; auto.
Qed.

(** *** The calls *)
Context {L : StoreLaws S} (life : Z).

Definition state_rep (s : api_state) (m : contents) (a : tokens) : Prop := auth_rep life (as_auth s) m a.

(** The credentials a client sends, on any request. *)
Definition authorized_call (cl : http_client) (m : contents) (a : tokens) (now : Z) (who : string) : Prop :=
  ∃ r, req_Authorization r = own_credentials cl ∧ authenticates cfg m a now r who.

Lemma register_data_id id key : field "clientID" (register_data id key) = id.
Proof. unfold field, register_data. by rewrite lookup_insert. Qed.
Lemma register_data_key id key : field "authKey" (register_data id key) = key.
Proof. unfold field, register_data. by rewrite lookup_insert_ne, lookup_singleton. Qed.

(** What a call of [Register] may have done, and has done when it succeeds. *)
Definition register_outcome (cl : http_client) (now : Z) (m : contents) (a : tokens) (id key : string)
    (res : result unit) (s' : api_state) : Prop :=
  ∃ m' a', state_rep s' m' a' ∧ a' ⊆ a ∧
    (m' = m ∨ (m !! id = None ∧ (∃ h, m' = <[id := h]> m) ∧
       (AllowSelfRegistration cfg = true ∨ ∃ who, authorized_call cl m a now who))) ∧
    (res = Ok tt → m !! id = None ∧ (∃ h, m' = <[id := h]> m) ∧ a' = a ∧ accepts m' id key ∧
       32 ≤ String.length key).

Definition unregister_outcome (cl : http_client) (now : Z) (m : contents) (a : tokens) (id : string)
    (res : result unit) (s' : api_state) : Prop :=
  ∃ m' a', state_rep s' m' a' ∧ a' ⊆ a ∧
    (m' = m ∨ (m' = delete id m ∧ (authorized_call cl m a now str0 ∨ authorized_call cl m a now id))) ∧
    (res = Ok tt → id ≠ str0 ∧ m' = delete id m ∧ a' = delete id a).

Lemma rcd_Register_spec `{!BcryptLaws B} {JL : JsonLaws (gmap string string)} cl net o id key s m a :
  state_rep s m a → quiet_outside life m a o → json_good (register_data id key) →
  wp (rcd_Register NewRequest (transport (cc_httpURL (hcl_cfg cl)) net o) cl id key)
    (register_outcome cl (out_now o) m a id key) s.
Proof.
  intros Hs Hq Hg.
  assert (Hsame : ∀ e, register_outcome cl (out_now o) m a id key (Err e) s)
    by (intros e; exists m, a; split_and!; [done|done|by left|done]).
  unfold rcd_Register. destruct (hcl_ready cl); [cbn [negb]|apply wp_ret, Hsame].
  destruct (json_back _ Hg) as (t & -> & Ht). apply send_spec; [exact Hsame|].
  change (serve _ _ _ _ "/register" ?c o) with
    (a ← on_auth (registerClient cfg (as_request c) o); mret (write_answer text a)).
  set (r := as_request _). apply wp_bind, wp_on_auth.
  eapply wp_mono; [apply wp_and_wlp; [by apply (registerClient_spec cfg life r o _ m a)|apply registerClient_answer]|].
  intros resp x [(m' & a' & Hx & Ha & Hch & Hok) Hans]. apply wp_ret.
  assert (Hr : req_Body r = Ok (register_data id key)) by exact Ht.
  assert (Hch' : m' = m ∨ (m !! id = None ∧ (∃ h, m' = <[id := h]> m) ∧
    (AllowSelfRegistration cfg = true ∨ ∃ who, authorized_call cl m a (out_now o) who))).
  { destruct (decide (m' = m)) as [|Hne]; [by left|right].
    destruct (Hch Hne) as (target & h & (_ & Hwho & body & Hb & Ht') & Hn & ->).
    rewrite Hr in Hb. injection Hb as <-. rewrite register_data_id in Ht'. subst target.
    split_and!; [done|by exists h|]. destruct Hwho as [|[who Hw]]; [by left|right]. exists who, r. by split. }
  split; [|intros e; exists m', a'; by split_and!].
  exists m', a'. split_and!; [done|done|done|]. intros Hres.
  destruct Hans as [Href|[i ->]].
  - apply refusal_code in Href. destruct (wrap_err _ _) as [d|e]; [|done]. cbn [mbind result_bind] in Hres.
    rewrite bool_decide_true in Hres by (unfold StatusCreated; lia).
    unfold request_error, status_error in Hres. by case_bool_decide.
  - destruct (Hok _ eq_refl) as (target & h & body & Hb & Ht' & Hlen & Hn & -> & -> & Hacc).
    rewrite Hr in Hb. injection Hb as <-. rewrite register_data_id in Ht'. subst target.
    rewrite register_data_key in Hacc, Hlen. split_and!; [done|by exists h|done..].
Qed.

Lemma rcd_Unregister_spec {JL : JsonLaws (gmap string string)} cl net o id s m a :
  state_rep s m a → quiet_outside life m a o → json_good ({["clientID"%string := id]} : gmap string string) →
  wp (rcd_Unregister NewRequest (transport (cc_httpURL (hcl_cfg cl)) net o) cl id)
    (unregister_outcome cl (out_now o) m a id) s.
Proof.
  intros Hs Hq Hg.
  assert (Hsame : ∀ e, unregister_outcome cl (out_now o) m a id (Err e) s)
    by (intros e; exists m, a; split_and!; [done|done|by left|done]).
  unfold rcd_Unregister. destruct (hcl_ready cl); [cbn [negb]|apply wp_ret, Hsame].
  destruct (json_back _ Hg) as (t & -> & Ht). apply send_spec; [exact Hsame|].
  change (serve _ _ _ _ "/unregister" ?c o) with
    (a ← on_auth (unregisterClient cfg (as_request c) o); mret (write_answer text a)).
  set (r := as_request _). apply wp_bind, wp_on_auth.
  eapply wp_mono; [apply wp_and_wlp; [by apply (unregisterClient_spec cfg life r o _ m a)|apply unregisterClient_answer]|].
  intros resp x [(m' & a' & Hx & Ha & Hch & Hok) Hans]. apply wp_ret.
  assert (Hr : req_Body r = Ok {["clientID"%string := id]}) by exact Ht.
  assert (Hmay : ∀ target, may_unregister cfg m a (out_now o) r target → target = id ∧ id ≠ str0 ∧
    (authorized_call cl m a (out_now o) str0 ∨ authorized_call cl m a (out_now o) id)).
  { intros target (_ & _ & (body & Hb & Ht') & Hne & Hwho). rewrite Hr in Hb. injection Hb as <-.
    unfold field in Ht'. rewrite lookup_singleton in Ht'. cbn in Ht'. subst target.
    split_and!; [done..|]. destruct Hwho as [H|H]; [left|right]; by exists r. }
  assert (Hch' : m' = m ∨ (m' = delete id m ∧ (authorized_call cl m a (out_now o) str0 ∨
    authorized_call cl m a (out_now o) id))).
  { destruct (decide (m' = m)) as [|Hne]; [by left|right].
    destruct (Hch Hne) as (target & Hm & ->). by destruct (Hmay _ Hm) as (-> & _ & H). }
  split; [|intros e; exists m', a'; by split_and!].
  exists m', a'. split_and!; [done|done|done|]. intros Hres.
  destruct Hans as [Href| ->].
  - apply refusal_code in Href. rewrite bool_decide_true in Hres by (unfold StatusOK; lia).
    destruct (wrap_err _ _) as [d|e]; [|done]. cbn [mbind result_bind] in Hres.
    unfold request_error, status_error in Hres. by case_bool_decide.
  - destruct (Hok eq_refl) as (target & Hm & -> & ->). by destruct (Hmay _ Hm) as (-> & ? & _).
Qed.

End composed.

(** ** Connecting *)

(** A client whose configuration parses gives the WebSocket client one it
    accepts: only the options and the dialer can refuse the connection. *)
Lemma connect_dials {U : UrlLib} {L : UrlLaws U} cfg options cl dial fresh :
  new_http_client cfg options = Ok cl →
  ws_NewClient (connect_config cl) [] dial fresh =
    (_ ← wrap_err "failed to dial" (dial (cc_wsURL (hcl_cfg cl)) (connect_auth cl)); Ok (fresh, new_ws_client)).
Proof.
  unfold new_http_client. destruct (ClientConfig_Parse cfg) as [c|e] eqn:Hp; [|done].
  cbn [wrap_err mbind result_bind]. destruct (wrap_err _ (foldr _ _ _)); [|done]. intros [= <-].
  assert (Hv : ClientConfig_IsValid (connect_config {| hcl_cfg := c; hcl_ready := true |}) = Ok tt).
  { destruct (ws_url_text cfg c Hp) as (s & tail & Hs & Hw). unfold ClientConfig_IsValid. cbn [connect_config cf_URL hcl_cfg].
    rewrite Hw, !bind_unit_ok, !guard_err_ok. split_and!; [|destruct Hs as [-> | ->]; rewrite !sapp_cons, ?sapp_nil; by destruct tail|reflexivity|reflexivity].
    apply bool_decide_eq_false. by destruct Hs as [-> | ->]. }
  unfold ws_NewClient. by rewrite Hv.
Qed.

(** ** System information *)
Definition is_finite (x : float) : bool :=
  match x with S754_zero _ | S754_finite _ _ _ => true | _ => false end.

(** [encoding/json] on floats: the finite ones, and no other. *)
Class FloatJson {J : Json SystemInfo} := {
  json_finite i : json_good i ↔ is_finite (CPULoad i) = true;
  json_unsupported i : is_finite (CPULoad i) = false → ∃ e, to_json i = Err e;
}.

Lemma sub_self x : f64_sub x x = S754_zero false ∨ f64_sub x x = S754_nan.
Proof.
  unfold f64_sub, SFsub. destruct x as [[]|[]| |[] m e]; auto; left; cbv zeta; by rewrite Z.sub_diag.
Qed.

Lemma zero_load y x : y = S754_zero false ∨ y = S754_nan → is_finite (cpu_load y x) = false.
Proof.
  unfold cpu_load, f64_div. intros [-> | ->]; [|by destruct x].
  assert (H1 : ∃ m e, f64_of_Z 1 = S754_finite false m e) by (do 2 eexists; vm_compute; reflexivity).
  destruct H1 as (m & e & ->). by destruct x as [[]|[]| |[] n k].
Qed.

Section system.
  Context {O : MapOrder} {S : Store} {B : Bcrypt} (cfg : SecurityConfig) (text : Z → string) (b : build).
  Context {JM : Json (gmap string string)} {JV : Json VersionInfo} {JS : Json SystemInfo}.
  Context (others : string → http_call → http_reply) (NewRequest : string → string → result unit).
  Context {JL : JsonLaws SystemInfo} {FL : FloatJson}.

Lemma serve_system c o (s : api_state) :
  hc_Method c = "GET"%string → runtime_GOOS b ≠ "darwin"%string →
  serve cfg text b others "/system" c o s = Some (reply text StatusOK (sp_info (as_sampler s)), s).
Proof.
  intros Hm Ho.
  change (serve cfg text b others "/system" c o s) with
    ((if bool_decide (runtime_GOOS b ≠ "darwin"%string) then
        (s ← gets as_sampler; mret (getSystemInfo text c s)) else mret (others "/system" c)) s).
  rewrite bool_decide_true by done. unfold mbind, go_bind, gets, mret, go_ret, getSystemInfo.
  rewrite Hm, bool_decide_false by tauto. done.
Qed.

Lemma GetSystemInfo_spec cl o (s : api_state) :
  hcl_ready cl = true → (∀ m u, NewRequest m u = Ok tt) → runtime_GOOS b ≠ "darwin"%string →
  wp (GetSystemInfo NewRequest (transport cfg text b others (cc_httpURL (hcl_cfg cl)) Delivered o) cl)
    (λ res s', s' = s ∧ let info := sp_info (as_sampler s) in
       if is_finite (CPULoad info) then res = Ok info else is_ok res = false) s.
Proof.
  intros Hr Hn Ho. unfold GetSystemInfo, get_info, send_request. rewrite Hr, Hn. cbn [negb].
  apply wp_bind. unfold transport. cbn [hc_URL]. rewrite path_of_app. apply wp_bind, wp_inv.
  eexists _, _. split; [by apply serve_system|]. apply wp_ret, wp_ret. split; [done|]. cbn [reply hr_Body hr_StatusCode].
  cbv zeta. destruct (is_finite _) eqn:Hf.
  - apply json_finite in Hf. destruct (json_back _ Hf) as (t & -> & ->). reflexivity.
  - destruct (json_unsupported _ Hf) as (e & ->). destruct json_eof as (e' & ->). reflexivity.
Qed.

End system.

(** ** Properties *)

(** C34: A registration made through the client.  Whatever the credentials of the
    client, and even when the request or the answer is lost, the store is
    left as it was, or gains exactly the client that was asked for, under a name
    that was free, on behalf of somebody authenticated or with
    self-registration; and a call that returns no error means that client is
    registered, with a key that is accepted and has at least 32 characters. *)
Theorem register_through_client {O : MapOrder} {S : Store} {L : StoreLaws S} {B : Bcrypt} `{!BcryptLaws B}
    {JM : Json (gmap string string)} {JV : Json VersionInfo} {JS : Json SystemInfo}
    {JL : JsonLaws (gmap string string)} cfg text b others NewRequest life cl net o id key s m a :
  state_rep life s m a → quiet_outside life m a o → json_good (register_data id key) →
  ∃ res s', rcd_Register NewRequest (transport cfg text b others (cc_httpURL (hcl_cfg cl)) net o) cl id key s
      = Some (res, s') ∧
    register_outcome cfg life cl (out_now o) m a id key res s'.
Proof. intros Hs Hq Hg. by apply wp_inv, rcd_Register_spec. Qed.

(** A removal made through the client touches the named client only, needs the
    credentials of the administrator or of that client, and is done, with the
    client's token, when the call returns no error. *)
Theorem unregister_through_client {O : MapOrder} {S : Store} {L : StoreLaws S} {B : Bcrypt}
    {JM : Json (gmap string string)} {JV : Json VersionInfo} {JS : Json SystemInfo}
    {JL : JsonLaws (gmap string string)} cfg text b others NewRequest life cl net o id s m a :
  state_rep life s m a → quiet_outside life m a o →
  json_good ({["clientID"%string := id]} : gmap string string) →
  ∃ res s', rcd_Unregister NewRequest (transport cfg text b others (cc_httpURL (hcl_cfg cl)) net o) cl id s
      = Some (res, s') ∧
    unregister_outcome cfg life cl (out_now o) m a id res s'.
Proof. intros Hs Hq Hg. by apply wp_inv, rcd_Unregister_spec. Qed.

(** A registered client can connect: the header its connection is opened with
    is accepted by the service as that client's, when its name holds no colon,
    its key is not the administrator's, the limiter lets it in and the store
    can be read. *)
Theorem registered_client_connects {O : MapOrder} {S : Store} {L : StoreLaws S} {B : Bcrypt}
    cfg life cl o x m a r :
  auth_rep life x m a → quiet_outside life m a o → out_wait o 0 = Ok tt →
  (∀ e x1 x2, on_store (S := S) (store_Get (cc_ClientID (hcl_cfg cl))) x1 = Some (Err e, x2) →
     error_is e ErrNotFound = true) →
  accepts m (cc_ClientID (hcl_cfg cl)) (cc_AuthKey (hcl_cfg cl)) →
  Contains ":" (cc_ClientID (hcl_cfg cl)) = false →
  (EnableAdmin cfg = true → cc_AuthKey (hcl_cfg cl) ≠ AdminSecretKey cfg) →
  req_Authorization r = connect_auth cl →
  ∃ x', authHandler cfg r o x = Some (authorized (cc_ClientID (hcl_cfg cl)), x') ∧ auth_rep life x' m a.
Proof.
  intros Hx Hq Hw Hget Hacc Hcolon Hadm Hr.
  assert (Hb : BasicAuth r = Some (cc_ClientID (hcl_cfg cl), cc_AuthKey (hcl_cfg cl))).
  { unfold BasicAuth. rewrite Hr. rewrite bool_decide_false by done.
    change (connect_auth cl) with (basicPrefix +:+ cf_AuthToken (connect_config cl)). rewrite after_prefix_app. cbn [mbind option_bind].
    cbn [connect_config cf_AuthToken]. rewrite DecodeString_EncodeToString. by apply Cut_app. }
  unfold authHandler. rewrite Hr. change (HasPrefix (connect_auth cl) bearerPrefix) with false. cbn match.
  unfold basicAuthHandler. rewrite Hb.
  destruct (EnableAdmin cfg && bool_decide (cc_AuthKey (hcl_cfg cl) = AdminSecretKey cfg)) eqn:E.
  { apply andb_true_iff in E as [He Hk%bool_decide_eq_true]. by destruct (Hadm He). }
  rewrite bool_decide_false by apply Hacc.
  enough (wp (Authenticate (cc_ClientID (hcl_cfg cl)) (cc_AuthKey (hcl_cfg cl)) (out_others o 0) (out_wait o 0))
    (λ ans x', ans = Ok tt ∧ auth_rep life x' m a) x) as H.
  { apply wp_inv in H as (ans & x' & Hrun & -> & Hx'). exists x'. split; [|done].
    unfold mbind, go_bind. by rewrite Hrun. }
  destruct Hacc as (Hne & h & Hh & Hcmp). unfold Authenticate. apply wp_bind.
  assert (HG : wp (on_store (store_Get (cc_ClientID (hcl_cfg cl)))) (λ r x', auth_rep life x' m a ∧
    get_spec (cc_ClientID (hcl_cfg cl)) m r) x) by (apply (wp_Get life _ x m a); [done|by intros]).
  apply wp_inv in HG as (g & x1 & Hrun & Hx1 & Hg). apply wp_inv. exists g, x1. split; [done|].
  unfold get_spec in Hg. rewrite bool_decide_false in Hg by done. destruct g as [h'|e].
  - rewrite Hh in Hg. injection Hg as <-. apply wp_bind. eapply wp_mono; [by apply Hq|]. intros [] x2 Hx2.
    rewrite Hw, Hcmp. by apply wp_ret.
  - apply Hget in Hrun. rewrite (proj1 Hg Hrun) in Hh. done.
Qed.

(** C35: A busy second hides the system from the client.  The load is published
    for as long as it is finite, exactly; but a sample in which the idle time
    did not move (every processor was busy) makes it infinite, which has no
    JSON: the endpoint then answers nothing, and the client gets an error
    until another second has idle time. *)
Theorem system_info_published {O : MapOrder} {S : Store} {B : Bcrypt}
    {JM : Json (gmap string string)} {JV : Json VersionInfo} {JS : Json SystemInfo}
    {JL : JsonLaws SystemInfo} {FL : FloatJson} cfg text b others NewRequest cl o (x : auth S) p now idle :
  hcl_ready cl = true → (∀ m u, NewRequest m u = Ok tt) → runtime_GOOS b ≠ "darwin"%string → sp_time p ≠ None →
  let p' := collectSystemInfo_tick now (Ok idle) p in
  let s := {| as_auth := x; as_sampler := p' |} in
  ∃ res, GetSystemInfo NewRequest (transport cfg text b others (cc_httpURL (hcl_cfg cl)) Delivered o) cl s
      = Some (res, s) ∧
    (is_finite (CPULoad (sp_info p')) = true → res = Ok (sp_info p')) ∧
    (idle = sp_idle p → is_ok res = false).
Proof.
  intros Hr Hn Ho Ht p' s.
  destruct (proj1 (wp_inv _ _ _) (GetSystemInfo_spec cfg text b others NewRequest cl o s Hr Hn Ho))
    as (res & s' & Hrun & -> & H). exists res. split; [exact Hrun|]. cbv zeta in H.
  change (as_sampler s) with p' in H. destruct (is_finite (CPULoad (sp_info p'))) eqn:Hf; [|done].
  split; [done|]. intros ->. exfalso. unfold p', collectSystemInfo_tick in Hf.
  destruct (sp_time p) as [t|]; [|done]. cbn [sp_info CPULoad] in Hf.
  rewrite zero_load in Hf; [done|apply sub_self].
Qed.

(** ** A concrete codec *)
Module ToyApi.

(** Maps as fields closed by bars. *)
Definition bar : ascii := "|".
Fixpoint fields_text (l : list (string * string)) : string :=
  match l with
  | [] => str0
  | (k, v) :: l => k +:+ String bar (v +:+ String bar (fields_text l))
  end.
Fixpoint pairs (l : list string) : list (string * string) :=
  match l with k :: v :: l => (k, v) :: pairs l | _ => [] end.
Definition plain_map (m : gmap string string) : Prop :=
  Forall (λ e, Contains bar e.1 = false ∧ Contains bar e.2 = false) (map_to_list m).

#[export] Instance map_json : Json (gmap string string) := {
  to_json m := Ok ("{" +:+ fields_text (map_to_list m));
  of_json t := match t with
               | String "{" t => Ok (list_to_map (pairs (Split bar t)))
               | _ => Err (EText "EOF")
               end;
  json_good := plain_map;
}.

Lemma pairs_back l :
  Forall (λ e : string * string, Contains bar e.1 = false ∧ Contains bar e.2 = false) l →
  pairs (Split bar (fields_text l)) = l.
Proof.
  induction 1 as [|[k v] l [Hk Hv] _ IH]; [done|]. cbn [fields_text].
  rewrite Split_app by done. rewrite Split_app by done. cbn [pairs]. by rewrite IH.
Qed.

Lemma map_json_laws : JsonLaws (gmap string string).
Proof.
  split; [|by eexists]. intros m Hm. eexists. split; [reflexivity|]. cbn [of_json map_json].
  change ("{" +:+ fields_text (map_to_list m)) with (String "{" (fields_text (map_to_list m))).
  cbn match. by rewrite pairs_back, list_to_map_to_list.
Qed.

#[export] Instance version_json : Json VersionInfo := {
  to_json v := Ok (BuildVersion v); of_json _ := Err (EText "unsupported"); json_good _ := False }.

(** Floats in binary. *)
Fixpoint pos_text (p : positive) : string :=
  match p with xH => "." | xO p => String "0" (pos_text p) | xI p => String "1" (pos_text p) end.
Fixpoint text_pos (s : string) : positive * string :=
  match s with
  | String "0" s => let '(p, r) := text_pos s in (xO p, r)
  | String "1" s => let '(p, r) := text_pos s in (xI p, r)
  | String _ s => (xH, s)
  | EmptyString => (xH, str0)
  end.
Lemma text_pos_text p s : text_pos (pos_text p +:+ s) = (p, s).
Proof. induction p as [p IH|p IH|]; cbn [pos_text]; rewrite ?sapp_cons; cbn; [by rewrite IH..|done]. Qed.

Definition int_text (z : Z) : string :=
  match z with Z0 => "z" | Zpos p => String "p" (pos_text p) | Zneg p => String "n" (pos_text p) end.
Definition text_int (s : string) : Z :=
  match s with
  | String "p" s => Zpos (text_pos s).1
  | String "n" s => Zneg (text_pos s).1
  | _ => 0
  end.
Lemma text_int_text z : text_int (int_text z) = z.
Proof. destruct z as [|p|p]; cbn; [done|..]; rewrite <- (sapp_nil_r (pos_text p)); by rewrite text_pos_text. Qed.

Definition sign_text (s : bool) : string := if s then "-" else "+".
Definition float_text (x : float) : option string :=
  match x with
  | S754_zero s => Some (sign_text s)
  | S754_finite s m e => Some (sign_text s +:+ pos_text m +:+ int_text e)
  | _ => None
  end.
Definition text_float (t : string) : option float :=
  match t with
  | EmptyString => None
  | String a EmptyString => Some (S754_zero (bool_decide (a = "-"%char)))
  | String a t => let '(m, e) := text_pos t in Some (S754_finite (bool_decide (a = "-"%char)) m (text_int e))
  end.

#[export] Instance system_json : Json SystemInfo := {
  to_json i := match float_text (CPULoad i) with Some t => Ok t | None => Err (EText "unsupported value") end;
  of_json t := match text_float t with Some x => Ok {| CPULoad := x |} | None => Err (EText "EOF") end;
  json_good i := is_finite (CPULoad i) = true;
}.

Lemma system_json_laws : JsonLaws SystemInfo.
Proof.
  split; [|by eexists]. intros [x] Hx. destruct x as [s|s| |s m e]; try done; cbn [json_good CPULoad is_finite] in Hx.
  - exists (sign_text s). split; [done|]. by destruct s.
  - exists (sign_text s +:+ pos_text m +:+ int_text e). split; [done|]. cbn [of_json system_json].
    assert (E : text_float (sign_text s +:+ pos_text m +:+ int_text e) =
      let '(p, r) := text_pos (pos_text m +:+ int_text e) in Some (S754_finite s p (text_int r)))
      by (by destruct s, m).
    by rewrite E, text_pos_text, text_int_text.
Qed.

Lemma system_float_json : FloatJson.
Proof. split; [done|]. intros [x] Hx. destruct x as [s|s| |s m e]; try done; by eexists. Qed.

Definition linux : build := {|
  buildVersion := "v1"; buildHash := str0; buildDate := str0; runtime_Version := "go1"; runtime_GOOS := "linux";
  runtime_GOARCH := "amd64" |}.

Definition client (id key : string) : http_client := {| hcl_ready := true; hcl_cfg := {|
  cc_httpURL := "http://rtcd"; cc_wsURL := "ws://rtcd/ws"; cc_ClientID := id; cc_AuthKey := key;
  cc_URL := "http://rtcd"; cc_ReconnectInterval := 1 |} |}.

(** The administrator of [ToyHttp.cfg], and the service with no client. *)
Definition admin : http_client := client str0 "secret".
Definition empty_service : api_state (S := ToyStore.toy_store) :=
  {| as_auth := ToyAuth.new_auth; as_sampler := new_sampler |}.
Definition one_service : api_state (S := ToyStore.toy_store) :=
  {| as_auth := ToyAuth.one_client; as_sampler := new_sampler |}.
Definition net (n : network) : http_call → go (api_state (S := ToyStore.toy_store)) (result http_reply) :=
  transport (O := sorted_order) (B := ToyAuth.toy_bcrypt) ToyHttp.cfg (λ _, "") linux (λ _ _, not_found (λ _, ""))
    "http://rtcd" n ToyHttp.calm.
(** The run succeeds. *)
Definition answered {X} (r : option (result unit * X)) : bool := match r with Some (Ok _, _) => true | _ => false end.
Lemma answered_ok {X} (r : option (result unit * X)) res s : r = Some (res, s) → answered r = true → res = Ok tt.
Proof. intros ->. by destruct res as [[]|]. Qed.
(** Four seconds of idle time, over four processors, in one second. *)
Definition idle_second : sampler :=
  collectSystemInfo [(second, Ok (f64_of_Z 10)); ((2 * second)%Z, Ok (f64_of_Z 14))] new_sampler.
Definition any_request (m u : string) : result unit := Ok tt.

End ToyApi.

(** ** Witnesses *)
Import ToyApi.
Lemma register_through_client_witness :
  ∃ s', rcd_Register ToyApi.any_request (ToyApi.net Delivered) ToyApi.admin "a" ToyAuth.key ToyApi.empty_service
      = Some (Ok tt, s') ∧
    register_outcome (B := ToyAuth.toy_bcrypt) (L := ToyStore.toy_store_laws) ToyHttp.cfg ToyAuth.day ToyApi.admin 0
      ∅ ∅ "a" ToyAuth.key (Ok tt) s'.
Proof.
  destruct (register_through_client (O := sorted_order) (B := ToyAuth.toy_bcrypt)
    (BcryptLaws0 := ToyAuth.toy_bcrypt_laws) (L := ToyStore.toy_store_laws) (JL := ToyApi.map_json_laws)
    ToyHttp.cfg (λ _, str0) ToyApi.linux (λ _ _, not_found (λ _, str0)) ToyApi.any_request ToyAuth.day ToyApi.admin
    Delivered ToyHttp.calm "a" ToyAuth.key ToyApi.empty_service ∅ ∅ ToyAuth.new_auth_rep
    (ToyHttp.calm_quiet _ _)) as (res & s' & Hrun & Hout).
  - apply (bool_decide_unpack _). vm_compute. exact I.
  - assert (res = Ok tt) as -> by (apply (answered_ok _ _ _ Hrun); vm_compute; reflexivity).
    exists s'. split; [exact Hrun|exact Hout].
Defined.

Lemma unregister_through_client_witness :
  ∃ s', rcd_Unregister ToyApi.any_request (ToyApi.net Delivered) ToyApi.admin "a" ToyApi.one_service
      = Some (Ok tt, s') ∧
    unregister_outcome (L := ToyStore.toy_store_laws) (B := ToyAuth.toy_bcrypt) ToyHttp.cfg ToyAuth.day ToyApi.admin 0
      {["a"%string := ("h" +:+ ToyAuth.key)%string]} ∅ "a" (Ok tt) s'.
Proof.
  destruct (unregister_through_client (O := sorted_order) (B := ToyAuth.toy_bcrypt) (L := ToyStore.toy_store_laws)
    (JL := ToyApi.map_json_laws) ToyHttp.cfg (λ _, str0) ToyApi.linux (λ _ _, not_found (λ _, str0))
    ToyApi.any_request ToyAuth.day ToyApi.admin Delivered ToyHttp.calm "a" ToyApi.one_service _ ∅
    ToyAuth.one_client_rep (ToyHttp.calm_quiet _ _)) as (res & s' & Hrun & Hout).
  - apply (bool_decide_unpack _). vm_compute. exact I.
  - assert (res = Ok tt) as -> by (apply (answered_ok _ _ _ Hrun); vm_compute; reflexivity).
    exists s'. split; [exact Hrun|exact Hout].
Defined.

Lemma registered_client_connects_witness :
  ∃ x', authHandler (B := ToyAuth.toy_bcrypt) ToyHttp.cfg (ToyHttp.request (connect_auth (client "a" ToyAuth.key)) ∅)
    ToyHttp.calm ToyAuth.one_client = Some (authorized "a", x').
Proof.
  destruct (registered_client_connects (O := sorted_order) (B := ToyAuth.toy_bcrypt) (L := ToyStore.toy_store_laws)
    ToyHttp.cfg ToyAuth.day (client "a" ToyAuth.key) ToyHttp.calm ToyAuth.one_client _ ∅
    (ToyHttp.request (connect_auth (client "a" ToyAuth.key)) ∅) ToyAuth.one_client_rep (ToyHttp.calm_quiet _ _))
    as (x' & Hrun & _); [reflexivity| | |reflexivity|done|reflexivity|by exists x'].
  - intros e x1 x2. unfold on_store. cbn. unfold bitcask_Get, mbind, go_bind, gets, mret, go_ret. cbn.
    repeat case_match; intros H'; cbn in H'; simplify_eq; reflexivity.
  - split; [done|]. eexists. split; [reflexivity|]. reflexivity.
Defined.

(** The third sample of an idle second, then of a busy one. *)
Lemma system_info_published_witness :
  CPULoad (sp_info idle_second) = f64_div (f64_of_Z 1) (f64_of_Z 4) ∧
  ∃ res s, GetSystemInfo any_request (ToyApi.net Delivered) ToyApi.admin s = Some (res, s) ∧
    as_sampler s = collectSystemInfo_tick (3 * second) (Ok (f64_of_Z 14)) idle_second ∧ is_ok res = false.
Proof.
  split; [vm_compute; reflexivity|].
  destruct (system_info_published (O := sorted_order) (B := ToyAuth.toy_bcrypt) (JL := ToyApi.system_json_laws)
    (FL := ToyApi.system_float_json) ToyHttp.cfg (λ _, str0) ToyApi.linux (λ _ _, not_found (λ _, str0))
    ToyApi.any_request ToyApi.admin ToyHttp.calm ToyAuth.new_auth
    idle_second (3 * second) (f64_of_Z 14)) as (res & Hrun & _ & Hbad); [done|done|done|done|].
  do 2 eexists. split; [exact Hrun|]. split; [reflexivity|]. apply Hbad. vm_compute. reflexivity.
Defined.
