(* ===== verification/Listen.v ===== *)
(** * Listen: the sockets of the RTC server

    [createUDPConnsForAddr] (service/rtc/net.go) and the two initialisations
    that use the network (service/rtc/server.go), with the descriptors they
    open and close, and the discovery of the public address
    (service/rtc/stun.go).  The system's answers are arguments; the STUN
    messages are a library's.  Buffer sizes and logging are left out. *)
From Stdlib Require Import Ascii.
From S2P Require Import Prelude GoText RtcConfig Utils HttpAuth MultiConn Pion World Server.

(** ** Descriptors *)

(** The descriptors open as sockets, and those open as files. *)
Record sockets := { sk_next : nat; sk_open : list nat; sk_files : list nat }.

Definition open_socket : go sockets nat := λ s, Some (sk_next s, {|
  sk_next := S (sk_next s); sk_open := sk_open s ++ [sk_next s]; sk_files := sk_files s |}).
Definition open_file : go sockets nat := λ s, Some (sk_next s, {|
  sk_next := S (sk_next s); sk_open := sk_open s; sk_files := sk_files s ++ [sk_next s] |}).
Definition close_files (l : list nat) : go sockets unit := modify (λ s, {|
  sk_next := sk_next s; sk_open := sk_open s; sk_files := filter (.∉ l) (sk_files s) |}).

(** What the system answers to the calls of one round. *)
Record socket_env := {
  se_listen : result unit;
  se_file : result unit;
  se_syscall : result unit;
  se_control : result unit;
}.

(** The loop, and the files whose closing it defers. *)
Fixpoint create_conns (env : nat → socket_env) (i n : nat) (conns files : list nat) :
    go sockets (result (list nat) * list nat) :=
  match n with
  | O => mret (Ok conns, files)
  | S n =>
      match se_listen (env i) with
      | Err e => mret (Err (EWrap "failed to listen on udp" e), files)
      | Ok _ =>
          udpConn ← open_socket;
          match se_file (env i) with
          | Err e => mret (Err (EWrap "failed to get udp conn file" e), files)
          | Ok _ =>
              connFile ← open_file;
              match se_syscall (env i) with
              | Err e => mret (Err (EWrap "failed to get syscall conn" e), files ++ [connFile])
              | Ok _ =>
                  match se_control (env i) with
                  | Err e => mret (Err (EWrap "Control call failed" e), files ++ [connFile])
                  | Ok _ => create_conns env (S i) n (conns ++ [udpConn]) (files ++ [connFile])
                  end
              end
          end
      end
  end.

Definition createUDPConnsForAddr (env : nat → socket_env) (socketsCount : Z) : go sockets (result (list nat)) :=
  r ← create_conns env 0 (Z.to_nat socketsCount) [] [];
  close_files r.2 ;;
  mret r.1.

(** ** The muxes *)
Record udp_mux := { mx_addr : string; mx_conns : list nat; mx_multi : multi_conn }.

Definition initUDPMux (env : string → nat → socket_env) (c : ServerConfig) (addr : string) :
    go sockets (result udp_mux) :=
  conns ← createUDPConnsForAddr (env addr) (UDPSocketsCount c);
  mret (match conns with
        | Err e => Err (EWrap "failed to create UDP connections" e)
        | Ok conns =>
            udpConn ← wrap_err "failed to create multiconn" (newMultiConn ((λ _, true) <$> conns));
            Ok {| mx_addr := addr; mx_conns := conns; mx_multi := udpConn |}
        end).

(** The loop over the local addresses: what was opened before a failure is
    not given back. *)
Fixpoint init_muxes (env : string → nat → socket_env) (c : ServerConfig) (udpMuxes : list udp_mux)
    (addrs : list string) : go sockets (result (list udp_mux)) :=
  match addrs with
  | [] => mret (Ok udpMuxes)
  | addr :: addrs =>
      mux ←? initUDPMux env c addr;
      init_muxes env c (udpMuxes ++ [mux]) addrs
  end.

Section init.
  Context {E : Env} (join : string → Z → string) (addr_port : Addr → Z → string).

(** [udpMux] is the mux of these. *)
Definition initUDP (env : string → nat → socket_env) (c : ServerConfig) (localIPs : list Addr) :
    go sockets (result (list udp_mux)) :=
  if bool_decide (ICEAddressUDP c ≠ str0) then
    mux ←? initUDPMux env c (join (ICEAddressUDP c) (ICEPortUDP c)); mret (Ok [mux])
  else init_muxes env c [] ((λ ip, addr_port ip (wrap_uint 16 (ICEPortUDP c))) <$> localIPs).

Definition initTCP (listen : string → result unit) (c : ServerConfig) : result string :=
  let addr := join (ICEAddressTCP c) (ICEPortTCP c) in
  _ ← wrap_err "failed to create TCP listener" (listen addr); Ok addr.

End init.

(** ** STUN *)
Class StunLib := {
  stun_msg : Type;
  xor_addr : Type;
  stun_Build : nat → result string;
  stun_Decode : string → result stun_msg;
  GetFrom : stun_msg → result xor_addr;
  IP_String : xor_addr → string;
}.

(** The connection a request is made on: its read deadline, what was written
    and to whom. *)
Record udp_conn := { uc_deadline : option Z; uc_written : list (string * string); uc_closed : bool }.

Definition set_deadline (d : option Z) (c : udp_conn) : udp_conn :=
  {| uc_deadline := d; uc_written := uc_written c; uc_closed := uc_closed c |}.
Definition add_written (w : string * string) (c : udp_conn) : udp_conn :=
  {| uc_deadline := uc_deadline c; uc_written := uc_written c ++ [w]; uc_closed := uc_closed c |}.
Definition close_udp (c : udp_conn) : udp_conn :=
  {| uc_deadline := uc_deadline c; uc_written := uc_written c; uc_closed := true |}.

(** The system's answers, and the transaction the library draws; [ev_read]
    is the first datagram that arrives, whoever sent it. *)
Record stun_env := {
  ev_listen : result unit;
  ev_resolve : string → result string;
  ev_deadline : result unit;
  ev_write : result unit;
  ev_read : result string;
  ev_transaction : nat;
  ev_now : Z;
}.

Section stun.
  Context {T : StunLib}.

Definition maxMessageSize : nat := 1280.

Definition stunRequest (env : stun_env) (server : string) : go udp_conn (result stun_msg) :=
  match stun_Build (ev_transaction env) with
  | Err e => mret (Err e)
  | Ok req =>
      match ev_write env with
      | Err e => mret (Err e)
      | Ok _ =>
          modify (add_written (server, req)) ;;
          mret (bs ← ev_read env; stun_Decode (fst (split_at maxMessageSize bs)))
      end
  end.

Definition getXORMappedAddr (env : stun_env) (server : string) (deadline : Z) : go udp_conn (result xor_addr) :=
  match (if (0 <? deadline)%Z then ev_deadline env else Ok tt) with
  | Err e => mret (Err e)
  | Ok _ =>
      when (0 <? deadline)%Z (modify (set_deadline (Some (ev_now env + deadline)%Z))) ;;
      resp ← stunRequest env server;
      when (0 <? deadline)%Z (modify (set_deadline None)) ;;
      mret (resp ← resp; GetFrom resp)
  end.

(** [strings.Index(stunURL, ":")+1] on. *)
Definition stun_host (stunURL : string) : string :=
  match Cut ":" stunURL with Some (_, host) => host | None => stunURL end.

(** The state is the connection, once there is one. *)
Definition on_conn {A} (m : go udp_conn A) : go (option udp_conn) A := λ s,
  c ← s; '(a, c) ← m c; Some (a, Some c).

Definition new_udp_conn : udp_conn := {| uc_deadline := None; uc_written := []; uc_closed := false |}.

Definition getPublicIP (env : stun_env) (stunURL : string) : go (option udp_conn) (result string) :=
  if bool_decide (stunURL = str0) then mret (Err (EText "no STUN server URL was provided"))
  else
    match ev_listen env with
    | Err e => mret (Err e)
    | Ok _ =>
        modify (λ _, Some new_udp_conn) ;;
        r ← match ev_resolve env (stun_host stunURL) with
            | Err e => mret (Err (EWrap "failed to resolve stun host" e))
            | Ok serverAddr =>
                xoraddr ← on_conn (getXORMappedAddr env serverAddr (5 * second));
                mret (a ← wrap_err "failed to get public address" xoraddr; Ok (IP_String a))
            end;
        on_conn (modify close_udp) ;;
        mret r
    end.

End stun.

(** ** Lemmas on descriptors *)

(** Descriptors are numbered once. *)
Definition numbered (s : sockets) : Prop :=
  NoDup (sk_open s) ∧ Forall (λ d, d < sk_next s) (sk_open s) ∧ Forall (λ d, d < sk_next s) (sk_files s).

(** The first call that fails, over [n] rounds from [i] on. *)
Fixpoint rounds (env : nat → socket_env) (i n : nat) : result unit :=
  match n with
  | O => Ok tt
  | S n =>
      _ ← wrap_err "failed to listen on udp" (se_listen (env i));
      _ ← wrap_err "failed to get udp conn file" (se_file (env i));
      _ ← wrap_err "failed to get syscall conn" (se_syscall (env i));
      _ ← wrap_err "Control call failed" (se_control (env i));
      rounds env (S i) n
  end.

(** What a run has opened. *)
Record ran (s s' : sockets) (opened files : list nat) : Prop := {
  ran_open : sk_open s' = sk_open s ++ opened;
  ran_files : sk_files s' = sk_files s ++ files;
  ran_new : Forall (λ f, sk_next s ≤ f) files;
  ran_numbered : numbered s → numbered s';
  ran_next : sk_next s ≤ sk_next s';
}.

Lemma ran_refl s : ran s s [] [].
Proof. by split; rewrite ?app_nil_r. Qed.

Lemma ran_trans s s1 s2 o1 o2 f1 f2 : ran s s1 o1 f1 → ran s1 s2 o2 f2 → ran s s2 (o1 ++ o2) (f1 ++ f2).
Proof.
  intros [A1 A2 A3 A4 A5] [B1 B2 B3 B4 B5]. split; [by rewrite B1, A1, app_assoc|by rewrite B2, A2, app_assoc| |auto|lia].
  apply Forall_app. split; [done|]. eapply Forall_impl; [exact B3|]. cbn. lia.
Qed.

Lemma bound_next (l : list nat) n : Forall (λ d, d < n) l → Forall (λ d, d < S n) l.
Proof. intros H. eapply Forall_impl; [exact H|]. cbn. lia. Qed.

Lemma wp_open_socket Q s : (∀ d s', ran s s' [d] [] → Q d s') → wp open_socket Q s.
Proof.
  intros H. apply H. split; cbn; rewrite ?app_nil_r; auto. intros (Hnd & Ho & Hf). split_and!; cbn.
  - apply NoDup_app. split; [done|]. split; [|apply NoDup_singleton]. intros d Hd ->%list_elem_of_singleton.
    rewrite Forall_forall in Ho. apply Ho in Hd. lia.
  - apply Forall_app. split; [by apply bound_next|]. constructor; [lia|constructor].
  - by apply bound_next.
Qed.

Lemma wp_open_file Q s : (∀ d s', ran s s' [] [d] → Q d s') → wp open_file Q s.
Proof.
  intros H. apply H. split; cbn; rewrite ?app_nil_r; auto. intros (Hnd & Ho & Hf). split_and!; cbn; [done| |].
  - by apply bound_next.
  - apply Forall_app. split; [by apply bound_next|]. constructor; [lia|constructor].
Qed.

Definition to_unit {A} (r : result A) : result unit := match r with Ok _ => Ok tt | Err e => Err e end.

Lemma create_conns_spec env i n conns files s :
  wp (create_conns env i n conns files) (λ r s', ∃ opened fs,
    ran s s' opened fs ∧ r.2 = files ++ fs ∧ length opened ≤ n ∧ to_unit r.1 = rounds env i n ∧
    ∀ l, r.1 = Ok l → l = conns ++ opened ∧ length opened = n) s.
Proof.
  revert i conns files s. induction n as [|n IH]; intros i conns files s.
  { apply wp_ret. exists [], []. rewrite !app_nil_r. split_and!; [apply ran_refl|done..|].
    by intros l [= <-]. }
  cbn [create_conns rounds].
  destruct (se_listen (env i)) as [[]|e]; cbn [wrap_err mbind result_bind].
  2: { apply wp_ret. exists [], []. rewrite app_nil_r. split_and!; [apply ran_refl|done|cbn; lia|done..]. }
  apply wp_bind, wp_open_socket. intros d s1 H1.
  destruct (se_file (env i)) as [[]|e]; cbn [wrap_err mbind result_bind].
  2: { apply wp_ret. exists [d], []. rewrite app_nil_r. split_and!; [done|done|cbn; lia|done..]. }
  apply wp_bind, wp_open_file. intros f s2 H2. pose proof (ran_trans _ _ _ _ _ _ _ H1 H2) as H12.
  destruct (se_syscall (env i)) as [[]|e]; cbn [wrap_err mbind result_bind].
  2: { apply wp_ret. exists [d], [f]. split_and!; [done|done|cbn; lia|done..]. }
  destruct (se_control (env i)) as [[]|e]; cbn [wrap_err mbind result_bind].
  2: { apply wp_ret. exists [d], [f]. split_and!; [done|done|cbn; lia|done..]. }
  eapply wp_mono; [apply IH|]. intros r s3 (opened & fs & H3 & Hf & Hlen & Hr & Hok).
  exists (d :: opened), (f :: fs). split_and!; [exact (ran_trans _ _ _ _ _ _ _ H12 H3)| |cbn; lia|done|].
  - by rewrite Hf, <- app_assoc.
  - intros l Hl. destruct (Hok l Hl) as [-> Hn]. rewrite <- app_assoc. by split; [|cbn; lia].
Qed.

Lemma filter_keep (files l : list nat) : (∀ d, d ∈ l → d ∉ files) → filter (.∉ files) l = l.
Proof.
  induction l as [|d l IH]; intros H; [done|]. rewrite filter_cons_True by (apply H; left).
  by rewrite IH by (intros k Hk; apply H; by right).
Qed.

Lemma filter_drop (files l : list nat) : (∀ d, d ∈ l → d ∈ files) → filter (.∉ files) l = [].
Proof.
  induction l as [|d l IH]; intros H; [done|]. rewrite filter_cons_False by (intros Hn; apply Hn, H; left).
  apply IH. intros k Hk. apply H. by right.
Qed.

(** The files are closed when the function returns: what was open as one
    before still is. *)
Lemma filter_new (l files : list nat) (s : nat) :
  Forall (λ d, d < s) l → Forall (λ f, s ≤ f) files → filter (.∉ files) (l ++ files) = l.
Proof.
  intros Hl Hf. rewrite filter_app, filter_keep, filter_drop, app_nil_r; [done|done|].
  intros d Hd Hin. rewrite Forall_forall in Hl, Hf. apply Hl in Hd. apply Hf in Hin. lia.
Qed.

Lemma createUDPConnsForAddr_spec env count s :
  numbered s →
  wp (createUDPConnsForAddr env count) (λ r s', ∃ opened,
    numbered s' ∧ sk_open s' = sk_open s ++ opened ∧ sk_files s' = sk_files s ∧
    length opened ≤ Z.to_nat count ∧ to_unit r = rounds env 0 (Z.to_nat count) ∧
    ∀ l, r = Ok l → l = opened ∧ length opened = Z.to_nat count) s.
Proof.
  intros Hs. unfold createUDPConnsForAddr. apply wp_bind. eapply wp_mono; [apply create_conns_spec|].
  intros [r files] s1 (opened & fs & [H1 H2 H3 H4 H5] & Hf & Hlen & Hr & Hok). cbn [fst snd] in *.
  rewrite app_nil_l in Hf. subst files. apply wp_bind, wp_modify, wp_ret.
  destruct (H4 Hs) as (Hnd & Ho & Hfl). destruct Hs as (_ & _ & Hfs).
  exists opened. cbn. rewrite H2, (filter_new _ _ (sk_next s)) by done.
  split_and!; [|done..]. split_and!; [done|done|]. cbn. rewrite H2 in Hfl. by apply Forall_app in Hfl as [? _].
Qed.

Definition good_mux (n : nat) (m : udp_mux) : Prop :=
  length (mx_conns m) = n ∧ mc_ok (mx_multi m) XStart ∧ mc_conns (mx_multi m) = n.

Lemma newMultiConn_all {A} (conns : list A) :
  conns ≠ [] → ∃ m, newMultiConn ((λ _, true) <$> conns) = Ok m ∧ mc_conns m = length conns.
Proof.
  intros Hne. unfold newMultiConn.
  assert (E : existsb negb ((λ _ : A, true) <$> conns) = false) by (clear; by induction conns).
  rewrite E, bool_decide_false by (by destruct conns). cbn [guard_err mbind result_bind].
  eexists. split; [reflexivity|]. by rewrite <- (length_fmap (λ _ : A, true) conns).
Qed.

(** What [initUDPMux] answers, and what it leaves open. *)
Definition udp_outcome (env : string → nat → socket_env) (c : ServerConfig) (addr : string) : result unit :=
  wrap_err "failed to create UDP connections" (rounds (env addr) 0 (Z.to_nat (UDPSocketsCount c))).

Lemma initUDPMux_spec env c addr s :
  numbered s → (0 < UDPSocketsCount c)%Z →
  wp (initUDPMux env c addr) (λ r s', ∃ opened,
    numbered s' ∧ sk_open s' = sk_open s ++ opened ∧ sk_files s' = sk_files s ∧
    to_unit r = udp_outcome env c addr ∧
    ∀ m, r = Ok m → mx_addr m = addr ∧ mx_conns m = opened ∧ good_mux (Z.to_nat (UDPSocketsCount c)) m) s.
Proof.
  intros Hs Hc. unfold initUDPMux. apply wp_bind. eapply wp_mono; [by apply createUDPConnsForAddr_spec|].
  intros r s1 (opened & H1 & H2 & H3 & H4 & H5 & H6). apply wp_ret. exists opened.
  unfold udp_outcome. rewrite <- H5. destruct r as [conns|e]; [|by split_and!].
  destruct (H6 _ eq_refl) as [-> Hn].
  destruct (newMultiConn_all opened) as (m & Hm & Hmc); [by intros ->; cbn in Hn; lia|].
  rewrite Hm. cbn [wrap_err mbind result_bind to_unit]. split_and!; try done. intros ? [= <-].
  repeat split; cbn; [done|by eapply newMultiConn_ok..|congruence].
Qed.

Lemma init_muxes_spec env c addrs muxes s :
  numbered s → (0 < UDPSocketsCount c)%Z →
  wp (init_muxes env c muxes addrs) (λ r s', ∃ opened,
    numbered s' ∧ sk_open s' = sk_open s ++ opened ∧ sk_files s' = sk_files s ∧
    to_unit r = open_all (udp_outcome env c) addrs ∧
    ∀ l, r = Ok l → ∃ new, l = muxes ++ new ∧ opened = concat (mx_conns <$> new) ∧ mx_addr <$> new = addrs ∧
      Forall (good_mux (Z.to_nat (UDPSocketsCount c))) new) s.
Proof.
  intros Hs Hc. revert muxes s Hs. induction addrs as [|addr addrs IH]; intros muxes s Hs; cbn [init_muxes open_all].
  { apply wp_ret. exists []. rewrite app_nil_r. split_and!; [done..|]. intros l [= <-].
    exists []. by rewrite app_nil_r. }
  apply wp_bind. eapply wp_mono; [by apply initUDPMux_spec|].
  intros [m|e] s1 (opened & H1 & H2 & H3 & H4 & H5); rewrite <- H4; cbn [to_unit mbind result_bind].
  2: { apply wp_ret. exists opened. by split_and!. }
  destruct (H5 _ eq_refl) as (Ha & Hm & Hg).
  eapply wp_mono; [by apply IH|]. intros r s2 (opened' & K1 & K2 & K3 & K4 & K5).
  exists (opened ++ opened'). split_and!; [done|by rewrite K2, H2, app_assoc|congruence|done|].
  intros l Hl. destruct (K5 l Hl) as (new & -> & -> & <- & Hnew). exists (m :: new).
  split_and!; [by rewrite <- app_assoc|by cbn; rewrite Hm|by cbn; rewrite Ha|by constructor].
Qed.

(** ** Properties *)

(** C37: Opening the UDP muxes.  Over a system that may fail any call, [initUDP]
    answers as the abstract [Start] of the server has it: the addresses in
    order, up to the first that fails.  When it succeeds there is one mux per
    address, each over exactly the configured number of sockets, and the
    sockets it leaves open are those of the muxes, all of them distinct; the
    files it opens to inspect them are closed on every path. *)
Theorem initUDP_refines {E : Env} (join : string → Z → string) (addr_port : Addr → Z → string) env c ips s :
  numbered s → (0 < UDPSocketsCount c)%Z →
  ∃ r s' opened, initUDP join addr_port env c ips s = Some (r, s') ∧
    to_unit r = open_all (udp_outcome env c) (udp_addresses join addr_port c ips) ∧
    numbered s' ∧ sk_open s' = sk_open s ++ opened ∧ sk_files s' = sk_files s ∧
    ∀ muxes, r = Ok muxes → mx_addr <$> muxes = udp_addresses join addr_port c ips ∧
      opened = concat (mx_conns <$> muxes) ∧ Forall (good_mux (Z.to_nat (UDPSocketsCount c))) muxes.
Proof.
  intros Hs Hc. unfold initUDP, udp_addresses. destruct (decide (ICEAddressUDP c = str0)) as [Ha|Ha].
  - rewrite bool_decide_false, (bool_decide_true (ICEAddressUDP c = _)) by tauto.
    destruct (proj1 (wp_inv _ _ _) (init_muxes_spec env c ((λ ip, addr_port ip (wrap_uint 16 (ICEPortUDP c))) <$> ips)
      [] s Hs Hc)) as (r & s' & Hrun & opened & H1 & H2 & H3 & H4 & H5).
    exists r, s', opened. split_and!; try done. intros muxes Hm. destruct (H5 _ Hm) as (new & -> & ? & ? & ?). by split_and!.
  - rewrite bool_decide_true, (bool_decide_false (ICEAddressUDP c = _)) by done.
    destruct (proj1 (wp_inv _ _ _) (initUDPMux_spec env c (join (ICEAddressUDP c) (ICEPortUDP c)) s Hs Hc))
      as (r & s' & Hrun & opened & H1 & H2 & H3 & H4 & H5).
    cbn [open_all]. rewrite <- H4. unfold bind_res, mbind at 1, go_bind. rewrite Hrun.
    destruct r as [m|e]; do 3 eexists; (split; [reflexivity|]); cbn [to_unit mbind result_bind]; split_and!; try done.
    intros muxes [= <-]. destruct (H5 _ eq_refl) as (Hm1 & Hm2 & Hg). cbn. rewrite Hm1, app_nil_r.
    split_and!; [done|done|]. by constructor.
Qed.

(** A failure leaves the sockets that were opened before it to nobody: after
    [k] rounds and a failed [listen], [k] sockets are open, and the caller is
    given an error. *)
Theorem failed_listen_leaks env count k e s :
  (∀ i, i < k → env i = {| se_listen := Ok tt; se_file := Ok tt; se_syscall := Ok tt; se_control := Ok tt |}) →
  se_listen (env k) = Err e → k < Z.to_nat count →
  ∃ s' opened, createUDPConnsForAddr env count s = Some (Err (EWrap "failed to listen on udp" e), s') ∧
    sk_open s' = sk_open s ++ opened ∧ length opened = k.
Proof.
  intros Henv Hk Hlt. set (n := Z.to_nat count) in *.
  enough (∀ j i conns files s, i + j = k → k < i + n - i → ∃ s' opened fs,
    create_conns env i (n - i) conns files s = Some ((Err (EWrap "failed to listen on udp" e), fs), s') ∧
    sk_open s' = sk_open s ++ opened ∧ length opened = j) as H.
  { destruct (H k 0 [] [] s) as (s' & opened & fs & Hrun & Ho & Hl); [lia|lia|].
    unfold createUDPConnsForAddr, mbind, go_bind. fold n. rewrite Nat.sub_0_r in Hrun. rewrite Hrun.
    do 2 eexists. split; [reflexivity|]. by split. }
  induction j as [|j IH]; intros i conns files s0 Hij Hn.
  - assert (i = k) as -> by lia. destruct (n - k) as [|m] eqn:E; [lia|]. cbn [create_conns]. rewrite Hk.
    exists s0, [], files. by rewrite app_nil_r.
  - destruct (n - i) as [|m] eqn:E; [lia|]. cbn [create_conns]. rewrite Henv by lia.
    cbn [se_listen se_file se_syscall se_control]. unfold mbind, go_bind, open_socket, open_file. cbn [sk_next sk_open sk_files].
    assert (m = n - S i) as -> by lia.
    edestruct (IH (S i)) as (s' & opened & fs & Hrun & Ho & Hl); [lia|lia|].
    exists s', (sk_next s0 :: opened), fs. rewrite Hrun. split; [done|]. rewrite Ho. cbn. rewrite <- app_assoc.
    split; [done|by rewrite Hl].
Qed.

Definition with_transaction (t : nat) (env : stun_env) : stun_env := {|
  ev_listen := ev_listen env; ev_resolve := ev_resolve env; ev_deadline := ev_deadline env;
  ev_write := ev_write env; ev_read := ev_read env; ev_transaction := t; ev_now := ev_now env |}.

(** The address in a datagram. *)
Definition mapped_address {T : StunLib} (bs : string) : result xor_addr :=
  m ← stun_Decode (split_at maxMessageSize bs).1; GetFrom m.

Lemma getXORMappedAddr_run {T : StunLib} env server req d c :
  (0 < d)%Z → ev_deadline env = Ok tt → stun_Build (ev_transaction env) = Ok req → ev_write env = Ok tt →
  getXORMappedAddr env server d c =
    Some (ev_read env ≫= mapped_address, set_deadline None (add_written (server, req) c)).
Proof.
  intros Hd Hdl Hb Hw. unfold getXORMappedAddr, stunRequest. rewrite (proj2 (Z.ltb_lt _ _) Hd), Hdl, Hb, Hw.
  unfold mapped_address. by destruct (ev_read env) as [bs|e].
Qed.

(** An end, the connection it leaves, and the runs of other transactions. *)
Ltac settle := do 2 eexists; (split; [reflexivity|]);
  (split; [intros ? [= <-]; cbn; repeat split; lia|]); (split; [done|]); intros t Hreq Ht.
Ltac stun_other t := destruct (stun_Build t); [by eexists|done].

(** The public address.  Whatever fails, the discovery ends with its
    connection closed and without a deadline, having written one request at
    most, to the host of the URL; an address it finds is the one in the first
    datagram that arrived, and the transaction of the request plays no part in
    it: the datagram is not checked against it. *)
Theorem public_address {T : StunLib} (env : stun_env) (url : string) :
  ∃ r c, getPublicIP env url None = Some (r, c) ∧
    (∀ conn, c = Some conn → uc_closed conn = true ∧ uc_deadline conn = None ∧ length (uc_written conn) ≤ 1) ∧
    (∀ ip, r = Ok ip → ∃ server req bs m a, ev_resolve env (stun_host url) = Ok server ∧
       uc_written <$> c = Some [(server, req)] ∧ stun_Build (ev_transaction env) = Ok req ∧
       ev_read env = Ok bs ∧ stun_Decode (fst (split_at maxMessageSize bs)) = Ok m ∧ GetFrom m = Ok a ∧
       ip = IP_String a) ∧
    (∀ t, is_ok (stun_Build (ev_transaction env)) = true → is_ok (stun_Build t) = true →
       ∃ c', getPublicIP (with_transaction t env) url None = Some (r, c')).
Proof.
  unfold getPublicIP. cbn [with_transaction ev_listen ev_resolve].
  destruct (bool_decide (url = str0)); [do 2 eexists; split; [reflexivity|]; by naive_solver|].
  destruct (ev_listen env) as [[]|e]; [|do 2 eexists; split; [reflexivity|]; by naive_solver].
  destruct (ev_resolve env (stun_host url)) as [server|e]; [|settle; by eexists].
  destruct (ev_deadline env) as [[]|e] eqn:Hdl.
  2: { unfold getXORMappedAddr. cbn [ev_deadline with_transaction]. rewrite Hdl. settle. by eexists. }
  destruct (stun_Build (ev_transaction env)) as [req|e] eqn:Hb.
  2: { unfold getXORMappedAddr, stunRequest. rewrite Hdl, Hb. by settle. }
  destruct (ev_write env) as [[]|e] eqn:Hw.
  2: { unfold getXORMappedAddr, stunRequest. cbn [ev_deadline with_transaction ev_transaction ev_write].
       rewrite Hdl, Hb, Hw. settle. stun_other t. }
  unfold mbind, go_bind, on_conn, modify. cbn [mbind option_bind].
  rewrite (getXORMappedAddr_run env server req) by done.
  do 2 eexists. split; [reflexivity|]. split; [intros ? [= <-]; cbn; repeat split; lia|]. split.
  - intros ip Hip. exists server, req. cbn in Hip.
    destruct (ev_read env) as [bs|e]; [|done]. cbn [mbind result_bind] in Hip. unfold mapped_address in Hip.
    destruct (stun_Decode _) as [m|e] eqn:Hd; [|done]. cbn [mbind result_bind] in Hip.
    destruct (GetFrom m) as [a|e] eqn:Ha; [|done]. injection Hip as <-. by exists bs, m, a.
  - intros t _ Ht. destruct (stun_Build t) as [req'|] eqn:Ht'; [|done].
    rewrite (getXORMappedAddr_run _ server req') by done. by eexists.
Qed.

(** ** A concrete library, and witnesses *)
Module ToyListen.

Definition fine : socket_env := {| se_listen := Ok tt; se_file := Ok tt; se_syscall := Ok tt; se_control := Ok tt |}.
Definition refused : socket_env :=
  {| se_listen := Err (EText "address already in use"); se_file := Ok tt; se_syscall := Ok tt; se_control := Ok tt |}.
Definition no_sockets : sockets := {| sk_next := 3; sk_open := []; sk_files := [] |}.
Lemma no_sockets_numbered : numbered no_sockets.
Proof. split_and!; constructor. Qed.

Definition config (address : string) : ServerConfig := {|
  ICEAddressUDP := address; ICEPortUDP := 8443; ICEAddressTCP := str0; ICEPortTCP := 8443;
  ICEHostOverride := str0; ICEHostPortOverride := str0; cfgICEServers := [];
  cfgTURNConfig := {| StaticAuthSecret := str0; CredentialsExpirationMinutes := 0 |};
  EnableIPv6 := false; UDPSocketsCount := 2 |}.
Definition join (host : string) (port : Z) : string := host +:+ ":" +:+ Itoa port.

(** Datagrams are a transaction, a bar and an address. *)
Definition toy_stun : StunLib := {|
  stun_msg := string * string; xor_addr := string; stun_Build n := Ok (Itoa (Z.of_nat n));
  stun_Decode s := match Cut "|" s with Some m => Ok m | None => Err (EText "invalid message") end;
  GetFrom m := Ok m.2; IP_String a := a |}.

Definition stun_answer (bs : string) : stun_env := {|
  ev_listen := Ok tt; ev_resolve h := Ok ("1.1.1.1 " +:+ h); ev_deadline := Ok tt; ev_write := Ok tt;
  ev_read := Ok bs; ev_transaction := 7; ev_now := 0 |}.

End ToyListen.

Lemma initUDP_refines_witness :
  ∃ muxes s', initUDP (E := toy_env) ToyListen.join (λ ip port, ToyListen.join (addr_String ip) port)
      (λ _ _, ToyListen.fine) (ToyListen.config "10.0.0.1") [] ToyListen.no_sockets = Some (Ok muxes, s') ∧
    mx_addr <$> muxes = ["10.0.0.1:8443"]%string ∧ length (sk_open s') = 2 ∧ sk_files s' = [].
Proof.
  destruct (initUDP_refines (E := toy_env) ToyListen.join (λ ip port, ToyListen.join (addr_String ip) port)
    (λ _ _, ToyListen.fine) (ToyListen.config "10.0.0.1") [] ToyListen.no_sockets ToyListen.no_sockets_numbered)
    as (r & s' & opened & Hrun & Hr & _ & Ho & Hf & Hok); [done|].
  destruct r as [muxes|e]; [|discriminate Hr]. exists muxes, s'. split; [exact Hrun|].
  destruct (Hok _ eq_refl) as (Ha & -> & Hg). split; [exact Ha|]. rewrite Ho. split; [|exact Hf].
  destruct muxes as [|m [|m' l]]; [discriminate Ha| |discriminate Ha].
  apply Forall_singleton in Hg as [Hl _]. cbn. by rewrite app_nil_r.
Defined.

(** A datagram of another transaction is taken. *)
Lemma public_address_witness :
  ∃ c, getPublicIP (T := ToyListen.toy_stun) (ToyListen.stun_answer "9|8.8.8.8") "stun:host:3478" None
      = Some (Ok "8.8.8.8"%string, Some c) ∧
    uc_closed c = true ∧ uc_deadline c = None ∧ uc_written c = [("1.1.1.1 host:3478", "7")]%string.
Proof.
  destruct (public_address (T := ToyListen.toy_stun) (ToyListen.stun_answer "9|8.8.8.8") "stun:host:3478")
    as (r & c & Hrun & Hc & _). eexists. split; [vm_compute; reflexivity|]. by vm_compute.
Defined.
