(* ===== verification/Startup.v ===== *)
(** * Startup: putting the service together (service/service.go, service/api)

    The HTTP server's life (service/api/server.go, service/api/mux.go), and
    [New]: the parts are made in order from the configuration, and the first
    that refuses it ends the start with what was already open.  The parts'
    own constructors are those of their files; the answers of the system and
    of the libraries are arguments. *)
From S2P Require Import Prelude GoText RtcConfig Store Auth HttpAuth Config WsServer Pion World Server.

(** ** The HTTP server *)
Inductive serving := Plaintext | WithTLS (cert key : string).

Record api_server := {
  ap_cfg : HTTPConfig;
  ap_listener : option string;
  ap_serving : option serving;
  ap_routes : list string;
}.

Definition api_NewServer (o : checks) (cfg : HTTPConfig) : result api_server :=
  _ ← HTTPConfig_IsValid o cfg;
  Ok {| ap_cfg := cfg; ap_listener := None; ap_serving := None; ap_routes := [] |}.

(** The mux panics on an empty path, and on one that is taken. *)
Definition RegisterHandler (path : string) : go api_server unit := λ s,
  if bool_decide (path = str0) || bool_decide (path ∈ ap_routes s) then None
  else Some (tt, {| ap_cfg := ap_cfg s; ap_listener := ap_listener s; ap_serving := ap_serving s;
                    ap_routes := ap_routes s ++ [path] |}).

(** What the goroutine of [Start] serves. *)
Definition serve_mode (c : HTTPConfig) : serving :=
  if tls_Enable (TLS c) && bool_decide (CertFile (TLS c) ≠ str0) && bool_decide (CertKey (TLS c) ≠ str0)
  then WithTLS (CertFile (TLS c)) (CertKey (TLS c)) else Plaintext.

(** [listen] is the address [net.Listen] bound. *)
Definition api_Start (listen : string → result string) : go api_server (result unit) :=
  s ← gets id;
  match listen (ListenAddress (ap_cfg s)) with
  | Err e => mret (Err (EWrap "failed to listen" e))
  | Ok addr =>
      modify (λ s, {| ap_cfg := ap_cfg s; ap_listener := Some addr; ap_serving := Some (serve_mode (ap_cfg s));
                      ap_routes := ap_routes s |}) ;;
      mret (Ok tt)
  end.

(** [shutdown] is the answer of [http.Server.Shutdown] within ten seconds:
    the listener is closed either way. *)
Definition api_Stop (shutdown : result unit) : go api_server (result unit) :=
  modify (λ s, {| ap_cfg := ap_cfg s; ap_listener := ap_listener s; ap_serving := None; ap_routes := ap_routes s |}) ;;
  mret (wrap_err "failed to shutdown server" shutdown).

Definition Addr (s : api_server) : string := default str0 (ap_listener s).

(** ** The service *)

(** What is running or open. *)
Record startup := {
  su_collecting : bool;
  su_store : bool;
  su_cache : option SessionCache;
  su_api : option api_server;
  su_ws : option ws_server;
}.
Definition nothing : startup :=
  {| su_collecting := false; su_store := false; su_cache := None; su_api := None; su_ws := None |}.

Definition set_collecting (s : startup) : startup := {|
  su_collecting := true; su_store := su_store s; su_cache := su_cache s; su_api := su_api s; su_ws := su_ws s |}.
Definition set_store (s : startup) : startup := {|
  su_collecting := su_collecting s; su_store := true; su_cache := su_cache s; su_api := su_api s; su_ws := su_ws s |}.
Definition set_cache (c : SessionCache) (s : startup) : startup := {|
  su_collecting := su_collecting s; su_store := su_store s; su_cache := Some c; su_api := su_api s; su_ws := su_ws s |}.
Definition set_api (a : api_server) (s : startup) : startup := {|
  su_collecting := su_collecting s; su_store := su_store s; su_cache := su_cache s; su_api := Some a; su_ws := su_ws s |}.
Definition set_ws (w : ws_server) (s : startup) : startup := {|
  su_collecting := su_collecting s; su_store := su_store s; su_cache := su_cache s; su_api := su_api s; su_ws := Some w |}.

(** [auth.NewService]: its arguments are not nil. *)
Definition auth_NewService (store cache : bool) : result unit :=
  _ ← guard_err (negb store) "invalid store"; guard_err (negb cache) "invalid session cache".

Definition wsConfig : WsServer.ServerConfig :=
  {| ReadBufferSize := 1024; WriteBufferSize := 1024; PingInterval := (10 * second)%Z |}.

Definition routes (darwin : bool) : list string :=
  ["/version"; "/login"; "/register"; "/unregister"; "/ws"]%string ++
  (if darwin then [] else ["/system"%string]) ++
  ["/metrics"; "/debug/pprof/heap"; "/debug/pprof/delta_heap"; "/debug/pprof/delta_block"; "/debug/pprof/delta_mutex";
   "/debug/pprof/goroutine"; "/debug/pprof/mutex"; "/debug/pprof/profile"; "/debug/pprof/trace"]%string.

Section new.
  Context {G : LogLib} {E : Env} (o : checks) (darwin : bool).

(** A part, or the error of the start. *)
Definition part {A} (msg : string) (r : result A) : go startup (result A) := mret (wrap_err msg r).

Definition on_api (m : go api_server unit) : go startup unit := λ s,
  a ← su_api s; '(_, a) ← m a; Some (tt, set_api a s).

(** [log] is [logger.New]; [open_store] is [store.New]. *)
Definition New (log : LoggerConfig → result unit) (open_store : string → result unit) (cfg : Config) :
    go startup (result unit) :=
  _ ←? mret (Config_IsValid o cfg);
  _ ←? part "rtcd: failed to init logger" (log (Logger cfg));
  when (negb darwin) (modify set_collecting) ;;
  _ ←? part "failed to create store" (open_store (DataSource (StoreCfg cfg)));
  modify set_store ;;
  cache ←? part "failed to create session cache" (NewSessionCache (SessionCacheMinutes (API cfg)));
  modify (set_cache cache) ;;
  _ ←? part "failed to create auth service" (auth_NewService true true);
  api ←? part "failed to create api server" (api_NewServer o (HTTP (API cfg)));
  modify (set_api api) ;;
  ws ←? part "failed to create ws server" (WsServer.NewServer wsConfig [Ok tt]);
  modify (set_ws ws) ;;
  _ ←? part "failed to create rtc server" (Server.NewServer (is_ip o) (RTC cfg) true true);
  on_api (go_iter RegisterHandler (routes darwin)) ;;
  mret (Ok tt).

End new.

(** ** Lemmas *)
Lemma wp_try {S A B} (m : go S (result A)) (k : A → go S (result B)) Q s :
  wp m (λ r s', match r with Ok a => wp (k a) Q s' | Err e => Q (Err e) s' end) s → wp (bind_res m k) Q s.
Proof.
  intros H. apply wp_bind. eapply wp_mono; [exact H|]. by intros [a|e] s' Hr.
Qed.

Lemma register_all paths s :
  NoDup (ap_routes s ++ paths) → Forall (λ p, p ≠ str0) paths →
  wp (go_iter RegisterHandler paths) (λ _ s', ap_routes s' = ap_routes s ++ paths ∧ ap_cfg s' = ap_cfg s) s.
Proof.
  revert s. induction paths as [|p paths IH]; intros s Hn Hf; cbn [go_iter].
  { apply wp_ret. by rewrite app_nil_r. }
  apply Forall_cons in Hf as [Hp Hf]. apply wp_bind. unfold wp at 1, RegisterHandler.
  assert (Hni : p ∉ ap_routes s).
  { apply NoDup_app in Hn as (_ & Hd & _). intros Hin. apply (Hd p Hin). left. }
  rewrite !bool_decide_false by done. cbn [orb]. eapply wp_mono; [apply IH; [|done]|].
  - cbn. by rewrite <- app_assoc.
  - cbn. intros [] s' [-> ->]. by rewrite <- app_assoc.
Qed.

Lemma routes_distinct darwin : NoDup (routes darwin) ∧ Forall (λ p, p ≠ str0) (routes darwin).
Proof.
  split; [apply (bool_decide_unpack _); by destruct darwin|]. destruct darwin; repeat constructor; discriminate.
Qed.

(** The parts accept what the configuration's check accepts. *)
Lemma valid_parts {G : LogLib} {E : Env} o (cfg : Config) :
  Config_IsValid o cfg = Ok tt →
  (∃ api, api_NewServer o (HTTP (API cfg)) = Ok api ∧ ap_routes api = [] ∧ ap_cfg api = HTTP (API cfg)) ∧
  is_ok (Server.NewServer (is_ip o) (RTC cfg) true true) = true.
Proof.
  unfold Config_IsValid, APIConfig_IsValid. rewrite !bind_unit_ok. intros ([_ Hh] & Hr & _ & _).
  apply wrap_err_ok in Hh. unfold api_NewServer, Server.NewServer. rewrite Hh, Hr. split; [|done]. by eexists.
Qed.

(** ** Properties *)

(** C36: The check of the configuration decides the start, but for the session
    cache.  Over a system whose logger and store can be opened, [New] never
    panics; from a valid configuration it makes every part and registers the
    routes, each once, exactly when the sessions' lifetime is positive.  It is
    not when the check accepts a lifetime the session cache refuses: the
    start then fails with the store left open, and the sampling of the system
    left running. *)
Theorem new_service {G : LogLib} {E : Env} o darwin log open_store (cfg : Config) :
  Config_IsValid o cfg = Ok tt → log (Logger cfg) = Ok tt → open_store (DataSource (StoreCfg cfg)) = Ok tt →
  ∃ r s, New o darwin log open_store cfg nothing = Some (r, s) ∧
    su_store s = true ∧ su_collecting s = negb darwin ∧
    if (0 <? SessionCacheMinutes (API cfg))%Z
    then r = Ok tt ∧ is_Some (su_cache s) ∧ is_Some (su_ws s) ∧
         ∃ a, su_api s = Some a ∧ ap_routes a = routes darwin ∧ ap_cfg a = HTTP (API cfg)
    else is_ok r = false ∧ su_cache s = None ∧ su_api s = None.
Proof.
  intros Hv Hl Hs. apply wp_inv. unfold New, part. destruct (valid_parts _ _ Hv) as [(api & Ha & Hr & Hc) Hrtc].
  apply wp_try, wp_ret. rewrite Hv. apply wp_try, wp_ret. rewrite Hl. cbn [wrap_err].
  apply wp_bind. apply wp_inv. eexists tt, (if darwin then nothing else set_collecting nothing).
  split; [by destruct darwin|]. apply wp_try, wp_ret. rewrite Hs. cbn [wrap_err]. apply wp_bind, wp_modify.
  apply wp_try, wp_ret. unfold NewSessionCache, SessionCacheConfig_IsValid. rewrite Z.ltb_antisym.
  destruct (SessionCacheMinutes (API cfg) <=? 0)%Z; cbn [guard_err mbind result_bind wrap_err negb].
  { by destruct darwin. }
  apply wp_bind, wp_modify, wp_try, wp_ret. cbn [auth_NewService guard_err negb mbind result_bind wrap_err].
  apply wp_try, wp_ret. rewrite Ha. cbn [wrap_err]. apply wp_bind, wp_modify, wp_try, wp_ret.
  assert (Hw : ∃ w, WsServer.NewServer wsConfig [Ok tt] = Ok w) by by eexists. destruct Hw as (w & ->).
  cbn [wrap_err]. apply wp_bind, wp_modify, wp_try, wp_ret.
  destruct (Server.NewServer _ _ _ _) as [v|e]; [|done]. cbn [wrap_err]. apply wp_bind.
  assert (Hreg : wp (go_iter RegisterHandler (routes darwin))
    (λ _ s', ap_routes s' = ap_routes api ++ routes darwin ∧ ap_cfg s' = ap_cfg api) api).
  { apply register_all; [rewrite Hr|]; apply routes_distinct. }
  apply wp_inv in Hreg as ([] & a & Hrun & Hra & Hca). rewrite Hr in Hra.
  apply wp_inv. eexists tt, _. split; [unfold on_api; cbn [su_api set_ws set_api mbind option_bind]; by rewrite Hrun|].
  apply wp_ret. destruct darwin; repeat (split; [by eauto|]); exists a; by rewrite Hca.
Qed.

(** TLS is never given up silently: a server made from a configuration that
    enables TLS, once started, serves with the configured certificate. *)
Theorem tls_kept o (cfg : HTTPConfig) s listen addr :
  api_NewServer o cfg = Ok s → listen (ListenAddress cfg) = Ok addr →
  ∃ s', api_Start listen s = Some (Ok tt, s') ∧ Addr s' = addr ∧
    ap_serving s' = Some (if tls_Enable (TLS cfg) then WithTLS (CertFile (TLS cfg)) (CertKey (TLS cfg)) else Plaintext).
Proof.
  unfold api_NewServer. intros H Hl. destruct (HTTPConfig_IsValid o cfg) as [[]|e] eqn:Hv; [|done].
  injection H as <-. unfold api_Start, mbind, go_bind, gets. cbn [id ap_cfg]. rewrite Hl.
  eexists. split; [reflexivity|]. split; [done|]. cbn. f_equal.
  unfold HTTPConfig_IsValid, TLSConfig_IsValid in Hv. rewrite bind_unit_ok, wrap_err_ok in Hv. destruct Hv as [_ Hv].
  unfold serve_mode. destruct (tls_Enable (TLS cfg)); [|done].
  rewrite !bind_unit_ok, !guard_err_ok, !bool_decide_eq_false in Hv. destruct Hv as (H1 & H2 & _).
  by rewrite !bool_decide_true.
Qed.

(** ** Witnesses *)
Lemma new_service_witness :
  ∃ r s, New (G := ToyConfig.toy_log) (E := toy_env) ToyConfig.toy_checks false (λ _, Ok tt) (λ _, Ok tt)
      (SetDefaults 4 zero_config) nothing = Some (r, s) ∧ r = Ok tt ∧ is_Some (su_cache s).
Proof.
  destruct (new_service (G := ToyConfig.toy_log) (E := toy_env) ToyConfig.toy_checks false (λ _, Ok tt) (λ _, Ok tt)
    (SetDefaults 4 zero_config)) as (r & s & Hrun & _ & _ & Hr & Hc & _); [reflexivity..|].
  exists r, s. by split_and!.
Defined.

Lemma tls_kept_witness :
  ∃ s s', api_NewServer ToyConfig.toy_checks
      {| ListenAddress := ":443"; TLS := {| tls_Enable := true; CertFile := "cert.pem"; CertKey := "key.pem" |} |} = Ok s ∧
    api_Start (λ a, Ok ("0.0.0.0" +:+ a)) s = Some (Ok tt, s') ∧ ap_serving s' = Some (WithTLS "cert.pem" "key.pem").
Proof.
  eexists. destruct (tls_kept ToyConfig.toy_checks
    {| ListenAddress := ":443"; TLS := {| tls_Enable := true; CertFile := "cert.pem"; CertKey := "key.pem" |} |}
    _ (λ a, Ok ("0.0.0.0" +:+ a)) "0.0.0.0:443" eq_refl eq_refl) as (s' & Hrun & _ & Hs).
  exists s'. split; [reflexivity|]. by split.
Defined.
