(* ===== verification/Metrics.v ===== *)
(** * Metrics: the registry behind the metrics (service/perf/metrics.go)

    The other files record the metrics they count as lists ([metric],
    [svc_metric]); here each becomes the call it is on a registry of labelled
    families.  The registry is Prometheus's and a parameter: its laws say that
    a family takes the labels it was registered with when their values are
    valid UTF-8, and that [With] panics on a value that is not. *)
From S2P Require Import Prelude GoText WsServer Pion World Service.

(** ** The library *)
Inductive vec_kind := GaugeVec | CounterVec | HistogramVec (buckets : list Z).
Inductive update := Inc | Dec | Observe (val : Z).

(** Counters only grow, and only histograms observe. *)
Definition allows (k : vec_kind) (u : update) : bool :=
  match k, u with
  | GaugeVec, (Inc | Dec) | CounterVec, Inc | HistogramVec _, Observe _ => true
  | _, _ => false
  end.

Abbreviation labels := (gmap string string) (only parsing).

Class Prometheus := {
  registry : Type;
  new_registry : registry;
  MustRegister : string → vec_kind → list string → registry → option registry;
  With : string → labels → update → registry → option registry;
  value : registry → string → labels → Z;
}.

(** By how much an update moves a series; of a histogram, the number of its
    observations. *)
Definition moves (u : update) : Z := match u with Dec => -1 | _ => 1 end.

(** What the library asks of the values of labels. *)
Definition labels_valid (ls : labels) : bool := bool_decide (map_Forall (λ _ v, ValidString v = true) ls).

Class PrometheusLaws (P : Prometheus) := {
  families : registry → gmap string (vec_kind * list string);
  families_new : families new_registry = ∅;
  value_new n ls : value new_registry n ls = 0%Z;
  register_ok n k names r :
    families r !! n = None → NoDup names →
    ∃ r', MustRegister n k names r = Some r' ∧ families r' = <[n := (k, names)]> (families r) ∧
      ∀ m ls, value r' m ls = value r m ls;
  with_ok n k names ls u r :
    families r !! n = Some (k, names) → dom ls = list_to_set names → allows k u = true → labels_valid ls = true →
    ∃ r', With n ls u r = Some r' ∧ families r' = families r ∧
      ∀ m ls', value r' m ls' =
        (value r m ls' + if bool_decide (m = n ∧ ls' = ls) then moves u else 0)%Z;
  with_invalid n ls u r : labels_valid ls = false → With n ls u r = None;
}.

(** ** The families *)
Section metrics.
  Context {P : Prometheus} (namespace : string).

Definition metricsSubSystemRTC : string := "rtc".
Definition metricsSubSystemRTCClient : string := "rtc_client".
Definition metricsSubSystemWS : string := "ws".

(** In ten-thousandths. *)
Definition latencyBuckets : list Z := ([10; 50; 75; 100; 250; 500; 750; 1000; 2500; 3000; 4000; 5000; 7500; 10000])%Z.
Definition lossBuckets : list Z := ([10; 50; 75; 100; 250; 500; 750; 1000; 2500; 5000; 7500; 10000])%Z.

(** [prometheus.BuildFQName]. *)
Definition fq_name (subsystem name : string) : string := namespace +:+ "_" +:+ subsystem +:+ "_" +:+ name.

Definition RTPTracks : string := fq_name metricsSubSystemRTC "rtp_tracks_total".
Definition RTPTrackWrites : string := fq_name metricsSubSystemRTC "rtp_tracks_writes_time".
Definition RTCSessions : string := fq_name metricsSubSystemRTC "sessions_total".
Definition RTCConnStateCounters : string := fq_name metricsSubSystemRTC "conn_states_total".
Definition RTCErrors : string := fq_name metricsSubSystemRTC "errors_total".
Definition WSConnections : string := fq_name metricsSubSystemWS "connections_total".
Definition WSMessageCounters : string := fq_name metricsSubSystemWS "messages_total".
Definition RTCClientLoss : string := fq_name metricsSubSystemRTCClient "loss_rate".
Definition RTCClientRTT : string := fq_name metricsSubSystemRTCClient "rtt".
Definition RTCClientJitter : string := fq_name metricsSubSystemRTCClient "jitter".

(** In the order [NewMetrics] registers them. *)
Definition metric_families : list (string * (vec_kind * list string)) := [
  (RTPTracks, (GaugeVec, ["groupID"; "direction"; "type"]));
  (RTPTrackWrites, (HistogramVec latencyBuckets, ["groupID"; "type"]));
  (RTCSessions, (GaugeVec, ["groupID"]));
  (RTCConnStateCounters, (CounterVec, ["type"]));
  (RTCErrors, (CounterVec, ["groupID"; "type"]));
  (WSConnections, (GaugeVec, ["clientID"]));
  (WSMessageCounters, (CounterVec, ["clientID"; "type"; "direction"]));
  (RTCClientLoss, (HistogramVec lossBuckets, ["groupID"]));
  (RTCClientRTT, (HistogramVec latencyBuckets, ["groupID"]));
  (RTCClientJitter, (HistogramVec latencyBuckets, ["groupID"]))]%string.

Definition register (f : string * (vec_kind * list string)) : go registry unit := λ r,
  r' ← MustRegister f.1 f.2.1 f.2.2 r; Some (tt, r').

(** [NewMetrics] on a registry; without one the process's and Go's own
    collectors are registered too. *)
Definition NewMetrics : go registry unit := go_iter register metric_families.

(** ** The calls *)
Definition update_vec (name : string) (ls : labels) (u : update) : go registry unit := λ r,
  r' ← With name ls u r; Some (tt, r').

Definition group_label (groupID : string) : labels := {["groupID"%string := groupID]}.
Definition track_labels (groupID direction trackType : string) : labels :=
  <["groupID"%string := groupID]> (<["direction"%string := direction]> {["type"%string := trackType]}).
Definition error_labels (groupID errType : string) : labels :=
  <["type"%string := errType]> {["groupID"%string := groupID]}.
Definition client_label (clientID : string) : labels := {["clientID"%string := clientID]}.
Definition message_labels (clientID msgType direction : string) : labels :=
  <["clientID"%string := clientID]> (<["type"%string := msgType]> {["direction"%string := direction]}).

(** The methods of [Metrics]. *)
Definition observe_writes (g ty : string) (dur : Z) : go registry unit :=
  update_vec RTPTrackWrites (<["groupID"%string := g]> {["type"%string := ty]}) (Observe dur).
Definition observe_loss (g : string) (val : Z) : go registry unit :=
  update_vec RTCClientLoss (group_label g) (Observe val).
Definition observe_rtt (g : string) (val : Z) : go registry unit :=
  update_vec RTCClientRTT (group_label g) (Observe val).
Definition observe_jitter (g : string) (val : Z) : go registry unit :=
  update_vec RTCClientJitter (group_label g) (Observe val).

(** Those the RTC server calls, and those of the service. *)
Definition record_rtc (m : metric) : go registry unit :=
  match m with
  | IncRTCSessions g => update_vec RTCSessions (group_label g) Inc
  | DecRTCSessions g => update_vec RTCSessions (group_label g) Dec
  | IncRTCConnState state => update_vec RTCConnStateCounters {["type"%string := state]} Inc
  | IncRTCErrors g errType => update_vec RTCErrors (error_labels g errType) Inc
  | IncRTPTracks g dir ty => update_vec RTPTracks (track_labels g dir ty) Inc
  | DecRTPTracks g dir ty => update_vec RTPTracks (track_labels g dir ty) Dec
  | ObserveRTPTracksWrite g ty dur => observe_writes g ty dur
  | ObserveRTCClientLossRate g val => observe_loss g val
  | ObserveRTCClientRTT g val => observe_rtt g val
  | ObserveRTCClientJitter g val => observe_jitter g val
  end.

Definition record_svc (m : svc_metric) : go registry unit :=
  match m with
  | IncWSConnections c => update_vec WSConnections (client_label c) Inc
  | DecWSConnections c => update_vec WSConnections (client_label c) Dec
  | IncWSMessages c ty dir => update_vec WSMessageCounters (message_labels c ty dir) Inc
  end.

Definition record (m : metric + svc_metric) : go registry unit :=
  match m with inl m => record_rtc m | inr m => record_svc m end.

(** What a call updates. *)
Definition target (m : metric + svc_metric) : string * labels * update :=
  match m with
  | inl (IncRTCSessions g) => (RTCSessions, group_label g, Inc)
  | inl (DecRTCSessions g) => (RTCSessions, group_label g, Dec)
  | inl (IncRTCConnState state) => (RTCConnStateCounters, {["type"%string := state]}, Inc)
  | inl (IncRTCErrors g errType) => (RTCErrors, error_labels g errType, Inc)
  | inl (IncRTPTracks g dir ty) => (RTPTracks, track_labels g dir ty, Inc)
  | inl (DecRTPTracks g dir ty) => (RTPTracks, track_labels g dir ty, Dec)
  | inl (ObserveRTPTracksWrite g ty dur) =>
      (RTPTrackWrites, <["groupID"%string := g]> {["type"%string := ty]}, Observe dur)
  | inl (ObserveRTCClientLossRate g val) => (RTCClientLoss, group_label g, Observe val)
  | inl (ObserveRTCClientRTT g val) => (RTCClientRTT, group_label g, Observe val)
  | inl (ObserveRTCClientJitter g val) => (RTCClientJitter, group_label g, Observe val)
  | inr (IncWSConnections c) => (WSConnections, client_label c, Inc)
  | inr (DecWSConnections c) => (WSConnections, client_label c, Dec)
  | inr (IncWSMessages c ty dir) => (WSMessageCounters, message_labels c ty dir, Inc)
  end.

(** ** Lemmas *)
Context {L : PrometheusLaws P}.

Definition all_families : gmap string (vec_kind * list string) := list_to_map metric_families.

Lemma names_distinct : NoDup metric_families.*1.
Proof.
  assert (H : metric_families.*1 = (λ s, namespace +:+ s) <$> ["_rtc_rtp_tracks_total"; "_rtc_rtp_tracks_writes_time";
    "_rtc_sessions_total"; "_rtc_conn_states_total"; "_rtc_errors_total"; "_ws_connections_total";
    "_ws_messages_total"; "_rtc_client_loss_rate"; "_rtc_client_rtt"; "_rtc_client_jitter"]%string) by reflexivity.
  rewrite H. apply NoDup_fmap_2; [|apply (bool_decide_unpack _); vm_compute; exact I].
  intros x y Hxy. clear H. induction namespace as [|a l IH]; [done|]. injection Hxy as Hxy. by apply IH.
Qed.

Lemma register_families fs r :
  NoDup fs.*1 → Forall (λ f, NoDup f.2.2) fs → (∀ n, n ∈ fs.*1 → families r !! n = None) →
  wp (go_iter register fs) (λ _ r', families r' = families r ∪ list_to_map fs ∧
    ∀ n ls, value r' n ls = value r n ls) r.
Proof.
  revert r. induction fs as [|[n [k names]] fs IH]; intros r Hnd Hls Hnone; cbn [go_iter].
  { apply wp_ret. cbn. by rewrite map_union_empty. }
  apply NoDup_cons in Hnd as [Hn Hnd]. apply Forall_cons in Hls as [Hl Hls].
  destruct (register_ok n k names r) as (r1 & H1 & H2 & H3); [apply Hnone; left|done|].
  apply wp_bind, wp_inv. exists tt, r1. split; [unfold register; cbn; by rewrite H1|].
  eapply wp_mono; [apply IH; [done|done|]|].
  - intros m Hm. rewrite H2, lookup_insert_ne by (by intros ->). apply Hnone. by right.
  - intros [] r2 [Hf Hv]. split; [|intros m ls; by rewrite Hv, H3].
    rewrite Hf, H2. cbn [list_to_map foldr fst snd]. rewrite <- insert_union_l. apply insert_union_r.
    apply Hnone. left.
Qed.

Lemma NewMetrics_spec :
  wp NewMetrics (λ _ r, families r = all_families ∧ ∀ n ls, value r n ls = 0%Z) new_registry.
Proof.
  eapply wp_mono; [apply register_families; [apply names_distinct| |]|].
  - apply (bool_decide_unpack _). vm_compute. exact I.
  - intros n _. by rewrite families_new, lookup_empty.
  - intros [] r [Hf Hv]. split; [by rewrite Hf, families_new, map_empty_union|].
    intros n ls. by rewrite Hv, value_new.
Qed.

(** Every call is one its family allows, with the family's labels. *)
Lemma target_ok m : ∃ k names, all_families !! (target m).1.1 = Some (k, names) ∧
  dom (target m).1.2 = list_to_set names ∧ allows k (target m).2 = true.
Proof.
  assert (Hin : ∀ n f, (n, f) ∈ metric_families → all_families !! n = Some f).
  { intros n f H. by apply elem_of_list_to_map_1; [apply names_distinct|]. }
  destruct m as [[]|[]]; cbn [target fst snd]; do 2 eexists;
    (split; [apply Hin; unfold metric_families; repeat first [apply list_elem_of_here | apply list_elem_of_further]|]);
    (split; [unfold group_label, track_labels, error_labels, client_label, message_labels;
             rewrite ?dom_insert_L, ?dom_singleton_L; set_solver|done]).
Qed.

Lemma record_target m : record m = update_vec (target m).1.1 (target m).1.2 (target m).2.
Proof. by destruct m as [[]|[]]. Qed.

(** By how much a list of calls moves a series. *)
Definition moved (n : string) (ls : labels) (l : list (metric + svc_metric)) : Z :=
  foldr (λ m z, (if bool_decide (n = (target m).1.1 ∧ ls = (target m).1.2) then moves (target m).2 else 0) + z)%Z 0%Z l.

(** The values of a call's labels. *)
Definition metric_valid (m : metric + svc_metric) : bool := labels_valid (target m).1.2.

Lemma record_all l r :
  families r = all_families → forallb metric_valid l = true →
  wp (go_iter record l) (λ _ r', families r' = all_families ∧
    ∀ n ls, value r' n ls = (value r n ls + moved n ls l)%Z) r.
Proof.
  revert r. induction l as [|m l IH]; intros r Hr Hval; cbn [go_iter].
  { apply wp_ret. split; [done|]. intros n ls. cbn. lia. }
  cbn [forallb] in Hval. apply andb_true_iff in Hval as [Hm Hval].
  destruct (target_ok m) as (k & names & Hk & Hd & Ha). rewrite <- Hr in Hk.
  destruct (with_ok _ _ _ _ _ _ Hk Hd Ha Hm) as (r1 & H1 & H2 & H3).
  apply wp_bind, wp_inv. exists tt, r1. split; [rewrite record_target; unfold update_vec; by rewrite H1|].
  eapply wp_mono; [apply IH; congruence|]. intros [] r2 [Hf Hv]. split; [done|].
  intros n ls. rewrite Hv, H3. cbn [moved foldr]. fold (moved n ls l). lia.
Qed.

Lemma record_invalid l r : forallb metric_valid l = false → go_iter record l r = None.
Proof.
  revert r. induction l as [|m l IH]; intros r Hval; [done|]. cbn [go_iter]. unfold mbind, go_bind.
  rewrite record_target. unfold update_vec. cbn [forallb] in Hval.
  destruct (metric_valid m) eqn:Hm; [|by rewrite with_invalid].
  destruct (With _ _ _ r) as [r1|]; [|done]. cbn. by apply IH.
Qed.

Lemma sapp_inv (p s t : string) : (p +:+ s) = (p +:+ t) → s = t.
Proof. induction p as [|a p IH]; [done|]. intros H. injection H as H. by apply IH. Qed.

Lemma fq_ne s n s' n' : (s +:+ "_" +:+ n) ≠ (s' +:+ "_" +:+ n') → fq_name s n ≠ fq_name s' n'.
Proof. intros Hne H. apply sapp_inv in H. injection H as H. done. Qed.

Lemma group_label_inj g g' : group_label g = group_label g' ↔ g = g'.
Proof.
  split; [|by intros ->]. intros H. apply (f_equal (.!! "groupID"%string)) in H. unfold group_label in H. cbn beta in H.
  rewrite !lookup_singleton_eq in H. by injection H.
Qed.

Lemma client_label_inj c c' : client_label c = client_label c' ↔ c = c'.
Proof.
  split; [|by intros ->]. intros H. apply (f_equal (.!! "clientID"%string)) in H. unfold client_label in H. cbn beta in H.
  rewrite !lookup_singleton_eq in H. by injection H.
Qed.

Lemma track_labels_inj g d t g' d' t' : track_labels g d t = track_labels g' d' t' ↔ g = g' ∧ d = d' ∧ t = t'.
Proof.
  split; [|by intros (-> & -> & ->)]. intros H. unfold track_labels in H.
  pose proof (f_equal (.!! "groupID"%string) H) as Hg. pose proof (f_equal (.!! "direction"%string) H) as Hd.
  pose proof (f_equal (.!! "type"%string) H) as Ht. cbn beta in Hg, Hd, Ht.
  rewrite !lookup_insert_eq in Hg.
  repeat (rewrite lookup_insert_ne in Hd by done; rewrite lookup_insert_eq in Hd).
  repeat rewrite lookup_insert_ne in Ht by done. rewrite !lookup_singleton_eq in Ht. split_and!; congruence.
Qed.

Definition rtc_part (l : list (metric + svc_metric)) : list metric :=
  omap (λ m, match m with inl m => Some m | inr _ => None end) l.
Definition svc_part (l : list (metric + svc_metric)) : list svc_metric :=
  omap (λ m, match m with inr m => Some m | inl _ => None end) l.

(** Another family. *)
Ltac other_family := rewrite bool_decide_false by (intros [H _]; revert H; apply fq_ne; discriminate).

Lemma rtc_part_cons m l : rtc_part (inl m :: l) = [m] ++ rtc_part l.
Proof. reflexivity. Qed.
Lemma svc_part_cons m l : svc_part (inr m :: l) = m :: svc_part l.
Proof. reflexivity. Qed.

(** A call of the same family compares its labels, and another moves nothing. *)
Ltac compare_series :=
  repeat match goal with
         | |- context [bool_decide ?P] => destruct (bool_decide_reflect P); try done
         end; rewrite ?group_label_inj, ?client_label_inj, ?track_labels_inj in *; naive_solver.

Lemma moved_sessions g l : moved RTCSessions (group_label g) l = sessions_gauge g (rtc_part l).
Proof.
  induction l as [|m l IH]; [done|]. cbn [moved foldr]. fold (moved RTCSessions (group_label g) l). rewrite IH.
  destruct m as [m|m]; [|by destruct m; cbn [target fst snd]; other_family].
  rewrite rtc_part_cons, sessions_gauge_app. f_equal. unfold sessions_gauge. rewrite !count_metric_1.
  destruct m; cbn [target fst snd]; try (other_family; by rewrite !bool_decide_false by done);
    compare_series.
Qed.

Lemma moved_tracks g d t l : moved RTPTracks (track_labels g d t) l = tracks_gauge g d t (rtc_part l).
Proof.
  induction l as [|m l IH]; [done|]. cbn [moved foldr]. fold (moved RTPTracks (track_labels g d t) l). rewrite IH.
  destruct m as [m|m]; [|by destruct m; cbn [target fst snd]; other_family].
  rewrite rtc_part_cons, tracks_gauge_app. f_equal. unfold tracks_gauge. rewrite !count_metric_1.
  destruct m; cbn [target fst snd]; try (other_family; by rewrite !bool_decide_false by done);
    compare_series.
Qed.

Lemma moved_connections c l : moved WSConnections (client_label c) l = conn_gauge c (svc_part l).
Proof.
  induction l as [|m l IH]; [done|]. cbn [moved foldr]. fold (moved WSConnections (client_label c) l). rewrite IH.
  destruct m as [m|m]; [by destruct m; cbn [target fst snd]; other_family|].
  rewrite svc_part_cons. cbn [conn_gauge foldr]. fold (conn_gauge c (svc_part l)). f_equal.
  destruct m; cbn [target fst snd conn_delta]; try (by other_family); compare_series.
Qed.

End metrics.

(** ** Properties *)

(** C38: The registry shows what was counted.  From a new registry, the families
    are registered, and a sequence of metrics is recorded without a panic
    exactly when the values of all their labels are valid UTF-8: every call
    names a family that exists, with its labels and an operation it has.  Then
    the series of the gauges of sessions, tracks and connections are the gauges
    the other components keep.  A value that is not valid makes the recording
    panic: one comes from a client ([message_type_panics]). *)
Theorem registry_shows_gauges {P : Prometheus} {L : PrometheusLaws P} namespace (l : list (metric + svc_metric)) :
  if forallb (metric_valid namespace) l then
    ∃ r, (NewMetrics namespace ;; go_iter (record namespace) l) new_registry = Some (tt, r) ∧
      (∀ g, value r (RTCSessions namespace) (group_label g) = sessions_gauge g (rtc_part l)) ∧
      (∀ g d t, value r (RTPTracks namespace) (track_labels g d t) = tracks_gauge g d t (rtc_part l)) ∧
      (∀ c, value r (WSConnections namespace) (client_label c) = conn_gauge c (svc_part l))
  else (NewMetrics namespace ;; go_iter (record namespace) l) new_registry = None.
Proof.
  destruct (forallb _ l) eqn:Hval.
  - assert (H : wp (NewMetrics namespace ;; go_iter (record namespace) l)
      (λ _ r, ∀ n ls, value r n ls = moved namespace n ls l) new_registry).
    { apply wp_bind. eapply wp_mono; [apply NewMetrics_spec|]. intros [] r [Hf Hv].
      eapply wp_mono; [by apply record_all|]. intros [] r' [_ Hv'] n ls. rewrite Hv', Hv. lia. }
    apply wp_inv in H as ([] & r & Hrun & H). exists r. split; [exact Hrun|].
    split_and!; intros; rewrite H; [apply moved_sessions|apply moved_tracks|apply moved_connections].
  - unfold mbind, go_bind. destruct (NewMetrics namespace new_registry) as [[[] r]|]; [|done].
    by apply record_invalid.
Qed.

(** The type of a client's message is recorded before it is looked at: a
    message that decodes, with a type that is not valid UTF-8, is counted and
    then refused, and recording what was counted panics. *)
Theorem message_type_panics `{MsgCodec} {R : RtcServer} {P : Prometheus} {L : PrometheusLaws P} namespace msg cm between (s : service) :
  Unpack (wm_Data msg) = Ok cm → ValidString (cm_Type cm) = false →
  ∃ e s', handleClientMsg msg between s = Some (Err e, s') ∧
    ∀ r, go_iter (record namespace) (inr <$> sv_metrics s') r = None.
Proof.
  intros Hu Hv. unfold handleClientMsg. rewrite Hu.
  assert (∀ t, ValidString t = true → cm_Type cm ≠ t) as Hne by (intros t Ht <-; by rewrite Ht in Hv).
  do 4 rewrite bool_decide_false by by apply Hne.
  do 2 eexists. split; [done|]. intros r. apply record_invalid; [exact L|]. cbn [add_metric sv_metrics].
  rewrite fmap_app, forallb_app. apply andb_false_iff. right. cbn [fmap list_fmap forallb]. rewrite andb_true_r.
  unfold metric_valid, labels_valid, message_labels. apply bool_decide_false. cbn [target fst snd]. intros Hall.
  assert (ValidString (cm_Type cm) = true) as Hok; [|by rewrite Hv in Hok].
  apply (map_Forall_lookup_1 _ _ "type"%string (cm_Type cm) Hall).
  unfold message_labels. rewrite lookup_insert_ne by done. apply lookup_insert_eq.
Qed.

(** ** A concrete registry *)
Module ToyMetrics.

Record reg := { rg_families : gmap string (vec_kind * list string); rg_values : gmap (string * labels) Z }.

#[export] Instance toy_prometheus : Prometheus := {
  registry := reg;
  new_registry := {| rg_families := ∅; rg_values := ∅ |};
  MustRegister n k names r :=
    if bool_decide (rg_families r !! n = None) && bool_decide (NoDup names)
    then Some {| rg_families := <[n := (k, names)]> (rg_families r); rg_values := rg_values r |} else None;
  With n ls u r :=
    '(k, names) ← rg_families r !! n;
    if bool_decide (dom ls = list_to_set names) && allows k u && labels_valid ls
    then Some {| rg_families := rg_families r;
                 rg_values := <[(n, ls) := (default 0 (rg_values r !! (n, ls)) + moves u)%Z]> (rg_values r) |}
    else None;
  value r n ls := default 0%Z (rg_values r !! (n, ls));
}.

Definition toy_prometheus_laws : PrometheusLaws toy_prometheus.
Proof.
  refine (Build_PrometheusLaws toy_prometheus rg_families eq_refl _ _ _ _).
  - done.
  - intros n k names r Hn Hd. eexists. split; [cbn; by rewrite !bool_decide_true|]. done.
  - intros n k names ls u r Hn Hd Ha Hl. eexists. split; [cbn; by rewrite Hn; cbn; rewrite bool_decide_true, Ha, Hl|].
    split; [done|]. intros m ls'. cbn. case_bool_decide as H.
    + destruct H as [-> ->]. by rewrite lookup_insert_eq.
    + rewrite lookup_insert_ne by naive_solver. lia.
  - intros n ls u r Hl. cbn. rewrite Hl. destruct (rg_families r !! n) as [[k names]|]; [|done]. cbn.
    by rewrite andb_false_r.
Defined.

End ToyMetrics.

(** ** Witnesses *)
Lemma registry_shows_gauges_witness :
  ∃ r, (NewMetrics (P := ToyMetrics.toy_prometheus) "rtcd" ;;
        go_iter (record "rtcd") [inl (IncRTCSessions "g"); inr (IncWSConnections "c"); inl (IncRTCSessions "g");
                                 inl (IncRTPTracks "g" "in" "voice"); inl (DecRTCSessions "g")]) new_registry = Some (tt, r) ∧
    value r "rtcd_rtc_sessions_total" {["groupID"%string := "g"%string]} = 1%Z.
Proof.
  pose proof (registry_shows_gauges (L := ToyMetrics.toy_prometheus_laws) "rtcd"
    [inl (IncRTCSessions "g"); inr (IncWSConnections "c"); inl (IncRTCSessions "g");
     inl (IncRTPTracks "g" "in" "voice"); inl (DecRTCSessions "g")]) as H.
  assert (forallb (metric_valid "rtcd") [inl (IncRTCSessions "g"); inr (IncWSConnections "c"); inl (IncRTCSessions "g");
     inl (IncRTPTracks "g" "in" "voice"); inl (DecRTCSessions "g")] = true) as Hval by (vm_compute; reflexivity).
  rewrite Hval in H. destruct H as (r & Hrun & Hs & _).
  exists r. split; [exact Hrun|]. exact (Hs "g"%string).
Defined.
